(* ===== verification/_CoqProject ===== *)
-Q . S2P
Prelude.v
RustStd.v
SockAddr.v
SockAddrFacts.v
Errors.v
Pairing.v
Peer.v
Proto.v
ProtoFacts.v
Samples.v
ProtoTheorems.v
UnitTests.v
Handshake.v
HandshakeFacts.v
HandshakeTheorems.v
Agreement.v
Manager.v
ManagerTheorems.v
Handler.v
System.v
TaskLogic.v
SystemTheorems.v
Races.v
Adequacy.v
Interference.v
Typing.v
Locks.v
Transport.v
Discovery.v
DiscoveryTheorems.v
Network.v
IntegrationTest.v
NetworkTheorems.v
Sessions.v
NetworkAgreement.v
Delivery.v
Core.v
CoreTheorems.v
Node.v
NodeTheorems.v
Controller.v
Startup.v
