(* ===== verification/Prelude.v ===== *)
(** * Flydrop: a verification library for the peer-to-peer file drop

    Flydrop lets paired devices on one local network find each other and connect.  This library
    models the program (the Rust crates under src/crate/p2p and src/core) and proves what it does.

    ** The program

    - A node broadcasts presence requests over UDP multicast and answers those of others with its
      name, type, id and TCP address (discovery.rs; event.rs).
    - The messages have a binary format with a common header (proto.rs; doc/Protocol.md).
    - A peer is connected to over TCP, after a handshake in which both sides prove that they hold the
      pairing secret, by an HMAC of their id under the time-based code of the moment (net.rs, hmac.rs,
      pairing.rs).
    - A manager keeps the known, discovered and connected peers, shared by the event loop, the
      handshakes, the connection handlers and the application (manager.rs, event_loop.rs,
      peer/peer.rs).
    - The application core keeps the configuration and the secrets and puts a node together (conf.rs,
      secret.rs, lan.rs, plat.rs, node.rs of core).

    ** The files

    - Prelude (this file): bytes and machine integers, [panicking] and [Result], the buffer monad
      [bufio] in which the codecs are written, and the lemmas and tactics all files share.
    - RustStd: what the program uses of the standard library: UTF-8 strings, [char::is_alphanumeric]
      (over the Unicode tables, a parameter), [u16] addition with the overflow behaviour of the build
      profile (class [Profile]).
    - SockAddr, SockAddrFacts: socket addresses, their [Display] and [FromStr], and that parsing what
      was printed gives the address back.
    - Errors (err.rs), Pairing (pairing.rs, hmac.rs), Peer (peer/id.rs, peer/peer.rs, event.rs): data
      and pure functions.  The crates totp-rs and ring are the class [CryptoLib]; what is assumed of
      them, that verification accepts exactly the computed tag and that tags and digests have 32
      bytes, is the class [CryptoLaws].
    - Proto, ProtoFacts, ProtoTheorems (proto.rs): the codecs as functions on the buffer, with their
      errors and panics; [Wire] is the format of doc/Protocol.md, [CodecLaws] the interface of a
      codec, which both codecs implement and the stream theorems use.
    - UnitTests: the unit tests of proto.rs and hmac.rs and the fixtures of tests/common, as programs
      that are run.
    - Handshake, HandshakeFacts, HandshakeTheorems (net.rs, [Peer::new]): [connect] and [accept] as
      programs that interact with an environment; [runs] gives their traces under any environment.
    - Agreement: [connect] against [accept] over two byte streams, in every order of steps.
    - Manager, ManagerTheorems (manager.rs, event_loop.rs, [handler] of peer.rs): the manager's state
      and its methods as programs of atomic accesses; [exec] runs one without interference.
    - Handler ([handler] of peer.rs): the bytes a connection handler copies in its two directions, with
      the duplex stream of 64 bytes.
    - System, TaskLogic, SystemTheorems, Races: the node, whose tasks interleave access by access;
      [reachable] are the states of all schedules and all networks.  TaskLogic proves once that an
      invariant kept by every access is kept by the node (classes [DisciplineLaws], [NodeLaws]);
      SystemTheorems (authentication) and Typing (well-typed state) are its instances.
    - Adequacy: the sequential reading of a method ([exec]) against its steps in the system.
    - Interference: rely and guarantee for the methods that share the manager's maps.
    - Locks: the node with the guards of DashMap's shards, which [connect_to_peer] holds while it waits.
    - Discovery, DiscoveryTheorems (discovery.rs, [P2pManager::new]): the discovery task round by
      round, over the results of the system calls.
    - Transport: what the program uses of tokio-util ([Framed::into_inner], the stream of a [UdpFramed]), as the
      class [TokioUtil], with what is documented of it as the class [TokioUtilLaws].
    - Network, NetworkTheorems: two nodes with their sockets, discovery tasks, connections and handlers,
      exchanging real bytes, with sends and waits that fail and discovery tasks that end; each step of the
      network is a step of at most one node of System.
    - IntegrationTest: the test tests/manager.rs as one run of the network, with the test's assertions.
    - Sessions, NetworkAgreement: what a task's history says of its handshake, and the invariant of the
      connections of two nodes under every step of the network.
    - Delivery: what the applications at the two ends of a connection get of each other's data, and what is lost
      where the handshake ends and the data begin.
    - Core, CoreTheorems (conf.rs, secret.rs, plat.rs, err.rs of core): configuration and secrets over
      an explicit file system and secret store; serde_json and the host are the class [CoreLib], rcgen the
      class [RcgenLib] (Peer),
      the round trips of JSON the class [CoreLaws] (for configurations without IPv6 flow labels, which the text
      form of an address drops; C23 does without that law).
    - Node, NodeTheorems (lan.rs, node.rs): [Node::init], whose last part, adding the known peers, is a task that
      interleaves with the event loop already spawned; the rounds of [Node::start] and the calls of
      [CoreController]; the interface watcher is the class [WatchLib].
    - Controller: the calls of a controller and the loop together, against a specification ([service]).
    - Startup: the whole program: the end of [Node::init], the core under the calls of the application
      (Controller) and the node on the network (System), which share the manager.
    - Samples: instances of the parameters and concrete peers, on which every theorem with
      hypotheses is instantiated (the modules named Witnesses and Sample at the ends of the files).

    ** What the theorems show

    - Authentication (C1 to C10): for the whole node, that whoever is connected, or announced as connected,
      has completed a handshake for the paired id (C1); for the whole program, that a started node only accepts,
      and only peers whose secret the disk holds (C2); exactly which exchanges make a peer (C3, C4); for two nodes,
      that the two ends of every connection have matching conversations, each under a pairing of its application
      (C5), and what of their data arrives (C6); that an honest pair completes and a dishonest one does not,
      under every schedule (C7, C8); what a host tells to whom (C10).  C5 to C8 are about clients with an id of
      the 40 bytes the protocol has.  The ids [Node::init] makes have 64: such a node may be the host in them,
      and as a client it is always refused (C27).
    - The wire format (C11 to C13, C19 to C22, C38): round trips, reassembly of cut streams, soundness of
      decoding, the exact errors, panics and overflows, termination.
    - The handshake's termination and panics (C14, C15).
    - The manager, the event loop and discovery (C9, C16 to C18): what each operation does on every branch,
      and the way of a presence message from one node's discovery task through the other's into its manager.
    - The core (C23, C24, C30, C31, C39): what is written and read back of the configuration, on every branch;
      start-up and when it panics; what becomes of the calls of a controller; that an identity is made once.
    - The node under interleaving (C29, C32, C33): the state is well typed, discoveries are final, paired peers
      are kept.
    - The connection handler (C34, C35): it ends, and what it loses.
    - What the code does not ensure (C25 to C28, C35 to C37, C40): inputs that stop a node, ids the protocol
      cannot carry, a race of the manager, lost bytes, a handshake message delivered as data, a blocked event
      loop, a node that answers itself.  Replay and the refusal of a paired peer are [accept_replay] and
      [paired_peer_refused_reachable].
    - Evaluated, not general: the crate's own tests ([tests_pass]); and the steps agree with the sequential reading
      of the methods ([method_runs_as_read]).

    ** Conventions

    A panic is [Panic], an error [Err]; an operation that may wait returns [None] when it waits.
    Integers are [Z] with their width written out where it matters.  Readings of the clock, network
    results, system calls, iteration orders of hash sets and schedules are arguments or answers of the
    environment, never fixed.  The loops of the program have no fuel: the codecs and methods are
    structurally recursive, the handshakes are finite programs, and the endless loops (event loop,
    discovery task, handler) are modelled round by round.  The one fuelled function, [consume], is
    shown to end when the fuel exceeds the length of the buffer.  [digits] (SockAddr) prints numbers
    below 2^32 with at most ten digits, its fuel.  [alone] (Adequacy) runs a task for a number of steps;
    the theorem gives a number from which on more steps change nothing.  A panic of [Node::start]
    is taken to end the thread that owns the node, as the comment on [CoreController] has it.

    ** What is not modelled

    The order in which waiting tasks get a lock, and a runtime with fewer threads than tasks that block;
    real time, beyond the one-second timeouts being possible answers; datagrams cut or joined by the
    network; TLS, which the program does not use yet; what [if_watch] finds after the start, which the node only
    logs; the generation of certificates (rcgen); a caller that stops waiting for a reply of the core; log
    messages. *)

From Stdlib Require Import ZArith Lia.
From Stdlib Require Import Strings.Byte.
From stdpp Require Import base tactics numbers option list countable gmap.

#[global] Open Scope Z_scope.

(** ** Bytes and machine integers *)

(** [u8] as its value: a byte read as a number in [0, 255]. *)
Definition byte_to_Z (b : byte) : Z := Z.of_N (Byte.to_N b).

(** [as u8]: the low eight bits of a number. *)
Definition byte_of_Z (z : Z) : byte :=
  match Byte.of_N (Z.to_N (z mod 256)) with
  | Some b => b
  | None => x00
  end.

(** The value ranges of the unsigned machine types the code uses. *)
Definition is_u8 (z : Z) : bool := (0 <=? z) && (z <? 256).
Definition is_u16 (z : Z) : bool := (0 <=? z) && (z <? 65536).
Definition is_u32 (z : Z) : bool := (0 <=? z) && (z <? 4294967296).

(** Big-endian encodings, as [BufMut::put_u16], [put_u32] write them. *)
Definition be_u16 (v : Z) : list byte := [byte_of_Z (Z.shiftr v 8); byte_of_Z v].
Definition be_u32 (v : Z) : list byte :=
  [byte_of_Z (Z.shiftr v 24); byte_of_Z (Z.shiftr v 16);
   byte_of_Z (Z.shiftr v 8); byte_of_Z v].

(** Big-endian reading of a byte string. *)
Definition be_value (l : list byte) : Z :=
  foldl (fun acc b => Z.lor (Z.shiftl acc 8) (byte_to_Z b)) 0 l.

(** Length of a slice, as the [usize] the code compares. *)
Definition zlen {A} (l : list A) : Z := Z.of_nat (length l).

(** ** Panics and results *)

(** A computation that may panic: an [unwrap] on an error, a read past the end of a
    buffer, a failed assertion, an arithmetic overflow in a checked build. *)
Inductive panicking (A : Type) : Type :=
| Val (a : A)
| Panic.
Arguments Val {A} a.
Arguments Panic {A}.

(** [std::result::Result]. *)
Inductive Result (E A : Type) : Type :=
| Ok (a : A)
| Err (e : E).
Arguments Ok {E A} a.
Arguments Err {E A} e.

#[global] Instance panicking_ret : MRet panicking := @Val.
#[global] Instance panicking_bind : MBind panicking :=
  fun A B f m => match m with Val a => f a | Panic => Panic end.

(** [Option::unwrap] and [Result::unwrap]. *)
Definition unwrap_opt {A} (o : option A) : panicking A :=
  match o with Some a => Val a | None => Panic end.
Definition unwrap_res {E A} (r : Result E A) : panicking A :=
  match r with Ok a => Val a | Err _ => Panic end.

(** [Result::ok]. *)
Definition res_ok {E A} (r : Result E A) : option A :=
  match r with Ok a => Some a | Err _ => None end.

(** [Result::map_err], the [From] conversion of the [?] operator. *)
Definition map_err {E F A} (f : E -> F) (r : Result E A) : Result F A :=
  match r with Ok a => Ok a | Err e => Err (f e) end.

#[global] Instance result_ret {E} : MRet (Result E) := @Ok E.
#[global] Instance result_bind {E} : MBind (Result E) :=
  fun A B f m => match m with Ok a => f a | Err e => Err e end.

(** ** Computations over a mutable byte buffer *)

(** A function that takes [&mut BytesMut] and returns a [Result]: it panics, or it returns
    a result and leaves the buffer in a new state, also when the result is an error. *)
Definition bufio (E A : Type) : Type := list byte -> panicking (Result E A * list byte).

#[global] Instance bufio_ret {E} : MRet (bufio E) := fun A a src => Val (Ok a, src).
#[global] Instance bufio_bind {E} : MBind (bufio E) := fun A B f m src =>
  match m src with
  | Panic => Panic
  | Val (Err e, src') => Val (Err e, src')
  | Val (Ok a, src') => f a src'
  end.

(** [return Err(e)]. *)
Definition throw {E A} (e : E) : bufio E A := fun src => Val (Err e, src).
(** A call that does not touch the buffer and may panic. *)
Definition lift_panic {E A} (m : panicking A) : bufio E A := fun src =>
  match m with Val a => Val (Ok a, src) | Panic => Panic end.
(** [r?] for a result computed without the buffer. *)
Definition lift_res {E A} (r : Result E A) : bufio E A := fun src => Val (r, src).
(** Reading the buffer without changing it. *)
Definition peek {E} : bufio E (list byte) := fun src => Val (Ok src, src).

(** [Buf::get_u8], [get_u16], [get_u32]: big-endian, a panic when too few bytes remain. *)
Definition get_be {E} (n : nat) : bufio E Z := fun src =>
  if decide (n <= length src)%nat then Val (Ok (be_value (take n src)), drop n src) else Panic.
Definition get_u8 {E} : bufio E Z := get_be 1.
Definition get_u16 {E} : bufio E Z := get_be 2.
Definition get_u32 {E} : bufio E Z := get_be 4.

(** [BytesMut::split_to] and [Buf::advance]: a panic when [at > len]. *)
Definition split_to {E} (at_ : Z) : bufio E (list byte) := fun src =>
  if decide (at_ <= zlen src)
  then Val (Ok (take (Z.to_nat at_) src), drop (Z.to_nat at_) src) else Panic.
Definition advance {E} (cnt : Z) : bufio E unit := fun src =>
  if decide (cnt <= zlen src) then Val (Ok tt, drop (Z.to_nat cnt) src) else Panic.

(** [BufMut::put], [put_u8], [put_u16], [put_u32]: append to the buffer. *)
Definition put {E} (l : list byte) : bufio E unit := fun dst => Val (Ok tt, dst ++ l).
Definition put_u8 {E} (v : Z) : bufio E unit := put [byte_of_Z v].
Definition put_u16 {E} (v : Z) : bufio E unit := put (be_u16 v).
Definition put_u32 {E} (v : Z) : bufio E unit := put (be_u32 v).

(** ** Decidable equality and countability *)

#[global] Instance byte_eq_dec : EqDecision byte := Byte.byte_eq_dec.
#[global] Program Instance byte_countable : Countable byte :=
  inj_countable' byte_to_Z byte_of_Z _.
Next Obligation. intros b; destruct b; vm_compute; reflexivity. Qed.

#[global] Instance panicking_eq_dec `{EqDecision A} : EqDecision (panicking A).
Proof. solve_decision. Defined.
#[global] Instance Result_eq_dec `{EqDecision E, EqDecision A} : EqDecision (Result E A).
Proof. solve_decision. Defined.

(** ** Hint databases and tactics *)

Create HintDb bytes.
Create Rewrite HintDb zlen.

(** Splits boolean conjunctions and comparisons of the context into linear facts. *)
Ltac bool_arith :=
  repeat match goal with
  | H : _ && _ = true |- _ => apply andb_true_iff in H as [? ?]
  | H : is_u8 _ = true |- _ => unfold is_u8 in H
  | H : is_u16 _ = true |- _ => unfold is_u16 in H
  | H : is_u32 _ = true |- _ => unfold is_u32 in H
  | H : (_ <=? _) = true |- _ => apply Z.leb_le in H
  | H : (_ <? _) = true |- _ => apply Z.ltb_lt in H
  | H : (_ <=? _) = false |- _ => apply Z.leb_gt in H
  | H : (_ <? _) = false |- _ => apply Z.ltb_ge in H
  | H : (_ =? _) = true |- _ => apply Z.eqb_eq in H
  | H : (_ =? _) = false |- _ => apply Z.eqb_neq in H
  end.

(** Unfolds the buffer monad in the goal. *)
Ltac buf_step :=
  unfold mbind, bufio_bind, mret, bufio_ret, throw, lift_panic, lift_res, peek, put_u8, put_u16,
    put_u32, put, get_u8, get_u16, get_u32; cbn beta iota.

(** ** Lemmas on bytes and integers *)

Lemma byte_to_Z_range b : 0 <= byte_to_Z b < 256.
Proof.
  unfold byte_to_Z. pose proof (Byte.to_N_bounded b). lia.
Qed.
#[export] Hint Resolve byte_to_Z_range : bytes.

Lemma byte_of_Z_to_Z b : byte_of_Z (byte_to_Z b) = b.
Proof. destruct b; vm_compute; reflexivity. Qed.

Lemma byte_to_Z_of_Z z : byte_to_Z (byte_of_Z z) = z mod 256.
Proof.
  unfold byte_to_Z, byte_of_Z. pose proof (Z.mod_pos_bound z 256 ltac:(lia)).
  destruct (Byte.of_N (Z.to_N (z mod 256))) as [b|] eqn:E.
  - apply Byte.to_of_N in E. rewrite E. lia.
  - apply Byte.of_N_None_iff in E. lia.
Qed.

Lemma byte_to_Z_inj a b : byte_to_Z a = byte_to_Z b -> a = b.
Proof. intros H. by rewrite <- (byte_of_Z_to_Z a), H, byte_of_Z_to_Z. Qed.

Lemma is_u8_byte b : is_u8 (byte_to_Z b) = true.
Proof. unfold is_u8. pose proof (byte_to_Z_range b). lia. Qed.

Lemma zlen_app {A} (l1 l2 : list A) : zlen (l1 ++ l2) = zlen l1 + zlen l2.
Proof. unfold zlen. rewrite length_app. lia. Qed.

Lemma zlen_cons {A} (x : A) l : zlen (x :: l) = 1 + zlen l.
Proof. unfold zlen. cbn [length]. lia. Qed.

Lemma zlen_nil {A} : zlen (@nil A) = 0.
Proof. reflexivity. Qed.

Lemma zlen_nonneg {A} (l : list A) : 0 <= zlen l.
Proof. unfold zlen. lia. Qed.

#[export] Hint Rewrite @zlen_app @zlen_cons @zlen_nil : zlen.
#[export] Hint Resolve zlen_nonneg : bytes.

(** Linear arithmetic over the lengths of concatenations. *)
Ltac zlen_lia := autorewrite with zlen in *; lia.

(** Appending a byte to a big-endian number multiplies by 256. *)
Lemma be_value_snoc l b : be_value (l ++ [b]) = 256 * be_value l + byte_to_Z b.
Proof.
  unfold be_value. rewrite foldl_app. cbn.
  set (v := foldl _ 0 l). pose proof (byte_to_Z_range b).
  rewrite <- Z.add_nocarry_lor.
  - rewrite Z.shiftl_mul_pow2 by lia. lia.
  - apply Z.bits_inj_0. intros i. rewrite Z.land_spec.
    destruct (Z.lt_ge_cases i 8).
    + by rewrite Z.shiftl_spec_low.
    + rewrite (Z.bits_above_log2 (byte_to_Z b)); [apply andb_false_r | lia |].
      destruct (Z.eq_dec (byte_to_Z b) 0) as [->|]; [cbn; lia |].
      apply Z.lt_le_trans with 8; [| lia]. apply Z.log2_lt_pow2; lia.
Qed.

Lemma be_value_bound l : 0 <= be_value l < 2 ^ (8 * zlen l).
Proof.
  induction l as [|b l IH] using rev_ind; [by split |].
  rewrite be_value_snoc, zlen_app. pose proof (byte_to_Z_range b).
  change (zlen [b]) with 1. replace (8 * (zlen l + 1)) with (8 * zlen l + 8) by lia.
  rewrite Z.pow_add_r by (pose proof (zlen_nonneg l); lia).
  change (2 ^ 8) with 256. lia.
Qed.

Lemma be_value_one b : be_value [b] = byte_to_Z b.
Proof. change [b] with ([] ++ [b]). rewrite be_value_snoc. cbn. lia. Qed.

Lemma be_value_two a b : be_value [a; b] = 256 * byte_to_Z a + byte_to_Z b.
Proof. change [a; b] with ([a] ++ [b]). by rewrite be_value_snoc, be_value_one. Qed.

Lemma be_value_u16 v : is_u16 v = true -> be_value (be_u16 v) = v.
Proof.
  intros H. bool_arith. unfold be_u16. rewrite be_value_two, !byte_to_Z_of_Z.
  rewrite Z.shiftr_div_pow2 by lia. change (2 ^ 8) with 256.
  pose proof (Z.div_mod v 256). pose proof (Z.div_lt_upper_bound v 256 256).
  rewrite (Z.mod_small (v / 256)) by (split; [apply Z.div_pos|]; lia). lia.
Qed.

Lemma be_value_u32 v : is_u32 v = true -> be_value (be_u32 v) = v.
Proof.
  intros H. bool_arith. unfold be_u32.
  change [?a; ?b; ?c; ?d] with (([a; b] ++ [c]) ++ [d]).
  rewrite !be_value_snoc, be_value_two, !byte_to_Z_of_Z, !Z.shiftr_div_pow2 by lia.
  change (2 ^ 8) with 256. change (2 ^ 16) with (256 * 256). change (2 ^ 24) with (256 * 256 * 256).
  rewrite <- !Z.div_div by lia. Z.div_mod_to_equations. lia.
Qed.

Lemma length_be_u16 v : length (be_u16 v) = 2%nat.
Proof. reflexivity. Qed.

Lemma length_be_u32 v : length (be_u32 v) = 4%nat.
Proof. reflexivity. Qed.

Lemma be_u16_inj v w : is_u16 v = true -> is_u16 w = true -> be_u16 v = be_u16 w -> v = w.
Proof. intros Hv Hw H. by rewrite <- (be_value_u16 v), H, be_value_u16. Qed.

Lemma is_u8_of_byte_small z : is_u8 z = true -> byte_to_Z (byte_of_Z z) = z.
Proof. intros H. bool_arith. rewrite byte_to_Z_of_Z. apply Z.mod_small. lia. Qed.

(** A big-endian number determines the bytes it was read from. *)
Lemma be_value_inj l1 : forall l2, length l1 = length l2 -> be_value l1 = be_value l2 -> l1 = l2.
Proof.
  induction l1 as [|b1 l1 IH] using rev_ind; intros l2 Hl Hv.
  - by destruct l2.
  - destruct l2 as [|b2 l2 _] using rev_ind; rewrite ?length_app in Hl; cbn in Hl; [lia |].
    rewrite !be_value_snoc in Hv. pose proof (byte_to_Z_range b1). pose proof (byte_to_Z_range b2).
    rewrite (IH l2) by lia. do 2 f_equal. apply byte_to_Z_inj. lia.
Qed.

Lemma be_value_is_u16 l : length l = 2%nat -> is_u16 (be_value l) = true.
Proof.
  intros H. pose proof (be_value_bound l) as Hb. unfold zlen in Hb. rewrite H in Hb.
  change (2 ^ _) with 65536 in Hb. unfold is_u16. lia.
Qed.

Lemma be_value_is_u32 l : length l = 4%nat -> is_u32 (be_value l) = true.
Proof.
  intros H. pose proof (be_value_bound l) as Hb. unfold zlen in Hb. rewrite H in Hb.
  change (2 ^ _) with 4294967296 in Hb. unfold is_u32. lia.
Qed.

Lemma be_u16_value l : length l = 2%nat -> be_u16 (be_value l) = l.
Proof. intros H. apply be_value_inj; [done |]. by apply be_value_u16, be_value_is_u16. Qed.

Lemma be_u32_value l : length l = 4%nat -> be_u32 (be_value l) = l.
Proof. intros H. apply be_value_inj; [done |]. by apply be_value_u32, be_value_is_u32. Qed.

Lemma one_byte l v : length l = 1%nat -> be_value l = v -> l = [byte_of_Z v].
Proof.
  destruct l as [|b [|]]; try done. intros _ <-. by rewrite be_value_one, byte_of_Z_to_Z.
Qed.

(** ** Lemmas on buffer computations *)

Lemma get_be_app {E} n l src :
  length l = n -> get_be (E := E) n (l ++ src) = Val (Ok (be_value l), src).
Proof.
  intros <-. unfold get_be. rewrite decide_True by (rewrite length_app; lia).
  by rewrite take_app_length, drop_app_length.
Qed.

Lemma get_be_short {E} n src : (length src < n)%nat -> get_be (E := E) n src = Panic.
Proof. intros H. unfold get_be. by rewrite decide_False by lia. Qed.

Lemma get_be_inv {E} n src r src' :
  get_be (E := E) n src = Val (r, src') ->
  exists l, length l = n /\ src = l ++ src' /\ r = Ok (be_value l).
Proof.
  unfold get_be. case_decide; intros [= <- <-]. exists (take n src).
  by rewrite length_take_le, take_drop by lia.
Qed.

Lemma get_u8_cons {E} b src : get_be (E := E) 1 (b :: src) = Val (Ok (byte_to_Z b), src).
Proof. rewrite (get_be_app 1 [b] src) by done. by rewrite be_value_one. Qed.

Lemma get_u16_app {E} v src :
  is_u16 v = true -> get_be (E := E) 2 (be_u16 v ++ src) = Val (Ok v, src).
Proof. intros H. by rewrite get_be_app, be_value_u16. Qed.

Lemma get_u32_app {E} v src :
  is_u32 v = true -> get_be (E := E) 4 (be_u32 v ++ src) = Val (Ok v, src).
Proof. intros H. by rewrite get_be_app, be_value_u32. Qed.

Lemma split_to_app {E} n l src : zlen l = n -> split_to (E := E) n (l ++ src) = Val (Ok l, src).
Proof.
  intros <-. unfold split_to. rewrite decide_True by (rewrite zlen_app; pose proof (zlen_nonneg src); lia).
  unfold zlen. rewrite Nat2Z.id. by rewrite take_app_length, drop_app_length.
Qed.

Lemma split_to_short {E} n src : zlen src < n -> split_to (E := E) n src = Panic.
Proof. intros H. unfold split_to. by rewrite decide_False by lia. Qed.

(** ** Inversion of fallible computations *)

Lemma result_bind_Ok {E A B} (m : Result E A) (f : A -> Result E B) b :
  m ≫= f = Ok b -> exists a, m = Ok a /\ f a = Ok b.
Proof. destruct m; cbn; [eauto | done]. Qed.

Lemma result_bind_Err {E A B} (m : Result E A) (f : A -> Result E B) e :
  m ≫= f = Err e -> m = Err e \/ exists a, m = Ok a /\ f a = Err e.
Proof. destruct m; cbn; [eauto | intros [= ->]; by left]. Qed.

Lemma map_err_Ok {E F A} (f : E -> F) (r : Result E A) a : map_err f r = Ok a -> r = Ok a.
Proof. destruct r; by intros [= ->]. Qed.

Lemma map_err_Err {E F A} (g : E -> F) (m : Result E A) e : map_err g m = Err e <-> exists e', m = Err e' /\ e = g e'.
Proof. destruct m; cbn; split; [done | by intros (? & ? & ?) | intros [= <-]; eauto | by intros (? & [= ->] & ->)]. Qed.

(** Takes a successful [Result] computation apart. *)
Ltac res_inv :=
  repeat match goal with
  | H : _ ≫= _ = Ok _ |- _ => apply result_bind_Ok in H as (? & ? & H)
  | H : map_err _ _ = Ok _ |- _ => apply map_err_Ok in H
  end.

(** ** Inversion of successful buffer computations *)

Lemma bufio_bind_Ok {E A B} (m : bufio E A) (f : A -> bufio E B) src b src' :
  (m ≫= f) src = Val (Ok b, src') ->
  exists a s, m src = Val (Ok a, s) /\ f a s = Val (Ok b, src').
Proof.
  unfold mbind, bufio_bind. destruct (m src) as [[[a|e] s]|]; try done. eauto.
Qed.

Lemma get_be_Ok {E} n src v src' : get_be (E := E) n src = Val (Ok v, src') ->
  exists l, length l = n /\ src = l ++ src' /\ v = be_value l.
Proof. intros (l & ? & ? & [= ->])%get_be_inv. eauto. Qed.

Lemma split_to_Ok {E} n src l src' : split_to (E := E) n src = Val (Ok l, src') ->
  zlen l = Z.max 0 n /\ src = l ++ src'.
Proof.
  unfold split_to, zlen. case_decide; intros [= <- <-]. rewrite take_drop, length_take_le by lia. by split; [lia |].
Qed.

Lemma lift_panic_Ok {E A} (m : panicking A) src a src' :
  lift_panic (E := E) m src = Val (Ok a, src') -> m = Val a /\ src' = src.
Proof. unfold lift_panic. destruct m; intros [= <- <-]. done. Qed.

Lemma lift_res_Ok {E A} (r : Result E A) src a src' :
  lift_res r src = Val (Ok a, src') -> r = Ok a /\ src' = src.
Proof. unfold lift_res. by intros [= -> <-]. Qed.

Lemma unwrap_opt_Val {A} (o : option A) a : unwrap_opt o = Val a -> o = Some a.
Proof. destruct o; by intros [= ->]. Qed.

Lemma unwrap_res_Val {E A} (r : Result E A) a : unwrap_res r = Val a -> r = Ok a.
Proof. destruct r; by intros [= ->]. Qed.

(** Takes a successful run apart into the successful runs of its steps. *)
Ltac buf_inv :=
  repeat match goal with
  | H : (_ ≫= _) _ = Val (Ok _, _) |- _ => apply bufio_bind_Ok in H as (? & ? & ? & H)
  | H : mret _ _ = Val (Ok _, _) |- _ => injection H as ? ?; subst
  | H : throw _ _ = Val (Ok _, _) |- _ => discriminate H
  | H : get_u8 _ = Val (Ok _, _) |- _ => apply get_be_Ok in H as (? & ? & ? & ?)
  | H : get_u16 _ = Val (Ok _, _) |- _ => apply get_be_Ok in H as (? & ? & ? & ?)
  | H : get_u32 _ = Val (Ok _, _) |- _ => apply get_be_Ok in H as (? & ? & ? & ?)
  | H : split_to _ _ = Val (Ok _, _) |- _ => apply split_to_Ok in H as [? ?]
  | H : lift_panic _ _ = Val (Ok _, _) |- _ => apply lift_panic_Ok in H as [? ?]
  | H : lift_res _ _ = Val (Ok _, _) |- _ => apply lift_res_Ok in H as [? ?]
  | H : unwrap_opt _ = Val _ |- _ => apply unwrap_opt_Val in H
  | H : unwrap_res _ = Val _ |- _ => apply unwrap_res_Val in H
  | H : map_err _ _ = Ok _ |- _ => apply map_err_Ok in H
  end.
