(* ===== verification/RustStd.v ===== *)
(** The parts of Rust's standard library the program leans on: UTF-8 strings
    ([String], [String::from_utf8], [str::chars], [str::len], [as_bytes]),
    [char::is_alphanumeric], the checked conversion [u16::try_from] and the
    arithmetic of [u16] in a build with or without overflow checks. *)

From Stdlib Require Import ZArith Lia Eqdep_dec Ascii String.
From Stdlib Require Import Strings.Byte.
From stdpp Require Import base tactics numbers option list countable.
From S2P Require Import Prelude.

(** ** UTF-8 *)

Definition between (lo hi x : Z) : bool := (lo <=? x) && (x <=? hi).

(** A continuation byte. *)
Definition is_cont (x : Z) : bool := between 128 191 x.

(** The second byte of a three- and of a four-byte sequence: no overlong encodings, no
    surrogates, nothing above U+10FFFF. *)
Definition second_of_3 (x y : Z) : bool :=
  (x =? 224) && between 160 191 y || between 225 236 x && is_cont y
  || (x =? 237) && between 128 159 y || between 238 239 x && is_cont y.
Definition second_of_4 (x y : Z) : bool :=
  (x =? 240) && between 144 191 y || between 241 243 x && is_cont y
  || (x =? 244) && between 128 143 y.

(** The code points of a byte string, [None] when it is not UTF-8. *)
Fixpoint utf8_decode (l : list byte) : option (list Z) :=
  match l with
  | [] => Some []
  | b0 :: t0 =>
      let x := byte_to_Z b0 in
      if x <? 128 then cons x <$> utf8_decode t0
      else match t0 with
      | [] => None
      | b1 :: t1 =>
          let y := byte_to_Z b1 in
          if between 194 223 x then
            if is_cont y
            then cons (Z.lor (Z.shiftl (Z.land x 31) 6) (Z.land y 63)) <$> utf8_decode t1
            else None
          else match t1 with
          | [] => None
          | b2 :: t2 =>
              let z := byte_to_Z b2 in
              if between 224 239 x then
                if second_of_3 x y && is_cont z
                then cons (Z.lor (Z.shiftl (Z.land x 15) 12)
                             (Z.lor (Z.shiftl (Z.land y 63) 6) (Z.land z 63))) <$> utf8_decode t2
                else None
              else match t2 with
              | [] => None
              | b3 :: t3 =>
                  let w := byte_to_Z b3 in
                  if second_of_4 x y && is_cont z && is_cont w
                  then cons (Z.lor (Z.shiftl (Z.land x 7) 18)
                               (Z.lor (Z.shiftl (Z.land y 63) 12)
                                  (Z.lor (Z.shiftl (Z.land z 63) 6) (Z.land w 63))))
                         <$> utf8_decode t3
                  else None
              end
          end
      end
  end.

Definition is_utf8 (l : list byte) : bool := bool_decide (is_Some (utf8_decode l)).

(** [String]: bytes that are UTF-8. *)
Record RString := mkRString {
  as_bytes : list byte;
  as_bytes_utf8 : is_utf8 as_bytes = true
}.

(** [String::from_utf8], without the error's payload. *)
Definition from_utf8 (l : list byte) : option RString :=
  match Bool.bool_dec (is_utf8 l) true with
  | left H => Some (mkRString l H)
  | right _ => None
  end.

(** [str::len] counts bytes. *)
Definition str_len (s : RString) : Z := zlen (as_bytes s).

(** [str::chars]. *)
Definition chars (s : RString) : list Z :=
  match utf8_decode (as_bytes s) with Some cs => cs | None => [] end.

(** A byte below 128 is a character by itself. *)
Definition is_ascii (b : byte) : bool := byte_to_Z b <? 128.

(** ** Characters *)

(** The Unicode tables of [char::is_alphabetic] and [char::is_numeric] above ASCII: data of
    the standard library that differs between its releases. *)
Class UnicodeTables := {
  unicode_Alphabetic : Z -> bool;
  unicode_N : Z -> bool
}.

Section Chars.
Context {U : UnicodeTables}.

Definition is_alphabetic (c : Z) : bool :=
  if between 97 122 c || between 65 90 c then true else (127 <? c) && unicode_Alphabetic c.
Definition is_numeric (c : Z) : bool :=
  if between 48 57 c then true else (127 <? c) && unicode_N c.
Definition is_alphanumeric (c : Z) : bool := is_alphabetic c || is_numeric c.

End Chars.

(** ** Integers *)

(** Whether the build checks arithmetic overflow ([debug] profile) or wraps ([release]). *)
Class Profile := overflow_checks : bool.

(** [a + b] on [u16]. *)
Definition u16_add `{Profile} (a b : Z) : panicking Z :=
  if is_u16 (a + b) then Val (a + b)
  else if overflow_checks then Panic else Val ((a + b) mod 65536).

(** [u16::try_from(n).unwrap()] for a [usize] [n]. *)
Definition u16_try_from_unwrap (n : Z) : panicking Z :=
  if is_u16 n then Val n else Panic.

(** ** Lemmas *)

Lemma RString_eq s t : as_bytes s = as_bytes t -> s = t.
Proof.
  destruct s as [l Hl], t as [m Hm]. cbn. intros <-. f_equal. apply UIP_dec, Bool.bool_dec.
Qed.

#[global] Instance RString_eq_dec : EqDecision RString.
Proof.
  intros s t. destruct (decide (as_bytes s = as_bytes t)) as [H|H].
  - left. by apply RString_eq.
  - right. by intros ->.
Defined.

#[global] Program Instance RString_countable : Countable RString :=
  inj_countable as_bytes from_utf8 _.
Next Obligation.
  intros s. unfold from_utf8. destruct (Bool.bool_dec _ _) as [H|H].
  - f_equal. by apply RString_eq.
  - by destruct H, s.
Qed.

(** Validating the bytes of a string gives the string back. *)
Lemma from_utf8_as_bytes s : from_utf8 (as_bytes s) = Some s.
Proof.
  unfold from_utf8. destruct (Bool.bool_dec _ _) as [H|H]; [| by destruct H, s].
  f_equal. by apply RString_eq.
Qed.

Lemma from_utf8_Some l s : from_utf8 l = Some s <-> as_bytes s = l.
Proof.
  split; [| intros <-; apply from_utf8_as_bytes].
  unfold from_utf8. by destruct (Bool.bool_dec _ _); intros [= <-].
Qed.

Lemma from_utf8_None l : from_utf8 l = None <-> is_utf8 l = false.
Proof.
  unfold from_utf8. destruct (Bool.bool_dec _ _) as [H|H].
  - split; [done | congruence].
  - by apply Bool.not_true_is_false in H.
Qed.

(** ASCII bytes are their own code points. *)
Lemma utf8_decode_ascii l :
  forallb is_ascii l = true -> utf8_decode l = Some (byte_to_Z <$> l).
Proof.
  induction l as [|b l IH]; [done |]. cbn [forallb utf8_decode fmap list_fmap].
  intros [Hb Hl]%andb_true_iff. unfold is_ascii in Hb. rewrite Hb, IH by done. done.
Qed.

Lemma is_utf8_ascii l : forallb is_ascii l = true -> is_utf8 l = true.
Proof. intros H. unfold is_utf8. rewrite utf8_decode_ascii by done. by apply bool_decide_eq_true_2. Qed.

(** The string of ASCII bytes. *)
Definition ascii_string (l : list byte) (H : forallb is_ascii l = true) : RString :=
  mkRString l (is_utf8_ascii l H).

Lemma chars_ascii s :
  forallb is_ascii (as_bytes s) = true -> chars s = byte_to_Z <$> as_bytes s.
Proof. intros H. unfold chars. by rewrite utf8_decode_ascii. Qed.

Lemma str_len_nonneg s : 0 <= str_len s.
Proof. apply zlen_nonneg. Qed.

Lemma u16_add_small `{Profile} a b : is_u16 (a + b) = true -> u16_add a b = Val (a + b).
Proof. intros H1. unfold u16_add. by rewrite H1. Qed.

(** Concatenations of UTF-8 strings are UTF-8. *)
Lemma utf8_decode_app l1 l2 c1 c2 :
  utf8_decode l1 = Some c1 -> utf8_decode l2 = Some c2 -> utf8_decode (l1 ++ l2) = Some (c1 ++ c2).
Proof.
  intros H1 H2. revert c1 H1. induction l1 as [l1 IH] using (induction_ltof1 _ length). intros c1 H1.
  unfold ltof in IH.
  assert (Hcons : forall l x, (length l < length l1)%nat -> cons x <$> utf8_decode l = Some c1 ->
            cons x <$> utf8_decode (l ++ l2) = Some (c1 ++ c2)).
  { intros l x Hl H. destruct (utf8_decode l) as [c|] eqn:E; [| done]. injection H as <-.
    by rewrite (IH l Hl c E). }
  destruct l1 as [|b0 t0]; [injection H1 as <-; exact H2 |].
  cbn [utf8_decode app] in H1 |- *. destruct (_ <? 128); [by apply Hcons; [cbn; lia |] |].
  destruct t0 as [|b1 t1]; [done |]. cbn [app] in *.
  destruct (between 194 223 _).
  { destruct (is_cont _); [by apply Hcons; [cbn; lia |] | done]. }
  destruct t1 as [|b2 t2]; [done |]. cbn [app] in *.
  destruct (between 224 239 _).
  { destruct (_ && _); [by apply Hcons; [cbn; lia |] | done]. }
  destruct t2 as [|b3 t3]; [done |]. cbn [app] in *.
  destruct (_ && _ && _); [by apply Hcons; [cbn; lia |] | done].
Qed.

Lemma is_utf8_app l1 l2 : is_utf8 l1 = true -> is_utf8 l2 = true -> is_utf8 (l1 ++ l2) = true.
Proof.
  unfold is_utf8. rewrite !bool_decide_eq_true. intros [c1 H1] [c2 H2].
  exists (c1 ++ c2). by apply utf8_decode_app.
Qed.

(** [a + b] on strings. *)
Definition concat_str (a b : RString) : RString :=
  mkRString (as_bytes a ++ as_bytes b) (is_utf8_app _ _ (as_bytes_utf8 a) (as_bytes_utf8 b)).

(** A string literal, for strings of ASCII characters. *)
Definition bytes_of_string (s : string) : list byte := list_byte_of_string s.
