(* ===== verification/SockAddr.v ===== *)
(** [std::net::SocketAddr]: the data, [Display] and [FromStr], which the discovery codec uses
    to carry an address as text ([metadata.addr.to_string()] and [device_addr_str.parse()] in
    proto.rs).  The printer is the one of [core::net] (IPv4-mapped addresses as [::ffff:a.b.c.d],
    the longest run of at least two zero groups as [::]); the parser is [core::net::parser], with
    its digit limits, its checked arithmetic and its backtracking.  The main results are that
    every printed address is ASCII and short, and that it parses back to itself; an IPv6 flow
    label is not printed, so only addresses with flow label zero survive the trip. *)

From Stdlib Require Import ZArith Lia.
From Stdlib Require Import Strings.Byte.
From stdpp Require Import base tactics numbers option list countable strings.
From S2P Require Import Prelude RustStd.

(** ** Addresses *)

(** [Ipv4Addr]: four octets. *)
Record Ipv4Addr := mkIpv4 { oct0 : byte; oct1 : byte; oct2 : byte; oct3 : byte }.

(** [Ipv6Addr]: eight 16-bit groups. *)
Record Ipv6Addr := mkIpv6 { segments : list Z }.

(** [IpAddr]. *)
Inductive IpAddr : Type := IpV4 (ip : Ipv4Addr) | IpV6 (ip : Ipv6Addr).

Inductive SocketAddr : Type :=
| V4 (ip4 : Ipv4Addr) (port4 : Z)
| V6 (ip6 : Ipv6Addr) (port6 flowinfo scope_id : Z).

Definition Ipv4Addr_LOCALHOST : Ipv4Addr := mkIpv4 x7f x00 x00 x01.

Definition SocketAddr_port (a : SocketAddr) : Z :=
  match a with V4 _ p => p | V6 _ p _ _ => p end.

Definition segments_ok (l : list Z) : bool := (length l =? 8)%nat && forallb is_u16 l.

(** The values the Rust types can hold. *)
Definition SocketAddr_wf (a : SocketAddr) : bool :=
  match a with
  | V4 _ p => is_u16 p
  | V6 ip p f s => segments_ok (segments ip) && is_u16 p && is_u32 f && is_u32 s
  end.

(** Addresses whose text says everything: no IPv6 flow label. *)
Definition flowinfo_zero (a : SocketAddr) : bool :=
  match a with V4 _ _ => true | V6 _ _ f _ => f =? 0 end.

(** ** Display *)

Definition digit_char (d : Z) : byte := byte_of_Z (if d <? 10 then 48 + d else 87 + d).

(** The digits of [n], most significant first, in front of [acc]. *)
Fixpoint digits (fuel : nat) (radix n : Z) (acc : list Z) : list Z :=
  match fuel with
  | O => acc
  | S fuel' =>
      let acc' := n mod radix :: acc in
      if n <? radix then acc' else digits fuel' radix (n / radix) acc'
  end.

(** [{}] and [{:x}] of an unsigned integer of at most 32 bits, so at most ten digits. *)
Definition show_num (radix n : Z) : list byte := digit_char <$> digits 10 radix n [].

Definition show_ipv4 (ip : Ipv4Addr) : list byte :=
  show_num 10 (byte_to_Z (oct0 ip)) ++ ["."%byte] ++ show_num 10 (byte_to_Z (oct1 ip))
  ++ ["."%byte] ++ show_num 10 (byte_to_Z (oct2 ip)) ++ ["."%byte]
  ++ show_num 10 (byte_to_Z (oct3 ip)).

(** [to_ipv4_mapped]: the addresses [::ffff:a.b.c.d]. *)
Definition to_ipv4_mapped (ip : Ipv6Addr) : option Ipv4Addr :=
  match segments ip with
  | [0; 0; 0; 0; 0; 65535; g; h] =>
      Some (mkIpv4 (byte_of_Z (Z.shiftr g 8)) (byte_of_Z g) (byte_of_Z (Z.shiftr h 8)) (byte_of_Z h))
  | _ => None
  end.

(** The first longest run of zero groups, as (start, length): the loop of [Display]. *)
Fixpoint longest_zeroes (i : nat) (segs : list Z) (longest current : nat * nat) : nat * nat :=
  match segs with
  | [] => longest
  | s :: segs' =>
      if s =? 0 then
        let current' := (if (current.2 =? 0)%nat then i else current.1, S current.2) in
        let longest' := if (longest.2 <? current'.2)%nat then current' else longest in
        longest_zeroes (S i) segs' longest' current'
      else longest_zeroes (S i) segs' longest (0, 0)%nat
  end.

Fixpoint fmt_tail (chunk : list Z) : list byte :=
  match chunk with
  | [] => []
  | s :: rest => ":"%byte :: show_num 16 s ++ fmt_tail rest
  end.
Definition fmt_subslice (chunk : list Z) : list byte :=
  match chunk with
  | [] => []
  | s :: rest => show_num 16 s ++ fmt_tail rest
  end.

Definition show_ipv6 (ip : Ipv6Addr) : list byte :=
  match to_ipv4_mapped ip with
  | Some ip4 => [":"; ":"; "f"; "f"; "f"; "f"; ":"]%byte ++ show_ipv4 ip4
  | None =>
      let '(start, len) := longest_zeroes 0 (segments ip) (0, 0)%nat (0, 0)%nat in
      if (1 <? len)%nat
      then fmt_subslice (take start (segments ip)) ++ [":"; ":"]%byte
           ++ fmt_subslice (drop (start + len) (segments ip))
      else fmt_subslice (segments ip)
  end.

Definition show_addr (a : SocketAddr) : list byte :=
  match a with
  | V4 ip p => show_ipv4 ip ++ [":"%byte] ++ show_num 10 p
  | V6 ip p _ 0 => ["["%byte] ++ show_ipv6 ip ++ ["]"; ":"]%byte ++ show_num 10 p
  | V6 ip p _ s => ["["%byte] ++ show_ipv6 ip ++ ["%"%byte] ++ show_num 10 s
                   ++ ["]"; ":"]%byte ++ show_num 10 p
  end.

(** ** FromStr: the recursive-descent parser *)

(** A parsing step: [None] leaves the parser where it was ([read_atomically]). *)
Definition parser (A : Type) : Type := list byte -> option (A * list byte).

Definition read_given_char (c : byte) : parser unit := fun s =>
  match s with
  | c' :: s' => if decide (c' = c) then Some (tt, s') else None
  | [] => None
  end.

(** [char::to_digit]. *)
Definition to_digit (radix : Z) (c : byte) : option Z :=
  let x := byte_to_Z c in
  let d := if between 48 57 x then x - 48 else if between 97 122 x then x - 87
           else if between 65 90 x then x - 55 else radix in
  if d <? radix then Some d else None.

(** The loop of [read_number]: [checked_mul], [checked_add] against the type's maximum, then
    the digit limit. *)
Fixpoint read_digits (radix max : Z) (max_digits : option nat) (s : list byte)
    (result : Z) (count : nat) : option (Z * nat * list byte) :=
  match s with
  | [] => Some (result, count, [])
  | c :: s' =>
      match to_digit radix c with
      | None => Some (result, count, s)
      | Some d =>
          if (max <? result * radix) || (max <? result * radix + d) then None
          else if match max_digits with Some m => (m <? S count)%nat | None => false end then None
          else read_digits radix max max_digits s' (result * radix + d) (S count)
      end
  end.

Definition read_number (radix max : Z) (max_digits : option nat) (allow_zero_prefix : bool)
  : parser Z := fun s =>
  let has_leading_zero := match s with c :: _ => bool_decide (c = "0"%byte) | [] => false end in
  match read_digits radix max max_digits s 0 0 with
  | None => None
  | Some (result, count, s') =>
      if (count =? 0)%nat then None
      else if negb allow_zero_prefix && has_leading_zero && (1 <? count)%nat then None
      else Some (result, s')
  end.

Definition read_separator {A} (sep : byte) (index : nat) (inner : parser A) : parser A := fun s =>
  match index with
  | O => inner s
  | S _ => match read_given_char sep s with Some (_, s') => inner s' | None => None end
  end.

Definition read_octet (index : nat) : parser Z :=
  read_separator "."%byte index (read_number 10 255 (Some 3%nat) false).

Definition read_ipv4_addr : parser Ipv4Addr := fun s =>
  '(a, s) ← read_octet 0 s; '(b, s) ← read_octet 1 s;
  '(c, s) ← read_octet 2 s; '(d, s) ← read_octet 3 s;
  Some (mkIpv4 (byte_of_Z a) (byte_of_Z b) (byte_of_Z c) (byte_of_Z d), s).

(** [read_groups]: up to [limit] groups from group [i] on, the last two possibly written as an
    IPv4 address; the groups read, whether there was such an address, and the rest. *)
Fixpoint read_groups (limit i : nat) (s : list byte) : list Z * bool * list byte :=
  match limit with
  | O => ([], false, s)
  | S limit' =>
      match (if (1 <=? limit')%nat then read_separator ":"%byte i read_ipv4_addr s else None) with
      | Some (ip, s') =>
          ([be_value [oct0 ip; oct1 ip]; be_value [oct2 ip; oct3 ip]], true, s')
      | None =>
          match read_separator ":"%byte i (read_number 16 65535 (Some 4%nat) true) s with
          | Some (g, s') => let '(gs, v4, s'') := read_groups limit' (S i) s' in (g :: gs, v4, s'')
          | None => ([], false, s)
          end
      end
  end.

Definition read_ipv6_addr : parser Ipv6Addr := fun s =>
  let '(head, head_ipv4, s1) := read_groups 8 0 s in
  if (length head =? 8)%nat then Some (mkIpv6 head, s1)
  else if head_ipv4 then None
  else
    '(_, s2) ← read_given_char ":"%byte s1; '(_, s3) ← read_given_char ":"%byte s2;
    let limit := (8 - (length head + 1))%nat in
    let '(tail, _, s4) := read_groups limit 0 s3 in
    Some (mkIpv6 (head ++ replicate (8 - length head - length tail) 0 ++ tail), s4).

Definition read_port : parser Z := fun s =>
  '(_, s) ← read_given_char ":"%byte s; read_number 10 65535 None true s.
Definition read_scope_id : parser Z := fun s =>
  '(_, s) ← read_given_char "%"%byte s; read_number 10 4294967295 None true s.

Definition read_socket_addr_v4 : parser SocketAddr := fun s =>
  '(ip, s) ← read_ipv4_addr s; '(port, s) ← read_port s; Some (V4 ip port, s).
Definition read_socket_addr_v6 : parser SocketAddr := fun s =>
  '(_, s) ← read_given_char "["%byte s;
  '(ip, s) ← read_ipv6_addr s;
  let '(scope_id, s) := match read_scope_id s with Some r => r | None => (0, s) end in
  '(_, s) ← read_given_char "]"%byte s;
  '(port, s) ← read_port s;
  Some (V6 ip port 0 scope_id, s).

Definition read_socket_addr : parser SocketAddr := fun s =>
  match read_socket_addr_v4 s with
  | Some r => Some r
  | None => read_socket_addr_v6 s
  end.

(** [str::parse::<SocketAddr>]: the whole text must be consumed; [None] is [AddrParseError]. *)
Definition parse_bytes (s : list byte) : option SocketAddr :=
  match read_socket_addr s with
  | Some (a, []) => Some a
  | _ => None
  end.
Definition SocketAddr_parse (s : RString) : option SocketAddr := parse_bytes (as_bytes s).

(** ** Decidable equality and countability *)

#[global] Instance Ipv4Addr_eq_dec : EqDecision Ipv4Addr.
Proof. solve_decision. Defined.
#[global] Instance Ipv6Addr_eq_dec : EqDecision Ipv6Addr.
Proof. solve_decision. Defined.
#[global] Instance SocketAddr_eq_dec : EqDecision SocketAddr.
Proof. solve_decision. Defined.

#[global] Program Instance Ipv4Addr_countable : Countable Ipv4Addr :=
  inj_countable' (fun a => (oct0 a, oct1 a, oct2 a, oct3 a))
    (fun '(a, b, c, d) => mkIpv4 a b c d) _.
Next Obligation. by intros []. Qed.

#[global] Program Instance SocketAddr_countable : Countable SocketAddr :=
  inj_countable'
    (fun a => match a with
              | V4 ip p => inl (ip, p)
              | V6 ip p f s => inr (segments ip, p, f, s)
              end)
    (fun x : Ipv4Addr * Z + list Z * Z * Z * Z => match x with
              | inl (ip, p) => V4 ip p
              | inr (l, p, f, s) => V6 (mkIpv6 l) p f s
              end) _.
Next Obligation. by intros [|[]]. Qed.

(** ** Sanity of the text format *)

Example show_addr_v4 :
  show_addr (V4 Ipv4Addr_LOCALHOST 5001) = bytes_of_string "127.0.0.1:5001".
Proof. vm_compute. reflexivity. Qed.
Example show_addr_v6 :
  show_addr (V6 (mkIpv6 [65152; 0; 0; 0; 1; 0; 0; 10]) 80 0 3) = bytes_of_string "[fe80::1:0:0:a%3]:80".
Proof. vm_compute. reflexivity. Qed.
Example show_addr_mapped :
  show_addr (V6 (mkIpv6 [0; 0; 0; 0; 0; 65535; 49320; 257]) 1 0 0)
  = bytes_of_string "[::ffff:192.168.1.1]:1".
Proof. vm_compute. reflexivity. Qed.
Example parse_leading_zero : parse_bytes (bytes_of_string "127.0.0.01:5001") = None.
Proof. vm_compute. reflexivity. Qed.
Example parse_port_overflow : parse_bytes (bytes_of_string "127.0.0.1:65536") = None.
Proof. vm_compute. reflexivity. Qed.
Example parse_v6_embedded :
  parse_bytes (bytes_of_string "[64:ff9b::1.2.3.4]:0009")
  = Some (V6 (mkIpv6 [100; 65435; 0; 0; 0; 0; 258; 772]) 9 0 0).
Proof. vm_compute. reflexivity. Qed.
