(* ===== verification/SockAddrFacts.v ===== *)
(** Facts on the text form of socket addresses: printed addresses are ASCII
    ([show_addr_ascii]), at most 64 bytes long ([show_addr_length]), and parse back
    ([parse_show_addr]).  [SocketAddr_to_string] is the printed address as a string. *)

From Stdlib Require Import ZArith Lia.
From Stdlib Require Import Strings.Byte.
From stdpp Require Import base tactics numbers option list countable.
From S2P Require Import Prelude RustStd SockAddr.

(** ** Digits *)

(** The number a list of digits stands for, most significant first. *)
Definition num_value (radix r : Z) (ds : list Z) : Z := foldl (fun a d => a * radix + d) r ds.

(** The next character is not a digit, so a number ends here. *)
Definition no_digit (radix : Z) (s : list byte) : Prop :=
  match s with [] => True | c :: _ => to_digit radix c = None end.

Definition is_digit (radix d : Z) : Prop := 0 <= d < radix.

Lemma digits_spec radix k : 2 <= radix -> (1 <= k)%nat -> forall fuel n acc,
  (k <= fuel)%nat -> 0 <= n < radix ^ Z.of_nat k ->
  exists ds, digits fuel radix n acc = ds ++ acc /\ num_value radix 0 ds = n /\
    Forall (is_digit radix) ds /\ (1 <= length ds <= k)%nat /\ (n <> 0 -> head ds <> Some 0) /\
    (n = 0 -> length ds = 1%nat).
Proof.
  intros Hr Hk. induction k as [|k IH]; [lia |]. intros [|fuel] n acc Hf Hn; [lia |]. cbn [digits].
  pose proof (Z.mod_pos_bound n radix ltac:(lia)). destruct (n <? radix) eqn:E; bool_arith.
  - exists [n]. rewrite Z.mod_small by lia. unfold num_value. cbn. split_and!; try done; try lia.
    + repeat constructor; lia.
    + intros ? [= ?]. lia.
  - destruct k as [|k].
    { rewrite Z.pow_1_r in Hn. lia. }
    assert (0 < n / radix) by (apply Z.div_str_pos; lia).
    destruct (IH ltac:(lia) fuel (n / radix) (n mod radix :: acc) ltac:(lia)) as (ds & -> & Hv & Hd & Hl & Hh & _).
    { split; [lia |]. apply Z.div_lt_upper_bound; [lia |].
      rewrite Nat2Z.inj_succ, Z.pow_succ_r in Hn by lia. lia. }
    exists (ds ++ [n mod radix]). rewrite length_app. cbn [length]. split_and!; try lia.
    + by rewrite <- app_assoc.
    + unfold num_value in *. rewrite foldl_app, Hv. cbn.
      pose proof (Z.div_mod n radix ltac:(lia)). lia.
    + apply Forall_app. split; [done |]. by apply Forall_singleton.
    + intros _. destruct ds; [cbn in Hl; lia |]. cbn. apply Hh. lia.
Qed.

Lemma show_num_spec radix k n : 2 <= radix -> (1 <= k <= 10)%nat -> 0 <= n < radix ^ Z.of_nat k ->
  exists ds, show_num radix n = digit_char <$> ds /\ num_value radix 0 ds = n /\
    Forall (is_digit radix) ds /\ (1 <= length ds <= k)%nat /\ (n <> 0 -> head ds <> Some 0) /\
    (n = 0 -> length ds = 1%nat).
Proof.
  intros Hr Hk Hn. destruct (digits_spec radix k Hr ltac:(lia) 10 n [] ltac:(lia) Hn) as (ds & E & ?).
  exists ds. unfold show_num. by rewrite E, app_nil_r.
Qed.

Lemma to_digit_digit_char radix d : 2 <= radix <= 16 -> is_digit radix d ->
  to_digit radix (digit_char d) = Some d.
Proof.
  intros Hr [H0 H1]. unfold to_digit, digit_char, between. rewrite byte_to_Z_of_Z.
  destruct (d <? 10) eqn:E; bool_arith; rewrite Z.mod_small by lia.
  - rewrite (proj2 (Z.leb_le 48 _)), (proj2 (Z.leb_le _ 57)) by lia. cbn.
    replace (48 + d - 48) with d by lia. by rewrite (proj2 (Z.ltb_lt d radix)) by lia.
  - rewrite (proj2 (Z.leb_gt _ 57)) by lia. rewrite andb_false_r.
    rewrite (proj2 (Z.leb_le 97 _)), (proj2 (Z.leb_le _ 122)) by lia. cbn.
    replace (87 + d - 87) with d by lia. by rewrite (proj2 (Z.ltb_lt d radix)) by lia.
Qed.

Lemma digit_char_ascii d : 0 <= d < 16 -> is_ascii (digit_char d) = true.
Proof.
  intros H. unfold is_ascii, digit_char. rewrite byte_to_Z_of_Z.
  destruct (d <? 10); rewrite Z.mod_small; lia.
Qed.

Lemma num_value_ge radix ds : 1 <= radix -> Forall (is_digit radix) ds ->
  forall r, 0 <= r -> r <= num_value radix r ds.
Proof.
  intros Hr Hd. unfold num_value. induction Hd as [|d ds [Hd0 Hd1] Hds IH]; intros r H0; cbn; [lia |].
  etrans; [| apply IH]; nia.
Qed.

(** Reading back printed digits. *)
Lemma read_digits_app radix max md ds rest : 2 <= radix <= 16 -> no_digit radix rest ->
  Forall (is_digit radix) ds -> forall r c,
  0 <= r -> num_value radix r ds <= max ->
  match md with Some m => (c + length ds <= m)%nat | None => True end ->
  read_digits radix max md ((digit_char <$> ds) ++ rest) r c
  = Some (num_value radix r ds, (c + length ds)%nat, rest).
Proof.
  intros Hr Hrest Hds. induction Hds as [|d ds Hd Hds IH]; intros r c H0 Hm Hc.
  - cbn. rewrite Nat.add_0_r. destruct rest as [|x rest]; [done |]. cbn in *. by rewrite Hrest.
  - cbn [fmap list_fmap app read_digits]. rewrite to_digit_digit_char by done.
    change (num_value radix r (d :: ds)) with (num_value radix (r * radix + d) ds) in *.
    destruct Hd as [Hd0 Hd1].
    pose proof (num_value_ge radix ds ltac:(lia) Hds (r * radix + d) ltac:(nia)).
    rewrite (proj2 (Z.ltb_ge _ (r * radix))), (proj2 (Z.ltb_ge _ (r * radix + d))) by lia. cbn [orb].
    assert ((match md with Some m => (m <? S c)%nat | None => false end) = false) as ->.
    { destruct md; [| done]. cbn [length] in Hc. apply Nat.ltb_ge. lia. }
    rewrite IH; [| nia | done |].
    + cbn [length]. do 3 f_equal. lia.
    + destruct md; [| done]. cbn [length] in Hc. lia.
Qed.

Lemma digit_char_zero d : 0 <= d < 16 -> digit_char d = "0"%byte -> d = 0.
Proof.
  intros H. unfold digit_char. intros E%(f_equal byte_to_Z). rewrite byte_to_Z_of_Z in E.
  destruct (d <? 10) eqn:?; bool_arith; rewrite Z.mod_small in E by lia; cbn in E; lia.
Qed.

(** [read_number] inverts [show_num]. *)
Lemma read_number_show radix max md az k n rest :
  2 <= radix <= 16 -> (1 <= k <= 10)%nat -> 0 <= n < radix ^ Z.of_nat k -> n <= max ->
  match md with Some m => (k <= m)%nat | None => True end -> no_digit radix rest ->
  read_number radix max md az (show_num radix n ++ rest) = Some (n, rest).
Proof.
  intros Hr Hk Hn Hm Hmd Hrest.
  destruct (show_num_spec radix k n ltac:(lia) Hk Hn) as (ds & -> & Hv & Hd & Hl & Hh & Hz).
  unfold read_number. rewrite read_digits_app; try done; [| lia | destruct md; lia].
  rewrite Hv, Nat.add_0_l. destruct ds as [|d ds]; [cbn in Hl; lia |].
  cbn [fmap list_fmap app length Nat.eqb]. pose proof (Forall_inv Hd) as Hd0.
  destruct az; [done |]. cbn [negb andb]. unfold is_digit in Hd0.
  case_bool_decide as E; [| done]. apply digit_char_zero in E as ->; [| lia].
  destruct (1 <? S (length ds))%nat eqn:E1; [| done]. exfalso. apply Nat.ltb_lt in E1.
  destruct (decide (n = 0)) as [E0|E0].
  - specialize (Hz E0). cbn in Hz. lia.
  - by apply Hh.
Qed.

(** ** ASCII and length *)

Lemma forallb_app_true {A} (f : A -> bool) l1 l2 :
  forallb f l1 = true -> forallb f l2 = true -> forallb f (l1 ++ l2) = true.
Proof. intros H1 H2. by rewrite forallb_app, H1, H2. Qed.

Lemma digits_range fuel radix n acc : 1 <= radix ->
  Forall (is_digit radix) acc -> Forall (is_digit radix) (digits fuel radix n acc).
Proof.
  intros Hr. revert n acc. induction fuel as [|fuel IH]; intros n acc Ha; [done |]. cbn.
  assert (Forall (is_digit radix) (n mod radix :: acc)).
  { constructor; [| done]. apply Z.mod_pos_bound. lia. }
  destruct (n <? radix); [done | by apply IH].
Qed.

Lemma show_num_ascii radix n : 1 <= radix <= 16 -> forallb is_ascii (show_num radix n) = true.
Proof.
  intros Hr. unfold show_num.
  pose proof (digits_range 10 radix n [] ltac:(lia) ltac:(constructor)) as H.
  induction H as [|d ds Hd Hds IH]; [done |]. cbn [fmap list_fmap forallb].
  rewrite IH, digit_char_ascii; [done |]. unfold is_digit in Hd. lia.
Qed.

Lemma length_digits fuel radix n acc :
  (length (digits fuel radix n acc) <= fuel + length acc)%nat.
Proof.
  revert n acc. induction fuel as [|fuel IH]; intros n acc; cbn; [lia |].
  destruct (n <? radix); cbn; [lia |].
  pose proof (IH (n / radix) (n mod radix :: acc)) as H. cbn in H. lia.
Qed.

Lemma length_show_num radix n : (length (show_num radix n) <= 10)%nat.
Proof. unfold show_num. rewrite length_fmap. pose proof (length_digits 10 radix n []). cbn in *. lia. Qed.

Create HintDb ascii.
#[export] Hint Resolve forallb_app_true : ascii.
#[export] Hint Extern 1 (forallb is_ascii (show_num _ _) = true) =>
  apply show_num_ascii; lia : ascii.
#[export] Hint Extern 1 (forallb is_ascii [] = true) => reflexivity : ascii.
#[export] Hint Extern 1 (forallb is_ascii (_ :: _) = true) => reflexivity : ascii.

Lemma show_ipv4_ascii ip : forallb is_ascii (show_ipv4 ip) = true.
Proof. unfold show_ipv4. auto 10 with ascii. Qed.

Lemma fmt_tail_ascii l : forallb is_ascii (fmt_tail l) = true.
Proof.
  induction l as [|g l IH]; [done |]. cbn [fmt_tail].
  change (forallb is_ascii ([":"%byte] ++ show_num 16 g ++ fmt_tail l) = true). auto with ascii.
Qed.
#[export] Hint Resolve show_ipv4_ascii fmt_tail_ascii : ascii.

Lemma fmt_subslice_ascii l : forallb is_ascii (fmt_subslice l) = true.
Proof. destruct l; cbn [fmt_subslice]; auto with ascii. Qed.
#[export] Hint Resolve fmt_subslice_ascii : ascii.

Lemma show_ipv6_ascii ip : forallb is_ascii (show_ipv6 ip) = true.
Proof.
  unfold show_ipv6. destruct (to_ipv4_mapped ip); [auto with ascii |].
  destruct (longest_zeroes _ _ _ _). destruct (1 <? _)%nat; auto with ascii.
Qed.
#[export] Hint Resolve show_ipv6_ascii : ascii.

(** Printed addresses are ASCII. *)
Lemma show_addr_ascii a : forallb is_ascii (show_addr a) = true.
Proof. destruct a as [|? ? ? []]; cbn [show_addr]; auto 15 with ascii. Qed.

(** [ToString for SocketAddr]. *)
Definition SocketAddr_to_string (a : SocketAddr) : RString :=
  ascii_string (show_addr a) (show_addr_ascii a).

Lemma as_bytes_to_string a : as_bytes (SocketAddr_to_string a) = show_addr a.
Proof. reflexivity. Qed.

Lemma length_show_num_le radix k n : 2 <= radix -> (1 <= k <= 10)%nat -> 0 <= n < radix ^ Z.of_nat k ->
  (length (show_num radix n) <= k)%nat.
Proof.
  intros Hr Hk Hn. destruct (show_num_spec radix k n Hr Hk Hn) as (ds & -> & _ & _ & Hl & _).
  rewrite length_fmap. lia.
Qed.

Lemma length_show_octet b : (length (show_num 10 (byte_to_Z b)) <= 3)%nat.
Proof. pose proof (byte_to_Z_range b). apply length_show_num_le; lia. Qed.

Lemma length_show_ipv4 ip : (length (show_ipv4 ip) <= 15)%nat.
Proof.
  unfold show_ipv4. rewrite !length_app. cbn [length].
  pose proof (length_show_octet (oct0 ip)). pose proof (length_show_octet (oct1 ip)).
  pose proof (length_show_octet (oct2 ip)). pose proof (length_show_octet (oct3 ip)). lia.
Qed.

Lemma length_show_u16 p : is_u16 p = true -> (length (show_num 10 p) <= 5)%nat.
Proof. intros H. bool_arith. apply length_show_num_le; lia. Qed.

Lemma length_fmt_tail l : forallb is_u16 l = true -> (length (fmt_tail l) <= 5 * length l)%nat.
Proof.
  induction l as [|g l IH]; [cbn; lia |]. cbn [forallb]. intros [Hg Hl]%andb_true_iff.
  cbn [fmt_tail length]. rewrite length_app. specialize (IH Hl). bool_arith.
  pose proof (length_show_num_le 16 4 g ltac:(lia) ltac:(lia) ltac:(lia)). lia.
Qed.

Lemma length_fmt_subslice l : forallb is_u16 l = true -> (length (fmt_subslice l) <= 5 * length l)%nat.
Proof.
  destruct l as [|g l]; [cbn; lia |]. intros H. etrans; [| by apply length_fmt_tail].
  cbn [fmt_subslice fmt_tail length]. lia.
Qed.

Lemma forallb_take {A} (f : A -> bool) n l : forallb f l = true -> forallb f (take n l) = true.
Proof.
  rewrite <- (take_drop n l) at 1. rewrite forallb_app. by intros [? _]%andb_true_iff.
Qed.

Lemma forallb_drop {A} (f : A -> bool) n l : forallb f l = true -> forallb f (drop n l) = true.
Proof.
  rewrite <- (take_drop n l) at 1. rewrite forallb_app. by intros [_ ?]%andb_true_iff.
Qed.

Lemma length_show_ipv6 ip : segments_ok (segments ip) = true -> (length (show_ipv6 ip) <= 42)%nat.
Proof.
  unfold segments_ok. intros [Hl Hs]%andb_true_iff. apply Nat.eqb_eq in Hl.
  unfold show_ipv6. destruct (to_ipv4_mapped ip) as [ip4|].
  { rewrite length_app. cbn [length]. pose proof (length_show_ipv4 ip4). lia. }
  destruct (longest_zeroes _ _ _ _) as [start len]. destruct (1 <? len)%nat.
  - rewrite !length_app. cbn [length].
    pose proof (length_fmt_subslice _ (forallb_take is_u16 start _ Hs)).
    pose proof (length_fmt_subslice _ (forallb_drop is_u16 (start + len) _ Hs)).
    rewrite length_take, length_drop in *. lia.
  - pose proof (length_fmt_subslice _ Hs). lia.
Qed.

(** Printed addresses fit in 64 bytes. *)
Lemma show_addr_length a : SocketAddr_wf a = true -> zlen (show_addr a) <= 64.
Proof.
  unfold zlen. destruct a as [ip p|ip p f s]; cbn [SocketAddr_wf]; intros H.
  - cbn [show_addr]. rewrite !length_app. cbn [length].
    pose proof (length_show_ipv4 ip). pose proof (length_show_u16 p H). lia.
  - apply andb_true_iff in H as [H Hs]. apply andb_true_iff in H as [H Hf].
    apply andb_true_iff in H as [Hsg Hp].
    pose proof (length_show_ipv6 ip Hsg). pose proof (length_show_u16 p Hp).
    pose proof (length_show_num 10 s).
    destruct s; cbn [show_addr]; rewrite ?length_app; cbn [length];
      rewrite ?length_app in *; cbn [length] in *; lia.
Qed.

(** ** Parsing back *)

Lemma read_number_no_digit radix max md az s : no_digit radix s -> read_number radix max md az s = None.
Proof.
  intros H. unfold read_number. destruct s as [|c s]; [done |]. cbn in *. by rewrite H.
Qed.

Lemma read_given_char_eq c s : read_given_char c (c :: s) = Some (tt, s).
Proof. cbn. by rewrite decide_True. Qed.

Lemma read_given_char_ne c c' s : c' <> c -> read_given_char c (c' :: s) = None.
Proof. intros. cbn. by rewrite decide_False. Qed.

Lemma read_octet_zero b rest : no_digit 10 rest ->
  read_octet 0 (show_num 10 (byte_to_Z b) ++ rest) = Some (byte_to_Z b, rest).
Proof.
  intros H. pose proof (byte_to_Z_range b). apply (read_number_show 10 255 _ _ 3); cbn; lia || done.
Qed.

Lemma read_octet_succ i b rest : no_digit 10 rest ->
  read_octet (S i) (["."%byte] ++ show_num 10 (byte_to_Z b) ++ rest) = Some (byte_to_Z b, rest).
Proof. intros H. apply (read_octet_zero b rest H). Qed.

Lemma read_ipv4_show ip rest : no_digit 10 rest ->
  read_ipv4_addr (show_ipv4 ip ++ rest) = Some (ip, rest).
Proof.
  intros H. unfold read_ipv4_addr, show_ipv4. rewrite <- !app_assoc.
  rewrite read_octet_zero by done. cbn [mbind option_bind].
  do 3 (rewrite read_octet_succ by done; cbn [mbind option_bind]).
  rewrite !byte_of_Z_to_Z. by destruct ip.
Qed.

Lemma read_ipv4_no_digit s : no_digit 10 s -> read_ipv4_addr s = None.
Proof.
  intros H. unfold read_ipv4_addr.
  by replace (read_octet 0 s) with (@None (Z * list byte)) by (symmetry; by apply read_number_no_digit).
Qed.

(** Where a number stops before a dot, there is no IPv4 address. *)
Lemma read_digits_head md c rest h r n x k s' :
  to_digit 10 c = None -> c <> "."%byte -> Forall (fun y => y <> "."%byte) h ->
  read_digits 10 255 md (h ++ c :: rest) r n = Some (x, k, s') ->
  exists c' t, s' = c' :: t /\ c' <> "."%byte.
Proof.
  intros Hc Hdot Hh. revert r n. induction Hh as [|y h Hy Hh IH]; intros r n; cbn [app read_digits].
  - rewrite Hc. intros [= _ _ <-]. eauto.
  - destruct (to_digit 10 y); [| intros [= _ _ <-]; eauto].
    destruct (_ || _); [done |]. destruct (match md with Some _ => _ | None => _ end); [done |]. apply IH.
Qed.

Lemma read_ipv4_undotted h c rest :
  to_digit 10 c = None -> c <> "."%byte -> Forall (fun y => y <> "."%byte) h ->
  read_ipv4_addr (h ++ c :: rest) = None.
Proof.
  intros Hc Hdot Hh. unfold read_ipv4_addr.
  destruct (read_octet 0 (h ++ c :: rest)) as [[x s']|] eqn:E0; [| done]. cbn [mbind option_bind].
  unfold read_octet, read_separator, read_number in E0.
  destruct (read_digits 10 255 _ (h ++ c :: rest) 0 0) as [[[y k] s'']|] eqn:E; [| done].
  destruct (k =? 0)%nat; [done |]. destruct (_ && _ && _); [done |]. injection E0 as -> ->.
  destruct (read_digits_head _ _ _ _ _ _ _ _ _ Hc Hdot Hh E) as (c' & t & -> & Hc').
  unfold read_octet, read_separator. by rewrite read_given_char_ne.
Qed.

Lemma show_num_undotted radix n : 1 <= radix <= 16 -> Forall (fun y => y <> "."%byte) (show_num radix n).
Proof.
  intros Hr. unfold show_num. apply Forall_fmap.
  eapply Forall_impl; [| apply (digits_range 10 radix n []); [lia | constructor]].
  intros d [H0 H1] E%(f_equal byte_to_Z). unfold digit_char in E. rewrite byte_to_Z_of_Z in E.
  destruct (d <? 10) eqn:?; bool_arith; rewrite Z.mod_small in E by lia; cbn in E; lia.
Qed.

(** [c] may follow a group: it is no hexadecimal digit and no dot. *)
Definition separates (s : list byte) : Prop :=
  exists c t, s = c :: t /\ to_digit 16 c = None /\ to_digit 10 c = None /\ c <> "."%byte.

(** No further group follows: no colon, or a colon and no digit. *)
Definition ends_groups (s : list byte) : Prop :=
  exists c t, s = c :: t /\ (c = ":"%byte -> no_digit 16 t /\ no_digit 10 t).

Lemma separates_colon t : separates (":"%byte :: t).
Proof. by exists ":"%byte, t. Qed.

Lemma read_group_show g rest : is_u16 g = true -> separates rest ->
  read_number 16 65535 (Some 4%nat) true (show_num 16 g ++ rest) = Some (g, rest) /\
  read_ipv4_addr (show_num 16 g ++ rest) = None.
Proof.
  intros Hg (c & t & -> & H16 & H10 & Hdot). bool_arith. split.
  - apply (read_number_show 16 65535 _ _ 4); try lia; done.
  - apply read_ipv4_undotted; [done | done |]. apply show_num_undotted. lia.
Qed.

Lemma separates_fmt_tail gs rest : separates rest -> separates (fmt_tail gs ++ rest).
Proof. destruct gs; [done |]. intros _. apply separates_colon. Qed.

Lemma read_groups_stop limit i rest : ends_groups rest -> read_groups limit (S i) rest = ([], false, rest).
Proof.
  intros (c & t & -> & Hc). destruct limit as [|limit]; [done |]. cbn [read_groups read_separator].
  destruct (decide (c = ":"%byte)) as [->|Hne].
  - rewrite read_given_char_eq. destruct (Hc eq_refl) as [H16 H10].
    rewrite read_ipv4_no_digit, read_number_no_digit by done. by destruct (1 <=? limit)%nat.
  - rewrite read_given_char_ne by done. by destruct (1 <=? limit)%nat.
Qed.

Lemma read_groups_tail gs : forall limit i rest,
  forallb is_u16 gs = true -> separates rest -> (length gs <= limit)%nat ->
  (length gs = limit \/ ends_groups rest) ->
  read_groups limit (S i) (fmt_tail gs ++ rest) = (gs, false, rest).
Proof.
  induction gs as [|g gs IH]; intros limit i rest Hu Hs Hl He.
  - cbn [fmt_tail app]. destruct He as [<-|He]; [done | by apply read_groups_stop].
  - cbn [forallb] in Hu. apply andb_true_iff in Hu as [Hg Hu].
    destruct limit as [|limit]; [cbn in Hl; lia |].
    destruct (read_group_show g (fmt_tail gs ++ rest) Hg (separates_fmt_tail _ _ Hs)) as [Hn H4].
    cbn [fmt_tail read_groups read_separator app]. rewrite <- app_assoc, read_given_char_eq, H4, Hn.
    rewrite IH; [by destruct (1 <=? limit)%nat | done | done | cbn in Hl; lia | cbn in He].
    destruct He as [He|He]; [left; lia | by right].
Qed.

Lemma read_groups_subslice gs limit rest :
  forallb is_u16 gs = true -> separates rest -> (length gs <= limit)%nat ->
  (length gs = limit \/ ends_groups rest) ->
  read_groups limit 0 (fmt_subslice gs ++ rest) = (gs, false, rest).
Proof.
  intros Hu Hs Hl He. destruct limit as [|limit]; [by destruct gs; cbn in * |- *; [|lia] |].
  destruct gs as [|g gs].
  - destruct Hs as (c & t & -> & H16 & H10 & _). cbn [fmt_subslice app read_groups read_separator].
    rewrite read_ipv4_no_digit, read_number_no_digit by done. by destruct (1 <=? limit)%nat.
  - cbn [forallb] in Hu. apply andb_true_iff in Hu as [Hg Hu].
    destruct (read_group_show g (fmt_tail gs ++ rest) Hg (separates_fmt_tail _ _ Hs)) as [Hn H4].
    cbn [fmt_subslice read_groups read_separator]. rewrite <- app_assoc, H4, Hn.
    rewrite read_groups_tail; [by destruct (1 <=? limit)%nat | done | done | cbn in Hl; lia | cbn in He].
    destruct He as [He|He]; [left; lia | by right].
Qed.

(** [len] zero groups of [full] start at [start]. *)
Definition zero_run (full : list Z) (span : nat * nat) : Prop :=
  exists pre post, full = pre ++ replicate span.2 0 ++ post /\ length pre = span.1.

Lemma longest_zeroes_run segs : forall pre longest current,
  zero_run (pre ++ segs) longest ->
  (exists p, pre = p ++ replicate current.2 0 /\ (current.2 <> 0%nat -> length p = current.1)) ->
  zero_run (pre ++ segs) (longest_zeroes (length pre) segs longest current).
Proof.
  induction segs as [|s segs IH]; intros pre longest [cs cl] Hl (p & Hp & Hc); [done |].
  cbn [longest_zeroes fst snd]. rewrite cons_middle, app_assoc in *.
  replace (S (length pre)) with (length (pre ++ [s])) by (rewrite length_app; cbn; lia).
  destruct (s =? 0) eqn:Es; bool_arith.
  - subst s. assert (pre ++ [0] = p ++ replicate (S cl) 0) as Hp'.
    { rewrite Hp, <- app_assoc. cbn [snd]. by rewrite replicate_S_end. }
    assert (length p = (if (cl =? 0)%nat then length pre else cs)) as Hst.
    { destruct (cl =? 0)%nat eqn:E; [apply Nat.eqb_eq in E | apply Nat.eqb_neq in E; by apply Hc].
      rewrite Hp, E. cbn. by rewrite app_nil_r. }
    apply IH.
    + destruct (_ <? _)%nat; [| done]. exists p, segs. cbn [fst snd]. by rewrite Hp', <- app_assoc.
    + exists p. cbn [fst snd]. by rewrite Hp'.
  - apply IH; [done |]. exists (pre ++ [s]). cbn. by rewrite app_nil_r.
Qed.

(** Cutting out the longest zero run loses nothing. *)
Lemma longest_zeroes_cut segs start len :
  longest_zeroes 0 segs (0, 0)%nat (0, 0)%nat = (start, len) ->
  segs = take start segs ++ replicate len 0 ++ drop (start + len) segs /\ (start + len <= length segs)%nat.
Proof.
  intros E. destruct (longest_zeroes_run segs [] (0, 0)%nat (0, 0)%nat) as (pre & post & H & Hl).
  { by exists [], segs. }
  { by exists []. }
  cbn [length app] in *. rewrite E in *. cbn [fst snd] in *. subst start. split.
  - assert (take (length pre) segs = pre) as -> by (by rewrite H, take_app_length).
    assert (drop (length pre + len) segs = post) as ->; [| done].
    rewrite H, app_assoc. apply drop_app_length'. by rewrite length_app, length_replicate.
  - apply (f_equal length) in H. rewrite !length_app, length_replicate in H. lia.
Qed.

Lemma to_ipv4_mapped_Some ip ip4 : segments_ok (segments ip) = true -> to_ipv4_mapped ip = Some ip4 ->
  segments ip = [0; 0; 0; 0; 0; 65535; be_value [oct0 ip4; oct1 ip4]; be_value [oct2 ip4; oct3 ip4]].
Proof.
  unfold to_ipv4_mapped, segments_ok. intros [Hl Hs]%andb_true_iff.
  destruct (segments ip) as [|a [|b [|c [|d [|e [|x [|g [|h [|]]]]]]]]]; try done.
  destruct a; [| done | done]. destruct b; [| done | done]. destruct c; [| done | done].
  destruct d; [| done | done]. destruct e; [| done | done]. clear Hl.
  destruct (decide (x = 65535)) as [->|Hx].
  - intros [= <-]. cbn [oct0 oct1 oct2 oct3]. fold (be_u16 g) (be_u16 h).
    cbn [forallb] in Hs. rewrite !andb_true_iff in Hs. destruct Hs as (_ & _ & _ & _ & _ & _ & Hg & Hh & _).
    by rewrite !be_value_u16.
  - intros E. exfalso. revert E. clear - Hx.
    repeat (match goal with |- context [match ?y with _ => _ end] => destruct y end; try done).
Qed.

(** What follows an IPv6 address in a socket address: ["]"] or ["%"]. *)
Definition closes (s : list byte) : Prop := exists c t, s = c :: t /\ (c = "]"%byte \/ c = "%"%byte).

Lemma closes_separates s : closes s -> separates s.
Proof. intros (c & t & -> & [-> | ->]); eexists _, t; by split_and!. Qed.

Lemma closes_ends_groups s : closes s -> ends_groups s.
Proof. intros (c & t & -> & [-> | ->]); eexists _, t; by split. Qed.

Lemma closes_no_digit s : closes s -> no_digit 10 s.
Proof. by intros (c & t & -> & [-> | ->]). Qed.

Lemma read_ipv6_mapped ip4 rest : closes rest ->
  read_ipv6_addr ([":"; ":"; "f"; "f"; "f"; "f"; ":"]%byte ++ show_ipv4 ip4 ++ rest)
  = Some (mkIpv6 [0; 0; 0; 0; 0; 65535; be_value [oct0 ip4; oct1 ip4]; be_value [oct2 ip4; oct3 ip4]], rest).
Proof.
  intros Hc. unfold read_ipv6_addr.
  change (read_groups 8 0 _) with
    (@nil Z, false, [":"; ":"; "f"; "f"; "f"; "f"; ":"]%byte ++ show_ipv4 ip4 ++ rest).
  cbn -[read_groups read_given_char show_ipv4]. rewrite !read_given_char_eq. cbn [mbind option_bind].
  rewrite read_given_char_eq. cbn [mbind option_bind].
  assert (read_groups 7 0 (["f"; "f"; "f"; "f"; ":"]%byte ++ show_ipv4 ip4 ++ rest)
    = ([65535; be_value [oct0 ip4; oct1 ip4]; be_value [oct2 ip4; oct3 ip4]], true, rest)) as E.
  { change (["f"; "f"; "f"; "f"; ":"]%byte) with (show_num 16 65535 ++ [":"%byte]). rewrite <- app_assoc.
    destruct (read_group_show 65535 ([":"%byte] ++ show_ipv4 ip4 ++ rest) eq_refl (separates_colon _)) as [Hn H4].
    cbn [read_groups Nat.leb read_separator]. rewrite H4, Hn. cbn [app read_groups Nat.leb read_separator].
    by rewrite read_given_char_eq, read_ipv4_show by by apply closes_no_digit. }
  cbn [app] in E. by rewrite E.
Qed.

Lemma read_ipv6_show ip rest : segments_ok (segments ip) = true -> closes rest ->
  read_ipv6_addr (show_ipv6 ip ++ rest) = Some (ip, rest).
Proof.
  intros Hok Hc. unfold show_ipv6. destruct (to_ipv4_mapped ip) as [ip4|] eqn:E4.
  { rewrite <- app_assoc, read_ipv6_mapped by done.
    rewrite <- (to_ipv4_mapped_Some _ _ Hok E4). by destruct ip. }
  unfold segments_ok in Hok. apply andb_true_iff in Hok as [Hl Hs]. apply Nat.eqb_eq in Hl.
  destruct (longest_zeroes 0 (segments ip) _ _) as [start len] eqn:Ez.
  apply longest_zeroes_cut in Ez as [Hcut Hle]. unfold read_ipv6_addr.
  destruct (1 <? len)%nat eqn:E1; [apply Nat.ltb_lt in E1 |].
  - assert (length (take start (segments ip)) = start) as Hst by (rewrite length_take; lia).
    rewrite <- !app_assoc, read_groups_subslice; [ | by apply forallb_take | apply separates_colon | lia |].
    2: { right. eexists _, _. split; [reflexivity |]. done. }
    rewrite Hst, (proj2 (Nat.eqb_neq start 8)) by lia. cbn [app]. rewrite !read_given_char_eq.
    cbn [mbind option_bind]. rewrite read_given_char_eq. cbn [mbind option_bind].
    rewrite read_groups_subslice; [ | by apply forallb_drop | by apply closes_separates
      | rewrite length_drop; lia | right; by apply closes_ends_groups].
    rewrite length_drop, Hl. replace (8 - start - (8 - (start + len)))%nat with len by lia.
    rewrite <- Hcut. by destruct ip.
  - rewrite read_groups_subslice; [ | done | by apply closes_separates | lia | by left].
    rewrite Hl. cbn. by destruct ip.
Qed.

Lemma read_port_show p : is_u16 p = true -> read_port (":"%byte :: show_num 10 p) = Some (p, []).
Proof.
  intros H. bool_arith. unfold read_port. rewrite read_given_char_eq. cbn [mbind option_bind].
  rewrite <- (app_nil_r (show_num 10 p)). apply (read_number_show 10 65535 _ _ 5); cbn; lia || done.
Qed.

(** A printed address parses back to itself, up to the IPv6 flow label. *)
Lemma parse_show_addr a : SocketAddr_wf a = true -> flowinfo_zero a = true ->
  parse_bytes (show_addr a) = Some a.
Proof.
  intros Hwf Hf. unfold parse_bytes, read_socket_addr. destruct a as [ip p|ip p f s]; cbn in Hwf, Hf.
  - unfold read_socket_addr_v4. cbn [show_addr]. rewrite read_ipv4_show by done. cbn [mbind option_bind app].
    by rewrite read_port_show.
  - rewrite !andb_true_iff in Hwf. destruct Hwf as (((Hsg & Hp) & _) & Hs). bool_arith. subst f.
    assert (forall t, read_socket_addr_v4 (["["%byte] ++ t) = None) as H4.
    { intros t. unfold read_socket_addr_v4. by rewrite read_ipv4_no_digit. }
    assert (forall t, closes (["]"; ":"]%byte ++ t)) as Hc1 by (intros t; eexists _, _; split; [done | by left]).
    assert (forall t, closes (["%"]%byte ++ t)) as Hc2 by (intros t; eexists _, _; split; [done | by right]).
    assert (read_scope_id (["%"%byte] ++ show_num 10 s ++ ["]"; ":"]%byte ++ show_num 10 p)
      = Some (s, ["]"; ":"]%byte ++ show_num 10 p)) as Hsc.
    { unfold read_scope_id. cbn [app]. rewrite read_given_char_eq. cbn [mbind option_bind].
      apply (read_number_show 10 4294967295 None true 10); cbn; lia || done. }
    destruct (decide (s = 0)) as [->|Hs0].
    + cbn [show_addr]. rewrite H4. unfold read_socket_addr_v6. cbn [app]. rewrite read_given_char_eq.
      cbn [mbind option_bind]. rewrite (read_ipv6_show ip ("]"%byte :: ":"%byte :: show_num 10 p) Hsg (Hc1 _)). cbn [mbind option_bind].
      cbn [app read_scope_id]. unfold read_scope_id. rewrite read_given_char_ne by done.
      cbn [mbind option_bind]. rewrite read_given_char_eq. cbn [mbind option_bind].
      by rewrite (read_port_show p ltac:(unfold is_u16; lia)).
    + replace (show_addr (V6 ip p 0 s)) with (["["%byte] ++ show_ipv6 ip ++ ["%"%byte] ++ show_num 10 s
        ++ ["]"; ":"]%byte ++ show_num 10 p) by (by destruct s).
      rewrite H4. unfold read_socket_addr_v6. cbn [app]. rewrite read_given_char_eq.
      cbn [mbind option_bind]. rewrite (read_ipv6_show ip ("%"%byte :: _) Hsg (Hc2 _)). cbn [mbind option_bind].
      cbn [app] in Hsc. rewrite Hsc. rewrite read_given_char_eq. cbn [mbind option_bind].
      by rewrite (read_port_show p ltac:(unfold is_u16; lia)).
Qed.

(** ** What the parser returns is a value of the type *)

Lemma to_digit_range radix c d : 0 <= radix -> to_digit radix c = Some d -> 0 <= d < radix.
Proof.
  unfold to_digit, between. pose proof (byte_to_Z_range c). intros Hr.
  destruct ((48 <=? _) && _) eqn:E1; [| destruct ((97 <=? _) && _) eqn:E2; [| destruct ((65 <=? _) && _) eqn:E3]];
    destruct (_ <? radix) eqn:E; intros [= <-]; bool_arith; lia.
Qed.

Lemma read_digits_range radix max md s : 0 <= radix -> forall r n x k s', 0 <= r <= max ->
  read_digits radix max md s r n = Some (x, k, s') -> 0 <= x <= max.
Proof.
  intros Hr. induction s as [|c s IH]; intros r n x k s' Hb; cbn [read_digits].
  - by intros [= <- _ _].
  - destruct (to_digit radix c) as [d|] eqn:Ed; [| by intros [= <- _ _]].
    apply to_digit_range in Ed; [| done].
    destruct ((max <? r * radix) || (max <? r * radix + d)) eqn:Eo; [done |].
    apply orb_false_iff in Eo as [E1 E2]. bool_arith.
    destruct (match md with Some _ => _ | None => _ end); [done |]. apply IH. nia.
Qed.

Lemma read_number_range radix max md az s x s' : 0 <= radix -> 0 <= max ->
  read_number radix max md az s = Some (x, s') -> 0 <= x <= max.
Proof.
  intros Hr Hm. unfold read_number. destruct (read_digits _ _ _ _ _ _) as [[[y k] t]|] eqn:E; [| done].
  apply read_digits_range in E; [| done | lia].
  destruct (k =? 0)%nat; [done |]. destruct (_ && _ && _); [done |]. by intros [= <- _].
Qed.

Lemma read_separator_Some {A} sep i (inner : parser A) s x s' :
  read_separator sep i inner s = Some (x, s') -> exists s0, inner s0 = Some (x, s').
Proof.
  destruct i; cbn; [eauto |]. destruct s as [|c s]; [done |]. cbn. case_decide; [eauto | done].
Qed.

Lemma read_groups_wf limit : forall i s gs v4 s', read_groups limit i s = (gs, v4, s') ->
  (length gs <= limit)%nat /\ forallb is_u16 gs = true.
Proof.
  induction limit as [|limit IH]; intros i s gs v4 s'; cbn [read_groups]; [by intros [= <- _ _] |].
  destruct (if (1 <=? limit)%nat then _ else None) as [[ip t]|] eqn:E4.
  - destruct (1 <=? limit)%nat eqn:El; [| done]. apply Nat.leb_le in El. intros [= <- _ _].
    split; [cbn; lia |]. cbn [forallb]. by rewrite !be_value_is_u16.
  - clear E4. destruct (read_separator _ _ _ _) as [[g t]|] eqn:Eg.
    2: { intros H. injection H as <- _ _. split; [cbn; lia | done]. }
    apply read_separator_Some in Eg as (s0 & Eg). apply read_number_range in Eg; [| lia..].
    destruct (read_groups limit (S i) t) as [[gs' b] t'] eqn:Er. intros [= <- _ _].
    apply IH in Er as [Hl Hu]. cbn [length forallb]. rewrite Hu. split; [lia |]. unfold is_u16. lia.
Qed.

Lemma read_ipv6_wf s ip s' : read_ipv6_addr s = Some (ip, s') -> segments_ok (segments ip) = true.
Proof.
  unfold read_ipv6_addr, segments_ok. destruct (read_groups 8 0 s) as [[head h4] s1] eqn:Eh.
  apply read_groups_wf in Eh as [Hl Hu]. destruct (length head =? 8)%nat eqn:E8.
  { intros [= <- _]. cbn. by rewrite E8. }
  apply Nat.eqb_neq in E8. destruct h4; [done |].
  destruct (read_given_char _ s1) as [[[] s2]|]; [cbn [mbind option_bind] | done].
  destruct (read_given_char _ s2) as [[[] s3]|]; [cbn [mbind option_bind] | done].
  destruct (read_groups _ 0 s3) as [[tail t4] s4] eqn:Et. apply read_groups_wf in Et as [Htl Htu].
  intros [= <- _]. cbn [segments]. rewrite !length_app, length_replicate, !forallb_app, Hu, Htu.
  rewrite (proj2 (Nat.eqb_eq _ 8)) by lia. cbn. rewrite andb_true_r.
  generalize (8 - length head - length tail)%nat as n. induction n; [done |]. cbn. exact IHn.
Qed.

Lemma read_port_range s p s' : read_port s = Some (p, s') -> is_u16 p = true.
Proof.
  unfold read_port. destruct (read_given_char _ s) as [[[] s1]|]; [cbn [mbind option_bind] | done].
  intros H. apply read_number_range in H; [| lia..]. unfold is_u16. lia.
Qed.

Lemma read_scope_id_range s p s' : read_scope_id s = Some (p, s') -> is_u32 p = true.
Proof.
  unfold read_scope_id. destruct (read_given_char _ s) as [[[] s1]|]; [cbn [mbind option_bind] | done].
  intros H. apply read_number_range in H; [| lia..]. unfold is_u32. lia.
Qed.

Lemma parse_bytes_wf s a : parse_bytes s = Some a -> SocketAddr_wf a = true /\ flowinfo_zero a = true.
Proof.
  unfold parse_bytes. destruct (read_socket_addr s) as [[a' [|]]|] eqn:E; try done. intros [= ->].
  unfold read_socket_addr in E. destruct (read_socket_addr_v4 s) as [r|] eqn:E4.
  - injection E as ->. unfold read_socket_addr_v4 in E4.
    destruct (read_ipv4_addr s) as [[ip s1]|]; [cbn [mbind option_bind] in E4 | done].
    destruct (read_port s1) as [[p s2]|] eqn:Ep; [cbn [mbind option_bind] in E4 | done].
    injection E4 as <- _. split; [| done]. by eapply read_port_range.
  - unfold read_socket_addr_v6 in E.
    destruct (read_given_char _ s) as [[[] s1]|]; [cbn [mbind option_bind] in E | done].
    destruct (read_ipv6_addr s1) as [[ip s2]|] eqn:E6; [cbn [mbind option_bind] in E | done].
    destruct (match read_scope_id s2 with Some _ => _ | None => _ end) as [sc s3] eqn:Es.
    assert (is_u32 sc = true) as Hsc.
    { destruct (read_scope_id s2) as [[x y]|] eqn:Er; injection Es as <- _; [| done].
      by eapply read_scope_id_range. }
    destruct (read_given_char _ s3) as [[[] s4]|]; [cbn [mbind option_bind] in E | done].
    destruct (read_port s4) as [[p s5]|] eqn:Ep; [cbn [mbind option_bind] in E | done].
    injection E as <- _. cbn. by rewrite (read_ipv6_wf _ _ _ E6), (read_port_range _ _ _ Ep), Hsc.
Qed.
