(* ===== verification/Errors.v ===== *)
(** The error types of the p2p crate (crate/p2p/src/err.rs) and the message type they mention
    (proto.rs).  Conversions of the [?] operator are constructors applied by [map_err]. *)

From Stdlib Require Import ZArith.
From stdpp Require Import base tactics numbers.
From S2P Require Import Prelude.

(** [std::io::Error], identified by its code. *)
Record io_Error := mkIoError { io_code : Z }.

(** [#[repr(u8)] enum MessageType] of proto.rs, with its derived [TryFromPrimitive] and
    [IntoPrimitive]. *)
Inductive MessageType : Type := Discovery | Connect.

Definition MessageType_into (t : MessageType) : Z :=
  match t with Discovery => 1 | Connect => 2 end.

(** [MessageType::try_from_primitive]; the error carries the number. *)
Definition MessageType_try_from (n : Z) : Result Z MessageType :=
  if n =? 1 then Ok Discovery else if n =? 2 then Ok Connect else Err n.

(** [enum InitError]. *)
Inductive InitError : Type := NotMulticast | Net (e : io_Error).

(** [enum IdError]. *)
Inductive IdError : Type := Length | InvalidCharacters.

(** [enum ParseError]; [std::net::AddrParseError] has no content here. *)
Inductive ParseError : Type :=
| NotAPacket
| MsgType (t : MessageType)
| IOError (e : io_Error)
| Enum (n : Z)
| ParseAddr
| Id (e : IdError).

(** [impl From<TryFromPrimitiveError<T>> for ParseError]. *)
Definition ParseError_from_TryFromPrimitive (number : Z) : ParseError := Enum number.

(** [enum HandshakeError]. *)
Inductive HandshakeError : Type :=
| HsParse (e : ParseError)
| HsFailure (code : Z)
| HsTimeout
| HsDisconnect
| HsAuth
| HsMsg
| HsNotFound
| HsDup
| HsAddr.

(** [impl From<ring::error::Unspecified> for HandshakeError]. *)
Definition HandshakeError_from_Unspecified (_ : unit) : HandshakeError := HsAuth.

#[global] Instance io_Error_eq_dec : EqDecision io_Error.
Proof. solve_decision. Defined.
#[global] Instance MessageType_eq_dec : EqDecision MessageType.
Proof. solve_decision. Defined.
#[global] Instance IdError_eq_dec : EqDecision IdError.
Proof. solve_decision. Defined.
#[global] Instance ParseError_eq_dec : EqDecision ParseError.
Proof. solve_decision. Defined.
#[global] Instance HandshakeError_eq_dec : EqDecision HandshakeError.
Proof. solve_decision. Defined.

(** ** Lemmas *)

Lemma MessageType_try_from_into t : MessageType_try_from (MessageType_into t) = Ok t.
Proof. by destruct t. Qed.

Lemma MessageType_try_from_Ok n t : MessageType_try_from n = Ok t <-> n = MessageType_into t.
Proof.
  unfold MessageType_try_from.
  destruct (n =? 1) eqn:E1; [| destruct (n =? 2) eqn:E2]; bool_arith; destruct t; cbn; split;
    try done; try (by intros ->); congruence.
Qed.

Lemma MessageType_into_u8 t : is_u8 (MessageType_into t) = true.
Proof. by destruct t. Qed.
