(* ===== verification/Pairing.v ===== *)
(** Pairing codes and message authentication: crate/p2p/src/pairing.rs and hmac.rs.

    Both files are thin layers over the crates [totp-rs] and [ring], which are parameters here
    (class [CryptoLib]): the development defines what the program does with them and assumes only
    what their documentation states, as fields of [CryptoLaws]. *)

From Stdlib Require Import ZArith.
From Stdlib Require Import Strings.Byte.
From stdpp Require Import base tactics numbers list strings.
From S2P Require Import Prelude RustStd.

(** [totp_rs::Algorithm] and [ring::hmac::Algorithm], as far as the program names them. *)
Inductive TotpAlgorithm : Type := TotpSHA256.
Inductive HmacAlgorithm : Type := HMAC_SHA256.

(** The operations of [totp-rs] and [ring] the program calls.  The functions that read the system
    clock take the time as an argument. *)
Class CryptoLib := {
  TOTP : Type;
  TotpUrlError : Type;
  SystemTimeError : Type;
  SecretParseError : Type;
  TOTP_new : TotpAlgorithm -> Z -> Z -> Z -> list byte -> option RString -> RString ->
             Result TotpUrlError TOTP;
  TOTP_from_url : RString -> Result TotpUrlError TOTP;
  TOTP_get_qr : TOTP -> Result RString RString;
  TOTP_check_current : TOTP -> RString -> Z -> Result SystemTimeError bool;
  TOTP_generate_current : TOTP -> Z -> Result SystemTimeError RString;
  TOTP_get_secret_base32 : TOTP -> RString;
  Secret_Encoded_to_bytes : RString -> Result SecretParseError (list byte);
  SecretParseError_debug : SecretParseError -> RString;
  HmacKey : Type;
  HmacKey_new : HmacAlgorithm -> list byte -> HmacKey;
  ring_sign : HmacKey -> list byte -> list byte;
  ring_verify : HmacKey -> list byte -> list byte -> Result unit unit;
  digest_SHA256 : list byte -> list byte
}.

(** What the documentation of [ring] promises: [verify] accepts exactly the tag [sign] computes
    (whatever the key's origin), an HMAC-SHA-256 tag and a SHA-256 digest have 32 bytes. *)
Class CryptoLaws (C : CryptoLib) : Prop := {
  ring_verify_sign : forall k d t, ring_verify k d t = Ok tt <-> t = ring_sign k d;
  ring_sign_length : forall key d, length (ring_sign (HmacKey_new HMAC_SHA256 key) d) = 32%nat;
  digest_SHA256_length : forall d, length (digest_SHA256 d) = 32%nat
}.

Section Pairing.
Context {C : CryptoLib}.

(** [enum PairingError]. *)
Inductive PairingError : Type :=
| PairTotp (e : TotpUrlError)
| PairQrCode (s : RString)
| PairSecret (s : RString)
| PairTime (e : SystemTimeError).

(** [impl From<String> for PairingError]. *)
Definition PairingError_from_String (value : RString) : PairingError := PairQrCode value.

(** [struct Png(String)]. *)
Record Png := mkPng { png_0 : RString }.

(** [struct PairingAuthenticator { totp: TOTP }]. *)
Record PairingAuthenticator := mkPairingAuthenticator { totp : TOTP }.

Definition account_name : RString := ascii_string (bytes_of_string "flydrop-client") eq_refl.

(** [PairingAuthenticator::new]: SHA-256, 8 digits, skew 1, step 15 seconds, no issuer. *)
Definition PairingAuthenticator_new (secret : list byte) : Result PairingError PairingAuthenticator :=
  t ← map_err PairTotp (TOTP_new TotpSHA256 8 1 15 secret None account_name);
  mret (mkPairingAuthenticator t).

Definition PairingAuthenticator_from_url (url : RString) : Result PairingError PairingAuthenticator :=
  t ← map_err PairTotp (TOTP_from_url url);
  mret (mkPairingAuthenticator t).

Definition PairingAuthenticator_to_qr_code (a : PairingAuthenticator) : Result PairingError Png :=
  png ← map_err PairQrCode (TOTP_get_qr (totp a));
  mret (mkPng png).

Definition PairingAuthenticator_check (a : PairingAuthenticator) (token : RString) (now : Z)
  : Result PairingError bool := map_err PairTime (TOTP_check_current (totp a) token now).

Definition PairingAuthenticator_generate (a : PairingAuthenticator) (now : Z)
  : Result PairingError RString := map_err PairTime (TOTP_generate_current (totp a) now).

(** [impl ToString] and [impl FromStr for PairingAuthenticator]. *)
Definition PairingAuthenticator_to_string (a : PairingAuthenticator) : RString :=
  TOTP_get_secret_base32 (totp a).

Definition PairingAuthenticator_from_str (s : RString) : Result PairingError PairingAuthenticator :=
  secret ← map_err (fun e => PairSecret (SecretParseError_debug e)) (Secret_Encoded_to_bytes s);
  PairingAuthenticator_new secret.

(** hmac.rs [sign] and [verify]. *)
Definition hmac_sign (key data : list byte) : list byte :=
  let key := HmacKey_new HMAC_SHA256 key in ring_sign key data.

Definition hmac_verify (key data hmac : list byte) : Result unit unit :=
  let key := HmacKey_new HMAC_SHA256 key in ring_verify key data hmac.

(** ** Lemmas *)

Context {L : CryptoLaws C}.

Lemma hmac_verify_Ok key data t : hmac_verify key data t = Ok tt <-> t = hmac_sign key data.
Proof. apply ring_verify_sign. Qed.

Lemma hmac_verify_sign key data : hmac_verify key data (hmac_sign key data) = Ok tt.
Proof. by apply hmac_verify_Ok. Qed.

Lemma hmac_verify_Err key data t : t <> hmac_sign key data -> hmac_verify key data t = Err tt.
Proof.
  intros H. destruct (hmac_verify key data t) as [[]|[]] eqn:E; [| done].
  by apply hmac_verify_Ok in E.
Qed.

Lemma hmac_sign_length key data : length (hmac_sign key data) = 32%nat.
Proof. apply ring_sign_length. Qed.

End Pairing.
