(* ===== verification/Peer.v ===== *)
(** Peers: crate/p2p/src/peer/id.rs, the data of crate/p2p/src/peer/peer.rs, and the events of
    crate/p2p/src/event.rs.

    A [PeerId] wraps a string.  [PeerId_from_string] checks it; [PeerId_from_cert] and the
    derived deserializer do not, so validity is a predicate ([PeerId_valid]) and not part of
    the type, as in the source. *)

From Stdlib Require Import ZArith Lia.
From Stdlib Require Import Strings.Byte.
From stdpp Require Import base tactics numbers option list countable gmap strings.
From S2P Require Import Prelude RustStd SockAddr SockAddrFacts Errors Pairing.

(** ** id.rs *)

(** [struct PeerId(String)]. *)
Record PeerId := mkPeerId { PeerId_0 : RString }.

#[global] Instance PeerId_eq_dec : EqDecision PeerId.
Proof. solve_decision. Defined.
#[global] Program Instance PeerId_countable : Countable PeerId :=
  inj_countable' PeerId_0 mkPeerId _.
Next Obligation. by intros []. Qed.

(** [Deref] to the string, [inner], [Display], and the bytes ([id.as_bytes()]). *)
Definition PeerId_inner (id : PeerId) : RString := PeerId_0 id.
Definition PeerId_fmt (id : PeerId) : RString := PeerId_0 id.
Definition PeerId_bytes (id : PeerId) : list byte := as_bytes (PeerId_inner id).

(** [impl PartialEq<PeerId> for &PeerId]. *)
Definition PeerId_eqb (a b : PeerId) : bool := bool_decide (PeerId_0 a = PeerId_0 b).

Definition PeerId_default : PeerId :=
  mkPeerId (ascii_string (bytes_of_string "0000000000000000000000000000000000000000") eq_refl).

Section Id.
Context {U : UnicodeTables}.

(** [PeerId::from_string]. *)
Definition PeerId_from_string (id : RString) : Result IdError PeerId :=
  if negb (str_len id =? 40) then Err Length
  else if negb (forallb is_alphanumeric (chars id)) then Err InvalidCharacters
  else Ok (mkPeerId id).

(** The ids [from_string] accepts. *)
Definition PeerId_valid (id : PeerId) : bool :=
  (str_len (PeerId_0 id) =? 40) && forallb is_alphanumeric (chars (PeerId_0 id)).

End Id.

(** [format!("{b:02x}")]. *)
Definition hex02 (b : byte) : list byte :=
  [digit_char (Z.shiftr (byte_to_Z b) 4); digit_char (Z.land (byte_to_Z b) 15)].

Lemma hex02_range b :
  0 <= Z.shiftr (byte_to_Z b) 4 < 16 /\ 0 <= Z.land (byte_to_Z b) 15 < 16.
Proof.
  pose proof (byte_to_Z_range b). rewrite Z.shiftr_div_pow2 by lia.
  change 15 with (Z.ones 4). rewrite Z.land_ones by lia. change (2 ^ 4) with 16.
  Z.div_mod_to_equations. lia.
Qed.

Lemma hex02_ascii l : forallb is_ascii (concat (hex02 <$> l)) = true.
Proof.
  induction l as [|b l IH]; [done |]. cbn. rewrite !digit_char_ascii by apply hex02_range. exact IH.
Qed.

(** [PeerId::from_cert]: the hexadecimal SHA-256 digest of the certificate, unchecked. *)
Definition PeerId_from_cert `{CryptoLib} (cert : list byte) : PeerId :=
  mkPeerId (ascii_string _ (hex02_ascii (digest_SHA256 cert))).

(** [struct Identity]: raw certificate and private key. *)
Record Identity := mkIdentity { certificate : list byte; private_key : list byte }.

(** [Identity::from_raw], [to_raw] and [into_rustls]. *)
Definition Identity_from_raw (cert key : list byte) : Identity := mkIdentity cert key.
Definition Identity_to_raw (i : Identity) : list byte * list byte := (certificate i, private_key i).
Definition Identity_into_rustls (i : Identity) : list byte * list byte := (certificate i, private_key i).

(** What [Identity::new] uses of rcgen: certificate parameters (those it sets, the others are rcgen's
    defaults), and the generation of a certificate with its key and of its signed form, each from a source
    of randomness and each with its errors. *)
Inductive DnType : Type := CommonName.
Inductive SanType : Type := IpAddress (ip : IpAddr).
Record CertificateParams := mkCertificateParams {
  distinguished_name : list (DnType * RString);
  subject_alt_names : list SanType
}.

Class RcgenLib := {
  Certificate : Type;
  RcgenError : Type;
  Certificate_from_params : Z -> CertificateParams -> Result RcgenError Certificate;
  serialize_der : Z -> Certificate -> Result RcgenError (list byte);
  serialize_private_key_der : Certificate -> list byte
}.

Lemma common_name_ascii : forallb is_ascii (bytes_of_string "fd-p2p-identity") = true.
Proof. reflexivity. Qed.
Definition CERTIFICATE_COMMON_NAME : RString := ascii_string (bytes_of_string "fd-p2p-identity") common_name_ascii.

(** [Identity::new], from two random seeds. *)
Definition Identity_new `{RcgenLib} (seed seed' : Z) : panicking Identity :=
  let parameters := mkCertificateParams [(CommonName, CERTIFICATE_COMMON_NAME)] [IpAddress (IpV4 Ipv4Addr_LOCALHOST)] in
  cert ← unwrap_res (Certificate_from_params seed parameters);
  certificate ← unwrap_res (serialize_der seed' cert);
  mret (mkIdentity certificate (serialize_private_key_der cert)).

(** ** peer.rs *)

(** [#[repr(u16)] enum DeviceType], with its derived [TryFromPrimitive], [IntoPrimitive]. *)
Inductive DeviceType : Type :=
| AppleiPhone | AppleiPad | AndroidDevice | Windows10Desktop | LinuxDevice | WindowsLaptop.

#[global] Instance DeviceType_eq_dec : EqDecision DeviceType.
Proof. solve_decision. Defined.

Definition DeviceType_into (t : DeviceType) : Z :=
  match t with
  | AppleiPhone => 6 | AppleiPad => 7 | AndroidDevice => 8
  | Windows10Desktop => 9 | LinuxDevice => 12 | WindowsLaptop => 15
  end.

Definition DeviceType_try_from (n : Z) : Result Z DeviceType :=
  if n =? 6 then Ok AppleiPhone else if n =? 7 then Ok AppleiPad
  else if n =? 8 then Ok AndroidDevice else if n =? 9 then Ok Windows10Desktop
  else if n =? 12 then Ok LinuxDevice else if n =? 15 then Ok WindowsLaptop else Err n.

(** [struct PeerMetadata]. *)
Record PeerMetadata := mkPeerMetadata {
  pm_name : RString;
  pm_typ : DeviceType;
  pm_id : PeerId;
  pm_addr : SocketAddr
}.

#[global] Instance PeerMetadata_eq_dec : EqDecision PeerMetadata.
Proof. solve_decision. Defined.

(** [impl Hash for PeerMetadata]: the bytes written to the hasher, those of the id. *)
Definition PeerId_hash (id : PeerId) : list byte := PeerId_bytes id ++ [xff].
Definition PeerMetadata_hash (m : PeerMetadata) : list byte := PeerId_hash (pm_id m).

(** Metadata collides exactly on equal ids; in particular equal metadata has equal hashes. *)
Lemma PeerMetadata_hash_eq a b : PeerMetadata_hash a = PeerMetadata_hash b <-> pm_id a = pm_id b.
Proof.
  split; [| unfold PeerMetadata_hash; by intros ->]. intros H. apply app_inv_tail in H.
  destruct (pm_id a) as [s], (pm_id b) as [s']. f_equal. by apply RString_eq.
Qed.

(** [enum ConnectionType]. *)
Inductive ConnectionType : Type := Server | Client.

#[global] Instance ConnectionType_eq_dec : EqDecision ConnectionType.
Proof. solve_decision. Defined.

(** [struct PeerCandidate]; [addrs] is a [HashSet]. *)
Record PeerCandidate `{CryptoLib} := mkPeerCandidate {
  pc_id : PeerId;
  pc_metadata : PeerMetadata;
  pc_addrs : gset SocketAddr;
  pc_auth : PairingAuthenticator
}.

#[global] Arguments mkPeerCandidate {H} _ _ _ _.

(** [PeerCandidate::new]. *)
Definition PeerCandidate_new `{CryptoLib} (metadata : PeerMetadata) (auth : PairingAuthenticator)
  : PeerCandidate :=
  {| pc_id := pm_id metadata; pc_addrs := ∅; pc_auth := auth; pc_metadata := metadata |}.

(** [struct Peer]; [peer_conn] stands for the application's end of the duplex stream. *)
Record Peer := mkPeer {
  peer_id : PeerId;
  peer_conn_type : ConnectionType;
  peer_metadata : PeerMetadata;
  peer_conn : Z
}.

(** ** event.rs *)

Inductive P2pEvent : Type :=
| PeerDiscovered (m : PeerMetadata)
| PeerConnected (p : Peer)
| PeerDisconnected (id : PeerId).

Inductive DiscoveryEvent : Type :=
| PresenceRequest
| PresenceResponse (m : PeerMetadata).

(** [enum InternalEvent {}]: no values. *)
Inductive InternalEvent : Type := .

#[global] Instance DiscoveryEvent_eq_dec : EqDecision DiscoveryEvent.
Proof. solve_decision. Defined.

(** The values the field types of [PeerMetadata] can hold. *)
Definition PeerMetadata_wf (m : PeerMetadata) : bool := SocketAddr_wf (pm_addr m).

(** ** Lemmas *)

Lemma DeviceType_try_from_into t : DeviceType_try_from (DeviceType_into t) = Ok t.
Proof. by destruct t. Qed.

Lemma DeviceType_into_u16 t : is_u16 (DeviceType_into t) = true.
Proof. by destruct t. Qed.

Section IdFacts.
Context {U : UnicodeTables}.

(** [from_string] accepts exactly the valid ids and keeps the string. *)
Lemma PeerId_from_string_Ok s id :
  PeerId_from_string s = Ok id <-> id = mkPeerId s /\ PeerId_valid id = true.
Proof.
  unfold PeerId_from_string, PeerId_valid.
  destruct (str_len s =? 40) eqn:E1; cbn; [destruct (forallb is_alphanumeric (chars s)) eqn:E2; cbn |];
    (split; [intros [= <-] | intros [-> H]; cbn in H; rewrite ?E1, ?E2 in H]); cbn; rewrite ?E1, ?E2; done.
Qed.

Lemma PeerId_from_string_valid id : PeerId_valid id = true -> PeerId_from_string (PeerId_0 id) = Ok id.
Proof. intros H. apply PeerId_from_string_Ok. by destruct id. Qed.

Lemma PeerId_valid_length id : PeerId_valid id = true -> zlen (PeerId_bytes id) = 40.
Proof. unfold PeerId_valid. intros H. bool_arith. done. Qed.

End IdFacts.

Lemma length_hex l : length (concat (hex02 <$> l)) = (2 * length l)%nat.
Proof. induction l as [|b l IH]; [done |]. cbn [fmap list_fmap concat]. rewrite length_app, IH. cbn. lia. Qed.

Lemma PeerId_from_cert_length {C : CryptoLib} {L : CryptoLaws C} cert : zlen (PeerId_bytes (PeerId_from_cert cert)) = 64.
Proof. unfold zlen. cbn. by rewrite length_hex, digest_SHA256_length. Qed.
