(* ===== verification/Proto.v ===== *)
(** The wire protocol: crate/p2p/src/proto.rs, and [impl Frame for DiscoveryEvent] of
    crate/p2p/src/event.rs.

    Decoders and encoders are computations over the buffer they mutate; a panic ([unwrap],
    a read past the end) is an outcome of its own.  [Wire] states the layouts that
    doc/Protocol.md gives, as a specification the codecs are proved against in ProtoFacts. *)

From Stdlib Require Import ZArith Lia.
From Stdlib Require Import Strings.Byte.
From stdpp Require Import base tactics numbers option list.
From S2P Require Import Prelude RustStd SockAddr SockAddrFacts Errors Pairing Peer.

(** [const SIGNATURE: [u8; 2]]. *)
Definition SIGNATURE : list byte := [x40; x40].

(** [trait Frame]: each frame knows its length before sending; [u16] arithmetic may panic. *)
Class Frame (A : Type) := frame_len : A -> panicking Z.

(** [tokio_util::codec::{Decoder, Encoder}] for one kind of item. *)
Class Codec (Item : Type) := {
  decode : bufio ParseError (option Item);
  encode : Item -> bufio ParseError unit
}.

(** ** Header *)

Record Header := mkHeader { h_length : Z; h_message_type : MessageType }.

#[global] Instance Header_Frame : Frame Header := fun _ => Val (2 + 2 + 1).

(** [Header::new]. *)
Definition Header_new `{Profile} {A} `{Frame A} (typ : MessageType) (item : A) : panicking Header :=
  len ← frame_len item;
  let header := mkHeader len typ in
  own ← frame_len header;
  length ← u16_add (h_length header) own;
  mret (mkHeader length (h_message_type header)).

(** [src.get(lo..hi)]. *)
Definition slice_get (lo hi : nat) (src : list byte) : option (list byte) :=
  if decide (lo <= hi <= length src)%nat then Some (take (hi - lo) (drop lo src)) else None.

(** [ReadBytesExt::read_u16::<BigEndian>] on a slice. *)
Definition read_u16 (l : list byte) : Result unit Z :=
  if decide (2 <= length l)%nat then Ok (be_value (take 2 l)) else Err tt.

(** [HeaderCodec::decode]. *)
Definition HeaderCodec_decode : bufio ParseError (option Header) :=
  src ← peek;
  if zlen src <? 5 then mret None
  else match slice_get 0 2 src with
  | None => mret None
  | Some signature_raw =>
    if bool_decide (signature_raw <> SIGNATURE) then throw NotAPacket
    else match slice_get 2 4 src with
    | None => mret None
    | Some len_bytes =>
      match read_u16 len_bytes with
      | Err _ => mret None
      | Ok message_length =>
        if zlen src <? message_length then mret None
        else
          _ ← advance 4;
          message_type_raw ← get_u8;
          message_type ← lift_res
            (map_err ParseError_from_TryFromPrimitive (MessageType_try_from message_type_raw));
          mret (Some (mkHeader message_length message_type))
      end
    end
  end.

(** [HeaderCodec::encode]. *)
Definition HeaderCodec_encode (item : Header) : bufio ParseError unit :=
  _ ← put SIGNATURE;
  _ ← put_u16 (h_length item);
  put_u8 (MessageType_into (h_message_type item)).

(** ** Discovery messages *)

(** [impl Frame for DiscoveryEvent] (event.rs), additions from left to right. *)
#[global] Instance DiscoveryEvent_Frame `{Profile} : Frame DiscoveryEvent := fun e =>
  match e with
  | PresenceRequest => Val 1
  | PresenceResponse meta =>
      n ← u16_try_from_unwrap (str_len (pm_name meta));
      s ← u16_add (1 + 2 + 2) n;
      s ← u16_add s 40;
      s ← u16_add s 2;
      a ← u16_try_from_unwrap (str_len (SocketAddr_to_string (pm_addr meta)));
      u16_add s a
  end.

Section Codecs.
Context {U : UnicodeTables} {P : Profile}.

(** [DiscoveryCodec::decode]. *)
Definition DiscoveryCodec_decode : bufio ParseError (option DiscoveryEvent) :=
  header ← HeaderCodec_decode;
  match header with
  | None => mret None
  | Some header =>
    if bool_decide (h_message_type header <> Discovery) then throw (MsgType (h_message_type header))
    else
      t ← get_u8;
      if t =? 0 then mret (Some PresenceRequest)
      else if t =? 1 then
        device_type_raw ← get_u16;
        device_name_length ← get_u16;
        device_name_bytes ← split_to device_name_length;
        device_name ← lift_panic (unwrap_opt (from_utf8 device_name_bytes));
        device_id_raw ← split_to 40;
        device_id ← lift_panic (unwrap_opt (from_utf8 device_id_raw));
        id ← lift_res (map_err Id (PeerId_from_string device_id));
        device_addr_length ← get_u16;
        device_addr_bytes ← split_to device_addr_length;
        device_addr_str ← lift_panic (unwrap_opt (from_utf8 device_addr_bytes));
        device_addr ← lift_res (match SocketAddr_parse device_addr_str with
                                | Some a => Ok a | None => Err ParseAddr end);
        device_type ← lift_res
          (map_err ParseError_from_TryFromPrimitive (DeviceType_try_from device_type_raw));
        mret (Some (PresenceResponse {| pm_typ := device_type; pm_name := device_name;
                                        pm_id := id; pm_addr := device_addr |}))
      else throw (Enum t)
  end.

(** [DiscoveryCodec::encode]. *)
Definition DiscoveryCodec_encode (item : DiscoveryEvent) : bufio ParseError unit :=
  header ← lift_panic (Header_new Discovery item);
  _ ← HeaderCodec_encode header;
  match item with
  | PresenceRequest => put_u8 0
  | PresenceResponse metadata =>
      _ ← put_u8 1;
      _ ← put_u16 (DeviceType_into (pm_typ metadata));
      name_len ← lift_panic (u16_try_from_unwrap (str_len (pm_name metadata)));
      _ ← put_u16 name_len;
      _ ← put (as_bytes (pm_name metadata));
      _ ← put (PeerId_bytes (pm_id metadata));
      let addr := SocketAddr_to_string (pm_addr metadata) in
      addr_len ← lift_panic (u16_try_from_unwrap (str_len addr));
      _ ← put_u16 addr_len;
      put (as_bytes addr)
  end.

#[global] Instance DiscoveryCodec : Codec DiscoveryEvent :=
  {| decode := DiscoveryCodec_decode; encode := DiscoveryCodec_encode |}.

(** ** Connection messages *)

(** [enum Connection]. *)
Inductive Connection : Type :=
| Request (id : PeerId) (tag : list byte)
| Response (tag : list byte)
| CompleteRequest
| CompleteResponse
| Failure (code : Z).

#[global] Instance Connection_eq_dec : EqDecision Connection.
Proof. solve_decision. Defined.

(** [impl Frame for Connection]. *)
#[global] Instance Connection_Frame : Frame Connection := fun c =>
  Val (match c with
       | Request _ _ => 1 + 40 + 32
       | Response _ => 1 + 32
       | CompleteRequest => 1
       | CompleteResponse => 1
       | Failure _ => 1 + 4
       end).

(** [ConnectionCodec::decode]. *)
Definition ConnectionCodec_decode : bufio ParseError (option Connection) :=
  header ← HeaderCodec_decode;
  match header with
  | None => mret None
  | Some header =>
    if bool_decide (h_message_type header <> Connect) then throw (MsgType (h_message_type header))
    else
      t ← get_u8;
      if t =? 0 then
        peer_id_raw ← split_to 40;
        peer_id_str ← lift_panic (unwrap_opt (from_utf8 peer_id_raw));
        peer_id ← lift_panic (unwrap_res (PeerId_from_string peer_id_str));
        hmac ← split_to 32;
        mret (Some (Request peer_id hmac))
      else if t =? 1 then
        hmac ← split_to 32;
        mret (Some (Response hmac))
      else if t =? 2 then mret (Some CompleteRequest)
      else if t =? 3 then mret (Some CompleteResponse)
      else if t =? 4 then
        code ← get_u32;
        mret (Some (Failure code))
      else throw (Enum t)
  end.

(** [ConnectionCodec::encode]. *)
Definition ConnectionCodec_encode (item : Connection) : bufio ParseError unit :=
  header ← lift_panic (Header_new Connect item);
  _ ← HeaderCodec_encode header;
  match item with
  | Request id tag => _ ← put_u8 0; _ ← put (PeerId_bytes id); put tag
  | Response tag => _ ← put_u8 1; put tag
  | CompleteRequest => put_u8 2
  | CompleteResponse => put_u8 3
  | Failure code => _ ← put_u8 4; put_u32 code
  end.

#[global] Instance ConnectionCodec : Codec Connection :=
  {| decode := ConnectionCodec_decode; encode := ConnectionCodec_encode |}.

End Codecs.

(** ** Draining a buffer *)

(** The [consume] loop of the tests of proto.rs: decode until [Ok(None)], collecting
    the items and panicking on an error.  [None] is running out of fuel. *)
Fixpoint consume {Item} (dec : bufio ParseError (option Item)) (fuel : nat) (src : list byte)
    (result : list (option Item)) : option (panicking (list (option Item) * list byte)) :=
  match fuel with
  | O => None
  | S fuel' =>
      match dec src with
      | Panic => Some Panic
      | Val (Ok None, src') => Some (Val (result, src'))
      | Val (Ok (Some i), src') => consume dec fuel' src' (result ++ [Some i])
      | Val (Err _, _) => Some Panic
      end
  end.

(** ** The layouts of doc/Protocol.md *)

Module Wire.

(** Common header: signature, length of the whole message, message type. *)
Definition header (t : MessageType) (payload : list byte) : list byte :=
  SIGNATURE ++ be_u16 (5 + zlen payload) ++ [byte_of_Z (MessageType_into t)].

Definition frame (t : MessageType) (payload : list byte) : list byte := header t payload ++ payload.

Definition discovery_payload (e : DiscoveryEvent) : list byte :=
  match e with
  | PresenceRequest => [x00]
  | PresenceResponse m =>
      [x01] ++ be_u16 (DeviceType_into (pm_typ m)) ++ be_u16 (str_len (pm_name m))
      ++ as_bytes (pm_name m) ++ PeerId_bytes (pm_id m)
      ++ be_u16 (zlen (show_addr (pm_addr m))) ++ show_addr (pm_addr m)
  end.

Definition connection_payload (c : Connection) : list byte :=
  match c with
  | Request id tag => [x00] ++ PeerId_bytes id ++ tag
  | Response tag => [x01] ++ tag
  | CompleteRequest => [x02]
  | CompleteResponse => [x03]
  | Failure code => [x04] ++ be_u32 code
  end.

Definition discovery (e : DiscoveryEvent) : list byte := frame Discovery (discovery_payload e).
Definition connection (c : Connection) : list byte := frame Connect (connection_payload c).

End Wire.

(** Messages the protocol can carry: a 40-byte alphanumeric id, a 32-byte tag, a [u32] code; for
    a presence response, an address without flow label and a message that fits in [u16]. *)
Definition Connection_wf `{UnicodeTables} (c : Connection) : bool :=
  match c with
  | Request id tag => PeerId_valid id && (zlen tag =? 32)
  | Response tag => zlen tag =? 32
  | CompleteRequest | CompleteResponse => true
  | Failure code => is_u32 code
  end.

Definition DiscoveryEvent_wf `{UnicodeTables} (e : DiscoveryEvent) : bool :=
  match e with
  | PresenceRequest => true
  | PresenceResponse m =>
      PeerId_valid (pm_id m) && SocketAddr_wf (pm_addr m) && flowinfo_zero (pm_addr m)
      && (5 + zlen (Wire.discovery_payload e) <? 65536)
  end.

(** ** The interface of a codec *)

(** What a framed stream needs of a codec, for the messages [wf] accepts, with [wire] their
    bytes: encoding appends [wire m]; decoding takes exactly [wire m] off the front; on a strict
    prefix it waits, leaving the bytes; and every decoded item consumes input. *)
Class CodecLaws (Item : Type) (C : Codec Item) (wf : Item -> bool) (wire : Item -> list byte) : Prop := {
  encode_wire : forall m dst, wf m = true -> encode m dst = Val (Ok tt, dst ++ wire m);
  decode_wire : forall m rest, wf m = true -> decode (wire m ++ rest) = Val (Ok (Some m), rest);
  decode_prefix : forall m p q, wf m = true -> wire m = p ++ q -> q <> [] -> decode p = Val (Ok None, p);
  decode_progress : forall src m src', decode src = Val (Ok (Some m), src') ->
    exists used, src = used ++ src' /\ (6 <= length used)%nat
}.
