(* ===== verification/ProtoFacts.v ===== *)
(** Properties of the wire protocol.

    - The codecs implement the layouts of doc/Protocol.md: encoding appends exactly the
      specified bytes, decoding takes them off the front of a stream, and a strict prefix of a
      message is left alone until the rest arrives ([CodecLaws] instances and the claims on them).
    - Streams: draining any concatenation of messages gives the messages back and terminates.
    - What decoding accepts: exact inversion, well-formed results, error cases, progress.
    - What it does not survive: the buffers on which decoding panics. *)

From Stdlib Require Import ZArith Lia.
From Stdlib Require Import Strings.Byte.
From stdpp Require Import base tactics numbers option list strings.
From S2P Require Import Prelude RustStd SockAddr SockAddrFacts Errors Pairing Peer Proto.

(** ** Headers *)

(** [HeaderCodec::decode] in closed form on a buffer of at least five bytes. *)
Lemma HeaderCodec_decode_cons s0 s1 l0 l1 t rest :
  HeaderCodec_decode (s0 :: s1 :: l0 :: l1 :: t :: rest) =
  if bool_decide ([s0; s1] <> SIGNATURE)
  then Val (Err NotAPacket, s0 :: s1 :: l0 :: l1 :: t :: rest)
  else if 5 + zlen rest <? be_value [l0; l1]
  then Val (Ok None, s0 :: s1 :: l0 :: l1 :: t :: rest)
  else match MessageType_try_from (byte_to_Z t) with
       | Ok mt => Val (Ok (Some (mkHeader (be_value [l0; l1]) mt)), rest)
       | Err n => Val (Err (Enum n), rest)
       end.
Proof.
  unfold HeaderCodec_decode. buf_step. rewrite !zlen_cons.
  replace (1 + (1 + (1 + (1 + (1 + zlen rest))))) with (5 + zlen rest) by lia.
  rewrite (proj2 (Z.ltb_ge _ 5)) by (pose proof (zlen_nonneg rest); lia).
  cbn [slice_get]. unfold slice_get. rewrite !decide_True by (cbn; lia). cbn [Nat.sub take drop firstn skipn].
  case_bool_decide; [done |]. unfold read_u16. rewrite decide_True by (cbn; lia). cbn [take firstn].
  destruct (5 + zlen rest <? _); [done |]. unfold advance.
  rewrite decide_True by (rewrite !zlen_cons; pose proof (zlen_nonneg rest); lia).
  change (drop (Z.to_nat 4) (s0 :: s1 :: l0 :: l1 :: t :: rest)) with (t :: rest).
  rewrite get_u8_cons. by destruct (MessageType_try_from _).
Qed.

Lemma HeaderCodec_decode_short src : zlen src < 5 -> HeaderCodec_decode src = Val (Ok None, src).
Proof. intros H. unfold HeaderCodec_decode. buf_step. by rewrite (proj2 (Z.ltb_lt _ 5)) by lia. Qed.

(** The header of a frame, with whatever follows. *)
Lemma HeaderCodec_decode_frame t payload rest : zlen payload < 65531 ->
  HeaderCodec_decode (Wire.frame t payload ++ rest)
  = Val (Ok (Some (mkHeader (5 + zlen payload) t)), payload ++ rest).
Proof.
  intros H. pose proof (zlen_nonneg payload). unfold Wire.frame, Wire.header. rewrite <- !app_assoc.
  unfold SIGNATURE, be_u16. cbn [app]. rewrite HeaderCodec_decode_cons.
  fold (be_u16 (5 + zlen payload)). rewrite be_value_u16 by (unfold is_u16; lia).
  rewrite bool_decide_eq_false_2 by (intros []; reflexivity).
  rewrite zlen_app, (proj2 (Z.ltb_ge _ _)) by (pose proof (zlen_nonneg rest); lia).
  by rewrite is_u8_of_byte_small, MessageType_try_from_into by apply MessageType_into_u8.
Qed.

(** A strict prefix of a frame is not enough. *)
Lemma HeaderCodec_decode_prefix t payload p q : zlen payload < 65531 ->
  Wire.frame t payload = p ++ q -> q <> [] -> HeaderCodec_decode p = Val (Ok None, p).
Proof.
  intros H E Hq. pose proof (zlen_nonneg payload).
  destruct (Z.lt_ge_cases (zlen p) 5) as [Hp|Hp]; [by apply HeaderCodec_decode_short |].
  assert (zlen p < 5 + zlen payload) as Hlt.
  { apply (f_equal zlen) in E. rewrite zlen_app in E. unfold Wire.frame, Wire.header in E.
    rewrite !zlen_app in E. cbn in E. destruct q; [done |]. rewrite zlen_cons in E.
    pose proof (zlen_nonneg q). unfold zlen in *. cbn in *. lia. }
  destruct p as [|s0 [|s1 [|l0 [|l1 [|b p]]]]]; try zlen_lia.
  unfold Wire.frame, Wire.header, SIGNATURE, be_u16 in E. cbn [app] in E.
  injection E as <- <- <- <- _ _. rewrite HeaderCodec_decode_cons.
  fold (be_u16 (5 + zlen payload)). rewrite be_value_u16 by (unfold is_u16; lia).
  rewrite bool_decide_eq_false_2 by (intros []; reflexivity).
  rewrite !zlen_cons in Hlt. by rewrite (proj2 (Z.ltb_lt _ _)) by lia.
Qed.

(** The shape of every buffer a header is decoded from. *)
Lemma HeaderCodec_decode_Some src h src' :
  HeaderCodec_decode src = Val (Ok (Some h), src') ->
  exists lenb, length lenb = 2%nat /\ be_value lenb = h_length h /\ h_length h <= zlen src /\
    src = SIGNATURE ++ lenb ++ [byte_of_Z (MessageType_into (h_message_type h))] ++ src'.
Proof.
  destruct (Z.lt_ge_cases (zlen src) 5) as [Hp|Hp]; [by rewrite HeaderCodec_decode_short |].
  destruct src as [|s0 [|s1 [|l0 [|l1 [|b p]]]]]; try zlen_lia.
  rewrite HeaderCodec_decode_cons. case_bool_decide as Hs; [done |].
  destruct (5 + zlen p <? _) eqn:El; [done |]. bool_arith.
  destruct (MessageType_try_from _) as [mt|n] eqn:Et; [| done]. intros [= <- <-].
  apply MessageType_try_from_Ok in Et. exists [l0; l1]. rewrite !zlen_cons. split_and!; cbn [h_length]; try done; [lia |].
  assert ([s0; s1] = SIGNATURE) as [= -> ->] by (destruct (decide ([s0; s1] = SIGNATURE)); tauto).
  cbn. by rewrite <- Et, byte_of_Z_to_Z.
Qed.

Lemma HeaderCodec_encode_frame t payload dst :
  HeaderCodec_encode (mkHeader (5 + zlen payload) t) dst = Val (Ok tt, dst ++ Wire.header t payload).
Proof. unfold HeaderCodec_encode, Wire.header. buf_step. by rewrite <- !app_assoc. Qed.

Lemma Header_new_len `{Profile} {A} `{Frame A} t (x : A) n :
  frame_len x = Val n -> 0 <= n < 65531 -> Header_new t x = Val (mkHeader (5 + n) t).
Proof.
  intros Hx Hn. unfold Header_new. rewrite Hx. cbn [mbind panicking_bind].
  change (frame_len (mkHeader n t)) with (@Val Z 5). cbn [mbind panicking_bind h_length].
  rewrite u16_add_small by (unfold is_u16; lia). cbn. by rewrite Z.add_comm.
Qed.

Section Facts.
Context {U : UnicodeTables} {P : Profile}.

(** ** Connection messages *)

Lemma connection_payload_len c : Connection_wf c = true ->
  frame_len c = Val (zlen (Wire.connection_payload c)) /\ zlen (Wire.connection_payload c) < 65531.
Proof.
  destruct c as [id tag|tag| | |code]; cbn [Connection_wf Wire.connection_payload frame_len Connection_Frame];
    intros H; try done.
  - apply andb_true_iff in H as [Hid%PeerId_valid_length Ht%Z.eqb_eq].
    rewrite !zlen_app, Hid, Ht. done.
  - apply Z.eqb_eq in H. rewrite zlen_app, H. done.
Qed.

Lemma decode_connection_payload h c rest src : Connection_wf c = true -> h_message_type h = Connect ->
  HeaderCodec_decode src = Val (Ok (Some h), Wire.connection_payload c ++ rest) ->
  ConnectionCodec_decode src = Val (Ok (Some c), rest).
Proof.
  intros Hwf Ht Hd. unfold ConnectionCodec_decode. buf_step. rewrite Hd.
  rewrite Ht, bool_decide_eq_false_2 by (intros []; reflexivity).
  destruct c as [id tag|tag| | |code]; cbn [Wire.connection_payload Connection_wf] in *;
    rewrite <- ?app_assoc; cbn [app]; rewrite get_u8_cons; cbn -[split_to get_be be_u32]; try done.
  - apply andb_true_iff in Hwf as [Hid Htag%Z.eqb_eq].
    rewrite split_to_app by (by apply PeerId_valid_length).
    unfold PeerId_bytes, PeerId_inner. rewrite from_utf8_as_bytes. cbn -[split_to PeerId_from_string].
    rewrite PeerId_from_string_valid by done. cbn -[split_to]. by rewrite split_to_app.
  - apply Z.eqb_eq in Hwf. by rewrite split_to_app.
  - by rewrite get_u32_app.
Qed.

Lemma ConnectionCodec_encode_wire c dst : Connection_wf c = true ->
  ConnectionCodec_encode c dst = Val (Ok tt, dst ++ Wire.connection c).
Proof.
  intros Hwf. destruct (connection_payload_len c Hwf) as [Hl Hb].
  pose proof (zlen_nonneg (Wire.connection_payload c)).
  unfold ConnectionCodec_encode. rewrite (Header_new_len _ _ _ Hl) by lia. buf_step.
  rewrite HeaderCodec_encode_frame. unfold Wire.connection, Wire.frame.
  destruct c; cbn [Wire.connection_payload]; by rewrite <- ?app_assoc.
Qed.

(** Encoding a connection message never panics and never fails, for any id and tag. *)
Lemma ConnectionCodec_encode_total c dst : exists bytes, ConnectionCodec_encode c dst = Val (Ok tt, bytes).
Proof.
  assert (H : exists n, frame_len c = Val n /\ 0 <= n < 65531) by (destruct c; eexists; (split; [reflexivity | lia])).
  destruct H as (n & Hl & Hn). unfold ConnectionCodec_encode. rewrite (Header_new_len _ _ _ Hl Hn). buf_step.
  unfold HeaderCodec_encode. buf_step. destruct c; eexists; reflexivity.
Qed.

(** The bytes a successful decoding of a connection message took: the signature, a length field
    that does not exceed the buffer (and is not otherwise checked), the type, the payload. *)
Lemma ConnectionCodec_decode_inv src c rest :
  ConnectionCodec_decode src = Val (Ok (Some c), rest) ->
  Connection_wf c = true /\ exists lenb, length lenb = 2%nat /\ be_value lenb <= zlen src /\
    src = SIGNATURE ++ lenb ++ [byte_of_Z 2] ++ Wire.connection_payload c ++ rest.
Proof.
  unfold ConnectionCodec_decode. intros H. apply bufio_bind_Ok in H as ([h|] & s1 & Eh & H); [| done].
  apply HeaderCodec_decode_Some in Eh as (lenb & Hlen & Hbe & Hle & Hsrc).
  case_bool_decide as Hm; [done |].
  assert (h_message_type h = Connect) as Hc by (destruct (h_message_type h); tauto || done).
  enough (Connection_wf c = true /\ s1 = Wire.connection_payload c ++ rest) as [? ->].
  { split; [done |]. exists lenb. rewrite Hc in Hsrc. rewrite Hbe. by split_and!. }
  clear Hsrc Hle Hbe Hlen Hm Hc. apply bufio_bind_Ok in H as (t & s2 & Hg & H).
  apply get_be_Ok in Hg as (l & Hl & -> & Hv).
  destruct (t =? 0) eqn:E0; [| destruct (t =? 1) eqn:E1; [| destruct (t =? 2) eqn:E2;
    [| destruct (t =? 3) eqn:E3; [| destruct (t =? 4) eqn:E4]]]]; bool_arith; buf_inv; subst; try done;
    rewrite (one_byte _ _ Hl ltac:(eassumption)); cbn [Connection_wf Wire.connection_payload].
  - match goal with H : PeerId_from_string _ = Ok _ |- _ => apply PeerId_from_string_Ok in H as [-> ->] end.
    match goal with H : from_utf8 _ = Some _ |- _ => apply from_utf8_Some in H as <- end.
    split; [by apply Z.eqb_eq |]. by rewrite <- !app_assoc.
  - split; [by apply Z.eqb_eq |]. by rewrite <- !app_assoc.
  - done.
  - done.
  - split; [by apply be_value_is_u32 |]. by rewrite be_u32_value, <- !app_assoc.
Qed.

(** Each decoded item takes at least the header and the type byte. *)
Lemma ConnectionCodec_decode_progress src c rest :
  ConnectionCodec_decode src = Val (Ok (Some c), rest) ->
  exists used, src = used ++ rest /\ (6 <= length used)%nat.
Proof.
  intros (_ & lenb & Hl & _ & ->)%ConnectionCodec_decode_inv.
  exists (SIGNATURE ++ lenb ++ [byte_of_Z 2] ++ Wire.connection_payload c). rewrite <- !app_assoc. split; [done |].
  rewrite !length_app, Hl. cbn [length SIGNATURE]. destruct c; cbn; lia.
Qed.

#[export] Instance ConnectionCodec_laws :
  CodecLaws Connection ConnectionCodec Connection_wf Wire.connection.
Proof.
  split.
  - intros m dst. apply ConnectionCodec_encode_wire.
  - intros m rest Hwf. destruct (connection_payload_len m Hwf) as [_ Hb].
    eapply decode_connection_payload; [done | | by apply HeaderCodec_decode_frame]. done.
  - intros m p q Hwf E Hq. destruct (connection_payload_len m Hwf) as [_ Hb].
    cbn [decode ConnectionCodec]. unfold ConnectionCodec_decode. buf_step.
    by rewrite (HeaderCodec_decode_prefix _ _ _ _ Hb E Hq).
  - intros src m src'. apply ConnectionCodec_decode_progress.
Qed.

(** ** Discovery messages *)

Lemma discovery_payload_zlen m : PeerId_valid (pm_id m) = true ->
  zlen (Wire.discovery_payload (PresenceResponse m))
  = 47 + str_len (pm_name m) + zlen (show_addr (pm_addr m)).
Proof.
  intros Hid%PeerId_valid_length. cbn [Wire.discovery_payload]. rewrite !zlen_app, Hid. unfold str_len.
  change (zlen [x01]) with 1. change (zlen (be_u16 _)) with 2. lia.
Qed.

Lemma DiscoveryEvent_wf_response m : DiscoveryEvent_wf (PresenceResponse m) = true ->
  PeerId_valid (pm_id m) = true /\ SocketAddr_wf (pm_addr m) = true /\ flowinfo_zero (pm_addr m) = true /\
  zlen (Wire.discovery_payload (PresenceResponse m)) < 65531 /\
  is_u16 (str_len (pm_name m)) = true /\ is_u16 (zlen (show_addr (pm_addr m))) = true.
Proof.
  cbn [DiscoveryEvent_wf]. rewrite !andb_true_iff. intros (((Hid & Ha) & Hf) & Hl%Z.ltb_lt).
  rewrite discovery_payload_zlen in * by done. pose proof (str_len_nonneg (pm_name m)).
  pose proof (zlen_nonneg (show_addr (pm_addr m))). unfold is_u16. split_and!; try done; lia.
Qed.

(** The length a presence response declares, in a build that checks overflow and in one that
    wraps; the forty bytes of the id are counted whatever the id is. *)
Definition declared_length (m : PeerMetadata) : Z := 52 + str_len (pm_name m) + zlen (show_addr (pm_addr m)).

Lemma u16_add_checked a b : overflow_checks = true -> 0 <= a + b ->
  u16_add a b = if a + b <? 65536 then Val (a + b) else Panic.
Proof.
  intros Hc H0. unfold u16_add, is_u16. rewrite Hc, (proj2 (Z.leb_le 0 _)) by lia. done.
Qed.

Lemma u16_add_wrapping a b : overflow_checks = false -> 0 <= a + b -> u16_add a b = Val ((a + b) mod 65536).
Proof.
  intros Hc H0. unfold u16_add. rewrite Hc. destruct (is_u16 (a + b)) eqn:E; [| done].
  bool_arith. by rewrite Z.mod_small by lia.
Qed.

Lemma response_header m : SocketAddr_wf (pm_addr m) = true -> is_u16 (str_len (pm_name m)) = true ->
  Header_new Discovery (PresenceResponse m) =
  if declared_length m <? 65536 then Val (mkHeader (declared_length m) Discovery)
  else if overflow_checks then Panic else Val (mkHeader (declared_length m mod 65536) Discovery).
Proof.
  intros Hwf Hn. pose proof (show_addr_length _ Hwf). pose proof (zlen_nonneg (show_addr (pm_addr m))).
  unfold declared_length, Header_new. cbn [frame_len DiscoveryEvent_Frame]. unfold u16_try_from_unwrap.
  change (str_len (SocketAddr_to_string (pm_addr m))) with (zlen (show_addr (pm_addr m))).
  rewrite Hn. replace (is_u16 (zlen (show_addr (pm_addr m)))) with true by (unfold is_u16; lia). bool_arith.
  set (n := str_len (pm_name m)) in *. set (a := zlen (show_addr (pm_addr m))) in *.
  destruct (52 + n + a <? 65536) eqn:Et; bool_arith; [| destruct overflow_checks eqn:Ec].
  - cbn [mbind panicking_bind].
    do 4 (rewrite u16_add_small by (unfold is_u16; lia); cbn [mbind panicking_bind]).
    cbn [frame_len Header_Frame mbind panicking_bind h_length h_message_type].
    rewrite u16_add_small by (unfold is_u16; lia). cbn. do 2 f_equal. lia.
  - cbn [mbind panicking_bind].
    do 4 (rewrite u16_add_checked by (done || lia); case_match; cbn [mbind panicking_bind]; [| done]).
    cbn [frame_len Header_Frame mbind panicking_bind h_length h_message_type].
    rewrite u16_add_checked by (done || lia). by rewrite (proj2 (Z.ltb_ge _ _)) by lia.
  - cbn [mbind panicking_bind].
    do 4 (rewrite u16_add_wrapping by (done || Z.div_mod_to_equations; lia); cbn [mbind panicking_bind]).
    cbn [frame_len Header_Frame mbind panicking_bind h_length h_message_type].
    rewrite u16_add_wrapping by (done || Z.div_mod_to_equations; lia). cbn. do 2 f_equal.
    repeat (rewrite <- ?Z.add_assoc, Zplus_mod_idemp_l). f_equal. lia.
Qed.

Lemma response_body_encode m h dst : SocketAddr_wf (pm_addr m) = true -> is_u16 (str_len (pm_name m)) = true ->
  Header_new Discovery (PresenceResponse m) = Val h ->
  DiscoveryCodec_encode (PresenceResponse m) dst
  = Val (Ok tt, dst ++ SIGNATURE ++ be_u16 (h_length h) ++ [byte_of_Z (MessageType_into (h_message_type h))]
                ++ Wire.discovery_payload (PresenceResponse m)).
Proof.
  intros Hwf Hn Hh. pose proof (show_addr_length _ Hwf). pose proof (zlen_nonneg (show_addr (pm_addr m))).
  unfold DiscoveryCodec_encode. rewrite Hh. unfold HeaderCodec_encode. buf_step.
  unfold u16_try_from_unwrap.
  change (str_len (SocketAddr_to_string (pm_addr m))) with (zlen (show_addr (pm_addr m))).
  rewrite Hn. replace (is_u16 (zlen (show_addr (pm_addr m)))) with true by (unfold is_u16; lia).
  cbn [Wire.discovery_payload]. by rewrite <- !app_assoc.
Qed.

Lemma discovery_payload_len e : DiscoveryEvent_wf e = true -> zlen (Wire.discovery_payload e) < 65531.
Proof. destruct e as [|m]; [done |]. intros H. by apply DiscoveryEvent_wf_response in H as (_ & _ & _ & ? & _). Qed.

Lemma DiscoveryCodec_encode_wire e dst : DiscoveryEvent_wf e = true ->
  DiscoveryCodec_encode e dst = Val (Ok tt, dst ++ Wire.discovery e).
Proof.
  destruct e as [|m]; intros Hwf.
  - unfold DiscoveryCodec_encode. rewrite (Header_new_len _ _ 1) by (done || lia). buf_step.
    unfold HeaderCodec_encode. buf_step. by rewrite <- !app_assoc.
  - apply DiscoveryEvent_wf_response in Hwf as (Hid & Ha & _ & Hl & Hn & _).
    pose proof (response_header m Ha Hn) as Hh. rewrite discovery_payload_zlen in Hl by done.
    rewrite (proj2 (Z.ltb_lt _ _)) in Hh by (unfold declared_length; lia).
    rewrite (response_body_encode _ _ _ Ha Hn Hh). unfold Wire.discovery, Wire.frame, Wire.header.
    rewrite <- !app_assoc, discovery_payload_zlen by done. cbn [h_length h_message_type]. unfold declared_length.
    by replace (5 + (47 + str_len (pm_name m) + zlen (show_addr (pm_addr m))))
      with (52 + str_len (pm_name m) + zlen (show_addr (pm_addr m))) by lia.
Qed.

(** Decoding the body of a presence response, with any text [a] for the address. *)
Lemma decode_response_body h src typ name id a addr rest :
  h_message_type h = Discovery -> PeerId_valid id = true ->
  is_u16 (str_len name) = true -> is_u16 (zlen a) = true ->
  (forall s, as_bytes s = a -> SocketAddr_parse s = Some addr) -> is_utf8 a = true ->
  HeaderCodec_decode src = Val (Ok (Some h),
    [x01] ++ be_u16 (DeviceType_into typ) ++ be_u16 (str_len name) ++ as_bytes name
    ++ PeerId_bytes id ++ be_u16 (zlen a) ++ a ++ rest) ->
  DiscoveryCodec_decode src = Val (Ok (Some (PresenceResponse (mkPeerMetadata name typ id addr))), rest).
Proof.
  intros Ht Hid Hn Ha Hp Hu Hd. unfold DiscoveryCodec_decode. buf_step. rewrite Hd.
  rewrite Ht, bool_decide_eq_false_2 by (intros []; reflexivity). cbn [app]. rewrite get_u8_cons.
  change (byte_to_Z x01 =? 0) with false. change (byte_to_Z x01 =? 1) with true. cbn [app].
  rewrite get_u16_app by apply DeviceType_into_u16. rewrite get_u16_app by done.
  rewrite split_to_app, from_utf8_as_bytes by done. cbn [unwrap_opt].
  rewrite split_to_app by (by apply PeerId_valid_length).
  unfold PeerId_bytes, PeerId_inner. rewrite from_utf8_as_bytes. cbn [unwrap_opt].
  rewrite PeerId_from_string_valid by done. cbn [map_err]. rewrite get_u16_app by done.
  rewrite split_to_app by done.
  destruct (from_utf8 a) as [s|] eqn:Es; [| by apply from_utf8_None in Es; congruence].
  cbn [unwrap_opt]. apply from_utf8_Some in Es. rewrite (Hp s Es).
  by rewrite DeviceType_try_from_into.
Qed.

Lemma DiscoveryCodec_decode_wire e rest : DiscoveryEvent_wf e = true ->
  DiscoveryCodec_decode (Wire.discovery e ++ rest) = Val (Ok (Some e), rest).
Proof.
  intros Hwf. pose proof (discovery_payload_len e Hwf) as Hb.
  pose proof (HeaderCodec_decode_frame Discovery _ rest Hb) as Hd.
  destruct e as [|m].
  - unfold DiscoveryCodec_decode. buf_step. unfold Wire.discovery. by rewrite Hd.
  - apply DiscoveryEvent_wf_response in Hwf as (Hid & Ha & Hf & _ & Hn & Hl).
    destruct m as [name typ id addr]. cbn [pm_name pm_typ pm_id pm_addr] in *.
    eapply (decode_response_body (mkHeader _ Discovery) _ typ name id (show_addr addr) addr); try done.
    + intros s Hs. unfold SocketAddr_parse. rewrite Hs. by apply parse_show_addr.
    + apply is_utf8_ascii, show_addr_ascii.
    + unfold Wire.discovery. rewrite Hd. cbn [Wire.discovery_payload pm_name pm_typ pm_id pm_addr].
      by rewrite <- !app_assoc.
Qed.

(** What a decoded discovery event looks like: values of their types, and an address that its
    text parses to. *)
Definition DiscoveryEvent_decoded (e : DiscoveryEvent) (body : list byte) : Prop :=
  match e with
  | PresenceRequest => body = [x00]
  | PresenceResponse m =>
      exists a, body = [x01] ++ be_u16 (DeviceType_into (pm_typ m)) ++ be_u16 (str_len (pm_name m))
                 ++ as_bytes (pm_name m) ++ PeerId_bytes (pm_id m) ++ be_u16 (zlen a) ++ a
      /\ parse_bytes a = Some (pm_addr m) /\ PeerId_valid (pm_id m) = true
      /\ is_u16 (str_len (pm_name m)) = true /\ is_u16 (zlen a) = true
  end.

Lemma DeviceType_try_from_Ok n t : DeviceType_try_from n = Ok t -> n = DeviceType_into t.
Proof.
  unfold DeviceType_try_from.
  repeat (match goal with |- context [?x =? ?y] => destruct (x =? y) eqn:? end; [intros [= <-]; bool_arith; done |]).
  done.
Qed.

Lemma DiscoveryCodec_decode_inv src e rest :
  DiscoveryCodec_decode src = Val (Ok (Some e), rest) ->
  exists lenb body, length lenb = 2%nat /\ be_value lenb <= zlen src /\ DiscoveryEvent_decoded e body /\
    src = SIGNATURE ++ lenb ++ [byte_of_Z 1] ++ body ++ rest.
Proof.
  unfold DiscoveryCodec_decode. intros H. apply bufio_bind_Ok in H as ([h|] & s1 & Eh & H); [| done].
  apply HeaderCodec_decode_Some in Eh as (lenb & Hlen & Hbe & Hle & Hsrc).
  case_bool_decide as Hm; [done |].
  assert (h_message_type h = Discovery) as Hc by (destruct (h_message_type h); tauto || done).
  enough (exists body, DiscoveryEvent_decoded e body /\ s1 = body ++ rest) as (body & ? & ->).
  { exists lenb, body. rewrite Hc in Hsrc. rewrite Hbe. by split_and!. }
  clear Hsrc Hle Hbe Hlen Hm Hc. apply bufio_bind_Ok in H as (t & s2 & Hg & H).
  apply get_be_Ok in Hg as (l & Hl & -> & Hv).
  destruct (t =? 0) eqn:E0; [| destruct (t =? 1) eqn:E1; [| done]]; bool_arith; subst t;
    rewrite (one_byte _ _ Hl ltac:(eassumption)).
  { buf_inv. by exists [x00]. }
  apply bufio_bind_Ok in H as (? & ? & (tb & Htb & -> & ->)%get_be_Ok & H).
  apply bufio_bind_Ok in H as (? & ? & (nb & Hnb & -> & ->)%get_be_Ok & H).
  apply bufio_bind_Ok in H as (nm & ? & [Hnm ->]%split_to_Ok & H).
  apply bufio_bind_Ok in H as (name & ? & [Hname ->]%lift_panic_Ok & H).
  apply bufio_bind_Ok in H as (ib & ? & [Hib ->]%split_to_Ok & H).
  apply bufio_bind_Ok in H as (ids & ? & [Hids ->]%lift_panic_Ok & H).
  apply bufio_bind_Ok in H as (id & ? & [Hid ->]%lift_res_Ok & H).
  apply bufio_bind_Ok in H as (? & ? & (ab & Hab & -> & ->)%get_be_Ok & H).
  apply bufio_bind_Ok in H as (a & ? & [Ha ->]%split_to_Ok & H).
  apply bufio_bind_Ok in H as (as_ & ? & [Has ->]%lift_panic_Ok & H).
  apply bufio_bind_Ok in H as (addr & ? & [Haddr ->]%lift_res_Ok & H).
  apply bufio_bind_Ok in H as (typ & ? & [Htyp ->]%lift_res_Ok & [= <- <-]).
  apply unwrap_opt_Val, from_utf8_Some in Hname as <-, Hids as <-, Has as <-.
  apply map_err_Ok, PeerId_from_string_Ok in Hid as [-> Hid]. apply map_err_Ok, DeviceType_try_from_Ok in Htyp.
  unfold SocketAddr_parse in Haddr. destruct (parse_bytes _) as [addr'|] eqn:Ep; [injection Haddr as -> | done].
  pose proof (be_value_bound nb). pose proof (be_value_bound ab). rewrite Z.max_r in Hnm, Ha by lia.
  eexists. split.
  - exists (as_bytes as_). cbn [pm_name pm_typ pm_id pm_addr]. unfold str_len. rewrite Hnm, Ha.
    split_and!; [reflexivity | done | done | by apply be_value_is_u16 | by apply be_value_is_u16].
  - rewrite <- Htyp. rewrite !be_u16_value by done. by rewrite <- !app_assoc.
Qed.

(** A decoded presence response has a valid id and an address its type can hold, without flow label. *)
Lemma DiscoveryCodec_decode_typed src m rest :
  DiscoveryCodec_decode src = Val (Ok (Some (PresenceResponse m)), rest) ->
  PeerId_valid (pm_id m) = true /\ PeerMetadata_wf m = true /\
  flowinfo_zero (pm_addr m) = true /\ is_u16 (str_len (pm_name m)) = true.
Proof.
  intros (lenb & body & _ & _ & (a & _ & Hp & Hid & Hn & _) & _)%DiscoveryCodec_decode_inv.
  apply parse_bytes_wf in Hp as [Hw Hf]. by split_and!.
Qed.

Lemma DiscoveryCodec_decode_progress src e rest :
  DiscoveryCodec_decode src = Val (Ok (Some e), rest) ->
  exists used, src = used ++ rest /\ (6 <= length used)%nat.
Proof.
  intros (lenb & body & Hl & _ & Hd & ->)%DiscoveryCodec_decode_inv.
  exists (SIGNATURE ++ lenb ++ [byte_of_Z 1] ++ body). rewrite <- !app_assoc. split; [done |].
  rewrite !length_app, Hl. cbn [length SIGNATURE].
  destruct e; cbn in Hd; [subst body | destruct Hd as (a & -> & _)]; cbn [length app]; lia.
Qed.

#[export] Instance DiscoveryCodec_laws :
  CodecLaws DiscoveryEvent DiscoveryCodec DiscoveryEvent_wf Wire.discovery.
Proof.
  split.
  - intros m dst. apply DiscoveryCodec_encode_wire.
  - intros m rest. apply DiscoveryCodec_decode_wire.
  - intros m p q Hwf E Hq. pose proof (discovery_payload_len m Hwf) as Hb.
    cbn [decode DiscoveryCodec]. unfold DiscoveryCodec_decode. buf_step.
    by rewrite (HeaderCodec_decode_prefix _ _ _ _ Hb E Hq).
  - intros src m src'. apply DiscoveryCodec_decode_progress.
Qed.

(** ** Headers that are accepted, refused or incomplete *)

(** The buffer starts with a complete header of a message of type byte [t]: the signature, a length
    field [lenb] that the buffer satisfies, the type, and [body] after it. *)
Definition has_header (src : list byte) (t : Z) (body : list byte) : Prop :=
  exists lenb, length lenb = 2%nat /\ be_value lenb <= zlen src /\ is_u8 t = true /\
    src = SIGNATURE ++ lenb ++ [byte_of_Z t] ++ body.

(** The buffer has five bytes, and the first two are not the signature. *)
Definition bad_signature (src : list byte) : Prop := 5 <= zlen src /\ take 2 src <> SIGNATURE.

Lemma has_header_decode src t body : has_header src t body ->
  HeaderCodec_decode src = match MessageType_try_from t with
    | Ok mt => Val (Ok (Some (mkHeader (be_value (take 2 (drop 2 src))) mt)), body)
    | Err n => Val (Err (Enum n), body)
    end.
Proof.
  intros (lenb & Hl & Hle & Hu & ->). destruct lenb as [|l0 [|l1 [|]]]; try done. cbn [app SIGNATURE] in *.
  rewrite HeaderCodec_decode_cons, bool_decide_eq_false_2 by (intros []; reflexivity).
  rewrite !zlen_cons in Hle. rewrite (proj2 (Z.ltb_ge _ _)) by lia. by rewrite is_u8_of_byte_small.
Qed.

(** Every buffer is incomplete, badly signed, or has a header. *)
Lemma header_cases src :
  HeaderCodec_decode src = Val (Ok None, src) \/
  bad_signature src /\ HeaderCodec_decode src = Val (Err NotAPacket, src) \/
  exists t body, has_header src t body.
Proof.
  destruct (Z.lt_ge_cases (zlen src) 5) as [Hp|Hp]; [left; by apply HeaderCodec_decode_short |].
  destruct src as [|s0 [|s1 [|l0 [|l1 [|b p]]]]]; try zlen_lia. rewrite HeaderCodec_decode_cons.
  case_bool_decide as Hs; [right; left; done |].
  destruct (5 + zlen p <? _) eqn:El; [by left |]. bool_arith. right. right.
  assert ([s0; s1] = SIGNATURE) as [= -> ->] by (destruct (decide ([s0; s1] = SIGNATURE)); tauto).
  exists (byte_to_Z b), p, [l0; l1]. rewrite byte_of_Z_to_Z, !zlen_cons. split_and!; [done | lia | apply is_u8_byte | done].
Qed.

Lemma has_header_not_bad src t body : has_header src t body -> ~ bad_signature src.
Proof. intros (lenb & Hl & Hle & Hu & ->) [_ H]. by apply H. Qed.

Lemma has_header_inj src t body t' body' :
  has_header src t body -> has_header src t' body' -> t = t' /\ body = body'.
Proof.
  intros (l & Hl & _ & Hu & ->) (l' & Hl' & _ & Hu' & E).
  destruct l as [|l0 [|l1 [|]]], l' as [|l0' [|l1' [|]]]; try done. cbn in E.
  injection E as -> -> E ->. split; [| done].
  by rewrite <- (is_u8_of_byte_small t), <- (is_u8_of_byte_small t'), E.
Qed.

(** ** Where connection decoding panics *)

(** A connection payload the decoder reads past, or whose id it cannot accept. *)
Definition connection_payload_panics (body : list byte) : Prop :=
  match body with
  | [] => True
  | k :: q =>
      (k = x00 /\ (zlen q < 72 \/ from_utf8 (take 40 q) ≫= (fun s => res_ok (PeerId_from_string s)) = None)) \/
      (k = x01 /\ zlen q < 32) \/ (k = x04 /\ zlen q < 4)
  end.

(** How the two outcomes of [split_to] depend on the length. *)
Lemma split_to_cases {E} n q : 0 <= n ->
  (zlen q < n /\ split_to (E := E) n q = Panic) \/
  (n <= zlen q /\ split_to (E := E) n q = Val (Ok (take (Z.to_nat n) q), drop (Z.to_nat n) q)).
Proof. intros Hn. unfold split_to. case_decide; [right | left; split; [lia |]]; done. Qed.

Lemma get_be_cases {E} n q :
  (zlen q < Z.of_nat n /\ get_be (E := E) n q = Panic) \/
  (Z.of_nat n <= zlen q /\ get_be (E := E) n q = Val (Ok (be_value (take n q)), drop n q)).
Proof. unfold get_be, zlen. case_decide; [right | left]; by split; [lia |]. Qed.

Lemma zlen_drop (n : nat) (q : list byte) : Z.of_nat n <= zlen q -> zlen (drop n q) = zlen q - Z.of_nat n.
Proof. unfold zlen. rewrite length_drop. lia. Qed.

Lemma connection_payload_cases src body : has_header src 2 body ->
  (connection_payload_panics body /\ ConnectionCodec_decode src = Panic) \/
  (~ connection_payload_panics body /\ exists r, ConnectionCodec_decode src = Val r).
Proof.
  intros Hh. unfold ConnectionCodec_decode. buf_step. rewrite (has_header_decode _ _ _ Hh).
  change (MessageType_try_from 2) with (@Ok Z _ Connect). cbn [h_message_type].
  rewrite bool_decide_eq_false_2 by (intros []; reflexivity).
  destruct body as [|k q]; [left; done |]. rewrite get_u8_cons. cbn [connection_payload_panics].
  destruct (byte_to_Z k =? 0) eqn:E0; [| destruct (byte_to_Z k =? 1) eqn:E1; [| destruct (byte_to_Z k =? 2) eqn:E2;
    [| destruct (byte_to_Z k =? 3) eqn:E3; [| destruct (byte_to_Z k =? 4) eqn:E4]]]]; bool_arith;
    try (assert (k = byte_of_Z (byte_to_Z k)) as Hk by (by rewrite byte_of_Z_to_Z));
    try (rewrite E0 in Hk || rewrite E1 in Hk || rewrite E2 in Hk || rewrite E3 in Hk || rewrite E4 in Hk).
  - change (byte_of_Z 0) with x00 in Hk. subst k.
    destruct (split_to_cases (E := ParseError) 40 q ltac:(lia)) as [[Hq ->]|[Hq ->]].
    { left. split; [left; split; [done | left; lia] | done]. }
    change (Z.to_nat 40) with 40%nat. destruct (from_utf8 (take 40 q)) as [s|]; cbn.
    2: { left. split; [left; split; [done | by right] | done]. }
    destruct (PeerId_from_string s) as [id|]; cbn.
    2: { left. split; [left; split; [done | by right] | done]. }
    destruct (split_to_cases (E := ParseError) 32 (drop 40 q) ltac:(lia)) as [[Hd ->]|[Hd ->]];
      rewrite (zlen_drop 40) in Hd by lia.
    + left. split; [left; split; [done | left; lia] | done].
    + right. split; [| eauto]. intros [[_ [H|H]]|[[H _]|[H _]]]; [lia | done | done | done].
  - change (byte_of_Z 1) with x01 in Hk. subst k.
    destruct (split_to_cases (E := ParseError) 32 q ltac:(lia)) as [[Hq ->]|[Hq ->]].
    + left. split; [right; by left | done].
    + right. split; [| eauto]. intros [[H _]|[[_ H]|[H _]]]; [done | lia | done].
  - right. split; [| eauto]. rewrite Hk. intros [[H _]|[[H _]|[H _]]]; done.
  - right. split; [| eauto]. rewrite Hk. intros [[H _]|[[H _]|[H _]]]; done.
  - change (byte_of_Z 4) with x04 in Hk. subst k.
    destruct (get_be_cases (E := ParseError) 4 q) as [[Hq ->]|[Hq ->]].
    + left. split; [right; right; split; [done | lia] | done].
    + right. split; [| eauto]. intros [[H _]|[[H _]|[_ H]]]; [done | done | lia].
  - right. split; [| eauto]. intros [[-> _]|[[-> _]|[-> _]]]; done.
Qed.

(** A header of another type, or none, never leads to a panic. *)
Lemma connection_other_header src : (forall body, ~ has_header src 2 body) ->
  exists r, ConnectionCodec_decode src = Val r.
Proof.
  intros Hn. unfold ConnectionCodec_decode. buf_step.
  destruct (header_cases src) as [->|[[_ ->]|(t & body & Hh)]]; [eauto | eauto |].
  rewrite (has_header_decode _ _ _ Hh). destruct (MessageType_try_from t) as [[]|] eqn:Et; cbn; eauto.
  apply MessageType_try_from_Ok in Et as ->. by destruct (Hn body).
Qed.

End Facts.

(** ** Streams of messages, against the interface of a codec *)

Section Streams.
Context {Item : Type} {C : Codec Item} {wf : Item -> bool} {wire : Item -> list byte}.
Context {L : CodecLaws Item C wf wire}.

(** Draining a stream of messages followed by something that is not ready. *)
Lemma consume_stream ms : forall rest acc fuel,
  forallb wf ms = true -> decode rest = Val (Ok None, rest) -> (length ms < fuel)%nat ->
  consume decode fuel (concat (wire <$> ms) ++ rest) acc = Some (Val (acc ++ (Some <$> ms), rest)).
Proof.
  induction ms as [|m ms IH]; intros rest acc [|fuel] Hwf Hr Hf; try (cbn in Hf; lia).
  - cbn. rewrite Hr, app_nil_r. done.
  - cbn [forallb] in Hwf. apply andb_true_iff in Hwf as [Hm Hms].
    cbn [fmap list_fmap concat consume]. rewrite <- app_assoc, decode_wire by done.
    rewrite IH by (done || cbn in Hf; lia). by rewrite <- app_assoc.
Qed.

(** Draining ends on every buffer, within as many rounds as the buffer has bytes. *)
Lemma consume_total fuel : forall src acc, (length src < fuel)%nat -> exists r, consume decode fuel src acc = Some r.
Proof.
  induction fuel as [|fuel IH]; intros src acc Hf; [lia |]. cbn.
  destruct (decode src) as [[[[m|]|e] src']|] eqn:E; eauto. apply IH.
  apply decode_progress in E as (used & -> & Hu). rewrite length_app in Hf. lia.
Qed.

End Streams.
