(* ===== verification/Samples.v ===== *)
(** Concrete instances of the parameters and concrete peers, on which the theorems are
    instantiated: Unicode tables that are empty above ASCII, and a toy [CryptoLib] that obeys
    [CryptoLaws] (a polynomial checksum stands for HMAC-SHA-256 and SHA-256, the time step for
    the TOTP code).  Nothing in the theorems depends on them. *)

From Stdlib Require Import ZArith Lia.
From Stdlib Require Import Strings.Byte.
From stdpp Require Import base tactics numbers option list strings gmap.
From S2P Require Import Prelude RustStd SockAddr SockAddrFacts Errors Pairing Peer Proto.

Module Sample.

#[export] Instance ascii_only : UnicodeTables :=
  {| unicode_Alphabetic := fun _ => false; unicode_N := fun _ => false |}.

Definition checksum (l : list byte) : Z := foldl (fun h b => (31 * h + byte_to_Z b + 7) mod 251) 1 l.

Definition tag32 (key data : list byte) : list byte :=
  (fun i => byte_of_Z (checksum (key ++ data) + 3 * Z.of_nat i)) <$> seq 0 32.

Definition code_at (secret : list byte) (now : Z) : list byte := show_num 10 (checksum secret + now / 15).

Lemma code_ascii secret now : forallb is_ascii (code_at secret now) = true.
Proof. apply show_num_ascii. lia. Qed.

(** A TOTP is its secret, of at least sixteen bytes; the clock fails before the epoch. *)
#[export] Instance toy_crypto : CryptoLib := {|
  TOTP := list byte; TotpUrlError := unit; SystemTimeError := unit; SecretParseError := unit;
  TOTP_new := fun _ _ _ _ secret _ _ => if decide (16 <= length secret)%nat then Ok secret else Err tt;
  TOTP_from_url := fun url => Ok (as_bytes url);
  TOTP_get_qr := fun _ => Err (PeerId_0 PeerId_default);
  TOTP_check_current := fun secret token now =>
    if now <? 0 then Err tt else Ok (bool_decide (as_bytes token = code_at secret now));
  TOTP_generate_current := fun secret now =>
    if now <? 0 then Err tt else Ok (ascii_string (code_at secret now) (code_ascii secret now));
  TOTP_get_secret_base32 := fun _ => PeerId_0 PeerId_default;
  Secret_Encoded_to_bytes := fun s => Ok (as_bytes s);
  SecretParseError_debug := fun _ => PeerId_0 PeerId_default;
  HmacKey := list byte;
  HmacKey_new := fun _ key => key;
  ring_sign := tag32;
  ring_verify := fun key data tag => if decide (tag = tag32 key data) then Ok tt else Err tt;
  digest_SHA256 := fun d => tag32 [] d
|}.

#[export] Instance toy_crypto_laws : CryptoLaws toy_crypto.
Proof.
  split.
  - intros k d t. cbn. case_decide; subst; done.
  - reflexivity.
  - reflexivity.
Qed.

Definition id_of (s : string) (H : forallb is_ascii (bytes_of_string s) = true) : PeerId :=
  mkPeerId (ascii_string (bytes_of_string s) H).

(** The two ids of crate/p2p/tests/common/mod.rs. *)
Definition id_one : PeerId := id_of "0123456789012345678901234567890123456789" eq_refl.
Definition id_two : PeerId := id_of "QWERTYUIOPQWERTYUIOPQWERTYUIOPQWERTYUIOP" eq_refl.

Definition phone : PeerMetadata := {|
  pm_name := ascii_string (bytes_of_string "test phone") eq_refl;
  pm_typ := AppleiPhone;
  pm_id := id_one;
  pm_addr := V4 Ipv4Addr_LOCALHOST 5001
|}.

Definition laptop : PeerMetadata := {|
  pm_name := ascii_string (bytes_of_string "Tester's laptop") eq_refl;
  pm_typ := Windows10Desktop;
  pm_id := id_two;
  pm_addr := V6 (mkIpv6 [65152; 0; 0; 0; 0; 0; 0; 1]) 6000 0 2
|}.

Definition tag : list byte := bytes_of_string "0TQEnaM5YHPJ8LJ2KD32bTGdnfK23ScT".

(** Both sides of a pairing: the same secret, each the other's candidate. *)
Definition auth : PairingAuthenticator := mkPairingAuthenticator (bytes_of_string "a shared secret of two").
Definition phone_candidate : PeerCandidate := PeerCandidate_new phone auth.
Definition laptop_candidate : PeerCandidate := PeerCandidate_new laptop auth.
Definition other_auth : PairingAuthenticator := mkPairingAuthenticator (bytes_of_string "somebody else's secret").

(** The code the toy TOTP gives at a time. *)
Definition code (a : PairingAuthenticator) (now : Z) : RString :=
  ascii_string (code_at (totp a) now) (code_ascii (totp a) now).

Lemma code_generated a now : 0 <= now -> PairingAuthenticator_generate a now = Ok (code a now).
Proof. intros H. unfold PairingAuthenticator_generate. cbn. by rewrite (proj2 (Z.ltb_ge now 0)). Qed.

(** The code stays the same for a time step of fifteen seconds. *)
Lemma code_window a now now' : now / 15 = now' / 15 -> code a now = code a now'.
Proof. intros H. apply RString_eq. cbn. unfold code_at. by rewrite H. Qed.

End Sample.
