(* ===== verification/ProtoTheorems.v ===== *)
(** The theorems on the wire protocol, with the concrete inputs they are instantiated on. *)

From Stdlib Require Import ZArith Lia.
From Stdlib Require Import Strings.Byte.
From stdpp Require Import base tactics numbers option list strings.
From S2P Require Import Prelude RustStd SockAddr SockAddrFacts Errors Pairing Peer Proto ProtoFacts Samples.

Section Theorems.
Context {U : UnicodeTables} {P : Profile}.

(** ** Shared steps *)

Lemma connection_header_only src o : HeaderCodec_decode src = Val (o, src) ->
  o = Ok None \/ o = Err NotAPacket ->
  ConnectionCodec_decode src = Val (match o with Err e => Err e | Ok _ => Ok None end, src).
Proof. intros H Ho. unfold ConnectionCodec_decode, mbind, bufio_bind. rewrite H. by destruct Ho as [-> | ->]. Qed.

(** Two headers of one buffer agree; a badly signed buffer has none. *)
Ltac header_clash :=
  match goal with
  | Hb : bad_signature ?s, Hh : has_header ?s _ _ |- _ => by destruct (has_header_not_bad _ _ _ Hh)
  | H1 : has_header ?s _ _, H2 : has_header ?s _ _ |- _ =>
      let E := fresh in pose proof (has_header_inj _ _ _ _ _ H1 H2) as [E ?]; first [done | subst; try done]
  end.

Lemma bad_signature_decode src : bad_signature src -> HeaderCodec_decode src = Val (Err NotAPacket, src).
Proof.
  intros Hb. destruct (header_cases src) as [H|[[_ H]|(t & body & Hh)]]; [| done | header_clash].
  destruct Hb as [Hl Hs]. destruct src as [|s0 [|s1 [|l0 [|l1 [|b p]]]]]; try zlen_lia.
  by rewrite HeaderCodec_decode_cons, bool_decide_eq_true_2.
Qed.

(** The errors of a payload: only an unknown kind of connection message. *)
Lemma connection_payload_error src body e rest : has_header src 2 body ->
  ConnectionCodec_decode src = Val (Err e, rest) <->
  exists k, body = k :: rest /\ 4 < byte_to_Z k /\ e = Enum (byte_to_Z k).
Proof.
  intros Hh. unfold ConnectionCodec_decode. buf_step. rewrite (has_header_decode _ _ _ Hh).
  change (MessageType_try_from 2) with (@Ok Z _ Connect). cbn [h_message_type].
  rewrite bool_decide_eq_false_2 by (intros []; reflexivity).
  destruct body as [|k q]; [split; [done | by intros (? & ? & _)] |]. rewrite get_u8_cons.
  pose proof (byte_to_Z_range k) as Hk.
  destruct (byte_to_Z k =? 0) eqn:E0; [| destruct (byte_to_Z k =? 1) eqn:E1; [| destruct (byte_to_Z k =? 2) eqn:E2;
    [| destruct (byte_to_Z k =? 3) eqn:E3; [| destruct (byte_to_Z k =? 4) eqn:E4]]]]; bool_arith.
  6: { split; [intros [= <- <-]; exists k; split_and!; [done | lia | done] |].
       by intros (k' & [= -> ->] & _ & ->). }
  all: split; [| intros (k' & [= -> ->] & ? & _); lia].
  - destruct (split_to_cases (E := ParseError) 40 q ltac:(lia)) as [[_ ->]|[_ ->]]; [done |].
    destruct (unwrap_opt _); cbn; [| done]. destruct (unwrap_res _); cbn; [| done].
    destruct (split_to_cases (E := ParseError) 32 (drop (Z.to_nat 40) q) ltac:(lia)) as [[_ ->]|[_ ->]]; done.
  - destruct (split_to_cases (E := ParseError) 32 q ltac:(lia)) as [[_ ->]|[_ ->]]; done.
  - done.
  - done.
  - destruct (get_be_cases (E := ParseError) 4 q) as [[_ ->]|[_ ->]]; done.
Qed.

(** ** Round trips and streams *)

(** C11.  Connection messages round-trip: [ConnectionCodec::encode] appends the bytes doc/Protocol.md
    lays out for the message, and [ConnectionCodec::decode] takes exactly these bytes off the front
    of whatever follows and returns the message. *)
Theorem connection_codec_roundtrip c dst rest : Connection_wf c = true ->
  exists w, w = Wire.connection c /\ ConnectionCodec_encode c dst = Val (Ok tt, dst ++ w) /\
    ConnectionCodec_decode (w ++ rest) = Val (Ok (Some c), rest).
Proof.
  intros Hwf. exists (Wire.connection c). split_and!; [done | by apply ConnectionCodec_encode_wire |].
  by apply (decode_wire (CodecLaws := ConnectionCodec_laws) c rest).
Qed.

(** C12.  Discovery messages round-trip: a presence request, and a presence response with a valid
    id, an address without flow label (IPv4 or IPv6, carried as text) and a total length that fits
    the header's sixteen bits. *)
Theorem discovery_codec_roundtrip e dst rest : DiscoveryEvent_wf e = true ->
  exists w, w = Wire.discovery e /\ DiscoveryCodec_encode e dst = Val (Ok tt, dst ++ w) /\
    DiscoveryCodec_decode (w ++ rest) = Val (Ok (Some e), rest).
Proof.
  intros Hwf. exists (Wire.discovery e). split_and!; [done | by apply DiscoveryCodec_encode_wire |].
  by apply DiscoveryCodec_decode_wire.
Qed.

(** C13.  Reassembly of a TCP stream: when complete messages are followed by a strict prefix [p] of
    another, draining the buffer returns the complete ones in order, keeps [p] untouched and neither
    fails nor panics; once the missing bytes [q] arrive, the last message is returned too. *)
Theorem connection_stream_reassembly ms m p q :
  forallb Connection_wf ms = true -> Connection_wf m = true -> Wire.connection m = p ++ q -> q <> [] ->
  consume ConnectionCodec_decode (S (length ms)) (concat (Wire.connection <$> ms) ++ p) []
  = Some (Val (Some <$> ms, p)) /\
  consume ConnectionCodec_decode 2 (p ++ q) [] = Some (Val ([Some m], [])).
Proof.
  intros Hms Hm E Hq. split.
  - apply (consume_stream (C := ConnectionCodec) ms p [] (S (length ms)) Hms); [| lia].
    by apply (decode_prefix (C := ConnectionCodec) m p q).
  - rewrite <- E. pose proof (consume_stream (C := ConnectionCodec) [m] [] [] 2) as H. cbn [fmap list_fmap concat] in H.
    rewrite !app_nil_r in H. apply H; [cbn; by rewrite Hm | | cbn; lia].
    apply (decode_prefix (C := ConnectionCodec) CompleteRequest [] (Wire.connection CompleteRequest)); done.
Qed.

(** C21.  Draining terminates: on any bytes whatsoever the loop of [consume] stops after at most one
    round more than there are bytes, for both codecs, because every decoded item consumes input. *)
Theorem draining_terminates src :
  (exists r, consume ConnectionCodec_decode (S (length src)) src [] = Some r) /\
  (exists r, consume DiscoveryCodec_decode (S (length src)) src [] = Some r).
Proof.
  split.
  - apply (consume_total (C := ConnectionCodec)). lia.
  - apply (consume_total (C := DiscoveryCodec)). lia.
Qed.

(** ** What decoding accepts *)

(** Soundness of decoding a connection message: what is returned is well formed (an id that
    [from_string] accepts, a 32-byte tag, a [u32] code), and the buffer was the signature, a length
    field it satisfies, the type byte 2, the payload of that very message, and the rest. *)
Theorem connection_decode_sound src c rest :
  ConnectionCodec_decode src = Val (Ok (Some c), rest) ->
  Connection_wf c = true /\ has_header src 2 (Wire.connection_payload c ++ rest).
Proof.
  intros (Hwf & lenb & Hl & Hle & E)%ConnectionCodec_decode_inv. split; [done |]. by exists lenb.
Qed.

(** Soundness of decoding a discovery event: the id is valid, the address is an in-range
    address without flow label that the received text denotes, the name is as long as its length
    field says, and the bytes consumed are laid out as in doc/Protocol.md. *)
Theorem discovery_decode_sound src e rest :
  DiscoveryCodec_decode src = Val (Ok (Some e), rest) ->
  exists body, has_header src 1 (body ++ rest) /\ DiscoveryEvent_decoded e body /\
    match e with
    | PresenceRequest => True
    | PresenceResponse m => PeerId_valid (pm_id m) = true /\ PeerMetadata_wf m = true /\
                            flowinfo_zero (pm_addr m) = true /\ is_u16 (str_len (pm_name m)) = true
    end.
Proof.
  intros H. pose proof (DiscoveryCodec_decode_inv _ _ _ H) as (lenb & body & Hl & Hle & Hd & E).
  exists body. split_and!; [by exists lenb | done |].
  destruct e as [|m]; [done |]. by eapply DiscoveryCodec_decode_typed.
Qed.

(** C38.  Decoding is sound, for both codecs.  A connection message that is returned is well formed (an id that
    [from_string] accepts, a 32-byte tag, a [u32] code), and the buffer was the signature, a length field it
    satisfies, the type byte 2, the payload of that very message, and the rest.  A discovery event that is
    returned has a valid id, an in-range address without flow label that the received text denotes, and a
    name as long as its length field says, laid out as in doc/Protocol.md. *)
Theorem decode_sound :
  (forall src c rest, ConnectionCodec_decode src = Val (Ok (Some c), rest) ->
     Connection_wf c = true /\ has_header src 2 (Wire.connection_payload c ++ rest)) /\
  (forall src e rest, DiscoveryCodec_decode src = Val (Ok (Some e), rest) ->
     exists body, has_header src 1 (body ++ rest) /\ DiscoveryEvent_decoded e body /\
       match e with
       | PresenceRequest => True
       | PresenceResponse m => PeerId_valid (pm_id m) = true /\ PeerMetadata_wf m = true /\
                               flowinfo_zero (pm_addr m) = true /\ is_u16 (str_len (pm_name m)) = true
       end).
Proof. split; [exact connection_decode_sound | exact discovery_decode_sound]. Qed.

(** ** Errors, panics and bounds *)

(** C19.  The errors of [ConnectionCodec::decode], exactly: a wrong signature ([NotAPacket], and the
    buffer is left as it was, so a second call fails the same way), an unknown message type, a
    discovery message, an unknown kind of connection message (each with the bytes read so far
    consumed). *)
Theorem connection_decode_errors src e rest :
  ConnectionCodec_decode src = Val (Err e, rest) <->
  (bad_signature src /\ e = NotAPacket /\ rest = src) \/
  (exists t, has_header src t rest /\ t <> 1 /\ t <> 2 /\ e = Enum t) \/
  (has_header src 1 rest /\ e = MsgType Discovery) \/
  (exists k, has_header src 2 (k :: rest) /\ 4 < byte_to_Z k /\ e = Enum (byte_to_Z k)).
Proof.
  destruct (header_cases src) as [H|[[Hb H]|(t & body & Hh)]].
  - rewrite (connection_header_only _ _ H) by auto. split; [done |].
    intros [[Hb _]|[(t & Hh & _)|[[Hh _]|(k & Hh & _)]]].
    { by apply bad_signature_decode in Hb; rewrite Hb in H. }
    all: rewrite (has_header_decode _ _ _ Hh) in H; by destruct (MessageType_try_from _).
  - rewrite (connection_header_only _ _ H) by auto. split; [intros [= <- <-]; by left |].
    intros [(_ & -> & ->)|[(t & Hh & _)|[[Hh _]|(k & Hh & _)]]]; [done |..]; header_clash.
  - destruct (decide (t = 2)) as [->|Ht2].
    { rewrite (connection_payload_error _ _ e rest Hh). split.
      - intros (k & -> & Hk & ->). right; right; right. eauto.
      - intros [[Hb _]|[(t & Hh' & H1 & H2 & _)|[[Hh' _]|(k & Hh' & Hk & ->)]]]; header_clash. eauto. }
    unfold ConnectionCodec_decode, mbind, bufio_bind. rewrite (has_header_decode _ _ _ Hh).
    unfold MessageType_try_from. destruct (t =? 1) eqn:E1; [| rewrite (proj2 (Z.eqb_neq t 2)) by done];
      bool_arith; cbn; split; subst; try (intros [= <- <-]; eauto 10).
    all: intros [[Hb _]|[(t' & Hh' & H1 & H2 & ->)|[[Hh' ->]|(k & Hh' & _)]]]; header_clash.
Qed.

(** C20.  Decoding a connection message panics exactly when the buffer has a complete header of type
    Connect and the payload after it is empty, ends inside the id, the tag or the failure code, or
    starts with forty bytes that are no peer id.  The length field is no protection: it only has to
    be at most the length of the buffer. *)
Theorem connection_decode_panics src :
  ConnectionCodec_decode src = Panic <->
  exists body, has_header src 2 body /\ connection_payload_panics body.
Proof.
  split.
  - intros Hp. destruct (header_cases src) as [H|[[_ H]|(t & body & Hh)]].
    + by rewrite (connection_header_only _ _ H) in Hp by auto.
    + by rewrite (connection_header_only _ _ H) in Hp by auto.
    + destruct (decide (t = 2)) as [->|Ht].
      * exists body. destruct (connection_payload_cases src body Hh) as [[? _]|[_ [r Hr]]]; [done | congruence].
      * destruct (connection_other_header src) as [r Hr]; [| congruence].
        intros body' Hh'. by destruct (has_header_inj _ _ _ _ _ Hh Hh').
  - intros (body & Hh & Hp). by destruct (connection_payload_cases src body Hh) as [[_ ?]|[? _]].
Qed.

(** C22.  Overflow of the sixteen-bit length of a presence response.  With overflow checks, encoding
    panics exactly when the declared length (52 plus name plus address text) exceeds 65535.  Without
    them, it panics exactly when the name alone does, and a longer message goes out with its length
    reduced modulo 65536. *)
Theorem presence_encode_bounds m dst : SocketAddr_wf (pm_addr m) = true ->
  if overflow_checks
  then DiscoveryCodec_encode (PresenceResponse m) dst = Panic <-> 65536 <= declared_length m
  else (DiscoveryCodec_encode (PresenceResponse m) dst = Panic <-> 65536 <= str_len (pm_name m)) /\
       (str_len (pm_name m) < 65536 ->
        DiscoveryCodec_encode (PresenceResponse m) dst
        = Val (Ok tt, dst ++ SIGNATURE ++ be_u16 (declared_length m mod 65536) ++ [x01]
                      ++ Wire.discovery_payload (PresenceResponse m))).
Proof.
  intros Hwf. pose proof (show_addr_length _ Hwf). pose proof (zlen_nonneg (show_addr (pm_addr m))).
  pose proof (str_len_nonneg (pm_name m)).
  destruct (is_u16 (str_len (pm_name m))) eqn:Hn.
  - pose proof (response_header m Hwf Hn) as Hh. pose proof (fun h => response_body_encode m h dst Hwf Hn) as Hb.
    assert ((declared_length m <? 65536) = true -> declared_length m mod 65536 = declared_length m) as Hmod.
    { intros ?%Z.ltb_lt. apply Z.mod_small. unfold declared_length in *. lia. }
    bool_arith. destruct (declared_length m <? 65536) eqn:Ed; [| destruct overflow_checks eqn:Ec]; bool_arith.
    + rewrite (Hb _ Hh). destruct overflow_checks; [split; [done | lia] |]. rewrite Hmod by done.
      split; [split; [done | lia] | done].
    + split; [lia |]. intros _. unfold DiscoveryCodec_encode. rewrite Hh. done.
    + rewrite (Hb _ Hh). split; [split; [done | lia] | done].
  - assert (65536 <= str_len (pm_name m)) by (unfold is_u16 in Hn; lia).
    assert (DiscoveryCodec_encode (PresenceResponse m) dst = Panic) as ->.
    { unfold DiscoveryCodec_encode, Header_new. cbn [frame_len DiscoveryEvent_Frame].
      unfold u16_try_from_unwrap. by rewrite Hn. }
    unfold declared_length. destruct overflow_checks; [split; [lia | done] |].
    split; [split; [lia | done] | lia].
Qed.

(** ** Ids derived from certificates *)

Lemma hex_alphanumeric l : forallb is_alphanumeric (byte_to_Z <$> concat (hex02 <$> l)) = true.
Proof.
  assert (forall d, 0 <= d < 16 -> is_alphanumeric (byte_to_Z (digit_char d)) = true) as Hd.
  { intros d Hd. unfold digit_char. rewrite byte_to_Z_of_Z, Z.mod_small by (destruct (d <? 10); lia).
    unfold is_alphanumeric, is_alphabetic, is_numeric, between.
    destruct (d <? 10) eqn:E; bool_arith.
    - rewrite (proj2 (Z.leb_le 48 _)), (proj2 (Z.leb_le _ 57)) by lia. apply orb_true_r.
    - rewrite (proj2 (Z.leb_le 97 _)), (proj2 (Z.leb_le _ 122)) by lia. done. }
  induction l as [|b l IH]; [done |]. destruct (hex02_range b).
  cbn [fmap list_fmap concat hex02 app forallb]. rewrite !Hd by done. exact IH.
Qed.

Lemma digest_split (l : list byte) : length l = 32%nat ->
  exists d b r, l = d ++ b :: r /\ length d = 20%nat /\ length r = 11%nat.
Proof.
  intros Hl. destruct (drop 20 l) as [|b r] eqn:E.
  { apply (f_equal length) in E. rewrite length_drop in E. cbn in E. lia. }
  exists (take 20 l), b, r. rewrite <- E, take_drop, length_take. split_and!; [done | lia |].
  apply (f_equal length) in E. rewrite length_drop in E. cbn in E. lia.
Qed.

(** The hexadecimal form of twenty bytes passes for a peer id. *)
Lemma hex_is_peer_id l s : length l = 20%nat -> as_bytes s = concat (hex02 <$> l) ->
  PeerId_from_string s = Ok (mkPeerId s).
Proof.
  intros Hl Hs. unfold PeerId_from_string, str_len, zlen. rewrite chars_ascii by (rewrite Hs; apply hex02_ascii).
  by rewrite Hs, length_hex, Hl, hex_alphanumeric.
Qed.

Lemma hex02_large b : 12336 <= be_value (hex02 b).
Proof.
  unfold hex02. rewrite be_value_two. destruct (hex02_range b) as [H1 H2].
  assert (forall d, 0 <= d < 16 -> 48 <= byte_to_Z (digit_char d)) as Hd; [| pose proof (Hd _ H1); pose proof (Hd _ H2); lia].
  intros d Hd. unfold digit_char. rewrite byte_to_Z_of_Z. destruct (d <? 10) eqn:E; bool_arith; rewrite Z.mod_small; lia.
Qed.

(** A presence response with an id derived from a certificate is encoded, and panics the decoder. *)
Lemma cert_id_presence {C : CryptoLib} {L : CryptoLaws C} m cert :
  pm_id m = PeerId_from_cert cert -> SocketAddr_wf (pm_addr m) = true -> str_len (pm_name m) <= 60000 ->
  exists w, DiscoveryCodec_encode (PresenceResponse m) [] = Val (Ok tt, w) /\ DiscoveryCodec_decode w = Panic.
Proof.
  intros Hid Hwf Hn. pose proof (show_addr_length _ Hwf). pose proof (zlen_nonneg (show_addr (pm_addr m))).
  pose proof (str_len_nonneg (pm_name m)). pose proof (PeerId_from_cert_length cert) as H64.
  assert (is_u16 (str_len (pm_name m)) = true) as Hu by (unfold is_u16; lia).
  pose proof (response_header m Hwf Hu) as Hh. rewrite (proj2 (Z.ltb_lt _ _)) in Hh by (unfold declared_length; lia).
  eexists. split; [by apply response_body_encode |]. cbn [app h_length h_message_type].
  set (w := SIGNATURE ++ _). assert (has_header w 1 (Wire.discovery_payload (PresenceResponse m))) as Hw.
  { exists (be_u16 (declared_length m)). split_and!; try done.
    rewrite be_value_u16 by (unfold is_u16, declared_length; lia). unfold w. cbn [Wire.discovery_payload].
    rewrite Hid. autorewrite with zlen. rewrite H64. unfold declared_length, str_len, zlen. cbn [length be_u16 SIGNATURE]. lia. }
  unfold DiscoveryCodec_decode. buf_step. rewrite (has_header_decode _ _ _ Hw).
  change (MessageType_try_from 1) with (@Ok Z _ Discovery). cbn [h_message_type].
  rewrite bool_decide_eq_false_2 by (intros []; reflexivity). cbn [Wire.discovery_payload app].
  rewrite get_u8_cons. change (byte_to_Z x01 =? 0) with false. change (byte_to_Z x01 =? 1) with true. cbn beta iota.
  rewrite get_u16_app by apply DeviceType_into_u16. rewrite get_u16_app by done.
  rewrite split_to_app, from_utf8_as_bytes by done. cbn -[split_to get_be be_u16 PeerId_from_string].
  destruct (digest_split (digest_SHA256 cert) (digest_SHA256_length cert)) as (d & b & r & Ed & Hd & Hr).
  rewrite Hid. change (PeerId_bytes (PeerId_from_cert cert)) with (concat (hex02 <$> digest_SHA256 cert)).
  rewrite Ed, fmap_app, concat_app. cbn [fmap list_fmap concat]. rewrite <- !app_assoc.
  rewrite split_to_app by (unfold zlen; rewrite length_hex, Hd; done).
  destruct (from_utf8 (concat (hex02 <$> d))) as [s|] eqn:Es; [| done].
  cbn -[split_to get_be be_u16 PeerId_from_string hex02].
  rewrite (hex_is_peer_id d s Hd) by (by apply from_utf8_Some). cbn -[split_to get_be be_u16 hex02].
  rewrite get_be_app by done. pose proof (hex02_large b). rewrite split_to_short; [done |].
  autorewrite with zlen. unfold zlen at 1. rewrite length_hex, Hr. change (zlen (be_u16 _)) with 2. lia.
Qed.

(** A peer id derived from a certificate breaks discovery.  [PeerId::from_cert] yields 64
    characters where the protocol has 40, so [from_string] refuses it; a presence response that
    carries it is encoded without complaint, with a length that counts 40; and decoding those very
    bytes panics, because the address length is read from the middle of the id. *)
Theorem cert_id_presence_panics {C : CryptoLib} {L : CryptoLaws C} m cert :
  pm_id m = PeerId_from_cert cert -> SocketAddr_wf (pm_addr m) = true -> str_len (pm_name m) <= 60000 ->
  PeerId_from_string (PeerId_0 (pm_id m)) = Err Length /\
  exists w, DiscoveryCodec_encode (PresenceResponse m) [] = Val (Ok tt, w) /\ DiscoveryCodec_decode w = Panic.
Proof.
  intros Hid Hwf Hn. pose proof (PeerId_from_cert_length cert) as H64. split; [| by eapply cert_id_presence].
  rewrite Hid. unfold PeerId_from_string. unfold str_len, PeerId_bytes, PeerId_inner in *. by rewrite H64.
Qed.

End Theorems.

(** ** The theorems at concrete inputs *)

Section Witnesses.
Import Sample.
#[local] Instance debug_profile : Profile := true.
#[local] Instance release_profile : Profile := false.

Lemma connection_codec_roundtrip_witness :
  Connection_wf (Request id_one tag) = true /\
  exists w, w = Wire.connection (Request id_one tag) /\
    ConnectionCodec_encode (P := debug_profile) (Request id_one tag) [x07] = Val (Ok tt, [x07] ++ w) /\
    ConnectionCodec_decode (w ++ [x40]) = Val (Ok (Some (Request id_one tag)), [x40]).
Proof.
  split; [vm_compute; reflexivity |].
  apply (connection_codec_roundtrip (P := debug_profile) (Request id_one tag) [x07] [x40]).
  vm_compute. reflexivity.
Defined.

Lemma discovery_codec_roundtrip_witness :
  DiscoveryEvent_wf (PresenceResponse laptop) = true /\
  exists w, w = Wire.discovery (PresenceResponse laptop) /\
    DiscoveryCodec_encode (P := release_profile) (PresenceResponse laptop) [] = Val (Ok tt, [] ++ w) /\
    DiscoveryCodec_decode (w ++ [x00]) = Val (Ok (Some (PresenceResponse laptop)), [x00]).
Proof.
  split; [vm_compute; reflexivity |].
  apply (discovery_codec_roundtrip (P := release_profile) (PresenceResponse laptop) [] [x00]).
  vm_compute. reflexivity.
Defined.

(** The last message is cut after seven bytes. *)
Lemma connection_stream_reassembly_witness :
  let ms := [Response tag; CompleteRequest] in
  let w := Wire.connection (Failure 2001) in
  consume ConnectionCodec_decode 3 (concat (Wire.connection <$> ms) ++ take 7 w) [] = Some (Val (Some <$> ms, take 7 w)) /\
  consume ConnectionCodec_decode 2 (take 7 w ++ drop 7 w) [] = Some (Val ([Some (Failure 2001)], [])).
Proof.
  apply (connection_stream_reassembly [Response tag; CompleteRequest] (Failure 2001)); vm_compute;
    [reflexivity | reflexivity | reflexivity | discriminate].
Defined.

Lemma connection_decode_sound_witness :
  ConnectionCodec_decode (Wire.connection (Failure 2001) ++ [x40]) = Val (Ok (Some (Failure 2001)), [x40]) /\
  Connection_wf (Failure 2001) = true /\
  has_header (Wire.connection (Failure 2001) ++ [x40]) 2 (Wire.connection_payload (Failure 2001) ++ [x40]).
Proof.
  split; [vm_compute; reflexivity |].
  apply (connection_decode_sound (Wire.connection (Failure 2001) ++ [x40]) (Failure 2001) [x40]).
  vm_compute. reflexivity.
Defined.

Lemma discovery_decode_sound_witness :
  exists body, has_header (Wire.discovery (PresenceResponse phone) ++ []) 1 (body ++ []) /\
    DiscoveryEvent_decoded (PresenceResponse phone) body /\
    PeerId_valid (pm_id phone) = true /\ PeerMetadata_wf phone = true /\
    flowinfo_zero (pm_addr phone) = true /\ is_u16 (str_len (pm_name phone)) = true.
Proof.
  apply (discovery_decode_sound (Wire.discovery (PresenceResponse phone) ++ []) (PresenceResponse phone) []).
  apply DiscoveryCodec_decode_wire. vm_compute. reflexivity.
Defined.

Lemma presence_encode_bounds_witness :
  SocketAddr_wf (pm_addr phone) = true /\
  (DiscoveryCodec_encode (P := debug_profile) (PresenceResponse phone) [] = Panic <-> 65536 <= declared_length phone).
Proof.
  split; [reflexivity |].
  apply (presence_encode_bounds (P := debug_profile) phone []). reflexivity.
Defined.

Lemma cert_id_presence_panics_witness :
  let m := mkPeerMetadata (pm_name phone) AppleiPhone (PeerId_from_cert [x01; x02]) (pm_addr phone) in
  PeerId_from_string (PeerId_0 (pm_id m)) = Err Length /\
  exists w, DiscoveryCodec_encode (P := debug_profile) (PresenceResponse m) [] = Val (Ok tt, w) /\
    DiscoveryCodec_decode w = Panic.
Proof.
  intros m. apply (cert_id_presence_panics (P := debug_profile) m [x01; x02]); [reflexivity | reflexivity |].
  vm_compute. discriminate.
Defined.

End Witnesses.
