(* ===== verification/UnitTests.v ===== *)
(** The unit tests of the p2p crate as programs of the model: the fourteen tests of proto.rs, the test
    of hmac.rs, and the fixtures of tests/common/mod.rs.

    A test is a computation over the buffer it creates; a failed assertion, an [unwrap] or [expect] on
    an error and a [let ... else] that does not match are panics.  [passes] runs a test on an empty
    buffer.  The tests state what the authors expect of the codecs, so that they pass is a check of the
    translation against the program's own specification. *)

From Stdlib Require Import ZArith Lia.
From Stdlib Require Import Strings.Byte.
From stdpp Require Import base tactics numbers option list strings.
From S2P Require Import Prelude RustStd SockAddr SockAddrFacts Errors Pairing Peer Proto Samples.

(** ** What the tests use of the test harness *)

Definition unit_test : Type := bufio ParseError unit.

(** A test passes when it returns. *)
Definition passes (t : unit_test) : bool :=
  match t [] with Val (Ok tt, _) => true | _ => false end.

Definition fail {A} : bufio ParseError A := lift_panic Panic.
Definition assert_eq {A} `{EqDecision A} (a b : A) : unit_test :=
  if decide (a = b) then mret tt else fail.
Definition unwrap {E A} (r : Result E A) : bufio ParseError A := lift_panic (unwrap_res r).

(** [encoder.encode(item, &mut dst).expect(...)]. *)
Definition expect {A} (m : bufio ParseError A) : bufio ParseError A := fun src =>
  match m src with Val (Ok a, src') => Val (Ok a, src') | _ => Panic end.

(** [consume(&mut decoder, &mut src)]; as many rounds as the buffer has bytes are enough
    ([ProtoTheorems.draining_terminates]). *)
Definition consume_all {Item} (dec : bufio ParseError (option Item)) : bufio ParseError (list (option Item)) :=
  fun src =>
    match consume dec (S (length src)) src [] with
    | Some (Val (result, src')) => Val (Ok result, src')
    | _ => Panic
    end.

(** [assert_eq!(0, src.len())], [assert_eq!(1, result.len())] and [result.pop()]. *)
Definition only_item {Item} (result : list (option Item)) : bufio ParseError Item :=
  src ← peek;
  _ ← assert_eq 0 (zlen src);
  _ ← assert_eq 1 (zlen result);
  match last result with Some (Some i) => mret i | _ => fail end.

(** String and byte-string literals. *)
Definition lit (s : string) : list byte := bytes_of_string s.
Definition String_from (s : string) : bufio ParseError RString :=
  lift_panic (unwrap_opt (from_utf8 (lit s))).

Section Tests.
Context {U : UnicodeTables} {P : Profile}.

(** ** Fixtures *)

Definition the_id : string := "0123456789012345678901234567890123456789".
Definition the_hmac : string := "0TQEnaM5YHPJ8LJ2KD32bTGdnfK23ScT".

Definition peer_id_of (s : string) : bufio ParseError PeerId :=
  s ← String_from s;
  unwrap (PeerId_from_string s).

(** tests/common/mod.rs; the multicast port is a literal there. *)
Definition create_p2p_addr : SocketAddr := V4 Ipv4Addr_LOCALHOST 0.
Definition create_multicast_addr : SocketAddr := V4 (mkIpv4 xef xff x2a x62) 50692.
Definition create_peer_id_one : bufio ParseError PeerId := peer_id_of the_id.
Definition create_peer_id_two : bufio ParseError PeerId := peer_id_of "QWERTYUIOPQWERTYUIOPQWERTYUIOPQWERTYUIOP".

(** The metadata the two presence tests expect. *)
Definition expected_metadata : bufio ParseError PeerMetadata :=
  name ← String_from "test phone";
  id ← peer_id_of the_id;
  mret {| pm_name := name; pm_typ := AppleiPhone; pm_id := id;
          pm_addr := V4 (mkIpv4 x7f x00 x00 x01) 5001 |}.

(** ** Discovery *)

Definition expect_presence_request (result : list (option DiscoveryEvent)) : unit_test :=
  i ← only_item result;
  match i with PresenceRequest => mret tt | _ => fail end.

Definition decode_discovery_presence_request : unit_test :=
  _ ← put SIGNATURE;
  _ ← put_u16 6;
  _ ← put_u8 1;
  _ ← put_u8 0;
  result ← consume_all DiscoveryCodec_decode;
  expect_presence_request result.

Definition expect_presence_response (result : list (option DiscoveryEvent)) : unit_test :=
  i ← only_item result;
  match i with
  | PresenceResponse meta => expected ← expected_metadata; assert_eq expected meta
  | _ => fail
  end.

Definition decode_discovery_presence_response : unit_test :=
  _ ← put SIGNATURE;
  _ ← put_u16 76;
  _ ← put_u8 1;
  _ ← put_u8 1;
  _ ← put_u16 6;
  _ ← put_u16 10;
  _ ← put (lit "test phone");
  _ ← put (lit the_id);
  _ ← put_u16 14;
  _ ← put (lit "127.0.0.1:5001");
  result ← consume_all DiscoveryCodec_decode;
  expect_presence_response result.

Definition encode_discovery_presence_request : unit_test :=
  _ ← expect (DiscoveryCodec_encode PresenceRequest);
  result ← consume_all DiscoveryCodec_decode;
  expect_presence_request result.

Definition encode_discovery_presence_response : unit_test :=
  meta ← expected_metadata;
  _ ← expect (DiscoveryCodec_encode (PresenceResponse meta));
  result ← consume_all DiscoveryCodec_decode;
  expect_presence_response result.

(** ** Connection *)

(** [String::from_utf8(tag).unwrap()] compared with the literal. *)
Definition assert_tag (tag : list byte) : unit_test :=
  s ← lift_panic (unwrap_opt (from_utf8 tag));
  assert_eq (lit the_hmac) (as_bytes s).

Definition expect_request (result : list (option Connection)) : unit_test :=
  i ← only_item result;
  match i with
  | Request id tag => _ ← assert_eq (lit the_id) (as_bytes (PeerId_fmt id)); assert_tag tag
  | _ => fail
  end.
Definition expect_response (result : list (option Connection)) : unit_test :=
  i ← only_item result;
  match i with Response tag => assert_tag tag | _ => fail end.
Definition expect_complete_request (result : list (option Connection)) : unit_test :=
  i ← only_item result;
  match i with CompleteRequest => mret tt | _ => fail end.
Definition expect_complete_response (result : list (option Connection)) : unit_test :=
  i ← only_item result;
  match i with CompleteResponse => mret tt | _ => fail end.
Definition expect_failure (result : list (option Connection)) : unit_test :=
  i ← only_item result;
  match i with Failure code => assert_eq 2001 code | _ => fail end.

Definition decode_connect_request : unit_test :=
  _ ← put SIGNATURE;
  _ ← put_u16 (73 + 5);
  _ ← put_u8 2;
  _ ← put_u8 0;
  _ ← put (lit the_id);
  _ ← put (lit the_hmac);
  result ← consume_all ConnectionCodec_decode;
  expect_request result.

Definition decode_connect_response : unit_test :=
  _ ← put SIGNATURE;
  _ ← put_u16 (33 + 5);
  _ ← put_u8 2;
  _ ← put_u8 1;
  _ ← put (lit the_hmac);
  result ← consume_all ConnectionCodec_decode;
  expect_response result.

Definition decode_connect_complete_request : unit_test :=
  _ ← put SIGNATURE;
  _ ← put_u16 (1 + 5);
  _ ← put_u8 2;
  _ ← put_u8 2;
  result ← consume_all ConnectionCodec_decode;
  expect_complete_request result.

Definition decode_connect_complete_response : unit_test :=
  _ ← put SIGNATURE;
  _ ← put_u16 (1 + 5);
  _ ← put_u8 2;
  _ ← put_u8 3;
  result ← consume_all ConnectionCodec_decode;
  expect_complete_response result.

Definition decode_connect_failure : unit_test :=
  _ ← put SIGNATURE;
  _ ← put_u16 (5 + 5);
  _ ← put_u8 2;
  _ ← put_u8 4;
  _ ← put_u32 2001;
  result ← consume_all ConnectionCodec_decode;
  expect_failure result.

Definition encode_connect_request : unit_test :=
  id ← peer_id_of the_id;
  _ ← expect (ConnectionCodec_encode (Request id (lit the_hmac)));
  result ← consume_all ConnectionCodec_decode;
  expect_request result.

Definition encode_connect_response : unit_test :=
  _ ← expect (ConnectionCodec_encode (Response (lit the_hmac)));
  result ← consume_all ConnectionCodec_decode;
  expect_response result.

Definition encode_connect_completed_request : unit_test :=
  _ ← expect (ConnectionCodec_encode CompleteRequest);
  result ← consume_all ConnectionCodec_decode;
  expect_complete_request result.

Definition encode_connect_completed_response : unit_test :=
  _ ← expect (ConnectionCodec_encode CompleteResponse);
  result ← consume_all ConnectionCodec_decode;
  expect_complete_response result.

Definition encode_connect_failure : unit_test :=
  _ ← expect (ConnectionCodec_encode (Failure 2001));
  result ← consume_all ConnectionCodec_decode;
  expect_failure result.

(** ** The test of hmac.rs *)

Section Hmac.
Context {C : CryptoLib}.

(** [hmac_peer_id_auth_code], at time [now]; the errors its [?] returns fail the test. *)
Definition hmac_peer_id_auth_code (now : Z) : unit_test :=
  secret ← String_from "QWERTYUIOPQWERTYUIOPQWERTYUIOPQWERTYUIOP";
  pid ← peer_id_of the_id;
  let peer := PeerId_bytes pid in
  key ← unwrap (Secret_Encoded_to_bytes secret);
  auth ← unwrap (PairingAuthenticator_new key);
  code ← unwrap (PairingAuthenticator_generate auth now);
  let tag := hmac_sign (as_bytes code) peer in
  match hmac_verify (as_bytes code) peer tag with Ok _ => mret tt | Err _ => fail end.

End Hmac.

(** ** They pass *)

Definition proto_tests : list unit_test := [
  decode_discovery_presence_request; decode_discovery_presence_response;
  encode_discovery_presence_request; encode_discovery_presence_response;
  decode_connect_request; decode_connect_response; decode_connect_complete_request;
  decode_connect_complete_response; decode_connect_failure;
  encode_connect_request; encode_connect_response; encode_connect_completed_request;
  encode_connect_completed_response; encode_connect_failure ].

End Tests.

Lemma proto_tests_pass {U : UnicodeTables} {P : Profile} : Forall (fun t => passes t = true) proto_tests.
Proof. destruct P; repeat constructor; vm_compute; reflexivity. Qed.

(** The literals of the hmac test. *)
Definition hmac_secret : RString :=
  ascii_string (bytes_of_string "QWERTYUIOPQWERTYUIOPQWERTYUIOPQWERTYUIOP") eq_refl.
Definition hmac_peer : PeerId :=
  mkPeerId (ascii_string (bytes_of_string "0123456789012345678901234567890123456789") eq_refl).

Section HmacTest.
Context {U : UnicodeTables} {C : CryptoLib} {L : CryptoLaws C}.

Lemma hmac_secret_literal src : String_from "QWERTYUIOPQWERTYUIOPQWERTYUIOPQWERTYUIOP" src = Val (Ok hmac_secret, src).
Proof.
  unfold String_from, lift_panic. by rewrite (proj2 (from_utf8_Some _ hmac_secret)).
Qed.

Lemma the_id_literal src : peer_id_of the_id src = Val (Ok hmac_peer, src).
Proof.
  unfold peer_id_of, String_from, lift_panic, unwrap. buf_step.
  rewrite (proj2 (from_utf8_Some _ (PeerId_0 hmac_peer))) by done. cbn [unwrap_opt].
  by rewrite PeerId_from_string_valid.
Qed.

Lemma hmac_test_eq now src : hmac_peer_id_auth_code now src =
  (key ← unwrap (Secret_Encoded_to_bytes hmac_secret);
   auth ← unwrap (PairingAuthenticator_new key);
   code ← unwrap (PairingAuthenticator_generate auth now);
   match hmac_verify (as_bytes code) (PeerId_bytes hmac_peer)
           (hmac_sign (as_bytes code) (PeerId_bytes hmac_peer)) with Ok _ => mret tt | Err _ => fail end) src.
Proof.
  unfold hmac_peer_id_auth_code. unfold mbind at 1, bufio_bind at 1. rewrite hmac_secret_literal.
  unfold mbind at 1, bufio_bind at 1. by rewrite the_id_literal.
Qed.

(** The crate's own unit tests pass: the fourteen of proto.rs in a debug and in a release build, whatever
    the Unicode tables say above ASCII; and the one of hmac.rs exactly when [totp-rs] decodes its secret,
    accepts it and gives a code, whatever these are. *)
Theorem unit_tests_pass now {P : Profile} :
  Forall (fun t => passes t = true) proto_tests /\
  (passes (hmac_peer_id_auth_code now) = true <->
   exists key auth code, Secret_Encoded_to_bytes hmac_secret = Ok key /\
     PairingAuthenticator_new key = Ok auth /\ PairingAuthenticator_generate auth now = Ok code).
Proof.
  split; [apply proto_tests_pass |]. unfold passes. rewrite hmac_test_eq. buf_step. unfold unwrap, lift_panic.
  destruct (Secret_Encoded_to_bytes hmac_secret) as [key|e]; cbn; [| by split; [| intros (? & ? & ? & ? & _)]].
  destruct (PairingAuthenticator_new key) as [auth|e] eqn:Ea; cbn; [| split; [done |]; intros (? & ? & ? & [= <-] & ? & _); congruence].
  destruct (PairingAuthenticator_generate auth now) as [code|e] eqn:Eg; cbn.
  - rewrite hmac_verify_sign. split; [| done]. intros _. eauto 8.
  - split; [done |]. intros (? & ? & ? & [= <-] & ? & ?). congruence.
Qed.

End HmacTest.
