(* ===== verification/Handshake.v ===== *)
(** The handshake: crate/p2p/src/net.rs ([connect], [accept]) and [Peer::new] of peer.rs.

    The two async functions are interaction programs: each [.await] on the framed connection, each
    look at the clock, each question to the manager and the spawn of the connection's handler is a
    node whose answer the environment gives.  [runs p t o] says that program [p] ends with outcome
    [o] after the interactions [t], under some environment: peer, network, clock and manager may
    answer anything, so a statement about all [t] is a statement about all environments.
    [xstep] runs a client against a host over two byte streams, through the codecs, in any order;
    [inevitable] says where all maximal runs end. *)

From Stdlib Require Import ZArith Lia.
From Stdlib Require Import Strings.Byte.
From stdpp Require Import base tactics numbers option list.
From S2P Require Import Prelude RustStd SockAddr Errors Pairing Peer Proto.

(** [TIMEOUT_ERR], [NOT_FOUND_ERR], [AUTH_ERR]. *)
Definition TIMEOUT_ERR : Z := 2001.
Definition NOT_FOUND_ERR : Z := 2002.
Definition AUTH_ERR : Z := 2003.

(** What [timeout(Duration::from_secs(1), frame.next()).await] gives: the timeout, the end of the
    stream, or a decoded message or decoding error; the decoder may also panic, so the answer to a
    wait is a [panicking Recv]. *)
Inductive Recv : Type :=
| TimedOut
| Closed
| Received (r : Result ParseError Connection).

Section Programs.
Context {C : CryptoLib}.

(** ** Interaction programs *)

Inductive hs (A : Type) : Type :=
| HRet (a : A)
| HPanic
| HNow (k : Z -> hs A)
| HSend (m : Connection) (k : Result ParseError unit -> hs A)
| HNext (k : panicking Recv -> hs A)
| HCandidate (id : PeerId) (k : option PeerCandidate -> hs A)
| HSpawn (id : PeerId) (conn : Z) (k : hs A).
#[global] Arguments HRet {A} a.
#[global] Arguments HPanic {A}.
#[global] Arguments HNow {A} k.
#[global] Arguments HSend {A} m k.
#[global] Arguments HNext {A} k.
#[global] Arguments HCandidate {A} id k.
#[global] Arguments HSpawn {A} id conn k.

Fixpoint hs_bind_fix {A B} (f : A -> hs B) (p : hs A) : hs B :=
  match p with
  | HRet a => f a
  | HPanic => HPanic
  | HNow k => HNow (fun t => hs_bind_fix f (k t))
  | HSend m k => HSend m (fun r => hs_bind_fix f (k r))
  | HNext k => HNext (fun r => hs_bind_fix f (k r))
  | HCandidate id k => HCandidate id (fun c => hs_bind_fix f (k c))
  | HSpawn id conn k => HSpawn id conn (hs_bind_fix f k)
  end.

#[global] Instance hs_ret : MRet hs := @HRet.
#[global] Instance hs_bind : MBind hs := @hs_bind_fix.

(** Reading the system clock, as [TOTP::generate_current] does. *)
Definition system_time : hs Z := HNow HRet.
(** [frame.send(m).await]. *)
Definition send (m : Connection) : hs (Result ParseError unit) := HSend m HRet.
(** [manager.get_peer_candidate(&id)]. *)
Definition get_candidate (id : PeerId) : hs (option PeerCandidate) := HCandidate id HRet.
(** [tokio::spawn(handler(conn, application, m, id))]. *)
Definition spawn_handler (id : PeerId) (conn : Z) : hs unit := HSpawn id conn (HRet tt).
(** [.unwrap()]. *)
Definition or_panic {A} (m : panicking A) : hs A :=
  match m with Val a => HRet a | Panic => HPanic end.
(** [timeout(Duration::from_secs(1), frame.next()).await]: the decoder runs inside, and its panics
    are the caller's. *)
Definition timeout_next : hs Recv := HNext or_panic.
(** [r?] in a function that returns [Result<_, HandshakeError>], for a [ParseError]. *)
Definition try_parse {A B} (r : Result ParseError A) (k : A -> hs (Result HandshakeError B))
  : hs (Result HandshakeError B) :=
  match r with Ok a => k a | Err e => HRet (Err (HsParse e)) end.

(** [Peer::new]: the handler is spawned on the connection; never an error. *)
Definition Peer_new (conn_type : ConnectionType) (conn : Z) (metadata : PeerMetadata)
  : hs (Result unit Peer) :=
  let id := pm_id metadata in
  _ ← spawn_handler id conn;
  mret (Ok {| peer_id := id; peer_conn_type := conn_type; peer_metadata := metadata; peer_conn := conn |}).

(** [net::connect]: the client's side, for the local id [me] and the candidate [peer]. *)
Definition connect (me : PeerId) (conn : Z) (peer : PeerCandidate) : hs (Result HandshakeError Peer) :=
  now ← system_time;
  code ← or_panic (unwrap_res (PairingAuthenticator_generate (pc_auth peer) now));
  let key := as_bytes code in
  let tag := hmac_sign key (PeerId_bytes me) in
  sent ← send (Request me tag);
  try_parse sent (fun _ =>
  response ← timeout_next;
  match response with
  | TimedOut => _ ← send (Failure TIMEOUT_ERR); mret (Err HsTimeout)
  | Closed => mret (Err HsDisconnect)
  | Received res => try_parse res (fun msg =>
      match msg with
      | Response tag =>
          match hmac_verify key (PeerId_bytes (pc_id peer)) tag with
          | Err _ => _ ← send (Failure AUTH_ERR); mret (Err HsAuth)
          | Ok _ =>
              sent ← send CompleteRequest;
              try_parse sent (fun _ =>
              complete ← timeout_next;
              match complete with
              | TimedOut => _ ← send (Failure TIMEOUT_ERR); mret (Err HsTimeout)
              | Received res => try_parse res (fun msg =>
                  match msg with
                  | CompleteResponse =>
                      connected ← Peer_new Client conn (pc_metadata peer);
                      connected ← or_panic (unwrap_res connected);
                      mret (Ok connected)
                  | _ => mret (Err HsMsg)
                  end)
              | Closed => mret (Err HsDisconnect)
              end)
          end
      | Failure code => mret (Err (HsFailure code))
      | _ => mret (Err HsMsg)
      end)
  end).

(** [net::accept]: the host's side. *)
Definition accept (me : PeerId) (conn : Z) : hs (Result HandshakeError Peer) :=
  request ← timeout_next;
  match request with
  | TimedOut => _ ← send (Failure TIMEOUT_ERR); mret (Err HsTimeout)
  | Closed => mret (Err HsDisconnect)
  | Received req => try_parse req (fun msg =>
      match msg with
      | Request id tag =>
          candidate ← get_candidate id;
          match candidate with
          | None => _ ← send (Failure NOT_FOUND_ERR); mret (Err HsNotFound)
          | Some peer =>
              now ← system_time;
              code ← or_panic (unwrap_res (PairingAuthenticator_generate (pc_auth peer) now));
              let key := as_bytes code in
              match hmac_verify key (PeerId_bytes (pc_id peer)) tag with
              | Err _ => _ ← send (Failure AUTH_ERR); mret (Err HsAuth)
              | Ok _ =>
                  let tag := hmac_sign key (PeerId_bytes me) in
                  sent ← send (Response tag);
                  try_parse sent (fun _ =>
                  complete ← timeout_next;
                  match complete with
                  | TimedOut => _ ← send (Failure TIMEOUT_ERR); mret (Err HsTimeout)
                  | Received res => try_parse res (fun msg =>
                      match msg with
                      | CompleteRequest =>
                          sent ← send CompleteResponse;
                          try_parse sent (fun _ =>
                          connected ← Peer_new Server conn (pc_metadata peer);
                          connected ← or_panic (unwrap_res connected);
                          mret (Ok connected))
                      | _ => mret (Err HsMsg)
                      end)
                  | Closed => mret (Err HsDisconnect)
                  end)
              end
          end
      | Failure code => mret (Err (HsFailure code))
      | _ => mret (Err HsMsg)
      end)
  end.

(** ** Runs *)

(** One interaction, with the environment's answer. *)
Inductive act : Type :=
| ANow (now : Z)
| ASend (m : Connection) (r : Result ParseError unit)
| ANext (r : panicking Recv)
| ACandidate (id : PeerId) (c : option PeerCandidate)
| ASpawn (id : PeerId) (conn : Z).

Inductive runs {A : Type} : hs A -> list act -> panicking A -> Prop :=
| runs_ret a : runs (HRet a) [] (Val a)
| runs_panic : runs HPanic [] Panic
| runs_now k now t o : runs (k now) t o -> runs (HNow k) (ANow now :: t) o
| runs_send m k r t o : runs (k r) t o -> runs (HSend m k) (ASend m r :: t) o
| runs_next k r t o : runs (k r) t o -> runs (HNext k) (ANext r :: t) o
| runs_candidate id k c t o : runs (k c) t o -> runs (HCandidate id k) (ACandidate id c :: t) o
| runs_spawn id conn k t o : runs k t o -> runs (HSpawn id conn k) (ASpawn id conn :: t) o.

End Programs.

#[global] Arguments act {C}.

(** A decoded message. *)
Abbreviation Got m := (Val (Received (Ok m))).

(** ** The runs that succeed *)

Section Traces.
Context {C : CryptoLib}.

(** The interactions of a successful [connect], and of a successful [accept]. *)
Definition connect_trace (me : PeerId) (conn : Z) (peer : PeerCandidate) (now : Z) (code : RString) : list act :=
  [ANow now; ASend (Request me (hmac_sign (as_bytes code) (PeerId_bytes me))) (Ok tt);
   ANext (Got (Response (hmac_sign (as_bytes code) (PeerId_bytes (pc_id peer)))));
   ASend CompleteRequest (Ok tt); ANext (Got CompleteResponse);
   ASpawn (pm_id (pc_metadata peer)) conn].

Definition accept_trace (me : PeerId) (conn : Z) (id : PeerId) (peer : PeerCandidate) (now : Z) (code : RString) : list act :=
  [ANext (Got (Request id (hmac_sign (as_bytes code) (PeerId_bytes (pc_id peer)))));
   ACandidate id (Some peer); ANow now;
   ASend (Response (hmac_sign (as_bytes code) (PeerId_bytes me))) (Ok tt);
   ANext (Got CompleteRequest); ASend CompleteResponse (Ok tt);
   ASpawn (pm_id (pc_metadata peer)) conn].

End Traces.

(** ** Environments *)

(** An environment: its answer may depend on everything that happened before. *)
Record env `{CryptoLib} := mkEnv {
  env_now : list act -> Z;
  env_send : list act -> Connection -> Result ParseError unit;
  env_next : list act -> panicking Recv;
  env_candidate : list act -> PeerId -> option PeerCandidate
}.

#[global] Arguments mkEnv {H} _ _ _ _.

(** The interactions [t], after [before], got their answers from [e]. *)
Fixpoint answered `{CryptoLib} (e : env) (before t : list act) : Prop :=
  match t with
  | [] => True
  | a :: t' =>
      match a with
      | ANow now => now = env_now e before
      | ASend m r => r = env_send e before m
      | ANext r => r = env_next e before
      | ACandidate id c => c = env_candidate e before id
      | ASpawn _ _ => True
      end /\ answered e (before ++ [a]) t'
  end.

(** The run of a program under an environment. *)
Fixpoint hs_exec `{CryptoLib} {A} (e : env) (before : list act) (p : hs A) : panicking A * list act :=
  match p with
  | HRet a => (Val a, [])
  | HPanic => (Panic, [])
  | HNow k =>
      let now := env_now e before in
      let '(o, t) := hs_exec e (before ++ [ANow now]) (k now) in (o, ANow now :: t)
  | HSend m k =>
      let r := env_send e before m in
      let '(o, t) := hs_exec e (before ++ [ASend m r]) (k r) in (o, ASend m r :: t)
  | HNext k =>
      let r := env_next e before in
      let '(o, t) := hs_exec e (before ++ [ANext r]) (k r) in (o, ANext r :: t)
  | HCandidate id k =>
      let c := env_candidate e before id in
      let '(o, t) := hs_exec e (before ++ [ACandidate id c]) (k c) in (o, ACandidate id c :: t)
  | HSpawn id conn k =>
      let '(o, t) := hs_exec e (before ++ [ASpawn id conn]) k in (o, ASpawn id conn :: t)
  end.


(** ** Two parties over two byte streams *)

Section Exchange.
Context {U : UnicodeTables} {P : Profile} {C : CryptoLib}.

(** One end of the exchange: the rest of its program, the bytes it has received and not decoded,
    and whether a handler was spawned.  A program that ended is [HRet] or [HPanic]. *)
Record party (A : Type) := mkParty { prog : hs A; inbox : list byte; spawned : list (PeerId * Z) }.
#[global] Arguments mkParty {A} prog inbox spawned.
#[global] Arguments prog {A} p.
#[global] Arguments inbox {A} p.
#[global] Arguments spawned {A} p.

(** One step of a party on a perfect network: [send] encodes and delivers, [next] decodes what has
    arrived; [None] when the party has ended or waits for bytes.  [clock] is its clock, [lookup]
    its manager.  The second component is what it puts on the wire. *)
Definition party_step {A} (clock : Z) (lookup : PeerId -> option PeerCandidate) (p : party A)
  : option (party A * list byte) :=
  match prog p with
  | HRet _ | HPanic => None
  | HNow k => Some (mkParty (k clock) (inbox p) (spawned p), [])
  | HSend m k =>
      match ConnectionCodec_encode m [] with
      | Val (r, w) => Some (mkParty (k r) (inbox p) (spawned p), w)
      | Panic => Some (mkParty HPanic (inbox p) (spawned p), [])
      end
  | HNext k =>
      match ConnectionCodec_decode (inbox p) with
      | Val (Ok (Some m), rest) => Some (mkParty (k (Val (Received (Ok m)))) rest (spawned p), [])
      | Val (Ok None, _) => None
      | Val (Err e, rest) => Some (mkParty (k (Val (Received (Err e)))) rest (spawned p), [])
      | Panic => Some (mkParty (k Panic) (inbox p) (spawned p), [])
      end
  | HCandidate id k => Some (mkParty (k (lookup id)) (inbox p) (spawned p), [])
  | HSpawn id conn k => Some (mkParty k (inbox p) ((id, conn) :: spawned p), [])
  end.

Definition deliver {A} (p : party A) (w : list byte) : party A :=
  mkParty (prog p) (inbox p ++ w) (spawned p).

(** The two parties step in any order. *)
Inductive xstep {A B} (clock_c clock_h : Z) (lookup_c lookup_h : PeerId -> option PeerCandidate)
  : party A * party B -> party A * party B -> Prop :=
| xstep_client c h c' w :
    party_step clock_c lookup_c c = Some (c', w) ->
    xstep clock_c clock_h lookup_c lookup_h (c, h) (c', deliver h w)
| xstep_host c h h' w :
    party_step clock_h lookup_h h = Some (h', w) ->
    xstep clock_c clock_h lookup_c lookup_h (c, h) (deliver c w, h').

End Exchange.

(** ** Inevitability *)

(** Every maximal run of [R] from [s] has exactly [n] steps and ends in [F]. *)
Inductive inevitable {X : Type} (R : X -> X -> Prop) (F : X -> Prop) : nat -> X -> Prop :=
| inevitable_end s : F s -> (forall s', ~ R s s') -> inevitable R F 0 s
| inevitable_step n s : (exists s', R s s') -> (forall s', R s s' -> inevitable R F n s') ->
    inevitable R F (S n) s.
