(* ===== verification/HandshakeFacts.v ===== *)
(** Tools for the handshake: taking runs of the interaction programs apart and building them, their
    execution under an environment, and the runs that succeed. *)

From Stdlib Require Import ZArith Lia.
From Stdlib Require Import Strings.Byte.
From stdpp Require Import base tactics numbers option list strings.
From S2P Require Import Prelude RustStd SockAddr Errors Pairing Peer Proto Handshake.

(** Takes a run apart, one interaction at a time, splitting on the answers. *)
Ltac runs_step H :=
  cbn -[hmac_sign hmac_verify PairingAuthenticator_generate PeerId_bytes TIMEOUT_ERR NOT_FOUND_ERR AUTH_ERR] in H;
  lazymatch type of H with
  | runs (HRet _) _ _ => inversion H; subst; clear H
  | runs (mret _) _ _ => inversion H; subst; clear H
  | runs HPanic _ _ => inversion H; subst; clear H
  | runs (match ?x with _ => _ end) _ _ => destruct x eqn:?; runs_step H
  | runs (try_parse ?x _) _ _ => destruct x; runs_step H
  | runs (or_panic (unwrap_res ?x) ≫= _) _ _ => destruct x eqn:?; runs_step H
  | runs (or_panic ?x ≫= _) _ _ => destruct x eqn:?; runs_step H
  | runs (hs_bind_fix _ (or_panic (unwrap_res ?x))) _ _ => destruct x eqn:?; runs_step H
  | runs (hs_bind_fix _ (or_panic ?x)) _ _ => destruct x eqn:?; runs_step H
  | runs _ _ _ => inversion H; subst; clear H;
      match goal with H' : runs _ _ _ |- _ => runs_step H' end
  end.
Tactic Notation "runs_inv" hyp(H) := runs_step H.

(** Splits on the unit results and turns the verified tag into the signature. *)
Ltac units :=
  repeat match goal with u : unit |- _ => destruct u end;
  repeat match goal with H : hmac_verify _ _ _ = Ok tt |- _ => apply hmac_verify_Ok in H; subst end.

(** Builds a run, using the equations of the context for what the program computes. *)
Ltac runs_go :=
  repeat (cbn -[hmac_sign hmac_verify PairingAuthenticator_generate PeerId_bytes];
    first [ apply runs_ret | apply runs_panic | apply runs_now | apply runs_send | apply runs_next
          | apply runs_candidate | apply runs_spawn
          | match goal with E : PairingAuthenticator_generate _ _ = _ |- _ => rewrite E end
          | rewrite hmac_verify_sign ]).

Section Facts.
Context {C : CryptoLib}.

(** Every program ends under every environment, in one way. *)
Lemma hs_exec_runs {A} (e : env) (p : hs A) : forall before,
  runs p (snd (hs_exec e before p)) (fst (hs_exec e before p)) /\ answered e before (snd (hs_exec e before p)).
Proof.
  induction p as [a| |k IH|m k IH|k IH|id k IH|id conn k IH]; intros before; cbn.
  1,2: split; constructor.
  all: match goal with |- context [hs_exec ?e ?b ?q] =>
         assert (runs q (snd (hs_exec e b q)) (fst (hs_exec e b q)) /\ answered e b (snd (hs_exec e b q)))
           as [? ?] by apply IH; destruct (hs_exec e b q) end;
       cbn in *; split_and!; by try constructor.
Qed.

Lemma hs_deterministic {A} (e : env) (p : hs A) : forall before t1 o1 t2 o2,
  runs p t1 o1 -> answered e before t1 -> runs p t2 o2 -> answered e before t2 -> t1 = t2 /\ o1 = o2.
Proof.
  induction p as [a| |k IH|m k IH|k IH|id k IH|id conn k IH]; intros before t1 o1 t2 o2 H1 A1 H2 A2;
    inversion H1; subst; inversion H2; subst; try done; cbn in A1, A2; destruct A1 as [E1 A1], A2 as [E2 A2];
    subst; match type of A1 with answered _ _ ?x => match type of A2 with answered _ _ ?y =>
      assert (x = y /\ o1 = o2) as [-> ->] by (eapply IH; [| exact A1 | | exact A2]; eassumption) end end; done.
Qed.

(** The runs that succeed. *)
Context {L : CryptoLaws C}.

Lemma connect_runs_Ok me conn peer t p :
  runs (connect me conn peer) t (Val (Ok p)) ->
  exists now code, PairingAuthenticator_generate (pc_auth peer) now = Ok code /\
    t = connect_trace me conn peer now code /\
    p = mkPeer (pm_id (pc_metadata peer)) Client (pc_metadata peer) conn.
Proof. unfold connect. intros H. runs_inv H; try done. units. eauto. Qed.

Lemma accept_runs_Ok me conn t p :
  runs (accept me conn) t (Val (Ok p)) ->
  exists id peer now code, PairingAuthenticator_generate (pc_auth peer) now = Ok code /\
    t = accept_trace me conn id peer now code /\
    p = mkPeer (pm_id (pc_metadata peer)) Server (pc_metadata peer) conn.
Proof. unfold accept. intros H. runs_inv H; try done. units. eauto 10. Qed.

Lemma connect_runs_trace me conn peer now code :
  PairingAuthenticator_generate (pc_auth peer) now = Ok code ->
  runs (connect me conn peer) (connect_trace me conn peer now code)
    (Val (Ok (mkPeer (pm_id (pc_metadata peer)) Client (pc_metadata peer) conn))).
Proof. intros Hg. unfold connect, connect_trace. runs_go. Qed.

Lemma accept_runs_trace me conn id peer now code :
  PairingAuthenticator_generate (pc_auth peer) now = Ok code ->
  runs (accept me conn) (accept_trace me conn id peer now code)
    (Val (Ok (mkPeer (pm_id (pc_metadata peer)) Server (pc_metadata peer) conn))).
Proof. intros Hg. unfold accept, accept_trace. runs_go. Qed.

(** A handler is spawned last, by a run that succeeds. *)
Lemma accept_spawn_inv me conn t1 id c t2 o :
  runs (accept me conn) (t1 ++ ASpawn id c :: t2) o ->
  exists rid peer now code, PairingAuthenticator_generate (pc_auth peer) now = Ok code /\
    t1 ++ [ASpawn id c] = accept_trace me conn rid peer now code.
Proof.
  intros H. remember (t1 ++ ASpawn id c :: t2) as t eqn:E. symmetry in E. revert E. generalize dependent t2.
  unfold accept in H. runs_inv H; intros t2 E; units.
  all: do 8 (try (destruct t1 as [|? t1]; [try discriminate E | first [discriminate E | injection E as -> E]])).
  all: try discriminate E.
  all: injection E as -> -> _; do 4 eexists; split; [eassumption | reflexivity].
Qed.

Lemma connect_spawn_inv me conn peer t1 id c t2 o :
  runs (connect me conn peer) (t1 ++ ASpawn id c :: t2) o ->
  exists now code, PairingAuthenticator_generate (pc_auth peer) now = Ok code /\
    t1 ++ [ASpawn id c] = connect_trace me conn peer now code.
Proof.
  intros H. remember (t1 ++ ASpawn id c :: t2) as t eqn:E. symmetry in E. revert E. generalize dependent t2.
  unfold connect in H. runs_inv H; intros t2 E; units.
  all: do 7 (try (destruct t1 as [|? t1]; [try discriminate E | first [discriminate E | injection E as -> E]])).
  all: try discriminate E.
  all: injection E as -> -> _; do 2 eexists; split; [eassumption | reflexivity].
Qed.

End Facts.

(** ** The messages are well formed *)

Section Messages.
Context {U : UnicodeTables} {C : CryptoLib} {L : CryptoLaws C}.

Lemma wf_request me key data : PeerId_valid me = true -> Connection_wf (Request me (hmac_sign key data)) = true.
Proof. intros Hc. cbn. rewrite Hc. unfold zlen. by rewrite hmac_sign_length. Qed.
Lemma wf_response key data : Connection_wf (Response (hmac_sign key data)) = true.
Proof. cbn. unfold zlen. by rewrite hmac_sign_length. Qed.

End Messages.
