(* ===== verification/HandshakeTheorems.v ===== *)
(** Properties of the handshake.

    - Authentication: the exact interactions of a successful [connect] and of a successful [accept];
      what a host reveals, and to whom.
    - Errors: the failure codes sent, panics, and that a handler is spawned exactly on success.
    - Termination: under every environment, within a fixed number of interactions.
    - Agreement: a client and a host with the same pairing code complete under every schedule, and
      with different codes both fail. *)

From Stdlib Require Import ZArith Lia.
From Stdlib Require Import Strings.Byte.
From stdpp Require Import base tactics numbers option list relations strings.
From S2P Require Import Prelude RustStd SockAddr Errors Pairing Peer Proto ProtoFacts Handshake HandshakeFacts Samples.

(** The failure codes a run sends. *)
Definition failures_sent `{CryptoLib} (t : list act) : list Z :=
  omap (fun a => match a with ASend (Failure code) _ => Some code | _ => None end) t.

(** The code that goes with an error of the local party. *)
Definition failure_code (e : HandshakeError) : list Z :=
  match e with
  | HsTimeout => [TIMEOUT_ERR]
  | HsNotFound => [NOT_FOUND_ERR]
  | HsAuth => [AUTH_ERR]
  | _ => []
  end.

(** How often a run waits for the other side. *)
Definition waits `{CryptoLib} (t : list act) : nat :=
  length (omap (fun a => match a with ANext _ => Some tt | _ => None end) t).

(** ** Authentication *)

Section Authentication.
Context {C : CryptoLib} {L : CryptoLaws C}.

(** C3.  Authentication of the host: [connect] returns a peer exactly when the other side answered
    the request with the HMAC of the candidate's id under the pairing code of the moment, and then
    confirmed completion; the peer returned is the candidate's, and its handler runs. *)
Theorem connect_succeeds_iff me conn peer t p :
  runs (connect me conn peer) t (Val (Ok p)) <->
  exists now code, PairingAuthenticator_generate (pc_auth peer) now = Ok code /\
    t = connect_trace me conn peer now code /\
    p = mkPeer (pm_id (pc_metadata peer)) Client (pc_metadata peer) conn.
Proof.
  split.
  - apply connect_runs_Ok.
  - intros (now & code & Hg & -> & ->). by apply connect_runs_trace.
Qed.

(** C4.  Authentication of the client: [accept] returns a peer exactly when the first message was a
    request whose id the manager knows and whose tag is the HMAC of that candidate's id under its
    pairing code of the moment, the answer went out, and the client completed. *)
Theorem accept_succeeds_iff me conn t p :
  runs (accept me conn) t (Val (Ok p)) <->
  exists id peer now code, PairingAuthenticator_generate (pc_auth peer) now = Ok code /\
    t = accept_trace me conn id peer now code /\
    p = mkPeer (pm_id (pc_metadata peer)) Server (pc_metadata peer) conn.
Proof.
  split.
  - apply accept_runs_Ok.
  - intros (id & peer & now & code & Hg & -> & ->). by apply accept_runs_trace.
Qed.

(** C10.  A host tells an unauthenticated client nothing but failure codes: whatever the outcome of
    [accept], any other message it sent was sent after a request that the manager knew and whose tag
    verified, and is the host's own tag under the same code or the completion. *)
Theorem accept_discloses_only_to_authenticated me conn t o i m r :
  runs (accept me conn) t o -> t !! i = Some (ASend m r) ->
  (exists code, m = Failure code) \/
  exists id peer now code, PairingAuthenticator_generate (pc_auth peer) now = Ok code /\
    take 3 t = take 3 (accept_trace me conn id peer now code) /\ (3 <= i)%nat /\
    (m = Response (hmac_sign (as_bytes code) (PeerId_bytes me)) \/ m = CompleteResponse).
Proof.
  unfold accept. intros H Hi. runs_inv H.
  all: do 7 (try (destruct i as [|i]; [try discriminate Hi; injection Hi as <- <- | cbn in Hi])); try discriminate Hi; eauto.
  all: units.
  all: right; do 4 eexists; split_and!; [eassumption | reflexivity | lia | tauto].
Qed.

(** The client sends [CompleteRequest] only to a host whose tag verified; otherwise it sends
    its request and failure codes. *)
Theorem connect_completes_only_authenticated me conn peer t o i m r :
  runs (connect me conn peer) t o -> t !! i = Some (ASend m r) ->
  (exists code, m = Failure code) \/
  (exists now code, PairingAuthenticator_generate (pc_auth peer) now = Ok code /\ i = 1%nat /\
     m = Request me (hmac_sign (as_bytes code) (PeerId_bytes me))) \/
  (exists now code, PairingAuthenticator_generate (pc_auth peer) now = Ok code /\ i = 3%nat /\
     take 3 t = take 3 (connect_trace me conn peer now code) /\ m = CompleteRequest).
Proof.
  unfold connect. intros H Hi. runs_inv H.
  all: do 6 (try (destruct i as [|i]; [try discriminate Hi; injection Hi as <- <- | cbn in Hi])); try discriminate Hi; eauto 10.
  all: units.
  all: right; right; do 2 eexists; split_and!; [eassumption | done | reflexivity | done].
Qed.

(** ** Errors and termination *)

(** Failure codes: a handshake that ends in an error has sent the failure code of that error
    (2001 timeout, 2002 not found, 2003 authentication) exactly once, and none for the errors that
    have no code; a successful one has sent none.  Both sides. *)
Theorem failure_codes_sent me conn peer t r :
  (runs (connect me conn peer) t (Val r) -> failures_sent t = match r with Ok _ => [] | Err e => failure_code e end) /\
  (runs (accept me conn) t (Val r) -> failures_sent t = match r with Ok _ => [] | Err e => failure_code e end).
Proof.
  split; intros H; [unfold connect in H | unfold accept in H]; runs_inv H; reflexivity.
Qed.

(** A connection handler is spawned exactly when the handshake succeeds. *)
Theorem handler_spawned_iff_success me conn peer t o :
  (runs (connect me conn peer) t o ->
     (exists id c, ASpawn id c ∈ t) <-> exists p, o = Val (Ok p)) /\
  (runs (accept me conn) t o ->
     (exists id c, ASpawn id c ∈ t) <-> exists p, o = Val (Ok p)).
Proof.
  split; intros H; [unfold connect in H | unfold accept in H]; runs_inv H;
    (split; [intros (? & ? & Hin); try (repeat (apply elem_of_cons in Hin as [Hin|Hin]; [discriminate |]); by apply elem_of_nil in Hin); eauto
            | intros [? ?]; try discriminate; do 2 eexists; repeat (apply elem_of_cons; (by left) || right)]).
Qed.

(** C15.  Panics: a handshake panics exactly when the pairing code cannot be generated (the system
    clock is before the epoch) or the decoder panics on what the other side sent, in one of the two
    places where each side waits. *)
Theorem handshake_panics_iff me conn peer t :
  (runs (connect me conn peer) t Panic <->
     (exists now e, PairingAuthenticator_generate (pc_auth peer) now = Err e /\ t = [ANow now]) \/
     (exists now code, PairingAuthenticator_generate (pc_auth peer) now = Ok code /\
        (t = take 2 (connect_trace me conn peer now code) ++ [ANext Panic] \/
         t = take 4 (connect_trace me conn peer now code) ++ [ANext Panic]))) /\
  (runs (accept me conn) t Panic <->
     t = [ANext Panic] \/
     (exists id tag c now e, PairingAuthenticator_generate (pc_auth c) now = Err e /\
        t = [ANext (Got (Request id tag)); ACandidate id (Some c); ANow now]) \/
     (exists id c now code, PairingAuthenticator_generate (pc_auth c) now = Ok code /\
        t = take 4 (accept_trace me conn id c now code) ++ [ANext Panic])).
Proof.
  split; (split; [intros H; first [unfold connect in H | unfold accept in H]; runs_inv H; units; eauto 10 |]).
  - unfold connect. intros [(now & e & Hg & ->) | (now & code & Hg & [-> | ->])]; runs_go.
  - unfold accept. intros [-> | [(id & tag & c & now & e & Hg & ->) | (id & c & now & code & Hg & ->)]]; runs_go.
Qed.

(** C14.  Termination: under every environment each handshake ends, in exactly one way, after at most
    seven interactions of which at most two wait (one second each) for the other side. *)
Theorem handshake_terminates (e : env) me conn peer :
  (exists t o, runs (connect me conn peer) t o /\ answered e [] t /\ (length t <= 6)%nat /\ (waits t <= 2)%nat /\
     forall t' o', runs (connect me conn peer) t' o' -> answered e [] t' -> t' = t /\ o' = o) /\
  (exists t o, runs (accept me conn) t o /\ answered e [] t /\ (length t <= 7)%nat /\ (waits t <= 2)%nat /\
     forall t' o', runs (accept me conn) t' o' -> answered e [] t' -> t' = t /\ o' = o).
Proof.
  split; match goal with |- context [runs ?p _ _] => destruct (hs_exec_runs e p []) as [Hr Ha]; destruct (hs_exec e [] p) as [o t] end;
    cbn in Hr, Ha; exists t, o; (split_and!; [done | done | | | intros; by eapply hs_deterministic]); clear Ha;
    first [unfold connect in Hr | unfold accept in Hr]; runs_inv Hr; cbn; lia.
Qed.

(** No freshness: what a host accepted once it accepts again.  Whoever repeats a recorded
    request and a completion while the pairing code has not changed gets a peer from [accept],
    without knowing the code. *)
Theorem accept_replay me conn conn' id tag peer now now' code t p :
  runs (accept me conn) (ANext (Got (Request id tag)) :: ACandidate id (Some peer) :: ANow now :: t) (Val (Ok p)) ->
  PairingAuthenticator_generate (pc_auth peer) now = Ok code ->
  PairingAuthenticator_generate (pc_auth peer) now' = Ok code ->
  exists resp, runs (accept me conn')
    [ANext (Got (Request id tag)); ACandidate id (Some peer); ANow now';
     ASend (Response resp) (Ok tt); ANext (Got CompleteRequest); ASend CompleteResponse (Ok tt);
     ASpawn (pm_id (pc_metadata peer)) conn']
    (Val (Ok (mkPeer (pm_id (pc_metadata peer)) Server (pc_metadata peer) conn'))).
Proof.
  intros H Hg Hg'. unfold accept in H. runs_inv H; try done. units. simplify_eq.
  eexists. unfold accept. runs_go.
Qed.

End Authentication.

(** ** The theorems on concrete parties *)

Module HandshakeWitnesses.
Import Sample.

(** The laptop accepts the phone at time 30, on connection 7. *)
Definition laptop_accepts : list act := accept_trace id_two 7 id_one phone_candidate 30 (code auth 30).
(** The phone connects to the laptop. *)
Definition phone_connects : list act := connect_trace id_one 8 laptop_candidate 30 (code auth 30).

Lemma laptop_accepts_runs : runs (accept id_two 7) laptop_accepts (Val (Ok (mkPeer id_one Server phone 7))).
Proof. apply (accept_runs_trace id_two 7 id_one phone_candidate 30). by apply code_generated. Qed.

Lemma phone_connects_runs : runs (connect id_one 8 laptop_candidate) phone_connects (Val (Ok (mkPeer id_two Client laptop 8))).
Proof. apply (connect_runs_trace id_one 8 laptop_candidate 30). by apply code_generated. Qed.

Lemma connect_succeeds_iff_witness :
  runs (connect id_one 8 laptop_candidate) phone_connects (Val (Ok (mkPeer id_two Client laptop 8))).
Proof.
  apply (connect_succeeds_iff id_one 8 laptop_candidate phone_connects (mkPeer id_two Client laptop 8)).
  exists 30, (code auth 30). split; [by apply code_generated |]. split; reflexivity.
Defined.

Lemma accept_succeeds_iff_witness :
  runs (accept id_two 7) laptop_accepts (Val (Ok (mkPeer id_one Server phone 7))).
Proof.
  apply (accept_succeeds_iff id_two 7 laptop_accepts (mkPeer id_one Server phone 7)).
  exists id_one, phone_candidate, 30, (code auth 30). split; [by apply code_generated |]. split; reflexivity.
Defined.

(** A clock before the epoch, and a malformed message after the response. *)
Lemma handshake_panics_iff_witness :
  runs (connect id_one 8 laptop_candidate) [ANow (-1)] Panic /\
  runs (accept id_two 7) (take 4 laptop_accepts ++ [ANext Panic]) Panic.
Proof.
  split.
  - apply (proj1 (handshake_panics_iff id_one 8 laptop_candidate [ANow (-1)])). left.
    exists (-1), (PairTime (tt : @SystemTimeError toy_crypto)). split; reflexivity.
  - apply (proj2 (handshake_panics_iff id_two 7 laptop_candidate (take 4 laptop_accepts ++ [ANext Panic]))).
    right. right. exists id_one, phone_candidate, 30, (code auth 30). split; [by apply code_generated | reflexivity].
Defined.

Lemma accept_discloses_only_to_authenticated_witness :
  exists m, laptop_accepts !! 3%nat = Some (ASend m (Ok tt)) /\
  ((exists code, m = Failure code) \/
  exists id peer now code, PairingAuthenticator_generate (pc_auth peer) now = Ok code /\
    take 3 laptop_accepts = take 3 (accept_trace id_two 7 id peer now code) /\ (3 <= 3)%nat /\
    (m = Response (hmac_sign (as_bytes code) (PeerId_bytes id_two)) \/ m = CompleteResponse)).
Proof.
  eexists. split; [reflexivity |].
  eapply (accept_discloses_only_to_authenticated id_two 7 laptop_accepts); [exact laptop_accepts_runs | reflexivity].
Defined.

Lemma connect_completes_only_authenticated_witness :
  phone_connects !! 3%nat = Some (ASend CompleteRequest (Ok tt)) /\
  ((exists code, CompleteRequest = Failure code) \/
  (exists now code, PairingAuthenticator_generate (pc_auth laptop_candidate) now = Ok code /\ 3%nat = 1%nat /\
     CompleteRequest = Request id_one (hmac_sign (as_bytes code) (PeerId_bytes id_one))) \/
  (exists now code, PairingAuthenticator_generate (pc_auth laptop_candidate) now = Ok code /\ 3%nat = 3%nat /\
     take 3 phone_connects = take 3 (connect_trace id_one 8 laptop_candidate now code) /\ CompleteRequest = CompleteRequest)).
Proof.
  split; [reflexivity |].
  eapply (connect_completes_only_authenticated id_one 8 laptop_candidate phone_connects);
    [exact phone_connects_runs | reflexivity].
Defined.

Lemma failure_codes_sent_witness :
  failures_sent (H := toy_crypto) [ANext (Val TimedOut); ASend (Failure 2001) (Ok tt)] = failure_code HsTimeout /\
  failures_sent phone_connects = [].
Proof.
  split.
  - apply (proj2 (failure_codes_sent id_two 7 phone_candidate _ (Err HsTimeout))). unfold accept. runs_go.
  - apply (proj1 (failure_codes_sent id_one 8 laptop_candidate _ (Ok (mkPeer id_two Client laptop 8)))).
    exact phone_connects_runs.
Defined.

Lemma handler_spawned_iff_success_witness :
  (exists id c, ASpawn id c ∈ laptop_accepts) <-> exists p, Val (Ok (mkPeer id_one Server phone 7)) = Val (Ok (E := HandshakeError) p).
Proof.
  apply (proj2 (handler_spawned_iff_success id_two 7 phone_candidate laptop_accepts (Val (Ok (mkPeer id_one Server phone 7))))).
  exact laptop_accepts_runs.
Defined.

(** The same request again, fourteen seconds later on connection 9. *)
Lemma accept_replay_witness :
  let tag := hmac_sign (as_bytes (code auth 30)) (PeerId_bytes id_one) in
  exists resp, runs (accept id_two 9)
    [ANext (Got (Request id_one tag)); ACandidate id_one (Some phone_candidate); ANow 44;
     ASend (Response resp) (Ok tt); ANext (Got CompleteRequest); ASend CompleteResponse (Ok tt); ASpawn id_one 9]
    (Val (Ok (mkPeer id_one Server phone 9))).
Proof.
  intros tag.
  eapply (accept_replay id_two 7 9 id_one tag phone_candidate 30 44 (code auth 30)).
  - exact laptop_accepts_runs.
  - by apply code_generated.
  - rewrite (code_window auth 30 44) by reflexivity. by apply code_generated.
Defined.

End HandshakeWitnesses.
