(* ===== verification/Agreement.v ===== *)
(** A client and a host that run the handshake against each other, byte by byte through the codecs
    and in every order of their steps: where they must end up, for equal pairing codes, for
    different ones, for a client the host does not know, for one whose id is too long and for a host that is
    not the one meant.

    The network here delivers, and no timeout fires; what happens otherwise is the subject of
    HandshakeTheorems.v, whose environments are arbitrary. *)

From Stdlib Require Import ZArith Lia.
From Stdlib Require Import Strings.Byte.
From stdpp Require Import base tactics numbers option list strings gmap.
From S2P Require Import Prelude RustStd SockAddr Errors Pairing Peer Proto ProtoFacts Handshake HandshakeFacts Samples.

Section Steps.
Context {U : UnicodeTables} {P : Profile} {C : CryptoLib}.

Lemma party_send {A} clock lookup m (k : _ -> hs A) i s : Connection_wf m = true ->
  party_step clock lookup (mkParty (HSend m k) i s) = Some (mkParty (k (Ok tt)) i s, Wire.connection m).
Proof. intros Hm. unfold party_step. cbn [prog]. by rewrite ConnectionCodec_encode_wire. Qed.

Lemma party_send_cut {A} clock lookup m (k : _ -> hs A) i s w : ConnectionCodec_encode m [] = Val (Ok tt, w) ->
  party_step clock lookup (mkParty (HSend m k) i s) = Some (mkParty (k (Ok tt)) i s, w).
Proof. intros E. unfold party_step. cbn [prog]. by rewrite E. Qed.

Lemma party_recv {A} clock lookup m (k : _ -> hs A) rest s : Connection_wf m = true ->
  party_step clock lookup (mkParty (HNext k) (Wire.connection m ++ rest) s) = Some (mkParty (k (Got m)) rest s, []).
Proof.
  intros Hm. unfold party_step. cbn [prog inbox].
  pose proof (decode_wire (Item := Connection) m rest Hm) as E. change decode with ConnectionCodec_decode in E.
  by rewrite E.
Qed.

Lemma party_recv_last {A} clock lookup m (k : _ -> hs A) s : Connection_wf m = true ->
  party_step clock lookup (mkParty (HNext k) (Wire.connection m) s) = Some (mkParty (k (Got m)) [] s, []).
Proof. intros Hm. rewrite <- (app_nil_r (Wire.connection m)). by apply party_recv. Qed.

Section Schedules.
Context {A B : Type} {cc ch : Z} {lc lh : PeerId -> option PeerCandidate}.
Context {F : party A * party B -> Prop}.

Lemma inevitable_client n c h c' w :
  party_step cc lc c = Some (c', w) -> party_step ch lh h = None ->
  inevitable (xstep cc ch lc lh) F n (c', deliver h w) -> inevitable (xstep cc ch lc lh) F (S n) (c, h).
Proof.
  intros Hc Hh H. apply inevitable_step; [eexists; by eapply xstep_client |].
  intros s' Hs. inversion Hs; subst; congruence.
Qed.

Lemma inevitable_host n c h h' w :
  party_step cc lc c = None -> party_step ch lh h = Some (h', w) ->
  inevitable (xstep cc ch lc lh) F n (deliver c w, h') -> inevitable (xstep cc ch lc lh) F (S n) (c, h).
Proof.
  intros Hc Hh H. apply inevitable_step; [eexists; by eapply xstep_host |].
  intros s' Hs. inversion Hs; subst; congruence.
Qed.

Lemma inevitable_both n c h c' w h' w' :
  party_step cc lc c = Some (c', w) -> party_step ch lh h = Some (h', w') ->
  inevitable (xstep cc ch lc lh) F n (c', deliver h w) -> inevitable (xstep cc ch lc lh) F n (deliver c w', h') ->
  inevitable (xstep cc ch lc lh) F (S n) (c, h).
Proof.
  intros Hc Hh H1 H2. apply inevitable_step; [eexists; by eapply xstep_client |].
  intros s' Hs. inversion Hs; subst; congruence.
Qed.

Lemma inevitable_done c h : party_step cc lc c = None -> party_step ch lh h = None -> F (c, h) ->
  inevitable (xstep cc ch lc lh) F 0 (c, h).
Proof. intros Hc Hh H. apply inevitable_end; [done |]. intros s' Hs. inversion Hs; subst; congruence. Qed.

End Schedules.

(** Both parties have ended, with these outcomes, these handlers spawned and nothing left unread. *)
Definition ended {A B} (oc : A) (sc : list (PeerId * Z)) (oh : B) (sh : list (PeerId * Z)) (s : party A * party B) : Prop :=
  s = (mkParty (HRet oc) [] sc, mkParty (HRet oh) [] sh).

End Steps.

(** Reduces the programs to their next interaction, using the equations of the context for what
    they compute. *)
Ltac prog_cbn :=
  unfold deliver; repeat (progress (
    cbn -[hmac_sign hmac_verify PairingAuthenticator_generate PeerId_bytes TIMEOUT_ERR NOT_FOUND_ERR AUTH_ERR
          Wire.connection party_step Connection_wf];
    rewrite ?app_nil_r, ?hmac_verify_sign;
    repeat match goal with
    | E : PairingAuthenticator_generate _ _ = _ |- _ => rewrite !E
    | E : hmac_verify _ _ _ = _ |- _ => rewrite !E
    | E : pc_id _ = _ |- _ => rewrite !E
    | E : _ = @None PeerCandidate |- _ => rewrite !E
    | E : _ = @Some PeerCandidate _ |- _ => rewrite !E
    end)).

(** One step of a party whose next interaction is in head position. *)
Ltac party_go :=
  lazymatch goal with
  | |- party_step _ _ (mkParty (HSend _ _) _ _) = _ => apply party_send; (reflexivity || auto)
  | |- party_step _ _ (mkParty (HNext _) _ _) = _ => apply party_recv_last; (reflexivity || auto)
  | |- _ => reflexivity
  end.

(** Follows the only possible schedule while one party waits, and both orders when neither does. *)
Ltac schedule :=
  repeat (prog_cbn;
    first [ eapply inevitable_client; [solve [party_go] | reflexivity |]
          | eapply inevitable_host; [reflexivity | solve [party_go] |]
          | eapply inevitable_both; [solve [party_go] | solve [party_go] | |]
          | apply inevitable_done; [reflexivity | reflexivity | reflexivity] ]).

Section LongId.
Context {U : UnicodeTables} {P : Profile} {C : CryptoLib}.

(** The request of a client whose id is longer than the protocol's: the host's decoder finds the beginning of
    the id, takes the rest of it for the beginning of the tag, and leaves the end of the tag unread. *)
Lemma encode_long_request id short more tag : PeerId_bytes id = PeerId_bytes short ++ more ->
  PeerId_valid short = true -> length tag = 32%nat ->
  Connection_wf (Request short (take 32 (more ++ tag))) = true /\
  ConnectionCodec_encode (Request id tag) [] =
    Val (Ok tt, Wire.connection (Request short (take 32 (more ++ tag))) ++ drop 32 (more ++ tag)).
Proof.
  intros Hid Hs Ht.
  assert (Hl : length (take 32 (more ++ tag)) = 32%nat) by (rewrite length_take_le; [done | rewrite length_app; lia]).
  assert (Hwf : Connection_wf (Request short (take 32 (more ++ tag))) = true).
  { cbn [Connection_wf]. rewrite Hs. unfold zlen. by rewrite Hl. }
  split; [exact Hwf |]. destruct (connection_payload_len _ Hwf) as [Hn Hb].
  unfold ConnectionCodec_encode. rewrite (Header_new_len Connect (Request id tag) _ Hn) by (split; [apply zlen_nonneg | done]).
  buf_step. rewrite HeaderCodec_encode_frame, Hid. unfold Wire.connection, Wire.frame. cbn [Wire.connection_payload].
  by rewrite <- !app_assoc, take_drop.
Qed.

End LongId.

Section Agreement.
Context {U : UnicodeTables} {P : Profile} {C : CryptoLib} {L : CryptoLaws C}.
Context (me_c me_h : PeerId) (conn_c conn_h : Z) (clock_c clock_h : Z).
Context (lookup_c lookup_h : PeerId -> option PeerCandidate) (host client : PeerCandidate).

(** [connect] against [accept], nothing sent yet. *)
Definition handshake_start : party (Result HandshakeError Peer) * party (Result HandshakeError Peer) :=
  (mkParty (connect me_c conn_c host) [] [], mkParty (accept me_h conn_h) [] []).

#[local] Hint Resolve wf_request wf_response : core.

(** C7.  Agreement: a client with an id the protocol can carry (40 bytes) and a host (with any id), whose
    candidates are each other and whose authenticators give the same code at the moment each looks, complete the handshake under every schedule, in
    thirteen steps: both have a peer for the other, one handler each runs, and both streams are
    empty, so the application's bytes start clean. *)
Theorem handshake_completes code :
  PeerId_valid me_c = true ->
  pc_id host = me_h -> lookup_h me_c = Some client -> pc_id client = me_c ->
  PairingAuthenticator_generate (pc_auth host) clock_c = Ok code ->
  PairingAuthenticator_generate (pc_auth client) clock_h = Ok code ->
  inevitable (xstep clock_c clock_h lookup_c lookup_h)
    (ended (Ok (mkPeer (pm_id (pc_metadata host)) Client (pc_metadata host) conn_c))
           [(pm_id (pc_metadata host), conn_c)]
           (Ok (mkPeer (pm_id (pc_metadata client)) Server (pc_metadata client) conn_h))
           [(pm_id (pc_metadata client), conn_h)])
    13 handshake_start.
Proof. intros. unfold handshake_start, connect, accept. schedule. Qed.

(** C8.  Different codes: a client with an id the protocol can carry (40 bytes), which the host has as a
    candidate, and whose id the codes of the two sides sign differently, is refused: under every schedule the
    host ends with [Auth], the client with failure 2003, and no handler runs. *)
Theorem handshake_rejects_wrong_code code_c code_h :
  PeerId_valid me_c = true -> lookup_h me_c = Some client -> pc_id client = me_c ->
  PairingAuthenticator_generate (pc_auth host) clock_c = Ok code_c ->
  PairingAuthenticator_generate (pc_auth client) clock_h = Ok code_h ->
  hmac_sign (as_bytes code_c) (PeerId_bytes me_c) <> hmac_sign (as_bytes code_h) (PeerId_bytes me_c) ->
  inevitable (xstep clock_c clock_h lookup_c lookup_h)
    (ended (Err (HsFailure AUTH_ERR)) [] (Err HsAuth) []) 7 handshake_start.
Proof.
  intros ? ? ? ? ? Ht. apply hmac_verify_Err in Ht. unfold handshake_start, connect, accept. schedule.
Qed.

(** Unknown client: a host whose manager has no candidate for the client's id answers 2002,
    whatever the code, and no handler runs. *)
Theorem handshake_rejects_unknown code :
  PeerId_valid me_c = true -> lookup_h me_c = None ->
  PairingAuthenticator_generate (pc_auth host) clock_c = Ok code ->
  inevitable (xstep clock_c clock_h lookup_c lookup_h)
    (ended (Err (HsFailure NOT_FOUND_ERR)) [] (Err HsNotFound) []) 6 handshake_start.
Proof. intros. unfold handshake_start, connect, accept. schedule. Qed.

(** A client whose id is longer than the protocol's is refused: under every schedule, by 2002 if the host has no
    candidate for the beginning of the id; else by 2003, unless the rest of the id with the beginning of the
    tag happens to be the tag the host computes.  The end of the tag stays unread. *)
Lemma handshake_refuses_long_id short more code :
  PeerId_bytes me_c = PeerId_bytes short ++ more -> PeerId_valid short = true ->
  PairingAuthenticator_generate (pc_auth host) clock_c = Ok code ->
  let sent := more ++ hmac_sign (as_bytes code) (PeerId_bytes me_c) in
  (lookup_h short = None ->
     inevitable (xstep clock_c clock_h lookup_c lookup_h)
       (fun s => s = (mkParty (HRet (Err (HsFailure NOT_FOUND_ERR))) [] [], mkParty (HRet (Err HsNotFound)) (drop 32 sent) []))
       6 handshake_start) /\
  (forall code_h, lookup_h short = Some client -> PairingAuthenticator_generate (pc_auth client) clock_h = Ok code_h ->
     take 32 sent <> hmac_sign (as_bytes code_h) (PeerId_bytes (pc_id client)) ->
     inevitable (xstep clock_c clock_h lookup_c lookup_h)
       (fun s => s = (mkParty (HRet (Err (HsFailure AUTH_ERR))) [] [], mkParty (HRet (Err HsAuth)) (drop 32 sent) []))
       7 handshake_start).
Proof.
  intros Hid Hs Hg sent. set (tag := hmac_sign _ _) in *.
  destruct (encode_long_request me_c short more tag Hid Hs (hmac_sign_length _ _)) as [Hwf He]. fold sent in Hwf, He.
  revert Hwf He. generalize (take 32 sent) (drop 32 sent). clear sent. intros tag' unread Hwf He.
  pose proof (fun k i s => party_send_cut clock_c lookup_c (A := Result HandshakeError Peer) _ k i s _ He) as Hsend.
  split; [intros Hl | intros code_h Hl Hgh Hv%hmac_verify_Err]; unfold handshake_start, connect, accept; schedule; prog_cbn.
  all: eapply inevitable_client; [apply Hsend | reflexivity |]; prog_cbn.
  all: eapply inevitable_host; [reflexivity | by apply party_recv |]; schedule.
Qed.

(** Another host: a host that shares the code but whose id signs differently from the
    candidate's is refused by the client with 2003; the host reports the unexpected message [Msg],
    not the failure code it received, and no handler runs. *)
Theorem handshake_rejects_wrong_host code :
  PeerId_valid me_c = true -> lookup_h me_c = Some client -> pc_id client = me_c ->
  PairingAuthenticator_generate (pc_auth host) clock_c = Ok code ->
  PairingAuthenticator_generate (pc_auth client) clock_h = Ok code ->
  hmac_sign (as_bytes code) (PeerId_bytes me_h) <> hmac_sign (as_bytes code) (PeerId_bytes (pc_id host)) ->
  inevitable (xstep clock_c clock_h lookup_c lookup_h)
    (ended (Err HsAuth) [] (Err HsMsg) []) 9 handshake_start.
Proof.
  intros ? ? ? ? ? Ht. apply hmac_verify_Err in Ht. unfold handshake_start, connect, accept. schedule.
Qed.

End Agreement.

(** ** The theorems on concrete parties *)

Module AgreementWitnesses.
Import Sample.

#[local] Instance profile : Profile := false.

(** The laptop's manager: it knows the phone, with a given authenticator. *)
Definition knows_phone (a : PairingAuthenticator) (id : PeerId) : option PeerCandidate :=
  if decide (id = id_one) then Some (PeerCandidate_new phone a) else None.
Definition knows_nobody (id : PeerId) : option PeerCandidate := None.

Lemma handshake_completes_witness :
  inevitable (xstep 30 44 knows_nobody (knows_phone auth))
    (ended (Ok (mkPeer id_two Client laptop 8)) [(id_two, 8)] (Ok (mkPeer id_one Server phone 7)) [(id_one, 7)])
    13 (handshake_start id_one id_two 8 7 laptop_candidate).
Proof.
  apply (handshake_completes id_one id_two 8 7 30 44 knows_nobody (knows_phone auth) laptop_candidate
           phone_candidate (code auth 30)); try reflexivity.
  rewrite (code_window auth 30 44) by reflexivity. by apply code_generated.
Defined.

Lemma handshake_rejects_wrong_code_witness :
  inevitable (xstep 30 30 knows_nobody (knows_phone other_auth))
    (ended (Err (HsFailure AUTH_ERR)) [] (Err HsAuth) []) 7 (handshake_start id_one id_two 8 7 laptop_candidate).
Proof.
  apply (handshake_rejects_wrong_code id_one id_two 8 7 30 30 knows_nobody (knows_phone other_auth) laptop_candidate
           (PeerCandidate_new phone other_auth) (code auth 30) (code other_auth 30));
    try reflexivity; vm_compute; discriminate.
Defined.

Lemma handshake_rejects_unknown_witness :
  inevitable (xstep 30 30 knows_nobody knows_nobody)
    (ended (Err (HsFailure NOT_FOUND_ERR)) [] (Err HsNotFound) []) 6 (handshake_start id_one id_two 8 7 laptop_candidate).
Proof.
  apply (handshake_rejects_unknown id_one id_two 8 7 30 30 knows_nobody knows_nobody laptop_candidate (code auth 30));
    reflexivity.
Defined.

(** A second phone, which shares the laptop's secret, answers in its place. *)
Lemma handshake_rejects_wrong_host_witness :
  inevitable (xstep 30 30 knows_nobody (knows_phone auth))
    (ended (Err HsAuth) [] (Err HsMsg) []) 9 (handshake_start id_one id_one 8 7 laptop_candidate).
Proof.
  apply (handshake_rejects_wrong_host id_one id_one 8 7 30 30 knows_nobody (knows_phone auth) laptop_candidate
           phone_candidate (code auth 30)); try reflexivity; vm_compute; discriminate.
Defined.

End AgreementWitnesses.
