(* ===== verification/Manager.v ===== *)
(** The manager and the tasks that share it: crate/p2p/src/manager.rs, event_loop.rs and the
    [handler] of peer.rs.

    [P2pManager] sits behind an [Arc] and its maps are concurrent ([DashMap], [DashSet]), so every
    access is atomic by itself and nothing else is: between two accesses of one method other tasks
    may run.  A method is therefore a program ([task]) whose nodes are single accesses ([mop]),
    waits for the network, and handshakes.  [exec] runs a program without interference (what a
    sequential reading of the method gives); System.v interleaves programs. *)

From Stdlib Require Import ZArith Lia.
From Stdlib Require Import Strings.Byte.
From stdpp Require Import base tactics numbers option list gmap.
From S2P Require Import Prelude RustStd SockAddr Errors Pairing Peer Proto Handshake.

(** ** Channels *)

(** A [tokio::sync::mpsc] channel: the values sent and not received, the capacity of a bounded one,
    and whether the receiver and some sender still exist. *)
Record channel (A : Type) := mkChannel {
  ch_queue : list A;
  ch_capacity : option nat;
  ch_receiver : bool;
  ch_senders : bool
}.
#[global] Arguments mkChannel {A} ch_queue ch_capacity ch_receiver ch_senders.
#[global] Arguments ch_queue {A} c.
#[global] Arguments ch_capacity {A} c.
#[global] Arguments ch_receiver {A} c.
#[global] Arguments ch_senders {A} c.

Definition channel_bounded {A} (n : nat) : channel A := mkChannel [] (Some n) true true.
Definition channel_unbounded {A} : channel A := mkChannel [] None true true.

(** Whether a value can be sent now. *)
Definition has_room {A} (c : channel A) : bool :=
  match ch_capacity c with Some n => (length (ch_queue c) <? n)%nat | None => true end.

(** [send(x).await]: an error once the receiver is gone; [None] is waiting for room. *)
Definition chan_send {A} (x : A) (c : channel A) : option (Result A unit * channel A) :=
  if negb (ch_receiver c) then Some (Err x, c)
  else if has_room c then
    Some (Ok tt, mkChannel (ch_queue c ++ [x]) (ch_capacity c) (ch_receiver c) (ch_senders c))
  else None.

(** [recv().await]: [Some None] once the senders are gone and the queue is empty; [None] is
    waiting for a value. *)
Definition chan_recv {A} (c : channel A) : option (option A * channel A) :=
  match ch_queue c with
  | x :: q => Some (Some x, mkChannel q (ch_capacity c) (ch_receiver c) (ch_senders c))
  | [] => if ch_senders c then None else Some (None, c)
  end.

(** Dropping the receiver drops what the channel holds; dropping the last sender leaves it. *)
Definition drop_receiver {A} (c : channel A) : channel A := mkChannel [] (ch_capacity c) false (ch_senders c).
Definition drop_sender {A} (c : channel A) : channel A := mkChannel (ch_queue c) (ch_capacity c) (ch_receiver c) false.

Section Manager.
Context {C : CryptoLib}.

(** ** State *)

(** [struct P2pManager]; [internal_channel] carries no values. *)
Record P2pManager := mkP2pManager {
  mgr_id : PeerId;
  mgr_metadata : PeerMetadata;
  known_peers : gmap PeerId PeerCandidate;
  discovered_peers : gmap PeerId PeerCandidate;
  connected_peers : gset PeerId;
  discovery_channel : channel DiscoveryEvent;
  internal_channel : channel InternalEvent;
  app_channel : channel P2pEvent
}.

(** [struct P2pConfig]. *)
Record P2pConfig := mkP2pConfig {
  cfg_id : PeerId;
  cfg_device : DeviceType;
  cfg_name : RString;
  cfg_multicast : SocketAddr;
  cfg_p2p_addr : SocketAddr
}.

Definition set_known (f : gmap PeerId PeerCandidate -> gmap PeerId PeerCandidate) (m : P2pManager) : P2pManager :=
  mkP2pManager (mgr_id m) (mgr_metadata m) (f (known_peers m)) (discovered_peers m) (connected_peers m)
    (discovery_channel m) (internal_channel m) (app_channel m).
Definition set_discovered (f : gmap PeerId PeerCandidate -> gmap PeerId PeerCandidate) (m : P2pManager) : P2pManager :=
  mkP2pManager (mgr_id m) (mgr_metadata m) (known_peers m) (f (discovered_peers m)) (connected_peers m)
    (discovery_channel m) (internal_channel m) (app_channel m).
Definition set_connected (f : gset PeerId -> gset PeerId) (m : P2pManager) : P2pManager :=
  mkP2pManager (mgr_id m) (mgr_metadata m) (known_peers m) (discovered_peers m) (f (connected_peers m))
    (discovery_channel m) (internal_channel m) (app_channel m).
Definition set_discovery_channel (c : channel DiscoveryEvent) (m : P2pManager) : P2pManager :=
  mkP2pManager (mgr_id m) (mgr_metadata m) (known_peers m) (discovered_peers m) (connected_peers m)
    c (internal_channel m) (app_channel m).
Definition set_app_channel (c : channel P2pEvent) (m : P2pManager) : P2pManager :=
  mkP2pManager (mgr_id m) (mgr_metadata m) (known_peers m) (discovered_peers m) (connected_peers m)
    (discovery_channel m) (internal_channel m) c.

(** ** Accesses *)

(** The accesses the methods make, with the type of their results. *)
Inductive mop : Type -> Type :=
| KnownInsert (id : PeerId) (c : PeerCandidate) : mop unit
| KnownRemove (id : PeerId) : mop (option PeerCandidate)
| KnownGet (id : PeerId) : mop (option PeerCandidate)
| DiscoveredContains (id : PeerId) : mop bool
| DiscoveredGet (id : PeerId) : mop (option PeerCandidate)
| DiscoveredInsert (id : PeerId) (c : PeerCandidate) : mop unit
| ConnectedContains (id : PeerId) : mop bool
| ConnectedInsert (id : PeerId) : mop unit
| ConnectedRemove (id : PeerId) : mop unit
| DiscoverySend (e : DiscoveryEvent) : mop (Result DiscoveryEvent unit)
| AppSend (e : P2pEvent) : mop (Result P2pEvent unit)
| GetMetadata : mop PeerMetadata.

(** One access; [None] is waiting (only for room in a channel). *)
Definition mop_step {X} (o : mop X) (m : P2pManager) : option (X * P2pManager) :=
  match o in mop X return option (X * P2pManager) with
  | KnownInsert id c => Some (tt, set_known <[id := c]> m)
  | KnownRemove id => Some (known_peers m !! id, set_known (delete id) m)
  | KnownGet id => Some (known_peers m !! id, m)
  | DiscoveredContains id => Some (bool_decide (is_Some (discovered_peers m !! id)), m)
  | DiscoveredGet id => Some (discovered_peers m !! id, m)
  | DiscoveredInsert id c => Some (tt, set_discovered <[id := c]> m)
  | ConnectedContains id => Some (bool_decide (id ∈ connected_peers m), m)
  | ConnectedInsert id => Some (tt, set_connected (fun s => {[id]} ∪ s) m)
  | ConnectedRemove id => Some (tt, set_connected (fun s => s ∖ {[id]}) m)
  | DiscoverySend e =>
      '(r, c) ← chan_send e (discovery_channel m); Some (r, set_discovery_channel c m)
  | AppSend e => '(r, c) ← chan_send e (app_channel m); Some (r, set_app_channel c m)
  | GetMetadata => Some (mgr_metadata m, m)
  end.

(** ** Programs *)

Inductive task (A : Type) : Type :=
| TRet (a : A)
| TPanic
| TMgr (X : Type) (o : mop X) (k : X -> task A)
(** Iterating over a [HashSet]: in any order. *)
| TOrder (s : gset SocketAddr) (k : list SocketAddr -> task A)
(** [TcpStream::connect(addr).await]. *)
| TTcp (addr : SocketAddr) (k : Result io_Error Z -> task A)
(** A handshake. *)
| THs (X : Type) (p : hs X) (k : X -> task A)
(** A record, for the history, of an answer the handshake was given. *)
| TNote (a : act) (k : task A)
(** [tokio::spawn] of the acceptance of a connection. *)
| TSpawnAccept (conn : Z) (k : task A).
#[global] Arguments TRet {A} a.
#[global] Arguments TPanic {A}.
#[global] Arguments TMgr {A X} o k.
#[global] Arguments TOrder {A} s k.
#[global] Arguments TTcp {A} addr k.
#[global] Arguments THs {A X} p k.
#[global] Arguments TNote {A} a k.
#[global] Arguments TSpawnAccept {A} conn k.

Fixpoint task_bind_fix {A B} (f : A -> task B) (t : task A) : task B :=
  match t with
  | TRet a => f a
  | TPanic => TPanic
  | TMgr o k => TMgr o (fun x => task_bind_fix f (k x))
  | TOrder s k => TOrder s (fun l => task_bind_fix f (k l))
  | TTcp a k => TTcp a (fun r => task_bind_fix f (k r))
  | THs p k => THs p (fun x => task_bind_fix f (k x))
  | TNote a k => TNote a (task_bind_fix f k)
  | TSpawnAccept conn k => TSpawnAccept conn (task_bind_fix f k)
  end.

#[global] Instance task_ret : MRet task := @TRet.
#[global] Instance task_bind : MBind task := @task_bind_fix.

Definition access {X} (o : mop X) : task X := TMgr o TRet.
Definition handshake {X} (p : hs X) : task X := THs p TRet.
Definition tcp_connect (addr : SocketAddr) : task (Result io_Error Z) := TTcp addr TRet.
Definition iterate (s : gset SocketAddr) : task (list SocketAddr) := TOrder s TRet.
Definition spawn_accept (conn : Z) : task unit := TSpawnAccept conn (TRet tt).

(** ** Methods called by the application *)

Definition add_known_peer (peer : PeerCandidate) : task unit := access (KnownInsert (pc_id peer) peer).

Definition request_presence : task unit :=
  r ← access (DiscoverySend PresenceRequest);
  match r with Ok _ => mret tt | Err _ => mret tt end.

Definition get_metadata : task PeerMetadata := access GetMetadata.
Definition is_discovered (id : PeerId) : task bool := access (DiscoveredContains id).
Definition is_connected (id : PeerId) : task bool := access (ConnectedContains id).

(** The loop of [connect_to_peer] over the addresses. *)
Fixpoint connect_addrs (me id : PeerId) (candidate : PeerCandidate) (addrs : list SocketAddr)
  : task (Result HandshakeError Peer) :=
  match addrs with
  | [] => mret (Err HsAddr)
  | addr :: addrs' =>
      r ← tcp_connect addr;
      match r with
      | Err _ => connect_addrs me id candidate addrs'
      | Ok conn =>
          peer ← handshake (connect me conn candidate);
          match peer with
          | Err e => mret (Err e)
          | Ok peer => _ ← access (ConnectedInsert id); mret (Ok peer)
          end
      end
  end.

(** [connect_to_peer], of the manager whose id is [me]. *)
Definition connect_to_peer (me id : PeerId) : task (Result HandshakeError Peer) :=
  connected ← access (ConnectedContains id);
  if (connected : bool) then mret (Err HsDup)
  else
    candidate ← access (DiscoveredGet id);
    match candidate with
    | None => mret (Err HsNotFound)
    | Some candidate => addrs ← iterate (pc_addrs candidate); connect_addrs me id candidate addrs
    end.

(** ** Methods called by the crate's own tasks *)

Definition peer_disconnected (id : PeerId) : task unit :=
  _ ← access (ConnectedRemove id);
  r ← access (AppSend (PeerDisconnected id));
  match r with Ok _ => mret tt | Err _ => mret tt end.

(** [get_peer_candidate]: [or] evaluates its argument, so both maps are always read. *)
Definition get_peer_candidate (id : PeerId) : task (option PeerCandidate) :=
  d ← access (DiscoveredGet id);
  k ← access (KnownGet id);
  mret (match d with Some c => Some c | None => k end).

Definition handle_peer_discovered (peer : PeerMetadata) : task unit :=
  let id := pm_id peer in
  connected ← access (ConnectedContains id);
  if (connected : bool) then mret tt
  else
    discovered ← access (DiscoveredContains id);
    if (discovered : bool) then mret tt
    else
      known ← access (KnownRemove id);
      match known with
      | None => mret tt
      | Some known =>
          let candidate := {| pc_id := id; pc_metadata := peer; pc_addrs := {[pm_addr peer]}; pc_auth := pc_auth known |} in
          _ ← access (DiscoveredInsert id candidate);
          _ ← access (KnownInsert id candidate);
          r ← access (AppSend (PeerDiscovered (pc_metadata candidate)));
          match r with Ok _ => mret tt | Err _ => mret tt end
      end.

Definition handle_presence_request : task unit :=
  metadata ← access GetMetadata;
  r ← access (DiscoverySend (PresenceResponse metadata));
  match r with Ok _ => mret tt | Err _ => mret tt end.

Definition handle_new_connection (peer : Peer) : task unit :=
  let id := peer_id peer in
  _ ← access (ConnectedInsert id);
  r ← access (AppSend (PeerConnected peer));
  match r with Ok _ => mret tt | Err _ => mret tt end.

(** ** The event loop *)

(** What one round of the [select!] receives. *)
Inductive LoopEvent : Type :=
| EvDiscovery (e : option (DiscoveryEvent * SocketAddr))
| EvInternal (e : option InternalEvent)
| EvStream (r : Result io_Error (Z * SocketAddr)).

Inductive LoopCtl : Type := Continue | Break.

(** The task spawned for an incoming connection. *)
Definition accept_task (me : PeerId) (conn : Z) : task unit :=
  r ← handshake (accept me conn);
  match r with Ok peer => handle_new_connection peer | Err _ => mret tt end.

(** The body of the loop of [p2p_event_loop], after the event. *)
Definition p2p_event_loop_body (me : PeerId) (ev : LoopEvent) : task LoopCtl :=
  match ev with
  | EvDiscovery None => mret Break
  | EvDiscovery (Some (PresenceResponse peer, _)) =>
      if PeerId_eqb me (pm_id peer) then mret Continue
      else _ ← handle_peer_discovered peer; mret Continue
  | EvDiscovery (Some (PresenceRequest, _)) => _ ← handle_presence_request; mret Continue
  | EvInternal None => mret Break
  | EvInternal (Some _) => mret Continue
  | EvStream (Err _) => mret Continue
  | EvStream (Ok (conn, _)) => _ ← spawn_accept conn; mret Continue
  end.

(** The body of the loop of [handler] in peer.rs: what one of the two [tokio::io::copy] gave. *)
Definition handler_body (r : Result io_Error Z) : LoopCtl :=
  match r with
  | Ok n => if n =? 0 then Break else Continue
  | Err _ => Break
  end.

(** ** Runs without interference *)

(** What the outside gives a program: the iteration order of sets, the results of TCP connections,
    and the handshake's environment (candidates come from the manager). *)
Record world := mkWorld {
  w_order : gset SocketAddr -> list SocketAddr;
  w_tcp : SocketAddr -> Result io_Error Z;
  w_env : env
}.

(** The candidate the manager has for an id, when nobody interferes. *)
Definition lookup_candidate (m : P2pManager) (id : PeerId) : option PeerCandidate :=
  match discovered_peers m !! id with Some c => Some c | None => known_peers m !! id end.

Definition env_of (e : env) (m : P2pManager) : env :=
  mkEnv (env_now e) (env_send e) (env_next e) (fun _ id => lookup_candidate m id).

(** The run of a program: its outcome, the connections it spawned an acceptance for, and the final
    manager; [None] when it waits forever for room in a channel. *)
Fixpoint exec {A} (w : world) (t : task A) (m : P2pManager) : option (panicking A * list Z * P2pManager) :=
  match t with
  | TRet a => Some (Val a, [], m)
  | TPanic => Some (Panic, [], m)
  | TMgr o k => match mop_step o m with Some (x, m') => exec w (k x) m' | None => None end
  | TOrder s k => exec w (k (w_order w s)) m
  | TTcp addr k => exec w (k (w_tcp w addr)) m
  | THs p k =>
      match fst (hs_exec (env_of (w_env w) m) [] p) with
      | Val x => exec w (k x) m
      | Panic => Some (Panic, [], m)
      end
  | TNote _ k => exec w k m
  | TSpawnAccept conn k =>
      match exec w k m with Some (o, l, m') => Some (o, conn :: l, m') | None => None end
  end.

End Manager.

#[global] Arguments P2pManager {C}.
#[global] Arguments mop {C} _.
#[global] Arguments task {C} A.
