(* ===== verification/ManagerTheorems.v ===== *)
(** Properties of the manager's methods, run without interference: what each does on every branch.
    Interference is the subject of System.v. *)

From Stdlib Require Import ZArith Lia.
From Stdlib Require Import Strings.Byte.
From stdpp Require Import base tactics numbers option list strings gmap.
From S2P Require Import Prelude RustStd SockAddr Errors Pairing Peer Proto Handshake Manager Samples.

Section Methods.
Context {C : CryptoLib}.

(** The manager after an event was sent to the application (dropped when nobody listens). *)
Definition app_notified (e : P2pEvent) (m : P2pManager) : P2pManager :=
  if ch_receiver (app_channel m)
  then set_app_channel (mkChannel (ch_queue (app_channel m) ++ [e]) (ch_capacity (app_channel m)) true
                          (ch_senders (app_channel m))) m
  else m.

Lemma set_app_channel_id m : set_app_channel (app_channel m) m = m.
Proof. by destruct m. Qed.

Lemma set_discovery_channel_id m : set_discovery_channel (discovery_channel m) m = m.
Proof. by destruct m. Qed.

(** Sequencing. *)
Lemma exec_bind {A B} w (t : task A) (f : A -> task B) : forall m a l m',
  exec w t m = Some (Val a, l, m') ->
  exec w (t ≫= f) m = match exec w (f a) m' with
                      | Some (o, l', m'') => Some (o, l ++ l', m'')
                      | None => None
                      end.
Proof.
  unfold mbind, task_bind.
  induction t as [a0| |X o k IH|s k IH|addr k IH|X p k IH|a0 k IH|conn k IH]; intros m a l m' H; cbn in *; try done.
  - simplify_eq. by destruct (exec w (f a) m') as [[[? ?] ?]|].
  - destruct (mop_step o m) as [[x m1]|]; [by apply IH | done].
  - by apply IH.
  - by apply IH.
  - destruct (fst _) as [x|]; [by apply IH | done].
  - by apply IH.
  - destruct (exec w k m) as [[[o1 l1] m1]|] eqn:E; [| done]. simplify_eq.
    rewrite (IH _ _ _ _ E). by destruct (exec w (f a) m') as [[[? ?] ?]|].
Qed.

(** A message to the application: it never waits, the channel being unbounded. *)
Lemma exec_app_send {A} w e (a : A) m :
  ch_capacity (app_channel m) = None ->
  exec w (TMgr (AppSend e) (fun r => match r with Ok _ => TRet a | Err _ => TRet a end)) m =
    Some (Val a, [], app_notified e m).
Proof.
  intros Hc. cbn. unfold chan_send, has_room, app_notified. rewrite Hc.
  destruct (ch_receiver (app_channel m)); cbn; [done | by rewrite set_app_channel_id].
Qed.

Lemma app_notified_connected e f m : app_notified e (set_connected f m) = set_connected f (app_notified e m).
Proof. unfold app_notified. cbn. by destruct (ch_receiver _). Qed.

Lemma app_notified_capacity e m : ch_capacity (app_channel (app_notified e m)) = ch_capacity (app_channel m).
Proof. unfold app_notified. by destruct (ch_receiver _). Qed.

Lemma exec_new_connection w p m : ch_capacity (app_channel m) = None ->
  exec w (handle_new_connection p) m =
    Some (Val tt, [], app_notified (PeerConnected p) (set_connected (fun s => {[peer_id p]} ∪ s) m)).
Proof. intros Hc. by etransitivity; [apply (exec_app_send w (PeerConnected p) tt) |]. Qed.

Lemma exec_disconnected w id m : ch_capacity (app_channel m) = None ->
  exec w (peer_disconnected id) m =
    Some (Val tt, [], app_notified (PeerDisconnected id) (set_connected (fun s => s ∖ {[id]}) m)).
Proof. intros Hc. by etransitivity; [apply (exec_app_send w (PeerDisconnected id) tt) |]. Qed.

Lemma set_known_id f m : f (known_peers m) = known_peers m -> set_known f m = m.
Proof. intros E. unfold set_known. rewrite E. by destruct m. Qed.

(** The candidate recorded for a presence response, with the authenticator of the pairing. *)
Definition candidate_of (peer : PeerMetadata) (known : PeerCandidate) : PeerCandidate :=
  mkPeerCandidate (pm_id peer) peer {[pm_addr peer]} (pc_auth known).

(** The manager after a presence response. *)
Definition after_presence (peer : PeerMetadata) (m : P2pManager) : P2pManager :=
  let id := pm_id peer in
  if decide (id ∈ connected_peers m) then m
  else match discovered_peers m !! id, known_peers m !! id with
       | None, Some known =>
           let c := candidate_of peer known in
           app_notified (PeerDiscovered peer) (set_known <[id := c]> (set_discovered <[id := c]> m))
       | _, _ => m
       end.

Lemma exec_peer_discovered w peer m : ch_capacity (app_channel m) = None ->
  exec w (handle_peer_discovered peer) m = Some (Val tt, [], after_presence peer m).
Proof.
  intros Hc. unfold handle_peer_discovered, after_presence. cbn -[decide].
  destruct (decide (pm_id peer ∈ connected_peers m)) as [Hin|Hin].
  { by rewrite bool_decide_eq_true_2. }
  rewrite bool_decide_eq_false_2 by done. cbn.
  destruct (discovered_peers m !! pm_id peer) as [c|] eqn:Ed.
  { by rewrite bool_decide_eq_true_2. }
  rewrite bool_decide_eq_false_2 by (intros [? ?]; done). cbn.
  destruct (known_peers m !! pm_id peer) as [known|] eqn:Ek.
  - etransitivity; [by apply (exec_app_send w (PeerDiscovered peer) tt) |].
    do 2 f_equal. unfold app_notified, set_known, set_discovered, set_app_channel. cbn.
    by rewrite insert_delete_eq.
  - cbn. do 2 f_equal. apply set_known_id. by apply delete_id.
Qed.

(** The first connection that succeeds, in the order of iteration. *)
Definition first_conn (w : world) (addrs : list SocketAddr) : option Z :=
  head (omap (fun a => res_ok (w_tcp w a)) addrs).

Lemma connect_addrs_spec w me id c addrs m :
  exec w (connect_addrs me id c addrs) m =
    match first_conn w addrs with
    | None => Some (Val (Err HsAddr), [], m)
    | Some conn =>
        match fst (hs_exec (env_of (w_env w) m) [] (connect me conn c)) with
        | Val (Ok p) => Some (Val (Ok p), [], set_connected (fun s => {[id]} ∪ s) m)
        | Val (Err e) => Some (Val (Err e), [], m)
        | Panic => Some (Panic, [], m)
        end
    end.
Proof.
  unfold first_conn. induction addrs as [|a addrs IH]; [done |]. cbn -[connect hs_exec].
  destruct (w_tcp w a) as [conn|e]; cbn -[connect hs_exec]; [| exact IH].
  by destruct (hs_exec _ _ _) as [[[p|e]|] t].
Qed.

(** What connecting to a peer comes to. *)
Definition connect_outcome (w : world) (me id : PeerId) (m : P2pManager) : panicking (Result HandshakeError Peer) :=
  if decide (id ∈ connected_peers m) then Val (Err HsDup)
  else match discovered_peers m !! id with
       | None => Val (Err HsNotFound)
       | Some c =>
           match first_conn w (w_order w (pc_addrs c)) with
           | None => Val (Err HsAddr)
           | Some conn => fst (hs_exec (env_of (w_env w) m) [] (connect me conn c))
           end
       end.

Definition after_connect (id : PeerId) (o : panicking (Result HandshakeError Peer)) (m : P2pManager) : P2pManager :=
  match o with Val (Ok _) => set_connected (fun s => {[id]} ∪ s) m | _ => m end.

Lemma exec_connect_to_peer w me id m :
  exec w (connect_to_peer me id) m =
    let o := connect_outcome w me id m in Some (o, [], after_connect id o m).
Proof.
  unfold connect_to_peer, connect_outcome. cbn -[decide connect_addrs hs_exec connect].
  destruct (decide (id ∈ connected_peers m)).
  { by rewrite bool_decide_eq_true_2. }
  rewrite bool_decide_eq_false_2 by done.
  cbn -[connect_addrs hs_exec connect]. destruct (discovered_peers m !! id) as [c|]; [| done].
  cbn -[connect_addrs hs_exec connect]. unfold mret, task_ret. rewrite connect_addrs_spec.
  destruct (first_conn w _); [| done]. by destruct (fst _) as [[p|e]|].
Qed.

(** ** Theorems *)

(** C17.  Discovery of a peer, on every branch: a presence response changes nothing when the peer is
    connected, already discovered or not paired with; otherwise the peer becomes discovered, with
    the advertised metadata, the advertised address as its only address and the authenticator of the
    pairing, and the application hears of it. *)
Theorem handle_peer_discovered_spec w peer m :
  ch_capacity (app_channel m) = None ->
  exec w (handle_peer_discovered peer) m =
    let id := pm_id peer in
    Some (Val tt, [],
      if decide (id ∈ connected_peers m) then m
      else match discovered_peers m !! id, known_peers m !! id with
           | None, Some known =>
               let c := mkPeerCandidate id peer {[pm_addr peer]} (pc_auth known) in
               app_notified (PeerDiscovered peer) (set_known <[id := c]> (set_discovered <[id := c]> m))
           | _, _ => m
           end).
Proof. apply exec_peer_discovered. Qed.

(** C16.  Connecting to a peer, on every branch: a connected peer is a duplicate, an undiscovered one
    is not found; otherwise the addresses are tried until one accepts, the outcome is that of the
    handshake on it, and the peer becomes connected exactly on success. *)
Theorem connect_to_peer_spec w me id m :
  exec w (connect_to_peer me id) m =
    let o := connect_outcome w me id m in
    Some (o, [], match o with Val (Ok _) => set_connected (fun s => {[id]} ∪ s) m | _ => m end).
Proof. apply exec_connect_to_peer. Qed.

(** A presence request is answered with the manager's own metadata, and only that; the event
    loop waits with it as long as the discovery channel is full. *)
Theorem handle_presence_request_spec w m :
  exec w (handle_presence_request) m =
    let c := discovery_channel m in
    if negb (ch_receiver c) then Some (Val tt, [], m)
    else if has_room c
      then Some (Val tt, [], set_discovery_channel
             (mkChannel (ch_queue c ++ [PresenceResponse (mgr_metadata m)]) (ch_capacity c) (ch_receiver c) (ch_senders c)) m)
      else None.
Proof.
  cbn. unfold chan_send. destruct (negb _); cbn; [by rewrite set_discovery_channel_id |]. by destruct (has_room _).
Qed.

(** Connection bookkeeping: an accepted peer becomes connected and is reported, its end takes
    it out again and is reported, in this order; nothing else changes. *)
Theorem connection_lifecycle w p m :
  ch_capacity (app_channel m) = None ->
  exec w (handle_new_connection p) m =
    Some (Val tt, [], app_notified (PeerConnected p) (set_connected (fun s => {[peer_id p]} ∪ s) m)) /\
  exec w (_ ← handle_new_connection p; peer_disconnected (peer_id p)) m =
    Some (Val tt, [], app_notified (PeerDisconnected (peer_id p)) (app_notified (PeerConnected p)
                        (set_connected (fun s => s ∖ {[peer_id p]}) m))).
Proof.
  intros Hc. split; [by apply exec_new_connection |].
  erewrite exec_bind by by apply exec_new_connection.
  rewrite exec_disconnected by by rewrite app_notified_capacity.
  rewrite !app_notified_connected. unfold set_connected. cbn. do 2 f_equal. f_equal. set_solver.
Qed.

(** The advertised address decides: after two presence responses for the same paired id, the
    first one stays; when nothing answers at its address, connecting fails, whatever the second
    one advertised. *)
Theorem first_presence_wins w me spoofed genuine m known e :
  pm_id spoofed = pm_id genuine -> ch_capacity (app_channel m) = None ->
  pm_id genuine ∉ connected_peers m -> discovered_peers m !! pm_id genuine = None ->
  known_peers m !! pm_id genuine = Some known ->
  (forall s, w_order w s ≡ₚ elements s) -> w_tcp w (pm_addr spoofed) = Err e ->
  exists m', exec w (_ ← handle_peer_discovered spoofed; _ ← handle_peer_discovered genuine;
                     connect_to_peer me (pm_id genuine)) m = Some (Val (Err HsAddr), [], m').
Proof.
  intros Hid Hc Hn Hd Hk Ho Ht.
  assert (Ha : exists m1, after_presence spoofed m = m1 /\ ch_capacity (app_channel m1) = None /\
            connected_peers m1 = connected_peers m /\ after_presence genuine m1 = m1 /\
            discovered_peers m1 !! pm_id genuine = Some (candidate_of spoofed known)).
  { eexists. split; [done |]. unfold after_presence. rewrite Hid. rewrite decide_False by done. rewrite Hd, Hk.
    rewrite app_notified_capacity. unfold app_notified. cbn. by destruct (ch_receiver _); cbn; simplify_map_eq. }
  destruct Ha as (m1 & E1 & Hc1 & Hcon & E2 & Hd1). exists m1.
  rewrite (exec_bind _ _ _ _ tt [] m1) by (rewrite exec_peer_discovered by done; by rewrite E1).
  rewrite (exec_bind _ _ _ _ tt [] m1) by (rewrite exec_peer_discovered by done; by rewrite E2).
  rewrite exec_connect_to_peer. unfold connect_outcome. rewrite decide_False by by rewrite Hcon.
  rewrite Hd1. unfold first_conn. cbn. specialize (Ho {[pm_addr spoofed]}).
  rewrite elements_singleton in Ho. apply Permutation_singleton_r in Ho as ->. cbn. by rewrite Ht.
Qed.

(** The rounds of the event loop: it ends exactly when one of its channels has ended; the
    node's own presence response is dropped; a failed [accept] is ignored, and an incoming
    connection is handed to a task of its own. *)
Theorem event_loop_round me w m ev :
  ch_capacity (app_channel m) = None ->
  match ev with
  | EvDiscovery None | EvInternal None => exec w (p2p_event_loop_body me ev) m = Some (Val Break, [], m)
  | EvStream (Err _) => exec w (p2p_event_loop_body me ev) m = Some (Val Continue, [], m)
  | EvStream (Ok (conn, _)) => exec w (p2p_event_loop_body me ev) m = Some (Val Continue, [conn], m)
  | EvDiscovery (Some (PresenceResponse peer, _)) =>
      exec w (p2p_event_loop_body me ev) m =
        Some (Val Continue, [], if decide (me = pm_id peer) then m else after_presence peer m)
  | EvDiscovery (Some (PresenceRequest, _)) =>
      exec w (p2p_event_loop_body me ev) m = None <->
        (ch_receiver (discovery_channel m) = true /\ has_room (discovery_channel m) = false)
  | EvInternal (Some e) => match e with end
  end.
Proof.
  intros Hc. destruct ev as [[[[|peer] addr]|]|[[]|]|[[conn addr]|e]]; try done.
  - cbn. unfold chan_send. destruct (ch_receiver _); cbn; [| naive_solver]. destruct (has_room _); cbn; naive_solver.
  - cbn -[handle_peer_discovered]. unfold PeerId_eqb. destruct (decide (me = pm_id peer)) as [->|Hne].
    + by rewrite bool_decide_eq_true_2.
    + rewrite bool_decide_eq_false_2 by (intros E; destruct me, (pm_id peer); cbn in E; congruence).
      by rewrite (exec_bind _ _ _ _ tt [] (after_presence peer m)) by by apply exec_peer_discovered.
Qed.

End Methods.

(** ** The theorems on concrete managers *)

Module ManagerWitnesses.
Import Sample.

(** The laptop's manager, which knows the phone; nothing has been discovered. *)
Definition laptop_manager : P2pManager :=
  mkP2pManager id_two laptop {[id_one := phone_candidate]} ∅ ∅ (channel_bounded 1024) channel_unbounded channel_unbounded.

(** A world in which no address answers. *)
Definition silent : world :=
  mkWorld elements (fun _ => Err (mkIoError 111))
    (mkEnv (fun _ => 30) (fun _ _ => Ok tt) (fun _ => Val TimedOut) (fun _ _ => None)).

Definition spoofed_phone : PeerMetadata :=
  mkPeerMetadata (pm_name phone) AndroidDevice id_one (V4 (mkIpv4 x0a x00 x00 x63) 9).

Lemma handle_peer_discovered_spec_witness :
  ch_capacity (app_channel laptop_manager) = None /\
  exec silent (handle_peer_discovered phone) laptop_manager =
    let id := id_one in
    Some (Val tt, [],
      if decide (id ∈ connected_peers laptop_manager) then laptop_manager
      else match discovered_peers laptop_manager !! id, known_peers laptop_manager !! id with
           | None, Some known =>
               let c := mkPeerCandidate id phone {[pm_addr phone]} (pc_auth known) in
               app_notified (PeerDiscovered phone) (set_known <[id := c]> (set_discovered <[id := c]> laptop_manager))
           | _, _ => laptop_manager
           end).
Proof. split; [reflexivity |]. apply (handle_peer_discovered_spec silent phone laptop_manager). reflexivity. Defined.

Lemma connection_lifecycle_witness :
  exec silent (handle_new_connection (mkPeer id_one Server phone 7)) laptop_manager =
    Some (Val tt, [], app_notified (PeerConnected (mkPeer id_one Server phone 7))
                        (set_connected (fun s => {[id_one]} ∪ s) laptop_manager)).
Proof. apply (connection_lifecycle silent (mkPeer id_one Server phone 7) laptop_manager). reflexivity. Defined.

Lemma first_presence_wins_witness :
  exists m', exec silent (_ ← handle_peer_discovered spoofed_phone; _ ← handle_peer_discovered phone;
                          connect_to_peer id_two id_one) laptop_manager = Some (Val (Err HsAddr), [], m').
Proof.
  apply (first_presence_wins silent id_two spoofed_phone phone laptop_manager phone_candidate (mkIoError 111));
    try reflexivity.
  apply not_elem_of_empty.
Defined.

Lemma event_loop_round_witness :
  exec silent (p2p_event_loop_body id_two (EvDiscovery (Some (PresenceResponse laptop, pm_addr laptop)))) laptop_manager =
    Some (Val Continue, [], if decide (id_two = pm_id laptop) then laptop_manager else after_presence laptop laptop_manager).
Proof.
  apply (event_loop_round id_two silent laptop_manager (EvDiscovery (Some (PresenceResponse laptop, pm_addr laptop)))).
  reflexivity.
Defined.

End ManagerWitnesses.
