(* ===== verification/Handler.v ===== *)
(** The connection handler of crate/p2p/src/peer/peer.rs with the bytes it moves.

    [handler] runs two [tokio::io::copy] in a [select!], one per direction, in a loop.  A copy is
    documented to take data from its reader through a buffer of 8 KB into its writer until the reader is
    at its end, and then to give the number of bytes it wrote.  When it is polled it writes all that its
    writer takes, so that bytes stay in its buffer only while the writer is full.  When one of the two
    finishes, the [select!] drops the other, and what that one had read and not written goes with it.
    The application's end is a [tokio::io::duplex(64)], in each direction of which a write waits while 64
    bytes are unread; how much a read of the socket gives and a write to it takes is up to the operating
    system.  [handler_step] is one observable step of this; [Manager.handler_body] is the body of the loop. *)

From Stdlib Require Import ZArith Lia.
From Stdlib Require Import Strings.Byte.
From stdpp Require Import base tactics numbers option list.
From S2P Require Import Prelude RustStd Errors Manager.

(** ** State *)

Definition COPY_BUFFER : Z := 8192.
Definition DUPLEX_BUFFER : nat := 64.

(** One direction.  [p_given] is everything the sender has written so far, [p_src] the part of it the
    handler has not read, [p_eof] whether the sender has closed; [p_buf] and [p_count] belong to the
    current copy: what it has read and not written, and how much it has written; [p_dst] is what reached
    the receiver's side, [p_taken] how much of it the receiver has read. *)
Record pipe := mkPipe {
  p_given : list byte;
  p_src : list byte;
  p_eof : bool;
  p_buf : list byte;
  p_count : Z;
  p_dst : list byte;
  p_taken : nat
}.

Inductive direction : Type := FromNetwork | FromApplication.

#[global] Instance direction_eq_dec : EqDecision direction.
Proof. solve_decision. Defined.

Record handler_state := mkHandler { h_network : pipe; h_application : pipe; h_ended : bool }.

Definition pipe_init : pipe := mkPipe [] [] false [] 0 [] 0.
Definition handler_init : handler_state := mkHandler pipe_init pipe_init false.

Definition pipe_of (d : direction) (h : handler_state) : pipe :=
  match d with FromNetwork => h_network h | FromApplication => h_application h end.
Definition set_pipe (d : direction) (p : pipe) (h : handler_state) : handler_state :=
  match d with
  | FromNetwork => mkHandler p (h_application h) (h_ended h)
  | FromApplication => mkHandler (h_network h) p (h_ended h)
  end.

(** What the duplex takes towards the application now, and what it still takes from it. *)
Definition duplex_room (p : pipe) : nat := DUPLEX_BUFFER - (length (p_dst p) - p_taken p).
Definition can_give (d : direction) (l : list byte) (h : handler_state) : bool :=
  let p := pipe_of d h in
  negb (p_eof p) && match d with
                    | FromNetwork => true
                    | FromApplication => negb (h_ended h) && (length (p_src p) + length l <=? DUPLEX_BUFFER)%nat
                    end.

(** The buffer of a copy that has read [n] more bytes. *)
Definition copy_buffer (p : pipe) (n : nat) : list byte := p_buf p ++ take n (p_src p).

(** A copy can read [n] bytes and then write [m]: the duplex gives all it has (when it is read), and takes all
    that it has room for. *)
Definition copies (d : direction) (p : pipe) (n m : nat) : Prop :=
  (n <= length (p_src p))%nat /\ zlen (copy_buffer p n) <= COPY_BUFFER /\
  match d with
  | FromNetwork => m = Nat.min (duplex_room p) (length (copy_buffer p n))
  | FromApplication =>
      (n = 0 \/ n = Nat.min (length (p_src p)) (Z.to_nat COPY_BUFFER - length (p_buf p)))%nat /\
      (m <= length (copy_buffer p n))%nat
  end.

#[global] Instance copies_dec d p n m : Decision (copies d p n m).
Proof. unfold copies. destruct d; apply _. Defined.

(** ** Steps *)

Inductive pipe_event : Type :=
(** The sender writes, or closes; the receiver reads. *)
| Give (l : list byte)
| Close
| Take (n : nat)
(** The copy reads [n] bytes into its buffer and writes [m] from it. *)
| Copy (n m : nat)
(** The copy finishes, at the end of its reader or with an error. *)
| Finish
| FailCopy (e : io_Error).

Definition by_copy (e : pipe_event) : bool :=
  match e with Give _ | Close | Take _ => false | _ => true end.

(** Dropping a copy. *)
Definition drop_copy (p : pipe) : pipe :=
  mkPipe (p_given p) (p_src p) (p_eof p) [] 0 (p_dst p) (p_taken p).

(** One copy has given [r]: the other is dropped, and the body of the loop decides. *)
Definition copied (r : Result io_Error Z) (h : handler_state) : handler_state :=
  mkHandler (drop_copy (h_network h)) (drop_copy (h_application h))
    (match handler_body r with Break => true | Continue => false end).

Definition handler_step (d : direction) (e : pipe_event) (h : handler_state) : option handler_state :=
  let p := pipe_of d h in
  if h_ended h && by_copy e then None
  else match e with
  | Give l =>
      if can_give d l h
      then Some (set_pipe d (mkPipe (p_given p ++ l) (p_src p ++ l) (p_eof p) (p_buf p) (p_count p) (p_dst p) (p_taken p)) h)
      else None
  | Close => Some (set_pipe d (mkPipe (p_given p) (p_src p) true (p_buf p) (p_count p) (p_dst p) (p_taken p)) h)
  | Take n =>
      if decide (p_taken p + n <= length (p_dst p))%nat
      then Some (set_pipe d (mkPipe (p_given p) (p_src p) (p_eof p) (p_buf p) (p_count p) (p_dst p) (p_taken p + n)) h)
      else None
  | Copy n m =>
      if decide (copies d p n m)
      then Some (set_pipe d (mkPipe (p_given p) (drop n (p_src p)) (p_eof p) (drop m (copy_buffer p n)) (p_count p + Z.of_nat m)
                               (p_dst p ++ take m (copy_buffer p n)) (p_taken p)) h)
      else None
  | Finish =>
      if p_eof p && bool_decide (p_src p = []) && bool_decide (p_buf p = [])
      then Some (copied (Ok (p_count p)) h) else None
  | FailCopy err => Some (copied (Err err) h)
  end.

Fixpoint handler_run (es : list (direction * pipe_event)) (h : handler_state) : option handler_state :=
  match es with
  | [] => Some h
  | (d, e) :: es' => h' ← handler_step d e h; handler_run es' h'
  end.

(** The rounds of the [select!] a run has finished. *)
Definition finishes (e : direction * pipe_event) : bool :=
  match e.2 with Finish | FailCopy _ => true | _ => false end.
Definition rounds (es : list (direction * pipe_event)) : nat := length (filter (fun e => finishes e = true) es).

(** ** One direction *)

(** What holds of a direction at any time: what was delivered is part of what was given, in order; the
    application's duplex holds at most 64 unread bytes either way. *)
Definition pipe_ok (d : direction) (p : pipe) : Prop :=
  p_dst p ++ p_buf p ++ p_src p `sublist_of` p_given p /\
  (p_taken p <= length (p_dst p))%nat /\ zlen (p_buf p) <= COPY_BUFFER /\ 0 <= p_count p /\
  match d with
  | FromNetwork => (length (p_dst p) - p_taken p <= DUPLEX_BUFFER)%nat
  | FromApplication => (length (p_src p) <= DUPLEX_BUFFER)%nat
  end.

(** Nothing was lost so far. *)
Definition lossless (p : pipe) : Prop := p_dst p ++ p_buf p ++ p_src p = p_given p.

Lemma pipe_of_set d p h : pipe_of d (set_pipe d p h) = p.
Proof. by destruct d. Qed.

Lemma pipe_of_set_ne d d' p h : d <> d' -> pipe_of d' (set_pipe d p h) = pipe_of d' h.
Proof. by destruct d, d'. Qed.

Lemma h_ended_set d p h : h_ended (set_pipe d p h) = h_ended h.
Proof. by destruct d. Qed.

Lemma pipe_of_copied d r h : pipe_of d (copied r h) = drop_copy (pipe_of d h).
Proof. by destruct d. Qed.

Lemma drop_copy_ok d p : pipe_ok d p -> pipe_ok d (drop_copy p).
Proof.
  intros (Hs & Ht & Hb & Hc & Hd). unfold pipe_ok, drop_copy. cbn. split_and!; try done.
  etrans; [| exact Hs]. apply sublist_app; [done |]. by apply sublist_inserts_l.
Qed.

(** A copy moves bytes and loses none. *)
Lemma copy_keeps p n m :
  (p_dst p ++ take m (copy_buffer p n)) ++ drop m (copy_buffer p n) ++ drop n (p_src p) = p_dst p ++ p_buf p ++ p_src p.
Proof. rewrite <- app_assoc, (app_assoc (take m _)), take_drop. unfold copy_buffer. by rewrite <- app_assoc, take_drop. Qed.

Lemma copy_pipe_ok d p n m : copies d p n m -> pipe_ok d p ->
  pipe_ok d (mkPipe (p_given p) (drop n (p_src p)) (p_eof p) (drop m (copy_buffer p n)) (p_count p + Z.of_nat m)
               (p_dst p ++ take m (copy_buffer p n)) (p_taken p)).
Proof.
  intros (Hn & Hz & Hm) (Hs & Ht & Hb & Hc & Hd). unfold pipe_ok. cbn [p_given p_src p_eof p_buf p_count p_dst p_taken].
  rewrite copy_keeps. unfold zlen in *. rewrite length_app, !length_drop, length_take. split_and!; try done; try lia.
  destruct d; [| lia]. unfold duplex_room in Hm. lia.
Qed.

(** A step of one direction that is not the end of a round. *)
Lemma step_pipe d e h h' : handler_step d e h = Some h' -> finishes (d, e) = false ->
  exists p', h' = set_pipe d p' h /\ (pipe_ok d (pipe_of d h) -> pipe_ok d p') /\
    (lossless (pipe_of d h) -> lossless p').
Proof.
  unfold handler_step. intros H Hf. destruct (_ && _); [done |]. set (p := pipe_of d h) in *.
  destruct e as [l| |n|n m| |err]; cbn in Hf; try done;
    [destruct (can_give d l h) eqn:Eg; [| done] | | case_decide as Ht0; [| done] | case_decide as Hc0; [| done]]; simplify_eq;
    (eexists; split; [reflexivity |]); unfold lossless; cbn [p_given p_src p_eof p_buf p_count p_dst p_taken]; split; try done.
  - intros (Hs & Ht & Hb & Hc & Hd). unfold pipe_ok. cbn. split_and!; try done.
    + rewrite !app_assoc. rewrite !app_assoc in Hs. by apply sublist_app.
    + unfold can_give in Eg. fold p in Eg. destruct d; [done |]. rewrite length_app.
      apply andb_true_iff in Eg as [_ [_ Eg%Nat.leb_le]%andb_true_iff]. exact Eg.
  - intros <-. by rewrite <- !app_assoc.
  - intros (Hs & Ht & Hb & Hc & Hd). unfold pipe_ok. cbn. split_and!; try done. destruct d; [lia | done].
  - intros Hok. by apply copy_pipe_ok.
  - intros <-. apply copy_keeps.
Qed.

Lemma step_pipe_ok d e h h' : handler_step d e h = Some h' -> finishes (d, e) = false ->
  pipe_ok d (pipe_of d h) -> pipe_ok d (pipe_of d h').
Proof. intros Hs Hf Hok. destruct (step_pipe d e h h' Hs Hf) as (p' & -> & Hp & _). rewrite pipe_of_set. by apply Hp. Qed.

(** The end of a round. *)
Lemma step_round d e h h' : handler_step d e h = Some h' -> finishes (d, e) = true ->
  h_ended h = false /\
  (exists r, h' = copied r h /\
    (e = Finish -> p_eof (pipe_of d h) = true /\ p_src (pipe_of d h) = [] /\ p_buf (pipe_of d h) = [] /\
                   r = Ok (p_count (pipe_of d h))) /\
    (forall err, e = FailCopy err -> r = Err err)).
Proof.
  unfold handler_step. intros H Hf. destruct e; try done; cbn [by_copy] in H; rewrite andb_true_r in H;
    destruct (h_ended h) eqn:Eh; try done; (split; [done |]).
  - destruct (p_eof _ && _ && _) eqn:Ec; [| done]. simplify_eq.
    apply andb_true_iff in Ec as [[Ec1 Ec2%bool_decide_eq_true]%andb_true_iff Ec3%bool_decide_eq_true].
    eexists. split; [reflexivity |]. by split.
  - simplify_eq. eexists. split; [reflexivity |]. split; [done |]. by intros ? [= ->].
Qed.

(** ** The whole handler *)

Definition handler_ok (h : handler_state) : Prop := forall d, pipe_ok d (pipe_of d h).

Lemma handler_ok_step d e h h' : handler_ok h -> handler_step d e h = Some h' -> handler_ok h'.
Proof.
  intros Hok Hs d'. destruct (finishes (d, e)) eqn:Ef.
  - destruct (step_round d e h h' Hs Ef) as (_ & r & -> & _). rewrite pipe_of_copied. apply drop_copy_ok, Hok.
  - destruct (step_pipe d e h h' Hs Ef) as (p' & -> & Hp & _). destruct (decide (d = d')) as [<-|Hne].
    + rewrite pipe_of_set. apply Hp, Hok.
    + rewrite pipe_of_set_ne by done. apply Hok.
Qed.

Lemma handler_ok_run es : forall h h', handler_ok h -> handler_run es h = Some h' -> handler_ok h'.
Proof.
  induction es as [|[d e] es IH]; intros h h' Hok Hr; cbn in Hr; [by simplify_eq |].
  destruct (handler_step d e h) as [h1|] eqn:E; cbn in Hr; [| done]. eapply IH; [by eapply handler_ok_step | done].
Qed.

Lemma handler_ok_init : handler_ok handler_init.
Proof. intros []; unfold pipe_ok; cbn; split_and!; try done; lia. Qed.

(** A direction whose end was reached: its sender closed and everything was read from it. *)
Definition exhausted (p : pipe) : bool := p_eof p && bool_decide (p_src p = []) && bool_decide (p_buf p = []) && (p_count p =? 0).

(** A round that ends well without ending the handler leaves its direction exhausted, and an exhausted
    direction stays so. *)
Lemma exhausted_step d e h h' d' : handler_step d e h = Some h' -> exhausted (pipe_of d' h) = true ->
  exhausted (pipe_of d' h') = true.
Proof.
  unfold exhausted. intros Hs He.
  assert (Hx : p_eof (pipe_of d' h) = true /\ p_src (pipe_of d' h) = [] /\ p_buf (pipe_of d' h) = [] /\ p_count (pipe_of d' h) = 0).
  { apply andb_true_iff in He as [[[? ?%bool_decide_eq_true]%andb_true_iff ?%bool_decide_eq_true]%andb_true_iff ?%Z.eqb_eq]. auto. }
  destruct Hx as (Hx1 & Hx2 & Hx3 & Hx4). destruct (finishes (d, e)) eqn:Ef.
  - destruct (step_round d e h h' Hs Ef) as (_ & r & -> & _). rewrite pipe_of_copied. cbn.
    rewrite Hx1, Hx2. by rewrite !bool_decide_eq_true_2.
  - destruct (decide (d = d')) as [<-|Hne].
    + unfold handler_step in Hs. destruct (_ && _) in Hs; [done |].
      unfold can_give in Hs. destruct e as [l| |n|n m| |err]; cbn in Ef; try done; rewrite ?Hx1 in Hs; try done; try case_decide as Hd;
        simplify_eq; rewrite ?pipe_of_set; cbn [p_given p_src p_eof p_buf p_count p_dst p_taken]; rewrite ?Hx1, ?Hx2, ?Hx3, ?Hx4;
        try (by rewrite !bool_decide_eq_true_2).
      destruct Hd as (_ & _ & Hm). unfold copy_buffer in *. rewrite Hx2, Hx3, ?take_nil, ?drop_nil in *. cbn in *.
      assert (m = 0%nat) as -> by (destruct d; lia). by rewrite drop_nil, !bool_decide_eq_true_2.
    + destruct (step_pipe d e h h' Hs Ef) as (p' & -> & _). rewrite pipe_of_set_ne by done.
      rewrite Hx1, Hx2, Hx3, Hx4. by rewrite !bool_decide_eq_true_2.
Qed.

(** The directions that are not exhausted. *)
Definition open_directions (h : handler_state) : nat :=
  (if exhausted (h_network h) then 0 else 1) + (if exhausted (h_application h) then 0 else 1).

Lemma open_step d e h h' : handler_step d e h = Some h' -> (open_directions h' <= open_directions h)%nat.
Proof.
  intros Hs. unfold open_directions.
  pose proof (exhausted_step d e h h' FromNetwork Hs) as H1. pose proof (exhausted_step d e h h' FromApplication Hs) as H2.
  cbn in H1, H2. destruct (exhausted (h_network h)), (exhausted (h_application h));
    rewrite ?H1, ?H2 by done; repeat destruct (exhausted _); lia.
Qed.

(** A round ends the handler or exhausts one more direction. *)
Lemma round_step d e h h' : handler_step d e h = Some h' -> finishes (d, e) = true ->
  h_ended h' = true \/ (open_directions h' < open_directions h)%nat.
Proof.
  intros Hs Hf. pose proof (exhausted_step d e h h' FromNetwork Hs) as H1.
  pose proof (exhausted_step d e h h' FromApplication Hs) as H2.
  destruct (step_round d e h h' Hs Hf) as (_ & r & -> & HF & HE).
  destruct e; try done; [| left; by rewrite (HE e eq_refl)].
  destruct (HF eq_refl) as (Ee & Es & Eb & ->). cbn [h_ended copied handler_body].
  destruct (p_count (pipe_of d h) =? 0) eqn:Ec; [by left | right].
  assert (Hx : exhausted (pipe_of d (copied (Ok (p_count (pipe_of d h))) h)) = true).
  { rewrite pipe_of_copied. unfold exhausted. cbn. rewrite Ee, Es. by rewrite !bool_decide_eq_true_2. }
  assert (Hn : exhausted (pipe_of d h) = false).
  { unfold exhausted. rewrite Ec. by rewrite andb_false_r. }
  unfold open_directions. destruct d; cbn [pipe_of] in *; rewrite Hx, Hn.
  - destruct (exhausted (h_application h)); [rewrite H2 by done |]; repeat destruct (exhausted _); lia.
  - destruct (exhausted (h_network h)); [rewrite H1 by done |]; repeat destruct (exhausted _); lia.
Qed.

(** Once ended, no more rounds. *)
Lemma ended_no_round d e h : h_ended h = true -> finishes (d, e) = true -> handler_step d e h = None.
Proof. intros He Hf. unfold handler_step. rewrite He. by destruct e. Qed.

Lemma rounds_cons d e es : rounds ((d, e) :: es) = ((if finishes (d, e) then 1 else 0) + rounds es)%nat.
Proof. unfold rounds. rewrite filter_cons. by destruct (finishes (d, e)). Qed.

Lemma rounds_app es es' : rounds (es ++ es') = (rounds es + rounds es')%nat.
Proof. unfold rounds. by rewrite filter_app, length_app. Qed.

(** The rounds a handler has left. *)
Definition rounds_left (h : handler_state) : nat := if h_ended h then 0 else S (open_directions h).

Lemma rounds_bound es : forall h h', handler_run es h = Some h' -> (rounds es + rounds_left h' <= rounds_left h)%nat.
Proof.
  unfold rounds_left. induction es as [|[d e] es IH]; intros h h' Hr; cbn in Hr; [simplify_eq; cbn; lia |].
  destruct (handler_step d e h) as [h1|] eqn:E; cbn in Hr; [| done]. specialize (IH h1 h' Hr).
  rewrite rounds_cons. destruct (finishes (d, e)) eqn:Ef.
  - destruct (h_ended h) eqn:Eh; [by rewrite (ended_no_round d e h Eh Ef) in E |].
    destruct (round_step d e h h1 E Ef) as [Ee|Hlt]; [rewrite Ee in IH; lia |]. destruct (h_ended h1); lia.
  - pose proof (open_step d e h h1 E). destruct (step_pipe d e h h1 E Ef) as (p' & -> & _).
    rewrite h_ended_set in IH. destruct (h_ended h); lia.
Qed.

Lemma handler_run_app es es' : forall h, handler_run (es ++ es') h = h' ← handler_run es h; handler_run es' h'.
Proof.
  induction es as [|[d e] es IH]; intros h; [done |]. cbn. destruct (handler_step d e h) as [h1|]; cbn; [apply IH | done].
Qed.

(** ** Draining a closed direction *)

(** The bytes of a direction still to move. *)
Definition backlog (p : pipe) : nat := length (p_src p) + length (p_buf p).

(** What a copy can do when its receiver has read what it could and the network takes a byte. *)
Definition next_copy (d : direction) (p : pipe) : nat * nat :=
  match d with
  | FromNetwork => let n := match p_buf p with [] => 1 | _ => 0 end in (n, Nat.min DUPLEX_BUFFER (length (copy_buffer p n)))
  | FromApplication => (match p_buf p with [] => Nat.min (length (p_src p)) (Z.to_nat COPY_BUFFER) | _ => 0 end, 1)
  end%nat.

Lemma next_copy_copies d p : zlen (p_buf p) <= COPY_BUFFER -> (0 < backlog p)%nat -> p_taken p = length (p_dst p) ->
  let '(n, m) := next_copy d p in copies d p n m /\ (1 <= m <= length (copy_buffer p n))%nat.
Proof.
  unfold backlog, copies, duplex_room, zlen. destruct p as [g src eof buf c dst t]. cbn [p_buf p_src p_dst p_taken].
  intros Hb Hl ->. rewrite Nat.sub_diag, Nat.sub_0_r.
  assert (Hz : Z.of_nat (Z.to_nat COPY_BUFFER) = COPY_BUFFER) by done. assert (1 <= COPY_BUFFER) by done.
  assert (1 <= DUPLEX_BUFFER)%nat by (unfold DUPLEX_BUFFER; lia).
  destruct d, buf as [|b l]; cbn [next_copy p_buf p_src]; unfold copy_buffer; cbn [p_buf p_src app length] in *;
    rewrite ?length_app, ?length_take in *; cbn [length] in *; rewrite ?Nat.sub_0_r; split_and!; lia.
Qed.

(** One move of the copy, after the receiver has read what it could. *)
Lemma drain_step d h : h_ended h = false -> pipe_ok d (pipe_of d h) -> p_eof (pipe_of d h) = true ->
  (0 < backlog (pipe_of d h))%nat ->
  exists es h', handler_run es h = Some h' /\ rounds es = 0%nat /\ h_ended h' = false /\ pipe_ok d (pipe_of d h') /\
    p_eof (pipe_of d h') = true /\ (backlog (pipe_of d h') < backlog (pipe_of d h))%nat.
Proof.
  intros Hn Hok He Hb. pose proof Hok as (_ & Ht & Hbuf & _ & _). set (p := pipe_of d h) in *.
  set (p1 := mkPipe (p_given p) (p_src p) (p_eof p) (p_buf p) (p_count p) (p_dst p) (length (p_dst p))).
  set (h1 := set_pipe d p1 h).
  assert (Hs1 : handler_step d (Take (length (p_dst p) - p_taken p)) h = Some h1).
  { unfold handler_step. rewrite Hn. fold p. cbn [andb]. rewrite decide_True by lia. unfold h1, p1. do 3 f_equal. lia. }
  assert (Hok1 : pipe_ok d (pipe_of d h1)) by (by eapply step_pipe_ok).
  pose proof (next_copy_copies d p1 Hbuf Hb eq_refl) as Hc. destruct (next_copy d p1) as [n m]. destruct Hc as [Hc Hm].
  eassert (Hs2 : handler_step d (Copy n m) h1 = Some _).
  { unfold handler_step, h1. rewrite h_ended_set, Hn, pipe_of_set. cbn [andb]. rewrite decide_True by exact Hc. reflexivity. }
  pose proof (step_pipe_ok _ _ _ _ Hs2 eq_refl Hok1) as Hok2.
  exists [(d, Take (length (p_dst p) - p_taken p)); (d, Copy n m)]. eexists. cbn [handler_run]. rewrite Hs1. cbn [mbind option_bind].
  rewrite Hs2. split; [reflexivity |]. split; [done |]. unfold h1. rewrite !h_ended_set, pipe_of_set. split; [done |].
  split; [by rewrite pipe_of_set in Hok2 |]. split; [exact He |]. unfold backlog, copy_buffer in *. cbn in *.
  destruct Hc as (Hn' & _). cbn in Hn'. rewrite !length_drop, length_app, length_take in *. lia.
Qed.

Lemma drain d n : forall h, (backlog (pipe_of d h) <= n)%nat ->
  h_ended h = false -> pipe_ok d (pipe_of d h) -> p_eof (pipe_of d h) = true ->
  exists es h', handler_run es h = Some h' /\ rounds es = 0%nat /\ h_ended h' = false /\
    p_eof (pipe_of d h') = true /\ p_src (pipe_of d h') = [] /\ p_buf (pipe_of d h') = [].
Proof.
  induction n as [|n IH]; intros h Hle Hn Hok He.
  - exists [], h. unfold backlog in Hle. destruct (p_src (pipe_of d h)), (p_buf (pipe_of d h)); cbn in Hle; try lia. by split_and!.
  - destruct (decide (backlog (pipe_of d h) = 0)%nat) as [E|E]; [by apply IH; [lia | ..] |].
    destruct (drain_step d h Hn Hok He ltac:(lia)) as (es & h1 & Hr & Hz & Hn1 & Hok1 & He1 & Hlt).
    destruct (IH h1 ltac:(lia) Hn1 Hok1 He1) as (es' & h' & Hr' & Hz' & H').
    exists (es ++ es'), h'. rewrite handler_run_app, Hr. cbn. split; [done |]. split; [| done].
    rewrite rounds_app. lia.
Qed.

(** A drained direction can finish its copy. *)
Lemma finish_step d h : h_ended h = false -> p_eof (pipe_of d h) = true -> p_src (pipe_of d h) = [] ->
  p_buf (pipe_of d h) = [] -> handler_step d Finish h = Some (copied (Ok (p_count (pipe_of d h))) h).
Proof. intros Hn He Hs Hb. unfold handler_step. rewrite Hn, He, Hs, Hb. by rewrite !bool_decide_eq_true_2. Qed.

(** ** Theorems *)

(** C34.  The handler ends.  However the two directions interleave, its [select!] gives at most three results,
    and after three it has ended: an error or an empty copy ends it at once, and each direction can
    finish a copy with bytes at most once.  And it can always end once somebody has closed: if a sender
    has closed and its receiver goes on reading, there is a continuation, with at most two more results,
    that ends the handler. *)
Theorem handler_terminates es h : handler_run es handler_init = Some h ->
  (rounds es <= 3)%nat /\ (rounds es = 3%nat -> h_ended h = true) /\
  (forall d, p_eof (pipe_of d h) = true -> h_ended h = false ->
     exists es' h', handler_run es' h = Some h' /\ h_ended h' = true /\ (rounds es' <= 2)%nat).
Proof.
  intros Hr. pose proof (rounds_bound es _ _ Hr) as Hb. change (rounds_left handler_init) with 3%nat in Hb.
  split; [lia |]. split.
  { intros E. unfold rounds_left in Hb. destruct (h_ended h); [done | lia]. }
  intros d He Hn. pose proof (handler_ok_run _ _ _ handler_ok_init Hr d) as Hok.
  destruct (drain d _ h (le_n _) Hn Hok He) as (es1 & h1 & Hr1 & Hz & Hn1 & He1 & Hs1 & Hb1).
  pose proof (finish_step d h1 Hn1 He1 Hs1 Hb1) as Hf. set (h2 := copied _ h1) in Hf.
  destruct (h_ended h2) eqn:E2.
  - exists (es1 ++ [(d, Finish)]), h2. rewrite handler_run_app, Hr1. cbn [mbind option_bind handler_run]. rewrite Hf.
    split_and!; [done | done |]. rewrite rounds_app, !rounds_cons. cbn. lia.
  - assert (Hp2 : pipe_of d h2 = drop_copy (pipe_of d h1)) by apply pipe_of_copied.
    pose proof (finish_step d h2 E2) as Hf2. rewrite Hp2 in Hf2. cbn in Hf2. specialize (Hf2 He1 Hs1 eq_refl).
    exists (es1 ++ [(d, Finish); (d, Finish)]), (copied (Ok 0) h2). rewrite handler_run_app, Hr1. cbn [mbind option_bind handler_run].
    rewrite Hf. cbn [mbind option_bind]. rewrite Hf2. split_and!; [done | done |].
    rewrite rounds_app, !rounds_cons. cbn. lia.
Qed.

(** Whether a run was lossless up to now. *)
Lemma lossless_run es : forall h h' d, lossless (pipe_of d h) -> handler_run es h = Some h' -> rounds es = 0%nat ->
  lossless (pipe_of d h').
Proof.
  induction es as [|[d0 e] es IH]; intros h h' d Hl Hr Hz; cbn in Hr; [by simplify_eq |].
  destruct (handler_step d0 e h) as [h1|] eqn:E; cbn in Hr; [| done]. rewrite rounds_cons in Hz.
  destruct (finishes (d0, e)) eqn:Ef; [lia |]. eapply IH; [| done | done].
  destruct (step_pipe _ _ _ _ E Ef) as (p' & -> & _ & Hp). destruct (decide (d0 = d)) as [<-|Hne].
  - rewrite pipe_of_set. by apply Hp.
  - by rewrite pipe_of_set_ne.
Qed.

(** What the handler delivers.  At any time and in both directions, what reached the receiver is part of
    what the sender gave, in the same order, and the application's duplex holds at most its 64 unread
    bytes.  Until a copy has finished nothing is lost: everything given is delivered, buffered or still
    unread; and when the first copy to finish does so at the end of its reader, all its bytes were
    delivered. *)
Theorem handler_delivers es h d : handler_run es handler_init = Some h ->
  p_dst (pipe_of d h) `sublist_of` p_given (pipe_of d h) /\
  (length (p_dst (h_network h)) - p_taken (h_network h) <= DUPLEX_BUFFER)%nat /\
  (rounds es = 0%nat -> p_dst (pipe_of d h) ++ p_buf (pipe_of d h) ++ p_src (pipe_of d h) = p_given (pipe_of d h)) /\
  (rounds es = 0%nat -> forall h', handler_step d Finish h = Some h' -> p_dst (pipe_of d h') = p_given (pipe_of d h')).
Proof.
  intros Hr. pose proof (handler_ok_run _ _ _ handler_ok_init Hr) as Hok.
  assert (Hl : rounds es = 0%nat -> lossless (pipe_of d h)).
  { intros Hz. eapply lossless_run; [| exact Hr | exact Hz]. by destruct d. }
  split_and!.
  - etrans; [| apply Hok]. by apply sublist_inserts_r.
  - apply (Hok FromNetwork).
  - exact Hl.
  - intros Hz h' Hs. specialize (Hl Hz). destruct (step_round _ _ _ _ Hs eq_refl) as (_ & r & -> & HF & _).
    destruct (HF eq_refl) as (_ & Es & Eb & _). rewrite pipe_of_copied. unfold lossless in Hl. rewrite Es, Eb, !app_nil_r in Hl. done.
Qed.

Definition other (d : direction) : direction :=
  match d with FromNetwork => FromApplication | FromApplication => FromNetwork end.

(** An ended handler delivers nothing. *)
Lemma ended_delivers_nothing o es : forall h h', h_ended h = true -> handler_run es h = Some h' ->
  p_dst (pipe_of o h') = p_dst (pipe_of o h).
Proof.
  induction es as [|[d e] es IH]; intros h h' He Hr; cbn in Hr; [by simplify_eq |].
  destruct (handler_step d e h) as [h1|] eqn:E; cbn in Hr; [| done].
  assert (h_ended h1 = true /\ p_dst (pipe_of o h1) = p_dst (pipe_of o h)) as [He1 <-]; [| by apply IH].
  unfold handler_step in E. rewrite He in E. destruct e as [l| |n|n m| |err]; cbn -[pipe_of] in E; try done;
    [destruct (can_give d l h) | | case_decide]; simplify_eq; rewrite h_ended_set; (split; [done |]);
    (destruct (decide (d = o)) as [<-|Hne]; [by rewrite pipe_of_set | by rewrite pipe_of_set_ne]).
Qed.

(** While no copy finishes, what is delivered or still there grows by exactly what is given. *)
Definition stock (p : pipe) : list byte := p_dst p ++ p_buf p ++ p_src p.

Lemma step_stock d e h h' o : handler_step d e h = Some h' -> finishes (d, e) = false ->
  exists new, p_given (pipe_of o h') = p_given (pipe_of o h) ++ new /\ stock (pipe_of o h') = stock (pipe_of o h) ++ new.
Proof.
  intros Hs Hf. destruct (decide (d = o)) as [<-|Hne].
  2: { destruct (step_pipe _ _ _ _ Hs Hf) as (p' & -> & _). rewrite pipe_of_set_ne by done. exists []. by rewrite !app_nil_r. }
  unfold handler_step in Hs. destruct (_ && _) in Hs; [done |]. unfold stock.
  destruct e as [l| |n|n m| |err]; cbn in Hf; try done;
    [destruct (can_give d l h); [| done] | | case_decide; [| done] | case_decide; [| done]]; simplify_eq; rewrite !pipe_of_set; cbn.
  - exists l. split; [done |]. by rewrite !app_assoc.
  - exists []. by rewrite !app_nil_r.
  - exists []. by rewrite !app_nil_r.
  - exists []. rewrite !app_nil_r. split; [done |]. apply copy_keeps.
Qed.

Lemma run_stock o es : forall h h', handler_run es h = Some h' -> rounds es = 0%nat ->
  exists new, p_given (pipe_of o h') = p_given (pipe_of o h) ++ new /\ stock (pipe_of o h') = stock (pipe_of o h) ++ new.
Proof.
  induction es as [|[d e] es IH]; intros h h' Hr Hz; cbn in Hr; [simplify_eq; exists []; by rewrite !app_nil_r |].
  destruct (handler_step d e h) as [h1|] eqn:E; cbn in Hr; [| done]. rewrite rounds_cons in Hz.
  destruct (finishes (d, e)) eqn:Ef; [lia |]. destruct (step_stock _ _ _ _ o E Ef) as (n1 & G1 & S1).
  destruct (IH _ _ Hr Hz) as (n2 & G2 & S2). exists (n1 ++ n2). by rewrite G2, S2, G1, S1, !app_assoc.
Qed.

(** A copy that ends: the handler ends with it when it wrote nothing, and the other direction loses what its
    copy holds. *)
Lemma finish_loses d h h' : handler_step d Finish h = Some h' ->
  (h_ended h' = true <-> p_count (pipe_of d h) = 0) /\
  p_dst (pipe_of (other d) h') = p_dst (pipe_of (other d) h) /\ p_given (pipe_of (other d) h') = p_given (pipe_of (other d) h) /\
  stock (pipe_of (other d) h') = p_dst (pipe_of (other d) h) ++ p_src (pipe_of (other d) h).
Proof.
  intros Hs. destruct (step_round _ _ _ _ Hs eq_refl) as (_ & r & -> & HF & _). destruct (HF eq_refl) as (_ & _ & _ & ->).
  rewrite pipe_of_copied. split_and!; try done. cbn. destruct (Z.eqb_spec (p_count (pipe_of d h)) 0); naive_solver.
Qed.

(** Closing one direction when the other has something to move. *)
Lemma half_close_run d l : (length l <= DUPLEX_BUFFER)%nat ->
  exists h, handler_run [(other d, Give l); (d, Close)] handler_init = Some h /\
    p_eof (pipe_of (other d) h) = false /\ p_src (pipe_of (other d) h) = l /\ is_Some (handler_step d Finish h) /\
    p_count (pipe_of d h) = 0.
Proof.
  intros Hl. destruct d; cbn [other handler_run]; unfold handler_step at 1; cbn -[Nat.leb DUPLEX_BUFFER];
    rewrite ?(proj2 (Nat.leb_le _ _) Hl); cbn -[DUPLEX_BUFFER]; (eexists; split; [reflexivity |]); split_and!; try done; by eexists.
Qed.

(** The copy of the other direction can hold bytes when a copy finishes: towards the network while the socket
    takes nothing, towards the application while its duplex is full. *)
Definition stuck (d : direction) (before a : list byte) : list (direction * pipe_event) :=
  [(other d, Give (before ++ a));
   (other d, Copy (length (before ++ a)) (length before)); (d, Give [x2a]); (d, Close); (d, Copy 1 1)].

Definition held_back (d : direction) (before a : list byte) : Prop :=
  (0 < length a)%nat /\
  match d with
  | FromApplication => length before = DUPLEX_BUFFER /\ zlen (before ++ a) <= COPY_BUFFER
  | FromNetwork => before = [] /\ (length a <= DUPLEX_BUFFER)%nat
  end.

Lemma stuck_run d before a : held_back d before a ->
  exists h, handler_run (stuck d before a) handler_init = Some h /\
    p_dst (pipe_of (other d) h) = before /\ p_buf (pipe_of (other d) h) = a /\ p_src (pipe_of (other d) h) = [] /\
    p_count (pipe_of d h) = 1 /\ is_Some (handler_step d Finish h).
Proof.
  intros [Ha Hd]. unfold stuck. cbn [handler_run]. destruct d; cbn [other].
  - destruct Hd as [-> Hd]. cbn [app]. unfold handler_step at 1. cbn -[Nat.leb take drop].
    rewrite (proj2 (Nat.leb_le _ _)) by done. cbn -[Nat.leb take drop]. unfold handler_step at 1. cbn -[take drop].
    rewrite decide_True.
    2: { unfold copies, copy_buffer, zlen, COPY_BUFFER, DUPLEX_BUFFER in *. cbn -[take Nat.sub Z.to_nat] in *. rewrite firstn_all.
         split_and!; lia. }
    cbn -[take drop]. unfold copy_buffer. cbn -[take drop]. rewrite firstn_all, drop_all.
    eexists. split; [reflexivity |]. by split_and!.
  - destruct Hd as [Hb Hz]. unfold handler_step at 1. cbn -[take drop length]. unfold handler_step at 1. cbn -[take drop length].
    rewrite decide_True.
    2: { unfold copies, copy_buffer, duplex_room. cbn [p_buf p_src p_dst p_taken app]. rewrite firstn_all. split_and!; try done.
         rewrite length_app. cbn [length]. unfold DUPLEX_BUFFER in *. lia. }
    cbn -[take drop length]. unfold copy_buffer. cbn -[take drop length]. rewrite firstn_all, drop_all, take_app_length, drop_app_length.
    eexists. split; [reflexivity |]. by split_and!.
Qed.

(** C35.  What the handler loses without an error, exactly, in either direction [d] and any state.  A copy that
    finishes without having written anything ends the handler: whatever the other direction has not
    delivered by then is never delivered, although its sender has not closed.  A copy that finishes with bytes
    lets the handler go on, and tears a hole into the other direction: just what its dropped copy had read
    and not written is missing from what is delivered from then on.  Both happen: the first when one side
    closes before the other's bytes are moved; the second when the socket takes nothing, or when the
    application has 64 bytes unread. *)
Theorem handler_loses_bytes d :
  (forall h h', handler_step d Finish h = Some h' ->
     (p_count (pipe_of d h) = 0 -> h_ended h' = true /\
        forall es' h'', handler_run es' h' = Some h'' -> p_dst (pipe_of (other d) h'') = p_dst (pipe_of (other d) h)) /\
     (p_count (pipe_of d h) <> 0 -> h_ended h' = false /\
        forall es' h'', handler_run es' h' = Some h'' -> rounds es' = 0%nat ->
          exists new, p_given (pipe_of (other d) h'') = p_given (pipe_of (other d) h) ++ new /\
            stock (pipe_of (other d) h'') = p_dst (pipe_of (other d) h) ++ p_src (pipe_of (other d) h) ++ new)) /\
  (forall l, (length l <= DUPLEX_BUFFER)%nat -> exists es h, handler_run es handler_init = Some h /\
     p_src (pipe_of (other d) h) = l /\ p_eof (pipe_of (other d) h) = false /\
     is_Some (handler_step d Finish h) /\ p_count (pipe_of d h) = 0) /\
  (forall before a, held_back d before a -> exists es h, handler_run es handler_init = Some h /\
     p_dst (pipe_of (other d) h) = before /\ p_buf (pipe_of (other d) h) = a /\
     is_Some (handler_step d Finish h) /\ p_count (pipe_of d h) <> 0).
Proof.
  split_and!.
  - intros h h' Hs. destruct (finish_loses _ _ _ Hs) as (He & Hd & Hg & Hst). split; intros Hc.
    + split; [by apply He |]. intros es' h'' Hr. rewrite <- Hd. eapply ended_delivers_nothing; [by apply He | exact Hr].
    + split; [destruct (h_ended h'); [by destruct Hc; apply He | done] |]. intros es' h'' Hr Hz.
      destruct (run_stock (other d) _ _ _ Hr Hz) as (new & G & S). exists new. by rewrite G, S, Hg, Hst, app_assoc.
  - intros l Hl. destruct (half_close_run d l Hl) as (h & Hr & H1 & H2 & H3 & H4). eexists _, h. by split_and!.
  - intros before a Hb. destruct (stuck_run d before a Hb) as (h & Hr & H1 & H2 & _ & H3 & H4). eexists _, h.
    split_and!; [exact Hr | done | done | done | by rewrite H3].
Qed.

Module HandlerWitnesses.

Lemma handler_terminates_witness :
  (rounds [(FromNetwork, Give [x2a]); (FromNetwork, Close)] <= 3)%nat /\
  exists es' h', handler_run es' (mkHandler (mkPipe [x2a] [x2a] true [] 0 [] 0) pipe_init false) = Some h' /\
    h_ended h' = true /\ (rounds es' <= 2)%nat.
Proof.
  assert (Hr : handler_run [(FromNetwork, Give [x2a]); (FromNetwork, Close)] handler_init =
            Some (mkHandler (mkPipe [x2a] [x2a] true [] 0 [] 0) pipe_init false)) by reflexivity.
  destruct (handler_terminates _ _ Hr) as (H1 & _ & H2). split; [exact H1 | exact (H2 FromNetwork eq_refl eq_refl)].
Defined.

Lemma handler_loses_bytes_witness : exists es h, handler_run es handler_init = Some h /\
  p_src (pipe_of (other FromNetwork) h) = [x2a] /\ p_eof (pipe_of (other FromNetwork) h) = false /\
  is_Some (handler_step FromNetwork Finish h) /\ p_count (pipe_of FromNetwork h) = 0.
Proof.
  destruct (handler_loses_bytes FromNetwork) as (_ & H & _). apply (H [x2a]). unfold DUPLEX_BUFFER. cbn. lia.
Defined.

Lemma handler_delivers_witness :
  let es := [(FromApplication, Give [x2a; x2b]); (FromApplication, Copy 2 1)] in
  exists h, handler_run es handler_init = Some h /\ p_dst (h_application h) `sublist_of` p_given (h_application h) /\
    p_dst (h_application h) ++ p_buf (h_application h) ++ p_src (h_application h) = [x2a; x2b].
Proof.
  intros es. eexists. split; [reflexivity |].
  destruct (handler_delivers es _ FromApplication eq_refl) as (H1 & _ & H2 & _). split; [exact H1 | exact (H2 eq_refl)].
Defined.

End HandlerWitnesses.
