(* ===== verification/System.v ===== *)
(** The node as a whole: the manager, its event loop, the handshakes and the connection handlers,
    interleaved.

    [sys_exec c s] is one step: [c] says who moves and what the outside answers.  Tasks step one
    access at a time, in any order (the runtime is multi-threaded); the network may answer anything,
    and the presence messages may come from anybody.  [reachable] closes the steps over the initial
    system; the theorems about all reachable systems hold for every schedule and every network. *)

From Stdlib Require Import ZArith Lia.
From Stdlib Require Import Strings.Byte.
From stdpp Require Import base tactics numbers option list strings gmap.
From S2P Require Import Prelude RustStd SockAddr Errors Pairing Peer Proto Handshake Manager.

Section System.
Context {C : CryptoLib}.

(** ** One step of a task *)

(** What the outside answers to the step. *)
Inductive answer : Type :=
| AnsNone
| AnsOrder (l : list SocketAddr)
| AnsTcp (r : Result io_Error Z)
| AnsNow (now : Z)
| AnsSend (r : Result ParseError unit)
| AnsNext (r : panicking Recv).

(** What a step spawns. *)
Inductive spawn : Type :=
| SpHandler (id : PeerId) (conn : Z)
| SpAccept (conn : Z).

(** The rest of the task, the manager, what the step adds to the task's history, what it spawns. *)
Definition task_step {A} (ans : answer) (t : task A) (m : P2pManager)
  : option (task A * P2pManager * list act * list spawn) :=
  match t with
  | TRet _ | TPanic => None
  | TMgr o k => '(x, m') ← mop_step o m; Some (k x, m', [], [])
  | TOrder s k =>
      match ans with
      | AnsOrder l => if decide (NoDup l /\ list_to_set l = s) then Some (k l, m, [], []) else None
      | _ => None
      end
  | TTcp addr k => match ans with AnsTcp r => Some (k r, m, [], []) | _ => None end
  | THs p k =>
      match p with
      | HRet x => Some (k x, m, [], [])
      | HPanic => Some (TPanic, m, [], [])
      | HNow kk => match ans with AnsNow now => Some (THs (kk now) k, m, [ANow now], []) | _ => None end
      | HSend msg kk => match ans with AnsSend r => Some (THs (kk r) k, m, [ASend msg r], []) | _ => None end
      | HNext kk => match ans with AnsNext r => Some (THs (kk r) k, m, [ANext r], []) | _ => None end
      | HCandidate id kk =>
          Some (c ← get_peer_candidate id; TNote (ACandidate id c) (THs (kk c) k), m, [], [])
      | HSpawn id conn p' => Some (THs p' k, m, [ASpawn id conn], [SpHandler id conn])
      end
  | TNote a k => Some (k, m, [a], [])
  | TSpawnAccept conn k => Some (k, m, [], [SpAccept conn])
  end.

(** ** The system *)

(** A task with the interactions of its handshake so far. *)
Record trec := mkTrec { t_hist : list act; t_prog : task unit }.

(** The event loop: waiting in its [select!], in the middle of a round, or ended. *)
Inductive loop_state : Type :=
| LoopIdle
| LoopBusy (t : task LoopCtl)
| LoopStopped.

Record system := mkSystem {
  s_mgr : P2pManager;
  s_loop : loop_state;
  s_tasks : list trec;
  (** The handlers that are still copying, by peer and connection. *)
  s_handlers : list (PeerId * Z)
}.

(** Who moves. *)
Inductive command : Type :=
(** The application calls a method. *)
| CAddKnown (c : PeerCandidate)
| CConnect (id : PeerId)
| CRequestPresence
(** A task steps. *)
| CTask (i : nat) (ans : answer)
(** The event loop receives, steps, ends a round. *)
| CLoopEvent (ev : LoopEvent)
| CLoop
| CLoopEnd
(** A handler's [select!] returns. *)
| CHandler (i : nat) (r : Result io_Error Z)
(** The application, the discovery task take a value from their channel. *)
| CAppRecv
| CDiscoveryRecv
(** The discovery task ends, and with it its end of the channel. *)
| CDiscoveryEnd.

Definition run_spawn (me : PeerId) (sp : list spawn) (s : system) : system :=
  foldl (fun s x => match x with
    | SpHandler id conn => mkSystem (s_mgr s) (s_loop s) (s_tasks s) (s_handlers s ++ [(id, conn)])
    | SpAccept conn => mkSystem (s_mgr s) (s_loop s) (s_tasks s ++ [mkTrec [] (accept_task me conn)]) (s_handlers s)
    end) s sp.

Definition spawn_task (t : task unit) (s : system) : system :=
  mkSystem (s_mgr s) (s_loop s) (s_tasks s ++ [mkTrec [] t]) (s_handlers s).

Definition set_mgr (m : P2pManager) (s : system) : system :=
  mkSystem m (s_loop s) (s_tasks s) (s_handlers s).
Definition set_loop (l : loop_state) (s : system) : system :=
  mkSystem (s_mgr s) l (s_tasks s) (s_handlers s).

Definition sys_exec (me : PeerId) (c : command) (s : system) : option system :=
  match c with
  | CAddKnown c => Some (spawn_task (add_known_peer c) s)
  | CConnect id => Some (spawn_task (_ ← connect_to_peer me id; mret tt) s)
  | CRequestPresence => Some (spawn_task request_presence s)
  | CTask i ans =>
      r ← s_tasks s !! i;
      '(t, m, h, sp) ← task_step ans (t_prog r) (s_mgr s);
      Some (run_spawn me sp
        (mkSystem m (s_loop s) (<[i := mkTrec (t_hist r ++ h) t]> (s_tasks s)) (s_handlers s)))
  | CLoopEvent ev =>
      match s_loop s with
      | LoopIdle => Some (set_loop (LoopBusy (p2p_event_loop_body me ev)) s)
      | _ => None
      end
  | CLoop =>
      match s_loop s with
      | LoopBusy t =>
          '(t', m, _, sp) ← task_step AnsNone t (s_mgr s);
          Some (run_spawn me sp (mkSystem m (LoopBusy t') (s_tasks s) (s_handlers s)))
      | _ => None
      end
  | CLoopEnd =>
      match s_loop s with
      | LoopBusy (TRet Continue) => Some (set_loop LoopIdle s)
      | LoopBusy (TRet Break) => Some (set_loop LoopStopped s)
      | LoopBusy TPanic => Some (set_loop LoopStopped s)
      | _ => None
      end
  | CHandler i r =>
      '(id, _) ← s_handlers s !! i;
      match handler_body r with
      | Continue => Some s
      | Break => Some (spawn_task (peer_disconnected id)
                         (mkSystem (s_mgr s) (s_loop s) (s_tasks s) (delete i (s_handlers s))))
      end
  | CAppRecv =>
      '(_, c) ← chan_recv (app_channel (s_mgr s));
      Some (set_mgr (set_app_channel c (s_mgr s)) s)
  | CDiscoveryRecv =>
      '(_, c) ← chan_recv (discovery_channel (s_mgr s));
      Some (set_mgr (set_discovery_channel c (s_mgr s)) s)
  | CDiscoveryEnd =>
      Some (set_mgr (set_discovery_channel (drop_receiver (discovery_channel (s_mgr s))) (s_mgr s)) s)
  end.

(** The acceptances a step spawns, and the tasks they become. *)
Definition accepted (sp : list spawn) : list Z :=
  omap (fun x => match x with SpAccept conn => Some conn | SpHandler _ _ => None end) sp.

Definition accepting (me : PeerId) (l : list Z) : list trec := (fun conn => mkTrec [] (accept_task me conn)) <$> l.

Lemma run_spawn_spec me sp : forall s,
  s_mgr (run_spawn me sp s) = s_mgr s /\ s_loop (run_spawn me sp s) = s_loop s /\
  s_tasks (run_spawn me sp s) = s_tasks s ++ accepting me (accepted sp).
Proof.
  induction sp as [|x sp IH]; intros s; [by rewrite app_nil_r |]. destruct x as [id conn|conn].
  - exact (IH (mkSystem (s_mgr s) (s_loop s) (s_tasks s) (s_handlers s ++ [(id, conn)]))).
  - destruct (IH (spawn_task (accept_task me conn) s)) as (Hm & Hl & Ht).
    split_and!; [exact Hm | exact Hl |]. etrans; [exact Ht |]. cbn. by rewrite <- app_assoc.
Qed.

(** Several steps. *)
Fixpoint sys_run (me : PeerId) (cs : list command) (s : system) : option system :=
  match cs with
  | [] => Some s
  | c :: cs' => s' ← sys_exec me c s; sys_run me cs' s'
  end.

(** A new manager, before anything happened. *)
Definition manager_init (metadata : PeerMetadata) : P2pManager :=
  mkP2pManager (pm_id metadata) metadata ∅ ∅ ∅ (channel_bounded 1024) channel_unbounded channel_unbounded.

Definition system_init (metadata : PeerMetadata) : system :=
  mkSystem (manager_init metadata) LoopIdle [] [].

(** ** What the application is trusted with *)

(** [Paired id a]: the application paired with [id] and holds authenticator [a] for it. *)
Section Invariant.
Context (me : PeerId) (Paired : PeerId -> PairingAuthenticator -> Prop).

(** A candidate for [id]: stored under its own id, with the authenticator of the pairing. *)
Definition cand_ok (id : PeerId) (c : PeerCandidate) : Prop :=
  pc_id c = id /\ pm_id (pc_metadata c) = id /\ Paired id (pc_auth c).

(** The application registers only its pairings. *)
Definition command_ok (c : command) : Prop :=
  match c with CAddKnown c => cand_ok (pc_id c) c | _ => True end.

Inductive reachable (metadata : PeerMetadata) : system -> Prop :=
| reachable_init : reachable metadata (system_init metadata)
| reachable_step c s s' : reachable metadata s -> command_ok c -> sys_exec me c s = Some s' ->
    reachable metadata s'.

(** The history [h] contains a completed handshake with [id], as the host or as the client, under
    the pairing code of [id]. *)
Definition authenticated (id : PeerId) (h : list act) : Prop :=
  exists conn c now code before after,
    cand_ok id c /\ PairingAuthenticator_generate (pc_auth c) now = Ok code /\
    (h = before ++ accept_trace me conn id c now code ++ after \/
     h = before ++ connect_trace me conn c now code ++ after).

End Invariant.
End System.

(** ** Evaluating runs of the system *)

Create Rewrite HintDb sys.

(** Access to concrete lists, as rewrite rules. *)
Lemma list_get_0 {A} (x : A) l : (x :: l) !! O = Some x.
Proof. done. Qed.
Lemma list_get_S {A} (x : A) l i : (x :: l) !! S i = l !! i.
Proof. done. Qed.
Lemma list_set_0 {A} (x y : A) l : <[O := y]> (x :: l) = y :: l.
Proof. done. Qed.
Lemma list_set_S {A} (x y : A) l i : <[S i := y]> (x :: l) = x :: <[i := y]> l.
Proof. done. Qed.
Lemma list_del_0 {A} (x : A) l : delete O (x :: l) = l.
Proof. done. Qed.
Lemma not_in_empty (id : PeerId) `{D : !Decision (id ∈ (∅ : gset PeerId))} : bool_decide (id ∈ (∅ : gset PeerId)) = false.
Proof. by apply bool_decide_eq_false_2. Qed.
Lemma not_Some_None {A} `{D : !Decision (is_Some (@None A))} : bool_decide (is_Some (@None A)) = false.
Proof. by apply bool_decide_eq_false_2; intros [? ?]. Qed.
#[export] Hint Rewrite @list_get_0 @list_get_S @list_set_0 @list_set_S @list_del_0 @not_in_empty @not_Some_None : sys.

(** Evaluates a run of the system, using the context for what the programs compute. *)
Ltac sys_go :=
  repeat (progress (
    cbn -[hmac_sign hmac_verify PairingAuthenticator_generate PeerId_bytes PeerId_eqb TIMEOUT_ERR NOT_FOUND_ERR AUTH_ERR
          lookup insert delete union difference bool_decide];
    autorewrite with sys; rewrite ?hmac_verify_sign, ?lookup_empty, ?lookup_delete_eq, ?lookup_insert_eq;
    repeat match goal with
    | E : PairingAuthenticator_generate _ _ = _ |- _ => rewrite !E
    | E : PeerId_eqb _ _ = _ |- _ => rewrite !E
    end)).
