(* ===== verification/TaskLogic.v ===== *)
(** Invariants of programs and of the node, once and for all.

    A [Discipline] says what a program may do at an access, given the interactions of its handshake so
    far, and what it may rely on in the answer; its laws say that the accesses then keep an invariant of
    the manager.  [ok_task] closes the discipline over a program; [task_step_ok] is preservation by one
    step, whoever steps in between, and [node_inv_step] preservation by any step of the node.
    SystemTheorems.v and Typing.v are two instances. *)

From Stdlib Require Import ZArith Lia.
From Stdlib Require Import Strings.Byte.
From stdpp Require Import base tactics numbers option list strings gmap.
From S2P Require Import Prelude RustStd SockAddr Errors Pairing Peer Proto Handshake HandshakeFacts.
From S2P Require Import Manager System.

Class Discipline `{CryptoLib} := {
  (** The manager's invariant. *)
  d_inv : P2pManager -> Prop;
  (** What an access needs after a history, and what its answer satisfies. *)
  d_pre : forall {X}, list act -> mop X -> Prop;
  d_post : forall {X}, mop X -> X -> Prop;
  (** What the candidates a handshake was given satisfy. *)
  d_cand : PeerId -> PeerCandidate -> Prop;
  (** The manager counts the id as connected, or says so. *)
  d_claims : P2pManager -> PeerId -> Prop;
  (** The history entitles a task to treat the id as connected. *)
  d_spawn : list act -> PeerId -> Prop
}.

(** The candidate [get_peer_candidate] gives. *)
Definition either {A} (d k : option A) : option A := match d with Some c => Some c | None => k end.

Class DisciplineLaws `{CryptoLib} (D : Discipline) : Prop := {
  d_step : forall X h (o : mop X) m x m', d_inv m -> d_pre h o -> mop_step o m = Some (x, m') ->
    d_inv m' /\ d_post o x /\ forall id, d_claims m' id -> d_claims m id \/ d_spawn h id;
  d_spawn_nil : forall id, ~ d_spawn [] id;
  d_spawn_app : forall h h' id, d_spawn h id -> d_spawn (h ++ h') id;
  d_reads : forall h id, d_pre h (DiscoveredGet id) /\ d_pre h (KnownGet id);
  d_found : forall id d k c, d_post (DiscoveredGet id) d -> d_post (KnownGet id) k ->
    either d k = Some c -> d_cand id c
}.

Section TaskLogic.
Context {C : CryptoLib} {D : Discipline} {DL : DisciplineLaws D}.

Definition act_ok (a : act) : Prop :=
  match a with ACandidate id (Some c) => d_cand id c | _ => True end.

(** Every access the program [t] can come to make after history [h] is one it may make. *)
Fixpoint ok_task {A} (h : list act) (t : task A) : Prop :=
  match t with
  | TRet _ | TPanic => True
  | TMgr o k => d_pre h o /\ forall x, d_post o x -> ok_task h (k x)
  | TOrder s k => forall l, ok_task h (k l)
  | TTcp addr k => forall r, ok_task h (k r)
  | THs p k =>
      (forall t1 id conn t2 o, runs p (t1 ++ ASpawn id conn :: t2) o -> Forall act_ok t1 ->
         d_spawn (h ++ t1 ++ [ASpawn id conn]) id) /\
      (forall t' x, runs p t' (Val x) -> Forall act_ok t' -> ok_task (h ++ t') (k x))
  | TNote a k => act_ok a /\ ok_task (h ++ [a]) k
  | TSpawnAccept conn k => ok_task h k
  end.

Lemma ok_task_bind {A B} (t : task A) (f : A -> task B) : forall h,
  ok_task h t -> (forall h a, ok_task h (f a)) -> ok_task h (t ≫= f).
Proof.
  unfold mbind, task_bind.
  induction t as [a0| |X o k IH|s k IH|addr k IH|X p k IH|a0 k IH|conn k IH]; intros h Ht Hf; cbn in *; eauto.
  - destruct Ht as [Ho Ht]. split; [done |]. intros x Hx. eauto.
  - destruct Ht as [Hs Ht]. split; [done |]. intros t' x Hr Ha. eauto.
  - destruct Ht. eauto.
Qed.

(** What a step spawns is allowed. *)
Definition spawn_ok (h : list act) (sp : spawn) : Prop :=
  match sp with SpHandler id conn => d_spawn h id | SpAccept _ => True end.

Lemma hs_some_run {A} (p : hs A) : exists t o, runs p t o.
Proof.
  pose (e := mkEnv (fun _ => 0) (fun _ _ => Ok tt) (fun _ => Panic) (fun _ _ => None)).
  destruct (hs_exec_runs e p []) as [Hr _]. eauto.
Qed.

(** One interaction of a handshake. *)
Lemma ok_task_act {A X} h a (p p' : hs X) (k : X -> task A) :
  (forall t o, runs p' t o -> runs p (a :: t) o) -> act_ok a ->
  ok_task h (THs p k) -> ok_task (h ++ [a]) (THs p' k).
Proof.
  intros Hp Ha [Hs Ht]. split.
  - intros t1 id conn t2 o Hr H1. rewrite <- app_assoc. apply (Hs (a :: t1) id conn t2 o); [by apply Hp | by constructor].
  - intros t' x Hr H1. rewrite <- app_assoc. apply (Ht (a :: t') x); [by apply Hp | by constructor].
Qed.

Lemma task_step_ok {A} h ans (t : task A) m t' m' h' sp :
  d_inv m -> ok_task h t -> task_step ans t m = Some (t', m', h', sp) ->
  d_inv m' /\ ok_task (h ++ h') t' /\
  (forall id, d_claims m' id -> d_claims m id \/ d_spawn h id) /\
  Forall (spawn_ok (h ++ h')) sp /\ Forall act_ok h'.
Proof.
  intros Hm Ht Hs.
  destruct t as [a| |X o k|s k|addr k|X p k|a k|conn k]; cbn in Hs; try done.
  - destruct (mop_step o m) as [[x m1]|] eqn:E; cbn in Hs; [| done]. simplify_eq. destruct Ht as [Ho Ht].
    destruct (d_step X h o m x m' Hm Ho E) as (Hm' & Hx & Hc). rewrite app_nil_r. split_and!; auto.
  - destruct ans; try done. case_decide; simplify_eq. rewrite app_nil_r. split_and!; auto.
  - destruct ans; try done. simplify_eq. rewrite app_nil_r. split_and!; auto.
  - destruct Ht as [Hspawn Ht]. destruct p as [x| |kk|msg kk|kk|id kk|id conn p'].
    + simplify_eq. rewrite app_nil_r. split_and!; auto. rewrite <- (app_nil_r h). apply Ht; constructor.
    + simplify_eq. rewrite app_nil_r. cbn. split_and!; auto.
    + destruct ans; try done. simplify_eq. split_and!; auto; [| by repeat constructor].
      by apply (ok_task_act h (ANow now) (HNow kk)); [constructor | |].
    + destruct ans; try done. simplify_eq. split_and!; auto; [| by repeat constructor].
      by apply (ok_task_act h (ASend msg r) (HSend msg kk)); [constructor | |].
    + destruct ans; try done. simplify_eq. split_and!; auto; [| by repeat constructor].
      by apply (ok_task_act h (ANext r) (HNext kk)); [constructor | |].
    + simplify_eq. rewrite app_nil_r. split_and!; auto. cbn. destruct (d_reads h id) as [Hd Hk].
      split; [done |]. intros d Hpd. split; [done |]. intros kn Hpk.
      assert (Ha : act_ok (ACandidate id (either d kn))).
      { cbn. destruct (either d kn) as [c|] eqn:E; [| done]. by eapply d_found. }
      split; [exact Ha |]. by apply (ok_task_act h (ACandidate id _) (HCandidate id kk)); [constructor | |].
    + simplify_eq. split_and!; auto.
      * by apply (ok_task_act h (ASpawn id conn) (HSpawn id conn p')); [constructor | |].
      * destruct (hs_some_run p') as (t2 & o & Hr). repeat constructor.
        apply (Hspawn [] id conn t2 o); [by constructor | constructor].
      * by repeat constructor.
  - simplify_eq. destruct Ht. split_and!; auto.
  - simplify_eq. rewrite app_nil_r. split_and!; auto. by repeat constructor.
Qed.

(** A program of the event loop runs no handshake of its own. *)
Fixpoint plain {A} (t : task A) : Prop :=
  match t with
  | TRet _ | TPanic => True
  | TMgr o k => forall x, plain (k x)
  | TOrder s k => forall l, plain (k l)
  | TTcp addr k => forall r, plain (k r)
  | THs _ _ | TNote _ _ => False
  | TSpawnAccept conn k => plain k
  end.

Lemma plain_event_loop me ev : plain (p2p_event_loop_body me ev).
Proof.
  destruct ev as [[[[|peer] addr]|]|[[]|]|[[conn addr]|e]]; try done.
  - cbn. by intros md [].
  - cbn. destruct (PeerId_eqb _ _); [done |]. cbn. intros []; [done |]. intros []; [done |]. intros [known|]; [| done].
    cbn. by intros [] [] [].
Qed.

Lemma plain_step {A} ans (t : task A) m t' m' h sp : plain t -> task_step ans t m = Some (t', m', h, sp) ->
  plain t' /\ h = [] /\ Forall (fun x => match x with SpHandler _ _ => False | SpAccept _ => True end) sp.
Proof.
  destruct t as [a| |X o k|s k|addr k|X p k|a k|conn k]; cbn; intros Hp Hs; try done.
  - destruct (mop_step o m) as [[x m1]|]; cbn in Hs; [| done]. simplify_eq. split_and!; [apply Hp | done | constructor].
  - destruct ans; try done. case_decide; simplify_eq. split_and!; [apply Hp | done | constructor].
  - destruct ans; try done. simplify_eq. split_and!; [apply Hp | done | constructor].
  - simplify_eq. split_and!; [done | done | by repeat constructor].
Qed.

(** ** The system *)

(** Some task is entitled to the connection. *)
Definition justified (ts : list trec) (id : PeerId) : Prop := exists r, r ∈ ts /\ d_spawn (t_hist r) id.

Definition node_inv (s : system) : Prop :=
  d_inv (s_mgr s) /\
  (forall id, d_claims (s_mgr s) id -> justified (s_tasks s) id) /\
  (forall r, r ∈ s_tasks s -> ok_task (t_hist r) (t_prog r) /\ Forall act_ok (t_hist r)) /\
  (forall id conn, (id, conn) ∈ s_handlers s -> justified (s_tasks s) id) /\
  match s_loop s with LoopBusy t => ok_task [] t /\ plain t | _ => True end.

Lemma justified_app ts ts' id : justified ts id -> justified (ts ++ ts') id.
Proof. intros (r & Hr & Ha). exists r. split; [| done]. apply elem_of_app. by left. Qed.

(** Extending the history of one task. *)
Lemma justified_insert ts i r h t id : ts !! i = Some r -> justified ts id ->
  justified (<[i := mkTrec (t_hist r ++ h) t]> ts) id.
Proof.
  intros Hi (r' & Hr & Ha). apply list_elem_of_lookup in Hr as [j Hj].
  destruct (decide (i = j)) as [<-|Hne].
  - simplify_eq. exists (mkTrec (t_hist r ++ h) t). split; [| by apply d_spawn_app]. apply list_elem_of_lookup. exists i.
    rewrite list_lookup_insert_eq by (by eapply lookup_lt_Some). done.
  - exists r'. split; [| done]. apply list_elem_of_lookup. exists j. by rewrite list_lookup_insert_ne.
Qed.

Lemma node_inv_spawn_task s t : node_inv s -> ok_task [] t -> node_inv (spawn_task t s).
Proof.
  intros (Hm & Hc & Ht & Hh & Hl) Hok. split_and!; cbn; auto using justified_app.
  - intros r [Hr|Hr%list_elem_of_singleton]%elem_of_app; [by apply Ht | subst; by split].
  - intros id conn Hin. apply justified_app. by eapply Hh.
Qed.

End TaskLogic.

(** What the methods of a node must satisfy, for the inputs [input]. *)
Class NodeLaws `{CryptoLib} (D : Discipline) (me : PeerId) (input : command -> Prop) : Prop := {
  n_add : forall c, input (CAddKnown c) -> ok_task [] (add_known_peer c);
  n_connect : forall id, ok_task [] (_ ← connect_to_peer me id; mret tt);
  n_request : ok_task [] request_presence;
  n_accept : forall conn, ok_task [] (accept_task me conn);
  n_disconnected : forall id, ok_task [] (peer_disconnected id);
  n_event : forall ev, input (CLoopEvent ev) -> ok_task [] (p2p_event_loop_body me ev);
  n_app_recv : forall m x c, chan_recv (app_channel m) = Some (x, c) -> d_inv m ->
    d_inv (set_app_channel c m) /\ forall id, d_claims (set_app_channel c m) id -> d_claims m id;
  n_discovery_recv : forall m x c, chan_recv (discovery_channel m) = Some (x, c) -> d_inv m ->
    d_inv (set_discovery_channel c m) /\ forall id, d_claims (set_discovery_channel c m) id -> d_claims m id;
  n_discovery_end : forall m, d_inv m -> let m' := set_discovery_channel (drop_receiver (discovery_channel m)) m in
    d_inv m' /\ forall id, d_claims m' id -> d_claims m id
}.

Section NodeLogic.
Context {C : CryptoLib} {D : Discipline} {DL : DisciplineLaws D}.
Context {me : PeerId} {input : command -> Prop} {NL : NodeLaws D me input}.

Lemma node_inv_run_spawn sp : forall s, node_inv s ->
  Forall (fun x => match x with SpHandler id _ => justified (s_tasks s) id | SpAccept _ => True end) sp ->
  node_inv (run_spawn me sp s).
Proof.
  unfold run_spawn. induction sp as [|x sp IH]; intros s Hs Hsp; [done |]. apply Forall_cons in Hsp as [Hx Hsp]. cbn.
  destruct x as [id conn|conn]; apply IH.
  - destruct Hs as (Hm & Hc & Ht & Hh & Hl). split_and!; cbn; auto.
    intros id' conn' [Hin|Hin%list_elem_of_singleton]%elem_of_app; [by eapply Hh | by simplify_eq].
  - done.
  - by apply (node_inv_spawn_task s (accept_task me conn)); [| apply n_accept].
  - eapply Forall_impl; [exact Hsp |]. intros [id' ?|]; [| done]. cbn. apply justified_app.
Qed.

Lemma node_inv_task s i ans r t m h sp :
  node_inv s -> s_tasks s !! i = Some r -> task_step ans (t_prog r) (s_mgr s) = Some (t, m, h, sp) ->
  node_inv (run_spawn me sp (mkSystem m (s_loop s) (<[i := mkTrec (t_hist r ++ h) t]> (s_tasks s)) (s_handlers s))).
Proof.
  intros (Hm & Hc & Ht & Hh & Hl) Hi Hs.
  assert (Hr : r ∈ s_tasks s) by (by eapply list_elem_of_lookup_2).
  destruct (task_step_ok _ _ _ _ _ _ _ _ Hm (proj1 (Ht r Hr)) Hs) as (Hm' & Ht' & Hc' & Hsp & Hact).
  assert (Hnew : mkTrec (t_hist r ++ h) t ∈ <[i := mkTrec (t_hist r ++ h) t]> (s_tasks s)).
  { apply list_elem_of_lookup. exists i. by rewrite list_lookup_insert_eq by (by eapply lookup_lt_Some). }
  apply node_inv_run_spawn.
  - split_and!; cbn; auto.
    + intros id [Hin|Hn]%Hc'; [by apply justified_insert, Hc |]. eexists. split; [exact Hnew |]. by apply d_spawn_app.
    + intros r' [j Hj]%list_elem_of_lookup. destruct (decide (i = j)) as [<-|Hne].
      * rewrite list_lookup_insert_eq in Hj by (by eapply lookup_lt_Some). simplify_eq. split; [done |].
        apply Forall_app. split; [by apply Ht | done].
      * rewrite list_lookup_insert_ne in Hj by done. apply Ht. by eapply list_elem_of_lookup_2.
    + intros id conn Hin. apply justified_insert; [done |]. by eapply Hh.
  - eapply Forall_impl; [exact Hsp |]. intros [id conn|]; [| done]. cbn. intros Ha. eexists. split; [exact Hnew | done].
Qed.

Lemma node_inv_loop s t t' m h sp :
  node_inv s -> s_loop s = LoopBusy t -> task_step AnsNone t (s_mgr s) = Some (t', m, h, sp) ->
  node_inv (run_spawn me sp (mkSystem m (LoopBusy t') (s_tasks s) (s_handlers s))).
Proof.
  intros (Hm & Hc & Ht & Hh & Hl) E Hs. rewrite E in Hl. destruct Hl as [Hok Hp].
  destruct (plain_step _ _ _ _ _ _ _ Hp Hs) as (Hp' & -> & Hsp).
  destruct (task_step_ok _ _ _ _ _ _ _ _ Hm Hok Hs) as (Hm' & Hok' & Hc' & _ & _).
  apply node_inv_run_spawn.
  - split_and!; cbn; auto. intros id [Hin|Ha%d_spawn_nil]%Hc'; [by apply Hc | done].
  - eapply Forall_impl; [exact Hsp |]. by intros [].
Qed.

Lemma node_inv_step c s s' : node_inv s -> input c -> sys_exec me c s = Some s' -> node_inv s'.
Proof.
  intros Hs Hok He. destruct c as [c|id| |i ans|ev| | |i r| | |]; cbn -[connect_to_peer] in He.
  - simplify_eq. apply node_inv_spawn_task; [done |]. by apply n_add.
  - simplify_eq. apply node_inv_spawn_task; [done |]. apply n_connect.
  - simplify_eq. apply node_inv_spawn_task; [done |]. apply n_request.
  - destruct (s_tasks s !! i) as [r|] eqn:Ei; cbn in He; [| done].
    destruct (task_step ans (t_prog r) (s_mgr s)) as [[[[t m] h] sp]|] eqn:Et; cbn in He; [| done].
    simplify_eq. by eapply node_inv_task.
  - destruct (s_loop s) eqn:El; simplify_eq. destruct Hs as (Hm & Hc & Ht & Hh & Hl).
    split; [exact Hm |]. split_and!; cbn -[p2p_event_loop_body]; auto. split; [by apply n_event | apply plain_event_loop].
  - destruct (s_loop s) as [|t|] eqn:El; try done.
    destruct (task_step AnsNone t (s_mgr s)) as [[[[t' m] h] sp]|] eqn:Et; cbn in He; [| done].
    simplify_eq. by eapply node_inv_loop.
  - destruct Hs as (Hm & Hc & Ht & Hh & Hl).
    destruct (s_loop s) as [|[[]| | | | | | |]|]; simplify_eq; by split_and!.
  - destruct (s_handlers s !! i) as [[id conn]|] eqn:Ei; cbn in He; [| done].
    destruct (handler_body r); simplify_eq; [done |]. apply node_inv_spawn_task; [| apply n_disconnected].
    destruct Hs as (Hm & Hc & Ht & Hh & Hl). split_and!; cbn; auto.
    intros id' conn' Hin. eapply Hh. eapply elem_of_submseteq; [exact Hin |]. apply sublist_submseteq, sublist_delete.
  - destruct (chan_recv _) as [[? ch]|] eqn:E in He; cbn in He; [| done]. simplify_eq.
    destruct Hs as (Hm & Hc & Ht & Hh & Hl). destruct (n_app_recv _ _ _ E Hm) as [Hm' Hc'].
    split_and!; cbn; auto.
  - destruct (chan_recv _) as [[? ch]|] eqn:E in He; cbn in He; [| done]. simplify_eq.
    destruct Hs as (Hm & Hc & Ht & Hh & Hl). destruct (n_discovery_recv _ _ _ E Hm) as [Hm' Hc'].
    split_and!; cbn; auto.
  - simplify_eq. destruct Hs as (Hm & Hc & Ht & Hh & Hl). destruct (n_discovery_end _ Hm) as [Hm' Hc'].
    split_and!; cbn; auto.
Qed.

Lemma node_inv_run cs : forall s s', node_inv s -> Forall input cs -> sys_run me cs s = Some s' -> node_inv s'.
Proof.
  induction cs as [|c cs IH]; intros s s' Hs Hi Hr; cbn in Hr; [by simplify_eq |].
  apply Forall_cons in Hi as [Hc Hi]. destruct (sys_exec me c s) as [s1|] eqn:E; cbn in Hr; [| done].
  eapply IH; [by eapply node_inv_step | done | done].
Qed.

Lemma node_inv_init metadata : d_inv (manager_init metadata) -> (forall id, ~ d_claims (manager_init metadata) id) ->
  node_inv (system_init metadata).
Proof. intros Hm Hc. split_and!; cbn; try done; [by intros ? ?%Hc | by intros ? ?%elem_of_nil | by intros ? ? ?%elem_of_nil]. Qed.

End NodeLogic.
