(* ===== verification/SystemTheorems.v ===== *)
(** Properties of the whole node.

    The invariant: whatever the network sends and however the tasks interleave, candidates are
    stored under their own id with the authenticator of the pairing, every connected peer and every
    running handler has a completed handshake behind it, and the node never discovers itself.
    It is a discipline of TaskLogic.v: proved once per access ([mop_step_ok]) and once per program, it
    holds of every reachable system.  The races of the code are shown as reachable systems. *)

From Stdlib Require Import ZArith Lia.
From Stdlib Require Import Strings.Byte.
From stdpp Require Import base tactics numbers option list strings gmap.
From S2P Require Import Prelude RustStd SockAddr Errors Pairing Peer Proto Handshake HandshakeFacts.
From S2P Require Import Manager System TaskLogic Samples.

Section Invariant.
Context {C : CryptoLib} {L : CryptoLaws C}.
Context (me : PeerId) (Paired : PeerId -> PairingAuthenticator -> Prop).
#[local] Abbreviation cand_ok := (cand_ok Paired).
#[local] Abbreviation authenticated := (authenticated me Paired).

(** ** The manager *)

Definition maps_ok (m : P2pManager) : Prop :=
  (forall id c, known_peers m !! id = Some c -> cand_ok id c) /\
  (forall id c, discovered_peers m !! id = Some c -> cand_ok id c /\ id <> me).

(** What a program with history [h] must know before an access, and what it learns from it. *)
Definition mop_ok {X} (h : list act) (o : mop X) : Prop :=
  match o with
  | KnownInsert id c => cand_ok id c
  | DiscoveredInsert id c => cand_ok id c /\ id <> me
  | ConnectedInsert id => authenticated id h
  | AppSend (PeerConnected p) => authenticated (peer_id p) h
  | _ => True
  end.

(** The manager counts [id] as connected, or has told the application so. *)
Definition claimed (m : P2pManager) (id : PeerId) : Prop :=
  id ∈ connected_peers m \/ exists p, peer_id p = id /\ PeerConnected p ∈ ch_queue (app_channel m).

Definition mop_ans {X} (o : mop X) : X -> Prop :=
  match o in mop X return X -> Prop with
  | KnownRemove id | KnownGet id | DiscoveredGet id => fun r => forall c, r = Some c -> cand_ok id c
  | _ => fun _ => True
  end.

Lemma mop_step_maps {X} h (o : mop X) m x m' :
  maps_ok m -> mop_ok h o -> mop_step o m = Some (x, m') -> maps_ok m' /\ mop_ans o x.
Proof.
  intros [Hk Hd] Ho Hs. unfold maps_ok.
  destruct o; cbn in Hs, Ho;
    try (destruct (chan_send _ _) as [[? ?]|] in Hs; cbn in Hs); simplify_eq; cbn;
    (split_and!; try done; try (intros id' c' H'; try (apply lookup_insert_Some in H' as [[<- <-]|[_ H']]);
       try (apply lookup_delete_Some in H' as [_ H']); by eauto)).
  all: intros c Hc; first [by apply Hk | by apply Hd].
Qed.

(** What a send puts into the queue. *)
Lemma elem_of_sent {A} (x y : A) c r c' : chan_send x c = Some (r, c') -> y ∈ ch_queue c' -> y ∈ ch_queue c \/ y = x.
Proof.
  unfold chan_send. destruct (negb _); [intros [= _ <-]; by left | destruct (has_room c); [| done]].
  intros [= _ <-] [?|?%list_elem_of_singleton]%elem_of_app; auto.
Qed.

Lemma mop_step_claims {X} h (o : mop X) m x m' : mop_ok h o -> mop_step o m = Some (x, m') ->
  forall id, claimed m' id -> claimed m id \/ authenticated id h.
Proof.
  intros Ho Hs id Hc. destruct o as [| | | | | | |id'|id'|e|e|]; cbn in Hs, Ho;
    try (destruct (chan_send _ _) as [[r c']|] eqn:E in Hs; cbn in Hs; [| done]); simplify_eq; try (by left);
    destruct Hc as [Hc|(p & <- & Hp)]; cbn in *; try (by left; left); try (left; right; by exists p).
  - apply elem_of_union in Hc as [->%elem_of_singleton|Hc]; [by right | by left; left].
  - left. left. set_solver.
  - destruct (elem_of_sent _ _ _ _ _ E Hp) as [?|<-]; [left; right; by exists p | by right].
Qed.

Lemma mop_step_ok {X} h (o : mop X) m x m' :
  maps_ok m -> mop_ok h o -> mop_step o m = Some (x, m') ->
  maps_ok m' /\ mop_ans o x /\ forall id, claimed m' id -> claimed m id \/ authenticated id h.
Proof. intros Hm Ho Hs. destruct (mop_step_maps h o m x m' Hm Ho Hs). eauto using mop_step_claims. Qed.

Lemma authenticated_app h h' id : authenticated id h -> authenticated id (h ++ h').
Proof.
  intros (conn & c & now & code & before & after & Hc & Hg & [-> | ->]);
    exists conn, c, now, code, before, (after ++ h'); split_and!; try done; [left | right]; by rewrite <- !app_assoc.
Qed.

Lemma authenticated_nil id : ~ authenticated id [].
Proof. intros (conn & c & now & code & before & after & _ & _ & [E | E]); by destruct before. Qed.

(** The discipline of authentication. *)
#[local] Instance auth_discipline : Discipline := {|
  d_inv := maps_ok; d_pre := @mop_ok; d_post := @mop_ans; d_cand := cand_ok;
  d_claims := claimed; d_spawn := fun h id => authenticated id h
|}.

#[local] Instance auth_laws : DisciplineLaws auth_discipline.
Proof.
  split; [exact @mop_step_ok | exact authenticated_nil | exact authenticated_app | done |].
  intros id [c'|] [k|] c Hd Hk E; cbn in *; simplify_eq; auto.
Qed.

(** ** The programs of the node *)

(** A completed acceptance authenticates the id it was asked for; likewise a completed connection. *)
Lemma accept_trace_authenticated h conn id c now code :
  PairingAuthenticator_generate (pc_auth c) now = Ok code ->
  Forall act_ok (accept_trace me conn id c now code) ->
  pm_id (pc_metadata c) = id /\ authenticated id (h ++ accept_trace me conn id c now code).
Proof.
  intros Hg Hf. assert (Hc : cand_ok id c) by by apply Forall_cons in Hf as [_ [? _]%Forall_cons].
  split; [apply Hc |]. exists conn, c, now, code, h, []. rewrite app_nil_r. auto.
Qed.

Lemma connect_trace_authenticated h conn id c now code :
  cand_ok id c -> PairingAuthenticator_generate (pc_auth c) now = Ok code ->
  authenticated id (h ++ connect_trace me conn c now code).
Proof. intros Hc Hg. exists conn, c, now, code, h, []. rewrite app_nil_r. auto. Qed.

Lemma Forall_act_ok_spawn t1 id conn : Forall act_ok t1 -> Forall act_ok (t1 ++ [ASpawn id conn]).
Proof. intros H. apply Forall_app. split; [done |]. by repeat constructor. Qed.

Lemma ok_accept h conn : ok_task h (accept_task me conn).
Proof.
  cbn. split.
  - intros t1 id c t2 o Hr Ha. apply accept_spawn_inv in Hr as (rid & peer & now & code & Hg & E).
    assert (ASpawn id c = ASpawn (pm_id (pc_metadata peer)) conn) as [= -> ->].
    { apply (f_equal last) in E. rewrite last_snoc in E. by injection E as -> ->. }
    apply (Forall_act_ok_spawn _ (pm_id (pc_metadata peer)) conn) in Ha. rewrite E in *.
    destruct (accept_trace_authenticated h conn rid peer now code Hg Ha) as [-> ?]. done.
  - intros t' [p|e] Hr Ha; [| done]. apply accept_runs_Ok in Hr as (id & peer & now & code & Hg & -> & ->).
    destruct (accept_trace_authenticated h conn id peer now code Hg Ha) as [E ?]. cbn. rewrite E.
    split; [done |]. intros [] _. split; [done |]. by intros [] _.
Qed.

Lemma ok_connect_addrs id c addrs : cand_ok id c -> forall h, ok_task h (connect_addrs me id c addrs).
Proof.
  intros Hc. induction addrs as [|a addrs IH]; intros h; [done |]. cbn. intros [conn|e]; [| apply IH]. split.
  - intros t1 id' c' t2 o Hr Ha. apply connect_spawn_inv in Hr as (now & code & Hg & E).
    assert (ASpawn id' c' = ASpawn (pm_id (pc_metadata c)) conn) as [= -> ->].
    { apply (f_equal last) in E. rewrite last_snoc in E. by injection E as -> ->. }
    rewrite E. destruct Hc as (E1 & E2 & Hp). rewrite E2. by apply connect_trace_authenticated.
  - intros t' [p|e] Hr Ha; [| done]. apply connect_runs_Ok in Hr as (now & code & Hg & -> & ->).
    split; [by apply connect_trace_authenticated | done].
Qed.

Lemma ok_connect h id : ok_task h (connect_to_peer me id).
Proof.
  split; [done |]. intros [] _; [done |]. cbn. split; [done |]. intros [c|] Hc; [| done].
  intros l. apply ok_connect_addrs. by apply Hc.
Qed.

Lemma ok_peer_discovered h peer : pm_id peer <> me -> ok_task h (handle_peer_discovered peer).
Proof.
  intros Hne. split; [done |]. intros [] _; [done |]. split; [done |]. intros [] _; [done |].
  split; [done |]. intros [known|] Hk; [| done]. destruct (Hk known eq_refl) as (E1 & E2 & Hp).
  split; [done |]. intros [] _. split; [done |]. intros [] _. split; [done |]. by intros [] _.
Qed.

Lemma ok_event_loop h ev : ok_task h (p2p_event_loop_body me ev).
Proof.
  destruct ev as [[[[|peer] addr]|]|[[]|]|[[conn addr]|e]]; try done.
  - split; [done |]. intros md _. split; [done |]. by intros [] _.
  - cbn -[handle_peer_discovered]. unfold PeerId_eqb. case_bool_decide as E; [done |].
    apply ok_task_bind; [| done]. apply ok_peer_discovered. congruence.
Qed.

#[local] Instance auth_node : NodeLaws auth_discipline me (command_ok Paired).
Proof.
  split.
  - intros c Hc. by split.
  - intros id. by apply ok_task_bind; [apply ok_connect |].
  - split; [done |]. by intros [] _.
  - intros conn. apply ok_accept.
  - intros id. split; [done |]. intros [] _. split; [done |]. by intros [] _.
  - intros ev _. apply ok_event_loop.
  - intros m x c Hr Hm. split; [exact Hm |]. intros id [Hid|(p & Hp & Hin)]; [by left | right; exists p].
    split; [exact Hp |]. cbn in Hin. unfold chan_recv in Hr.
    destruct (ch_queue (app_channel m)) eqn:E; [destruct (ch_senders _) |]; simplify_eq; cbn in Hin; [by rewrite E in Hin | by right].
  - by intros m x c _ Hm.
  - by intros m Hm.
Qed.

Lemma reachable_inv metadata s : reachable me Paired metadata s -> node_inv s.
Proof.
  induction 1 as [|c s s' _ IH Hc He]; [| by eapply node_inv_step]. apply node_inv_init; [done |].
  intros id [Hid|(p & _ & Hp)]; [set_solver | by apply elem_of_nil in Hp].
Qed.

(** The invariant for the files that compose the node with other parts. *)
Definition auth_inv (s : system) : Prop := node_inv s.

(** What the invariant says of who counts as connected. *)
Lemma inv_authenticates s id : auth_inv s ->
  claimed (s_mgr s) id \/ (exists conn, (id, conn) ∈ s_handlers s) ->
  exists r conn c now code before after,
    r ∈ s_tasks s /\ pc_id c = id /\ Paired id (pc_auth c) /\
    PairingAuthenticator_generate (pc_auth c) now = Ok code /\
    (t_hist r = before ++ accept_trace me conn id c now code ++ after \/
     t_hist r = before ++ connect_trace me conn c now code ++ after).
Proof.
  intros (_ & Hc & _ & Hh & _) Hid.
  assert (justified (s_tasks s) id) as (r & Hr & conn & c & now & code & before & after & (E1 & _ & Hp) & Hg & Ht).
  { destruct Hid as [?|[conn ?]]; [by apply Hc | eauto]. }
  exists r, conn, c, now, code, before, after. auto.
Qed.

(** The invariant of a node, of one whose manager drops events, and of one that spawns a task. *)
Lemma inv_step c s s' : auth_inv s -> command_ok Paired c -> sys_exec me c s = Some s' -> auth_inv s'.
Proof. apply node_inv_step. Qed.

Lemma inv_init metadata : auth_inv (system_init metadata).
Proof.
  apply node_inv_init; [done |]. intros id [Hid|(p & _ & Hp)]; [set_solver | by apply elem_of_nil in Hp].
Qed.

Lemma inv_run cs s s' : auth_inv s -> Forall (command_ok Paired) cs -> sys_run me cs s = Some s' -> auth_inv s'.
Proof. apply node_inv_run. Qed.

Lemma inv_known s id c : auth_inv s -> known_peers (s_mgr s) !! id = Some c -> cand_ok id c.
Proof. intros ((Hk & _) & _) H. by apply Hk. Qed.

Lemma inv_events_dropped c s : auth_inv s -> ch_queue c = [] -> auth_inv (set_mgr (set_app_channel c (s_mgr s)) s).
Proof.
  intros (Hm & Hc & Ht & Hh & Hl) Hq. split; [exact Hm |]. split_and!; try done.
  intros id [Hid|(p & _ & Hp)]; [apply Hc; by left | cbn in Hp; rewrite Hq in Hp; by apply elem_of_nil in Hp].
Qed.

(** A task that only makes accesses without conditions may be spawned. *)
Fixpoint harmless {A} (t : task A) : Prop :=
  match t with
  | TRet _ | TPanic => True
  | TMgr o k => (forall h, mop_ok h o) /\ forall x, harmless (k x)
  | _ => False
  end.

Lemma inv_spawn t s : auth_inv s -> harmless t -> auth_inv (spawn_task t s).
Proof.
  intros Hs Ht. apply node_inv_spawn_task; [exact Hs |]. generalize (@nil act).
  induction t as [a| |X o k IH|ps k IH|addr k IH|X p k IH|a k IH|conn k IH]; intros h; cbn in *; try done.
  split; [apply Ht |]. intros x _. apply IH, Ht.
Qed.

(** The candidates a handshake was given or can be given are those of the pairings. *)
Lemma reachable_candidate metadata s r id c : reachable me Paired metadata s -> r ∈ s_tasks s ->
  ACandidate id (Some c) ∈ t_hist r -> cand_ok id c.
Proof.
  intros (_ & _ & Ht & _)%reachable_inv Hr Hin. by apply (proj1 (Forall_forall _ _) (proj2 (Ht r Hr)) _ Hin).
Qed.

Lemma reachable_discovered metadata s id c : reachable me Paired metadata s ->
  discovered_peers (s_mgr s) !! id = Some c -> cand_ok id c.
Proof. intros ((_ & Hd) & _)%reachable_inv Hin. by apply Hd. Qed.

(** ** Theorems about every reachable system *)

(** C1.  Authentication of the node: in every reachable system, whatever was received and however
    the tasks interleaved, each peer counted as connected, each peer whose connection the application is being
    told of and each peer whose handler moves bytes between network and application has a task whose history
    contains a complete handshake with that id, under the code of an authenticator the application paired for
    that id. *)
Theorem node_authenticates metadata s id :
  reachable me Paired metadata s ->
  id ∈ connected_peers (s_mgr s) \/
  (exists p, peer_id p = id /\ PeerConnected p ∈ ch_queue (app_channel (s_mgr s))) \/
  (exists conn, (id, conn) ∈ s_handlers s) ->
  exists r conn c now code before after,
    r ∈ s_tasks s /\ pc_id c = id /\ Paired id (pc_auth c) /\
    PairingAuthenticator_generate (pc_auth c) now = Ok code /\
    (t_hist r = before ++ accept_trace me conn id c now code ++ after \/
     t_hist r = before ++ connect_trace me conn c now code ++ after).
Proof.
  intros Hr%reachable_inv Hid. apply inv_authenticates; [exact Hr |]. unfold claimed. tauto.
Qed.

(** C9.  Candidates: in every reachable system, what the manager holds for an id is a candidate of
    that id with the authenticator of the pairing, whatever presence responses were received (they
    set name, type and address only); and the node has not discovered itself. *)
Theorem node_candidates metadata s id c :
  reachable me Paired metadata s ->
  (known_peers (s_mgr s) !! id = Some c \/ discovered_peers (s_mgr s) !! id = Some c) ->
  pc_id c = id /\ pm_id (pc_metadata c) = id /\ Paired id (pc_auth c) /\
  discovered_peers (s_mgr s) !! me = None.
Proof.
  intros Hr%reachable_inv Hid. destruct Hr as ((Hk & Hd) & _).
  assert (Hc : cand_ok id c) by (destruct Hid; [by apply Hk | by apply Hd]). destruct Hc as (? & ? & ?).
  split_and!; [done.. |]. destruct (discovered_peers (s_mgr s) !! me) as [c'|] eqn:E; [| done].
  by destruct (Hd me c' E) as [_ []].
Qed.

End Invariant.
