(* ===== verification/Races.v ===== *)
(** Interleavings that the methods do not exclude, as systems the node can reach: a connection that
    stays connected after its end, and a paired peer that is refused while it is being discovered. *)

From Stdlib Require Import ZArith Lia.
From Stdlib Require Import Strings.Byte.
From stdpp Require Import base tactics numbers option list strings gmap.
From S2P Require Import Prelude RustStd SockAddr Errors Pairing Peer Proto Handshake HandshakeFacts.
From S2P Require Import Manager ManagerTheorems System SystemTheorems Samples.

Section Races.
Context {C : CryptoLib} {L : CryptoLaws C}.
Context (me : PeerId) (Paired : PeerId -> PairingAuthenticator -> Prop).

Lemma reachable_run metadata cs : forall s s', reachable me Paired metadata s ->
  Forall (command_ok Paired) cs -> sys_run me cs s = Some s' -> reachable me Paired metadata s'.
Proof.
  induction cs as [|c cs IH]; intros s s' Hr Hc Hs; cbn in Hs; [by simplify_eq |].
  apply Forall_cons in Hc as [Hc Hcs]. destruct (sys_exec me c s) as [s1|] eqn:E; cbn in Hs; [| done].
  eapply IH; [by eapply reachable_step | done | done].
Qed.

(** The acceptance of connection [conn] from [c], up to the spawn of the handler, by task [i]. *)
Definition accept_commands (i : nat) (id : PeerId) (tag : list byte) (now : Z) : list command :=
  [CTask i (AnsNext (Got (Request id tag)));
   CTask i AnsNone; CTask i AnsNone; CTask i AnsNone; CTask i AnsNone;
   CTask i (AnsNow now); CTask i (AnsSend (Ok tt)); CTask i (AnsNext (Got CompleteRequest));
   CTask i (AnsSend (Ok tt)); CTask i AnsNone].

(** Without interference the same steps lead to a connection with its handler. *)
Lemma connection_reachable metadata peer a now code (conn : Z) (addr : SocketAddr) :
  Paired (pm_id peer) a -> PairingAuthenticator_generate a now = Ok code ->
  exists s, reachable me Paired metadata s /\ s_handlers s = [(pm_id peer, conn)] /\
    connected_peers (s_mgr s) = {[pm_id peer]} /\
    known_peers (s_mgr s) !! pm_id peer = Some (PeerCandidate_new peer a).
Proof.
  intros Hp Hg.
  pose (cs := [CAddKnown (PeerCandidate_new peer a); CTask 0 AnsNone;
               CLoopEvent (EvStream (Ok (conn, addr))); CLoop; CLoopEnd] ++
              accept_commands 1 (pm_id peer) (hmac_sign (as_bytes code) (PeerId_bytes (pm_id peer))) now ++
              [CTask 1 AnsNone; CTask 1 AnsNone; CTask 1 AnsNone]).
  eassert (Hs : sys_run me cs (system_init metadata) = Some _).
  { subst cs. unfold accept_commands. sys_go. reflexivity. }
  eexists. split.
  { eapply (reachable_run _ cs); [constructor | | exact Hs]. unfold cs. repeat constructor; done. }
  split_and!; [reflexivity | cbn; set_solver | cbn; by simplify_map_eq].
Qed.

(** C28.  A connection can outlive its end: the handler runs as soon as it is spawned, so it may report
    the disconnection before the acceptance records the connection.  For every paired peer the node
    can come to rest with no handler left, the peer counted as connected, the application told first
    of the disconnection and then of the connection, and every further [connect_to_peer] refused as a
    duplicate. *)
Theorem stale_connection_reachable metadata peer a now code (conn : Z) (addr : SocketAddr) :
  Paired (pm_id peer) a -> PairingAuthenticator_generate a now = Ok code ->
  exists s p, reachable me Paired metadata s /\
    s_handlers s = [] /\ s_loop s = LoopIdle /\ Forall (fun r => t_prog r = TRet tt) (s_tasks s) /\
    ch_queue (app_channel (s_mgr s)) = [PeerDisconnected (pm_id peer); PeerConnected p] /\ peer_id p = pm_id peer /\
    connected_peers (s_mgr s) = {[pm_id peer]} /\
    forall w, exec w (connect_to_peer me (pm_id peer)) (s_mgr s) = Some (Val (Err HsDup), [], s_mgr s).
Proof.
  intros Hp Hg.
  pose (cs := [CAddKnown (PeerCandidate_new peer a); CTask 0 AnsNone;
               CLoopEvent (EvStream (Ok (conn, addr))); CLoop; CLoopEnd] ++
              accept_commands 1 (pm_id peer) (hmac_sign (as_bytes code) (PeerId_bytes (pm_id peer))) now ++
              [CHandler 0 (Ok 0); CTask 2 AnsNone; CTask 2 AnsNone; CTask 1 AnsNone; CTask 1 AnsNone; CTask 1 AnsNone]).
  eassert (Hs : sys_run me cs (system_init metadata) = Some _).
  { subst cs. unfold accept_commands. sys_go. reflexivity. }
  eexists _, _. split.
  { eapply (reachable_run _ cs); [constructor | | exact Hs]. unfold cs. repeat constructor; done. }
  split_and!; try reflexivity; [by repeat constructor | cbn; set_solver |].
  intros w. rewrite exec_connect_to_peer. unfold connect_outcome. rewrite decide_True; [done |]. cbn. set_solver.
Qed.

(** A paired peer can be refused while it is being discovered: [handle_peer_discovered] takes it
    out of the known peers before it enters the discovered ones, and an acceptance that looks in
    between answers 2002 to a correct request.  Before and after, the manager has the candidate. *)
Theorem paired_peer_refused_reachable metadata peer a now code (conn : Z) (addr : SocketAddr) :
  pm_id peer <> me -> Paired (pm_id peer) a -> PairingAuthenticator_generate a now = Ok code ->
  let request := Request (pm_id peer) (hmac_sign (as_bytes code) (PeerId_bytes (pm_id peer))) in
  exists s s' r, reachable me Paired metadata s /\ reachable me Paired metadata s' /\
    is_Some (lookup_candidate (s_mgr s) (pm_id peer)) /\ is_Some (lookup_candidate (s_mgr s') (pm_id peer)) /\
    s_tasks s' !! 1%nat = Some r /\
    t_hist r = [ANext (Got request); ACandidate (pm_id peer) None; ASend (Failure NOT_FOUND_ERR) (Ok tt)].
Proof.
  intros Hne Hp Hg request.
  pose (cs := [CAddKnown (PeerCandidate_new peer a); CTask 0 AnsNone;
               CLoopEvent (EvStream (Ok (conn, addr))); CLoop; CLoopEnd]).
  pose (cs' := [CTask 1 (AnsNext (Got request)); CLoopEvent (EvDiscovery (Some (PresenceResponse peer, addr)));
                CLoop; CLoop; CLoop; CTask 1 AnsNone; CTask 1 AnsNone; CTask 1 AnsNone; CTask 1 AnsNone;
                CTask 1 (AnsSend (Ok tt)); CTask 1 AnsNone; CLoop; CLoop; CLoop; CLoopEnd]).
  assert (Hid : PeerId_eqb me (pm_id peer) = false).
  { apply bool_decide_eq_false_2. destruct me, (pm_id peer). cbn. congruence. }
  eassert (Hs : sys_run me cs (system_init metadata) = Some _).
  { subst cs. sys_go. reflexivity. }
  eassert (Hs' : sys_run me (cs ++ cs') (system_init metadata) = Some _).
  { subst cs cs' request. sys_go. reflexivity. }
  eexists _, _, _. split_and!.
  - eapply (reachable_run _ cs); [constructor | | exact Hs]. unfold cs. by repeat constructor.
  - eapply (reachable_run _ (cs ++ cs')); [constructor | | exact Hs']. unfold cs, cs'. by repeat constructor.
  - unfold lookup_candidate. cbn. simplify_map_eq. eauto.
  - unfold lookup_candidate. cbn. simplify_map_eq. eauto.
  - reflexivity.
  - reflexivity.
Qed.

End Races.

(** ** The theorems on concrete systems *)

Module SystemWitnesses.
Import Sample.

(** The laptop is paired with the phone, and with nobody else. *)
Definition paired (id : PeerId) (a : PairingAuthenticator) : Prop := id = id_one /\ a = auth.

Lemma paired_phone : paired (pm_id phone) auth.
Proof. done. Qed.

Lemma node_authenticates_witness :
  exists s, reachable id_two paired laptop s /\ id_one ∈ connected_peers (s_mgr s) /\
  exists r conn c now code before after,
    r ∈ s_tasks s /\ pc_id c = id_one /\ paired id_one (pc_auth c) /\
    PairingAuthenticator_generate (pc_auth c) now = Ok code /\
    (t_hist r = before ++ accept_trace id_two conn id_one c now code ++ after \/
     t_hist r = before ++ connect_trace id_two conn c now code ++ after).
Proof.
  destruct (connection_reachable id_two paired laptop phone auth 30 (code auth 30) 7 (pm_addr phone) paired_phone)
    as (s & Hr & _ & Hc & _); [by apply code_generated |].
  assert (Hin : id_one ∈ connected_peers (s_mgr s)) by (rewrite Hc; by apply elem_of_singleton).
  exists s. split; [exact Hr |]. split; [exact Hin |].
  apply (node_authenticates id_two paired laptop s id_one Hr). by left.
Defined.

Lemma node_candidates_witness :
  exists s, reachable id_two paired laptop s /\
  pc_id phone_candidate = id_one /\ pm_id (pc_metadata phone_candidate) = id_one /\
  paired id_one (pc_auth phone_candidate) /\ discovered_peers (s_mgr s) !! id_two = None.
Proof.
  destruct (connection_reachable id_two paired laptop phone auth 30 (code auth 30) 7 (pm_addr phone) paired_phone)
    as (s & Hr & _ & _ & Hk); [by apply code_generated |].
  exists s. split; [exact Hr |].
  apply (node_candidates id_two paired laptop s id_one phone_candidate Hr). by left.
Defined.

Lemma stale_connection_reachable_witness :
  exists s p, reachable id_two paired laptop s /\
    s_handlers s = [] /\ s_loop s = LoopIdle /\ Forall (fun r => t_prog r = TRet tt) (s_tasks s) /\
    ch_queue (app_channel (s_mgr s)) = [PeerDisconnected id_one; PeerConnected p] /\ peer_id p = id_one /\
    connected_peers (s_mgr s) = {[id_one]} /\
    forall w, exec w (connect_to_peer id_two id_one) (s_mgr s) = Some (Val (Err HsDup), [], s_mgr s).
Proof.
  apply (stale_connection_reachable id_two paired laptop phone auth 30 (code auth 30) 7 (pm_addr phone));
    [done | by apply code_generated].
Defined.

Lemma paired_peer_refused_reachable_witness :
  let request := Request id_one (hmac_sign (as_bytes (code auth 30)) (PeerId_bytes id_one)) in
  exists s s' r, reachable id_two paired laptop s /\ reachable id_two paired laptop s' /\
    is_Some (lookup_candidate (s_mgr s) id_one) /\ is_Some (lookup_candidate (s_mgr s') id_one) /\
    s_tasks s' !! 1%nat = Some r /\
    t_hist r = [ANext (Got request); ACandidate id_one None; ASend (Failure NOT_FOUND_ERR) (Ok tt)].
Proof.
  apply (paired_peer_refused_reachable id_two paired laptop phone auth 30 (code auth 30) 7 (pm_addr phone));
    [vm_compute; discriminate | done | by apply code_generated].
Defined.

End SystemWitnesses.
