(* ===== verification/Adequacy.v ===== *)
(** The sequential reading of a method is one of the schedules of the node.

    Manager.v gives a method a meaning by itself ([exec], the whole method against a fixed outside);
    System.v runs methods step by step between the steps of others ([task_step], [sys_exec]).  Here the
    two are related: a task that nobody interrupts does under [task_step] exactly what [exec] says, in
    finitely many steps, waiting included, and the steps are a run of the system. *)

From Stdlib Require Import ZArith Lia.
From Stdlib Require Import Strings.Byte.
From stdpp Require Import base tactics numbers option list strings gmap.
From S2P Require Import Prelude RustStd SockAddr Errors Pairing Peer Proto Handshake Manager ManagerTheorems System Samples.

Section Alone.
Context {C : CryptoLib}.

(** The answers [w] gives to the next step of [t], when the current handshake has history [h]. *)
Definition answer_of {A} (w : world) (h : list act) (t : task A) : answer :=
  match t with
  | TOrder s _ => AnsOrder (w_order w s)
  | TTcp addr _ => AnsTcp (w_tcp w addr)
  | THs p _ =>
      match p with
      | HNow _ => AnsNow (env_now (w_env w) h)
      | HSend m _ => AnsSend (env_send (w_env w) h m)
      | HNext _ => AnsNext (env_next (w_env w) h)
      | _ => AnsNone
      end
  | _ => AnsNone
  end.

(** A handshake that ends leaves no history to the next one. *)
Definition next_history {A} (h h' : list act) (t : task A) : list act :=
  match t with THs (HRet _) _ => [] | _ => h ++ h' end.

(** The run of a task that nobody interrupts: its outcome, the connections it spawned an acceptance
    for, and the manager; [None] when [n] steps do not end it. *)
Fixpoint alone {A} (w : world) (n : nat) (h : list act) (t : task A) (m : P2pManager)
  : option (panicking A * list Z * P2pManager) :=
  match t with
  | TRet a => Some (Val a, [], m)
  | TPanic => Some (Panic, [], m)
  | _ =>
      match n with
      | O => None
      | S n' =>
          '(t', m', h', sp) ← task_step (answer_of w h t) t m;
          '(o, l, m'') ← alone w n' (next_history h h' t) t' m';
          Some (o, accepted sp ++ l, m'')
      end
  end.

(** Iterating over a set visits each element once. *)
Definition orders (w : world) : Prop := forall s, NoDup (w_order w s) /\ list_to_set (w_order w s) = s.

(** Programs as the methods write them: no record of answers outside handshakes. *)
Fixpoint unnoted {A} (t : task A) : Prop :=
  match t with
  | TRet _ | TPanic => True
  | TMgr _ k => forall x, unnoted (k x)
  | TOrder _ k => forall l, unnoted (k l)
  | TTcp _ k => forall r, unnoted (k r)
  | THs _ k => forall x, unnoted (k x)
  | TNote _ _ => False
  | TSpawnAccept _ k => unnoted k
  end.

(** ** One more step *)

Section Facts.
Context (w : world) (Hw : orders w).

(** [alone] agrees with [r] from some number of steps on. *)
Definition settles {A} (h : list act) (t : task A) m (r : option (panicking A * list Z * P2pManager)) : Prop :=
  exists n, forall n', (n <= n')%nat -> alone w n' h t m = r.

Definition is_done {A} (t : task A) : bool := match t with TRet _ | TPanic => true | _ => false end.

Lemma alone_S {A} n h (t : task A) m : is_done t = false ->
  alone w (S n) h t m =
  ('(t', m', h', sp) ← task_step (answer_of w h t) t m;
   '(o, l, m'') ← alone w n (next_history h h' t) t' m';
   Some (o, accepted sp ++ l, m'')).
Proof. by destruct t. Qed.

Lemma settles_step {A} h h' sp (t t' : task A) m m' r : is_done t = false ->
  task_step (answer_of w h t) t m = Some (t', m', h', sp) -> accepted sp = [] ->
  settles (next_history h h' t) t' m' r -> settles h t m r.
Proof.
  intros Hd Hs Hsp [n Hn]. exists (S n). intros [|n'] Hle; [lia |].
  rewrite alone_S, Hs by done. cbn. rewrite Hn by lia. destruct r as [[[o l] m'']|]; cbn; [| done].
  by rewrite Hsp.
Qed.

Lemma settles_stuck {A} h (t : task A) m : is_done t = false ->
  task_step (answer_of w h t) t m = None -> settles h t m None.
Proof. intros Hd Hs. exists 1%nat. intros [|n'] Hle; [lia |]. by rewrite alone_S, Hs. Qed.

(** ** A handshake in a task *)

Lemma settles_handshake {A X} (p : hs X) (k : X -> task A) m r : forall h,
  match fst (hs_exec (env_of (w_env w) m) h p) with
  | Val x => settles [] (k x) m r
  | Panic => r = Some (Panic, [], m)
  end -> settles h (THs p k) m r.
Proof.
  induction p as [x| |kk IH|msg kk IH|kk IH|id kk IH|id conn p IH]; intros h; cbn -[get_peer_candidate].
  - intros H. by eapply settles_step.
  - intros ->. eapply (settles_step _ [] [] (THs HPanic k) TPanic); [done.. |]. by exists 0%nat; intros [|n'] _.
  - destruct (hs_exec _ _ _) as [o t] eqn:E. cbn. intros H. eapply settles_step; [done.. |]. apply IH. cbn. by rewrite E.
  - destruct (hs_exec _ _ _) as [o t] eqn:E. cbn. intros H. eapply settles_step; [done.. |]. apply IH. cbn. by rewrite E.
  - destruct (hs_exec _ _ _) as [o t] eqn:E. cbn. intros H. eapply settles_step; [done.. |]. apply IH. cbn. by rewrite E.
  - destruct (hs_exec _ _ _) as [o t] eqn:E. cbn. intros H.
    eapply settles_step; [done | reflexivity | done |]. cbn. rewrite app_nil_r.
    eapply settles_step; [done | reflexivity | done |]. cbn. rewrite app_nil_r.
    eapply settles_step; [done | reflexivity | done |]. cbn. rewrite app_nil_r.
    eapply settles_step; [done | reflexivity | done |]. cbn. apply IH. unfold lookup_candidate in E. by rewrite E.
  - destruct (hs_exec _ _ _) as [o t] eqn:E. cbn. intros H.
    eapply settles_step; [done | reflexivity | done |]. cbn. apply IH. by rewrite E.
Qed.

(** ** The equivalence *)

Lemma settles_exec {A} (t : task A) : unnoted t -> forall m, settles [] t m (exec w t m).
Proof.
  induction t as [a| |X o k IH|s k IH|addr k IH|X p k IH|a k IH|conn k IH]; intros Ht m; cbn in Ht |- *.
  - by exists 0%nat; intros [|n'] _.
  - by exists 0%nat; intros [|n'] _.
  - destruct (mop_step o m) as [[x m']|] eqn:E.
    + eapply settles_step; [done | cbn; rewrite E; reflexivity | done |]. by apply IH.
    + apply settles_stuck; [done |]. cbn. by rewrite E.
  - eapply settles_step; [done | cbn; rewrite decide_True by apply Hw; reflexivity | done |]. by apply IH.
  - eapply settles_step; [done | reflexivity | done |]. by apply IH.
  - apply settles_handshake. destruct (fst _) as [x|]; [by apply IH | done].
  - done.
  - destruct (IH Ht m) as [n Hn]. exists (S n). intros [|n'] Hle; [lia |].
    rewrite alone_S by done. cbn. rewrite Hn by lia. by destruct (exec w k m) as [[[o l] m']|].
Qed.

End Facts.

(** ** The methods *)

Lemma unnoted_bind {A B} (t : task A) (f : A -> task B) : unnoted t -> (forall a, unnoted (f a)) -> unnoted (t ≫= f).
Proof. unfold mbind, task_bind. induction t; cbn; eauto. Qed.

Lemma unnoted_connect me id : unnoted (connect_to_peer me id).
Proof.
  intros [|]; [done |]. intros [c|]; [| done]. intros l. cbn.
  induction l as [|a l IH]; [done |]. intros [conn|e]; [| done]. by intros [p|e].
Qed.

Lemma unnoted_peer_discovered peer : unnoted (handle_peer_discovered peer).
Proof. intros [|]; [done |]. intros [|]; [done |]. intros [known|]; [| done]. by intros [] [] []. Qed.

(** What a task of the system runs. *)
Inductive method (me : PeerId) : task unit -> Prop :=
| method_add_known_peer c : method me (add_known_peer c)
| method_request_presence : method me request_presence
| method_connect_to_peer id : method me (_ ← connect_to_peer me id; mret tt)
| method_peer_disconnected id : method me (peer_disconnected id)
| method_accept conn : method me (accept_task me conn).

Lemma method_unnoted me t : method me t -> unnoted t.
Proof.
  intros [c| |id|id|conn].
  - done.
  - by intros [].
  - by apply unnoted_bind; [apply unnoted_connect |].
  - by intros [] [].
  - intros [p|e]; [| done]. by intros [] [].
Qed.

Lemma unnoted_event_loop me ev : unnoted (p2p_event_loop_body me ev).
Proof.
  destruct ev as [[[[|peer] addr]|]|[[]|]|[[conn addr]|e]]; try done.
  - by intros md [].
  - cbn -[handle_peer_discovered]. destruct (PeerId_eqb _ _); [done |]. apply unnoted_bind; [apply unnoted_peer_discovered | done].
Qed.

(** ** Runs of the system *)

Section Runs.
Context (me : PeerId) (w : world) (Hw : orders w).

Definition finished {A} (o : panicking A) : task A := match o with Val a => TRet a | Panic => TPanic end.

Lemma alone_run n : forall h i s r o l m, s_tasks s !! i = Some r ->
  alone w n h (t_prog r) (s_mgr s) = Some (o, l, m) ->
  exists answers s' h', sys_run me (CTask i <$> answers) s = Some s' /\ s_mgr s' = m /\ s_loop s' = s_loop s /\
    s_tasks s' = <[i := mkTrec h' (finished o)]> (s_tasks s) ++ accepting me l.
Proof.
  induction n as [|n IH]; intros h i s r o l m Hi Ha;
    (destruct (is_done (t_prog r)) eqn:Hd;
     [exists [], s, (t_hist r); destruct r as [hr t]; cbn in *; destruct t; try done; cbn in Ha; simplify_eq; cbn;
      (split_and!; try done); unfold accepting; cbn; rewrite app_nil_r; by rewrite list_insert_id |]).
  - by destruct (t_prog r).
  - rewrite alone_S in Ha by done.
    destruct (task_step _ _ _) as [[[[t' m1] h1] sp]|] eqn:E; cbn in Ha; [| done].
    destruct (alone _ _ _ _ _) as [[[o1 l1] m2]|] eqn:E1 in Ha; cbn in Ha; [| done]. simplify_eq.
    pose (s1 := run_spawn me sp (mkSystem m1 (s_loop s) (<[i := mkTrec (t_hist r ++ h1) t']> (s_tasks s)) (s_handlers s))).
    destruct (run_spawn_spec me sp (mkSystem m1 (s_loop s) (<[i := mkTrec (t_hist r ++ h1) t']> (s_tasks s)) (s_handlers s)))
      as (Hm & Hl & Ht). cbn in Hm, Hl, Ht. fold s1 in Hm, Hl, Ht.
    assert (Hlt : (i < length (s_tasks s))%nat) by by eapply lookup_lt_Some.
    destruct (IH (next_history h h1 (t_prog r)) i s1 (mkTrec (t_hist r ++ h1) t') o l1 m) as (answers & s' & h' & Hr & Hm' & Hl' & Ht').
    { rewrite Ht, lookup_app_l by (rewrite length_insert; lia). by apply list_lookup_insert_eq. }
    { by rewrite Hm. }
    exists (answer_of w h (t_prog r) :: answers), s', h'. split_and!; try congruence.
    + cbn [sys_run fmap list_fmap]. cbn [sys_exec]. rewrite Hi. cbn. rewrite E. cbn. exact Hr.
    + rewrite Ht', Ht, insert_app_l by (rewrite length_insert; lia). rewrite list_insert_insert_eq, <- app_assoc.
      unfold accepting. by rewrite fmap_app.
Qed.

(** The sequential reading of a method and its steps agree.  A task of the node that nobody interrupts
    behaves under the step relation of the system as [exec] says the method behaves: from some number of
    steps on it has the same outcome, the same effect on the manager and the same spawned acceptances,
    or, when [exec] gives none, it waits for room in a channel for ever.  When it ends, its steps are a
    run of the system from any state in which it is about to start, which changes nothing else. *)
Theorem method_runs_as_read t m : method me t ->
  (exists n, forall n', (n <= n')%nat -> alone w n' [] t m = exec w t m) /\
  forall o l m' i s, exec w t m = Some (o, l, m') -> s_mgr s = m -> s_tasks s !! i = Some (mkTrec [] t) ->
    exists answers s' h, sys_run me (CTask i <$> answers) s = Some s' /\ s_mgr s' = m' /\ s_loop s' = s_loop s /\
      s_tasks s' = <[i := mkTrec h (finished o)]> (s_tasks s) ++ accepting me l.
Proof.
  intros Ht%method_unnoted. pose proof (settles_exec w Hw t Ht m) as Hs. split; [exact Hs |].
  intros o l m' i s He <- Hi. destruct Hs as [n Hn]. eapply (alone_run n []); [exact Hi |].
  cbn [t_prog]. by rewrite Hn.
Qed.

End Runs.
End Alone.

Module AdequacyWitnesses.
Import Sample ManagerWitnesses.

Lemma silent_orders : orders silent.
Proof. intros s. split; [apply NoDup_elements | apply list_to_set_elements_L]. Qed.

(** The acceptance of a connection on which nothing arrives, started on the laptop: it times out. *)
Lemma method_runs_as_read_witness :
  let t := accept_task id_two 7 in
  exec silent t laptop_manager = Some (Val tt, [], laptop_manager) /\
  exists answers s' h,
    sys_run id_two (CTask 0 <$> answers) (spawn_task t (mkSystem laptop_manager LoopIdle [] [])) = Some s' /\
    s_mgr s' = laptop_manager /\ s_loop s' = LoopIdle /\ s_tasks s' = [mkTrec h (TRet tt)].
Proof.
  intros t. assert (He : exec silent t laptop_manager = Some (Val tt, [], laptop_manager)) by reflexivity.
  split; [exact He |].
  exact (proj2 (method_runs_as_read id_two silent silent_orders t laptop_manager (method_accept id_two 7))
           (Val tt) [] laptop_manager 0%nat (spawn_task t (mkSystem laptop_manager LoopIdle [] [])) He eq_refl eq_refl).
Defined.

End AdequacyWitnesses.
