(* ===== verification/Interference.v ===== *)
(** What the other tasks cannot disturb: rely-guarantee reasoning about the event loop.

    The event loop is the only task that discovers peers.  [wp] is the weakest precondition of a program
    whose accesses are interleaved with those of other tasks, which may do anything [rely] allows;
    proving it of one round of the loop ([wp_event_loop]) and showing that the methods the application and
    the connections run stay within [rely] ([calm]) gives invariants of every run of the node: a peer is
    announced at most once, what was discovered stays as it was, and no paired peer is ever lost. *)

From Stdlib Require Import ZArith Lia.
From Stdlib Require Import Strings.Byte.
From stdpp Require Import base tactics numbers option list strings gmap.
From S2P Require Import Prelude RustStd SockAddr Errors Pairing Peer Proto Handshake.
From S2P Require Import Manager System Samples.

Section Interference.
Context {C : CryptoLib}.

(** ** Histories *)

(** The manager with what happened to it: every event the application was sent, and every id that was
    ever a known peer. *)
Record view := mkView { v_sent : list P2pEvent; v_ever : gset PeerId; v_mgr : P2pManager }.

Definition known_ids (m : P2pManager) : gset PeerId := dom (known_peers m).

(** The ids announced as discovered. *)
Definition announced (l : list P2pEvent) : list PeerId :=
  omap (fun e => match e with PeerDiscovered m => Some (pm_id m) | _ => None end) l.

#[local] Arguments announced : simpl never.

(** What an access adds to the events sent. *)
Definition sent_by {X} (o : mop X) : list P2pEvent :=
  match o with AppSend e => [e] | _ => [] end.

Definition view_step {X} (o : mop X) (m' : P2pManager) (v : view) : view :=
  mkView (v_sent v ++ sent_by o) (v_ever v ∪ known_ids m') m'.

(** ** The conditions *)

(** Of every moment: the application still listens; what was announced is discovered, once each, with
    the metadata announced; a discovered candidate has the one address of its presence response. *)
Definition inv (v : view) : Prop :=
  ch_receiver (app_channel (v_mgr v)) = true /\ ch_capacity (app_channel (v_mgr v)) = None /\
  NoDup (announced (v_sent v)) /\
  (forall m, PeerDiscovered m ∈ v_sent v ->
     exists c, discovered_peers (v_mgr v) !! pm_id m = Some c /\ pc_metadata c = m) /\
  (forall id c, discovered_peers (v_mgr v) !! id = Some c ->
     pc_id c = id /\ pm_id (pc_metadata c) = id /\ pc_addrs c = {[pm_addr (pc_metadata c)]}).

(** Of the moments between two rounds: what is discovered was announced, and no id was lost. *)
Definition settled (v : view) : Prop :=
  (forall id, is_Some (discovered_peers (v_mgr v) !! id) -> id ∈ announced (v_sent v)) /\
  v_ever v ⊆ known_ids (v_mgr v).

(** What the other tasks may do between two accesses of the loop. *)
Definition rely (v v' : view) : Prop :=
  discovered_peers (v_mgr v') = discovered_peers (v_mgr v) /\
  announced (v_sent v') = announced (v_sent v) /\
  known_ids (v_mgr v) ⊆ known_ids (v_mgr v') /\
  v_ever v ⊆ v_ever v' /\ v_ever v' ⊆ v_ever v ∪ known_ids (v_mgr v').

(** What nobody does: change or forget a discovered peer. *)
Definition grows (v v' : view) : Prop :=
  discovered_peers (v_mgr v) ⊆ discovered_peers (v_mgr v') /\ v_ever v ⊆ v_ever v'.

Lemma rely_refl v : rely v v.
Proof. unfold rely. split_and!; set_solver. Qed.

Lemma rely_trans v1 v2 v3 : rely v1 v2 -> rely v2 v3 -> rely v1 v3.
Proof. intros (? & ? & ? & ? & ?) (? & ? & ? & ? & ?). unfold rely. split_and!; try congruence; set_solver. Qed.

Lemma rely_grows v v' : rely v v' -> grows v v'.
Proof. intros (E & ? & ? & ? & ?). split; [by rewrite E | done]. Qed.

Lemma grows_trans v1 v2 v3 : grows v1 v2 -> grows v2 v3 -> grows v1 v3.
Proof. intros [? ?] [? ?]. split; [by etrans | by etrans]. Qed.

(** ** Weakest preconditions under interference *)

(** From [v], whatever the others do in between, every access of [t] keeps [inv] and [grows], and [t]
    ends, if it does, in a settled view. *)
Fixpoint wp {A} (t : task A) (v : view) : Prop :=
  match t with
  | TRet _ | TPanic => settled v
  | TMgr o k => forall v1, rely v v1 -> inv v1 -> forall x m', mop_step o (v_mgr v1) = Some (x, m') ->
      inv (view_step o m' v1) /\ grows v1 (view_step o m' v1) /\ wp (k x) (view_step o m' v1)
  | TOrder _ k => forall l, wp (k l) v
  | TTcp _ k => forall r, wp (k r) v
  | THs _ k => False
  | TNote _ k => wp k v
  | TSpawnAccept _ k => wp k v
  end.

Lemma settled_rely v v' : settled v -> rely v v' -> settled v'.
Proof.
  intros [Hs He] (E & Ea & Hk & Hv & Hv'). unfold settled. rewrite E, Ea. split; [done |]. set_solver.
Qed.

Lemma wp_rely {A} (t : task A) : forall v v', wp t v -> rely v v' -> wp t v'.
Proof.
  induction t; intros v v' Hw Hr; cbn in *; eauto using settled_rely.
  intros v1 Hr1. apply Hw. by eapply rely_trans.
Qed.

Lemma wp_bind {A B} (t : task A) (f : A -> task B) : forall v,
  wp t v -> (forall a v', settled v' -> wp (f a) v') -> wp (t ≫= f) v.
Proof.
  unfold mbind, task_bind. induction t as [a| |X o k IH|s k IH|addr k IH|X p k IH|a k IH|conn k IH];
    intros v Ht Hf; cbn in *; eauto.
  intros v1 Hr Hi x m' Hs. destruct (Ht v1 Hr Hi x m' Hs) as (? & ? & ?). eauto.
Qed.

(** ** The event loop *)

(** Accesses that neither discover, nor announce, nor forget. *)
Definition calm_mop {X} (o : mop X) : Prop :=
  match o with
  | KnownRemove _ | DiscoveredInsert _ _ | AppSend (PeerDiscovered _) => False
  | _ => True
  end.

Lemma chan_send_keeps {A} (x : A) c r c' : chan_send x c = Some (r, c') ->
  ch_receiver c' = ch_receiver c /\ ch_capacity c' = ch_capacity c.
Proof. unfold chan_send. destruct (negb _); [| destruct (has_room c)]; intros; by simplify_eq. Qed.

Lemma chan_send_open {A} (x : A) c : ch_receiver c = true -> ch_capacity c = None ->
  chan_send x c = Some (Ok tt, mkChannel (ch_queue c ++ [x]) (ch_capacity c) (ch_receiver c) (ch_senders c)).
Proof. intros Hr Hc. unfold chan_send, has_room. by rewrite Hr, Hc. Qed.

Lemma calm_mop_rely {X} (o : mop X) v x m' : calm_mop o -> inv v -> mop_step o (v_mgr v) = Some (x, m') ->
  rely v (view_step o m' v) /\ inv (view_step o m' v).
Proof.
  intros Hc (Hr & Hcap & Hn & Hsent & Hd) Hs.
  assert (Ha : announced (v_sent v ++ sent_by o) = announced (v_sent v)).
  { unfold announced. rewrite omap_app. destruct o as [| | | | | | | | | |[]|]; cbn in *; rewrite ?app_nil_r; done. }
  assert (Hin : forall m, PeerDiscovered m ∈ v_sent v ++ sent_by o -> PeerDiscovered m ∈ v_sent v).
  { intros m [?|Hm]%elem_of_app; [done |]. destruct o as [| | | | | | | | | |[]|]; cbn in *; try done;
      (apply elem_of_nil in Hm || apply list_elem_of_singleton in Hm); done. }
  assert (Hm' : discovered_peers m' = discovered_peers (v_mgr v) /\ known_ids (v_mgr v) ⊆ known_ids m' /\
                ch_receiver (app_channel m') = true /\ ch_capacity (app_channel m') = None).
  { unfold known_ids. destruct o; cbn in Hs, Hc; try done;
      try (destruct (chan_send _ _) as [[? ?]|] eqn:E in Hs; cbn in Hs; [apply chan_send_keeps in E as [E1 E2] | done]);
      simplify_eq; cbn; try (by rewrite ?E1, ?E2); rewrite dom_insert_L; split_and!; try done; set_solver. }
  destruct Hm' as (E & Hk & Hr' & Hcap'). split.
  - unfold rely, view_step. cbn. rewrite Ha, E. split_and!; try done; set_solver.
  - unfold inv, view_step. cbn. rewrite Ha, E. split_and!; auto.
Qed.

(** The rule for a calm access: its answer is that of some view [v1] the loop can be in. *)
Lemma wp_calm {X A} (o : mop X) (k : X -> task A) v : calm_mop o ->
  (forall x v1 m', rely v v1 -> inv v1 -> mop_step o (v_mgr v1) = Some (x, m') ->
     forall v2, rely v1 v2 -> inv v2 -> wp (k x) v2) ->
  wp (TMgr o k) v.
Proof.
  intros Hc Hk v1 Hr Hi x m' Hs. destruct (calm_mop_rely o v1 x m' Hc Hi Hs) as [Hr' Hi'].
  split_and!; [done | by apply rely_grows |]. by eapply Hk.
Qed.

(** The answer does not matter. *)
Lemma wp_calm_any {X A} (o : mop X) (k : X -> task A) v : calm_mop o ->
  (forall x v', rely v v' -> inv v' -> wp (k x) v') -> wp (TMgr o k) v.
Proof. intros Hc Hk. apply wp_calm; [done |]. intros x v1 m' Hr _ _ v2 Hr' Hi'. apply Hk; [by eapply rely_trans | done]. Qed.

Lemma announced_app l l' : announced (l ++ l') = announced l ++ announced l'.
Proof. apply omap_app. Qed.

Lemma elem_of_announced id l : id ∈ announced l <-> exists m, PeerDiscovered m ∈ l /\ pm_id m = id.
Proof.
  unfold announced. rewrite list_elem_of_omap. split.
  - intros ([m|p|i] & Hin & [= <-]). eauto.
  - intros (m & Hin & <-). by exists (PeerDiscovered m).
Qed.

(** Nobody undiscovered was announced. *)
Lemma inv_not_announced v id : inv v -> discovered_peers (v_mgr v) !! id = None -> id ∉ announced (v_sent v).
Proof.
  intros (_ & _ & _ & Hs & _) Hd (m & Hin & <-)%elem_of_announced. destruct (Hs m Hin) as (c & E & _). congruence.
Qed.

(** The loop has taken [id] out of the known peers. *)
Definition taken (id : PeerId) (v : view) : Prop :=
  discovered_peers (v_mgr v) !! id = None /\
  (forall id', is_Some (discovered_peers (v_mgr v) !! id') -> id' ∈ announced (v_sent v)) /\
  v_ever v ⊆ {[id]} ∪ known_ids (v_mgr v).

(** The loop has entered [id] into the discovered peers, not announced it; [K] are the ids that may be
    missing among the known ones. *)
Definition entered (id : PeerId) (peer : PeerMetadata) (K : gset PeerId) (v : view) : Prop :=
  (exists c, discovered_peers (v_mgr v) !! id = Some c /\ pc_metadata c = peer) /\ (id ∉ announced (v_sent v)) /\
  (forall id', id' <> id -> is_Some (discovered_peers (v_mgr v) !! id') -> id' ∈ announced (v_sent v)) /\
  v_ever v ⊆ K ∪ known_ids (v_mgr v).

Lemma taken_rely id v v' : taken id v -> rely v v' -> taken id v'.
Proof. intros (? & ? & ?) (E & Ea & ? & ? & ?). unfold taken. rewrite E, Ea. split_and!; auto; set_solver. Qed.

Lemma entered_rely id peer K v v' : entered id peer K v -> rely v v' -> entered id peer K v'.
Proof. intros (? & ? & ? & ?) (E & Ea & ? & ? & ?). unfold entered. rewrite E, Ea. split_and!; auto; set_solver. Qed.

(** [KnownRemove]: nothing changes, or the id is taken. *)
Lemma step_known_remove {A} id (k : option PeerCandidate -> task A) v :
  discovered_peers (v_mgr v) !! id = None -> settled v ->
  (forall v', settled v' -> wp (k None) v') -> (forall c v', taken id v' -> wp (k (Some c)) v') ->
  wp (TMgr (KnownRemove id) k) v.
Proof.
  intros Hd Hset Hnone Hsome v1 Hr Hi x m' Hs. cbn in Hs. simplify_eq.
  pose proof (settled_rely _ _ Hset Hr) as [Hset1 Hever1]. destruct Hr as (E & _). rewrite <- E in Hd.
  destruct Hi as (? & ? & Hn & Hsent & Hdisc). split_and!.
  - unfold inv, view_step. cbn. rewrite app_nil_r. by split_and!.
  - split; cbn; [done | set_solver].
  - destruct (known_peers (v_mgr v1) !! id) as [c|] eqn:Ek.
    + apply Hsome. unfold taken, view_step, known_ids in *. cbn. rewrite app_nil_r, dom_delete_L.
      split_and!; [done | done |]. intros id' Hid'. destruct (decide (id' = id)); set_solver.
    + apply Hnone. unfold settled, view_step, known_ids in *. cbn. rewrite app_nil_r, delete_id by done. split; [done | set_solver].
Qed.

Lemma step_discovered_insert {A} id c (k : unit -> task A) v : taken id v ->
  pc_id c = id -> pm_id (pc_metadata c) = id -> pc_addrs c = {[pm_addr (pc_metadata c)]} ->
  (forall v', entered id (pc_metadata c) {[id]} v' -> wp (k tt) v') ->
  wp (TMgr (DiscoveredInsert id c) k) v.
Proof.
  intros Ht E1 E2 E3 Hk v1 Hr Hi x m' Hs. cbn in Hs. simplify_eq. pose proof (taken_rely _ _ _ Ht Hr) as (Hd & Ha & He).
  pose proof (inv_not_announced _ _ Hi Hd) as Hna. destruct Hi as (? & ? & Hn & Hsent & Hdisc). split_and!.
  - unfold inv, view_step. cbn. rewrite app_nil_r. split_and!; try done.
    + intros m Hm. destruct (Hsent m Hm) as (c' & Hc' & ?). exists c'. split; [| done].
      rewrite lookup_insert_ne; [done |]. congruence.
    + intros id' c' [[<- <-]|[_ H']]%lookup_insert_Some; [done | by apply Hdisc].
  - split; cbn; [by apply insert_subseteq | set_solver].
  - apply Hk. unfold entered, view_step. cbn. rewrite app_nil_r. split_and!.
    + exists c. by rewrite lookup_insert_eq.
    + done.
    + intros id' Hne. rewrite lookup_insert_ne by done. apply Ha.
    + set_solver.
Qed.

Lemma step_known_insert {A} id peer c (k : unit -> task A) v : entered id peer {[id]} v ->
  (forall v', entered id peer ∅ v' -> wp (k tt) v') -> wp (TMgr (KnownInsert id c) k) v.
Proof.
  intros Hent Hk v1 Hr Hi x m' Hs. cbn in Hs. simplify_eq.
  destruct (entered_rely _ _ _ _ _ Hent Hr) as (Hc & Hna & Ha & He). destruct Hi as (? & ? & Hn & Hsent & Hdisc). split_and!.
  - unfold inv, view_step. cbn. rewrite app_nil_r. by split_and!.
  - split; cbn; [done | set_solver].
  - apply Hk. unfold entered, view_step, known_ids in *. cbn. rewrite app_nil_r, dom_insert_L. split_and!; [done.. |]. set_solver.
Qed.

Lemma step_announce {A} peer (k : Result P2pEvent unit -> task A) v : entered (pm_id peer) peer ∅ v ->
  (forall r v', settled v' -> wp (k r) v') -> wp (TMgr (AppSend (PeerDiscovered peer)) k) v.
Proof.
  intros Hent Hk v1 Hr Hi x m' Hs. destruct (entered_rely _ _ _ _ _ Hent Hr) as (Hc & Hna & Ha & He).
  destruct Hi as (Hrec & Hcap & Hn & Hsent & Hdisc).
  cbn in Hs. rewrite (chan_send_open _ _ Hrec Hcap) in Hs. cbn in Hs. simplify_eq. split_and!.
  - unfold inv, view_step. cbn. rewrite announced_app. split_and!; try done.
    + apply NoDup_app. split_and!; [done | | apply NoDup_singleton]. intros id' Hid' Hs. apply list_elem_of_singleton in Hs. by subst.
    + intros m [Hm|[= ->]%list_elem_of_singleton]%elem_of_app; [by apply Hsent | done].
  - split; cbn; [done | set_solver].
  - apply Hk. unfold settled, view_step, known_ids in *. cbn. rewrite announced_app. split; [| set_solver].
    intros id' Hid'. apply elem_of_app. destruct (decide (id' = pm_id peer)) as [->|Hne]; [right; by constructor | left; by apply Ha].
Qed.

(** One call of [handle_peer_discovered], whatever the others do meanwhile. *)
Lemma wp_peer_discovered peer v : settled v -> wp (handle_peer_discovered peer) v.
Proof.
  intros Hv. apply wp_calm_any; [done |]. intros [|] v1 Hr1 _; [by eapply settled_rely |].
  apply wp_calm; [done |]. intros d v2 m2 Hr2 Hi2 Hs2 v3 Hr3 _. cbn in Hs2. simplify_eq.
  assert (Hv3 : settled v3) by (eapply settled_rely; [exact Hv |]; by eauto using rely_trans).
  case_bool_decide as Hd; [done |]. apply eq_None_not_Some in Hd. destruct Hr3 as (E3 & _). rewrite <- E3 in Hd.
  apply step_known_remove; [done | done | done |]. intros known v4 Ht. cbn -[wp].
  apply step_discovered_insert; [done.. |]. intros v5 He5. apply (step_known_insert _ peer); [done |]. intros v6 He6.
  apply step_announce; [done |]. by intros [] v7 Hv7.
Qed.

Lemma wp_presence_request v : settled v -> wp handle_presence_request v.
Proof.
  intros Hv. apply wp_calm_any; [done |]. intros md v1 Hr1 _. apply wp_calm_any; [done |].
  intros [] v2 Hr2 _; eapply settled_rely; eauto using rely_trans.
Qed.

Lemma wp_event_loop me ev v : settled v -> wp (p2p_event_loop_body me ev) v.
Proof.
  intros Hv. destruct ev as [[[[|peer] addr]|]|[[]|]|[[conn addr]|e]]; try done.
  - by apply wp_bind; [apply wp_presence_request |].
  - cbn -[handle_peer_discovered wp]. destruct (PeerId_eqb _ _); [done |].
    by apply wp_bind; [apply wp_peer_discovered |].
Qed.

(** ** The other tasks *)

(** Programs whose accesses are all calm. *)
Fixpoint calm {A} (t : task A) : Prop :=
  match t with
  | TRet _ | TPanic => True
  | TMgr o k => calm_mop o /\ forall x, calm (k x)
  | TOrder _ k => forall l, calm (k l)
  | TTcp _ k => forall r, calm (k r)
  | THs _ k => forall x, calm (k x)
  | TNote _ k => calm k
  | TSpawnAccept _ k => calm k
  end.

Lemma calm_bind {A B} (t : task A) (f : A -> task B) : calm t -> (forall a, calm (f a)) -> calm (t ≫= f).
Proof.
  unfold mbind, task_bind. induction t; cbn; intros Ht Hf; try destruct Ht; eauto.
Qed.

Lemma calm_accept me conn : calm (accept_task me conn).
Proof. intros [p|e]; [| done]. split; [done |]. intros []. split; [done |]. by intros []. Qed.

Lemma calm_connect me id : calm (connect_to_peer me id).
Proof.
  split; [done |]. intros [|]; [done |]. split; [done |]. intros [c|]; [| done]. intros l.
  induction l as [|a l IH]; [done |]. intros [conn|e]; [| done]. intros [p|e]; [| done]. by split.
Qed.

Lemma calm_disconnected id : calm (peer_disconnected id).
Proof. split; [done |]. intros []. split; [done |]. by intros []. Qed.

Lemma calm_request : calm request_presence.
Proof. split; [done |]. by intros []. Qed.

(** ** Runs of the node *)

(** What the application receives in a step, and in a run. *)
Definition app_received (c : command) (s : system) : list P2pEvent :=
  match c with CAppRecv => take 1 (ch_queue (app_channel (s_mgr s))) | _ => [] end.

Fixpoint app_run (me : PeerId) (cs : list command) (s : system) : option (list P2pEvent * system) :=
  match cs with
  | [] => Some ([], s)
  | c :: cs' =>
      s1 ← sys_exec me c s;
      '(got, s') ← app_run me cs' s1;
      Some (app_received c s ++ got, s')
  end.

(** The view of a system whose application has received [got]. *)
Definition view_of (got : list P2pEvent) (ever : gset PeerId) (s : system) : view :=
  mkView (got ++ ch_queue (app_channel (s_mgr s))) ever (s_mgr s).

Definition node_ok (v : view) (s : system) : Prop :=
  inv v /\ known_ids (v_mgr v) ⊆ v_ever v /\
  Forall (fun r => calm (t_prog r)) (s_tasks s) /\
  match s_loop s with LoopBusy t => wp t v | _ => settled v end.

(** A step of an access, on the channel of the application. *)
Lemma app_queue_step {X} (o : mop X) v x m' : inv v -> mop_step o (v_mgr v) = Some (x, m') ->
  ch_queue (app_channel m') = ch_queue (app_channel (v_mgr v)) ++ sent_by o.
Proof.
  intros (Hr & Hc & _) Hs. destruct o; cbn in Hs;
    try (rewrite (chan_send_open _ _ Hr Hc) in Hs; cbn in Hs);
    try (destruct (chan_send _ _) as [[? ?]|] in Hs; cbn in Hs; [| done]);
    simplify_eq; cbn; by rewrite ?app_nil_r.
Qed.

(** A step of a calm task. *)
Lemma calm_step {A} ans (t : task A) v t' m' h sp : calm t -> inv v -> known_ids (v_mgr v) ⊆ v_ever v ->
  task_step ans t (v_mgr v) = Some (t', m', h, sp) ->
  calm t' /\ exists v', v_mgr v' = m' /\ rely v v' /\ inv v' /\ known_ids m' ⊆ v_ever v' /\
    forall got, v_sent v = got ++ ch_queue (app_channel (v_mgr v)) -> v_sent v' = got ++ ch_queue (app_channel m').
Proof.
  intros Hc Hi Hk Hs.
  assert (Hsame : exists v', v_mgr v' = v_mgr v /\ rely v v' /\ inv v' /\ known_ids (v_mgr v) ⊆ v_ever v' /\
    forall got, v_sent v = got ++ ch_queue (app_channel (v_mgr v)) -> v_sent v' = got ++ ch_queue (app_channel (v_mgr v))).
  { exists v. split_and!; auto using rely_refl. }
  destruct t as [a| |X o k|s k|addr k|X p k|a k|conn k]; cbn in Hs, Hc; try done.
  - destruct (mop_step o (v_mgr v)) as [[x m1]|] eqn:E; cbn in Hs; [| done]. simplify_eq. destruct Hc as [Ho Hc].
    split; [done |]. destruct (calm_mop_rely _ _ _ _ Ho Hi E) as [Hr' Hi'].
    exists (view_step o m' v). split_and!; [done | done | done | cbn; set_solver |].
    intros got Hg. cbn. by rewrite Hg, (app_queue_step _ _ _ _ Hi E), app_assoc.
  - destruct ans; try done. case_decide; simplify_eq. by split.
  - destruct ans; try done. simplify_eq. by split.
  - destruct p; try destruct ans; try done; simplify_eq; by split.
  - simplify_eq. by split.
  - simplify_eq. by split.
Qed.

(** A step of the loop. *)
Lemma wp_step {A} ans (t : task A) v t' m' h sp : wp t v -> inv v -> known_ids (v_mgr v) ⊆ v_ever v ->
  task_step ans t (v_mgr v) = Some (t', m', h, sp) ->
  exists v', v_mgr v' = m' /\ wp t' v' /\ grows v v' /\ inv v' /\ known_ids m' ⊆ v_ever v' /\
    forall got, v_sent v = got ++ ch_queue (app_channel (v_mgr v)) -> v_sent v' = got ++ ch_queue (app_channel m').
Proof.
  intros Hw Hi Hk Hs. pose proof (rely_grows _ _ (rely_refl v)) as Hg.
  destruct t as [a| |X o k|s k|addr k|X p k|a k|conn k]; cbn in Hs, Hw; try done.
  - destruct (mop_step o (v_mgr v)) as [[x m1]|] eqn:E; cbn in Hs; [| done]. simplify_eq.
    destruct (Hw v (rely_refl v) Hi x m' E) as (Hi' & Hg' & Hw').
    exists (view_step o m' v). split_and!; [done | done | done | done | cbn; set_solver |].
    intros got Hgot. cbn. by rewrite Hgot, (app_queue_step _ _ _ _ Hi E), app_assoc.
  - destruct ans; try done. case_decide; simplify_eq. exists v. by split_and!.
  - destruct ans; try done. simplify_eq. exists v. by split_and!.
  - simplify_eq. exists v. by split_and!.
  - simplify_eq. exists v. by split_and!.
Qed.

(** Steps that change only the queues. *)
Lemma quiet_step v m : discovered_peers m = discovered_peers (v_mgr v) -> known_peers m = known_peers (v_mgr v) ->
  ch_receiver (app_channel m) = ch_receiver (app_channel (v_mgr v)) ->
  ch_capacity (app_channel m) = ch_capacity (app_channel (v_mgr v)) ->
  inv v -> rely v (mkView (v_sent v) (v_ever v) m) /\ inv (mkView (v_sent v) (v_ever v) m).
Proof.
  intros E1 E2 E3 E4 (? & ? & ? & ? & ?). unfold rely, inv, known_ids. cbn. rewrite E1, E2, E3, E4.
  split; split_and!; try done; set_solver.
Qed.

(** The others' steps keep the loop's condition. *)
Lemma loop_rely v v' s : rely v v' ->
  match s_loop s with LoopBusy t => wp t v | _ => settled v end ->
  match s_loop s with LoopBusy t => wp t v' | _ => settled v' end.
Proof. intros Hr. destruct (s_loop s); eauto using settled_rely, wp_rely. Qed.

Lemma calm_accepting me l : Forall (fun r => calm (t_prog r)) (accepting me l).
Proof. apply Forall_fmap, Forall_true. intros conn. apply calm_accept. Qed.

#[local] Hint Resolve calm_accepting calm_connect calm_disconnected calm_request : core.

Lemma node_ok_spawn v t s : calm t -> node_ok v s -> node_ok v (spawn_task t s).
Proof. intros Ht (? & ? & ? & ?). split_and!; try done. cbn. apply Forall_app. split; [done | by constructor]. Qed.

(** A step leaves the tasks that do not make it. *)
Lemma other_task me c s s' i r : sys_exec me c s = Some s' -> (forall ans, c <> CTask i ans) ->
  s_tasks s !! i = Some r -> s_tasks s' !! i = Some r.
Proof.
  intros He Hc Hi.
  assert (Hspawn : forall sp s0, s_tasks s0 !! i = Some r -> s_tasks (run_spawn me sp s0) !! i = Some r).
  { intros sp s0 H. destruct (run_spawn_spec me sp s0) as (_ & _ & ->). by apply lookup_app_l_Some. }
  destruct c as [c|id| |j ans|ev| | |j x| | |]; cbn -[connect_to_peer] in He; try (simplify_eq; by apply lookup_app_l_Some).
  - destruct (s_tasks s !! j) as [x|]; cbn in He; [| done]. destruct (task_step _ _ _) as [[[[t m] h] sp]|]; cbn in He; simplify_eq.
    apply Hspawn. cbn. rewrite list_lookup_insert_ne; [done |]. intros ->. by destruct (Hc ans).
  - destruct (s_loop s); by simplify_eq.
  - destruct (s_loop s) as [|t|]; try done. destruct (task_step _ _ _) as [[[[t' m] h] sp]|]; cbn in He; simplify_eq. by apply Hspawn.
  - destruct (s_loop s) as [|[[]| | | | | | |]|]; by simplify_eq.
  - destruct (s_handlers s !! j) as [[id conn]|]; cbn in He; [| done]. destruct (handler_body x); simplify_eq; [done |].
    by apply (lookup_app_l_Some (s_tasks s)).
  - destruct (chan_recv _) as [[? ?]|]; cbn in He; by simplify_eq.
  - destruct (chan_recv _) as [[? ?]|]; cbn in He; by simplify_eq.
  - by simplify_eq.
Qed.

(** Every step of the node keeps [node_ok]; nothing discovered changes. *)
Lemma node_ok_step me c s s' got ever :
  node_ok (view_of got ever s) s -> sys_exec me c s = Some s' ->
  exists ever', node_ok (view_of (got ++ app_received c s) ever' s') s' /\
    grows (view_of got ever s) (view_of (got ++ app_received c s) ever' s').
Proof.
  intros Hn He. pose proof (rely_grows _ _ (rely_refl (view_of got ever s))) as Hg0.
  assert (Hspawn : forall t, calm t -> exists ever', node_ok (view_of (got ++ []) ever' (spawn_task t s)) (spawn_task t s) /\
            grows (view_of got ever s) (view_of (got ++ []) ever' (spawn_task t s))).
  { intros t Ht. exists ever. rewrite app_nil_r. split; [by apply (node_ok_spawn (view_of got ever s)) | exact Hg0]. }
  assert (Hquiet : forall m got', discovered_peers m = discovered_peers (s_mgr s) -> known_peers m = known_peers (s_mgr s) ->
            ch_receiver (app_channel m) = ch_receiver (app_channel (s_mgr s)) ->
            ch_capacity (app_channel m) = ch_capacity (app_channel (s_mgr s)) ->
            got' ++ ch_queue (app_channel m) = got ++ ch_queue (app_channel (s_mgr s)) ->
            exists ever', node_ok (view_of got' ever' (set_mgr m s)) (set_mgr m s) /\
              grows (view_of got ever s) (view_of got' ever' (set_mgr m s))).
  { intros m got' E1 E2 E3 E4 E5. destruct Hn as (Hi & Hk & Ht & Hl).
    destruct (quiet_step (view_of got ever s) m E1 E2 E3 E4 Hi) as [Hr' Hi'].
    exists ever. unfold view_of in *. cbn in *. rewrite E5. split; [| by apply rely_grows].
    split_and!; [done | cbn; unfold known_ids in *; by rewrite E2 | done | by eapply loop_rely]. }
  destruct c as [c|id| |i ans|ev| | |i r| | |]; cbn -[connect_to_peer] in He |- *.
  - simplify_eq. by apply Hspawn.
  - simplify_eq. apply Hspawn. by apply calm_bind.
  - simplify_eq. by apply Hspawn.
  - destruct (s_tasks s !! i) as [r|] eqn:Ei; cbn in He; [| done].
    destruct (task_step ans (t_prog r) (s_mgr s)) as [[[[t m] h] sp]|] eqn:Et; cbn in He; [| done].
    simplify_eq. destruct Hn as (Hi & Hk & Ht & Hl).
    pose proof (Forall_lookup_1 _ _ _ _ Ht Ei) as Hc.
    destruct (calm_step _ _ (view_of got ever s) _ _ _ _ Hc Hi Hk Et) as (Hc' & v' & <- & Hr & Hi' & Hk' & Hs').
    specialize (Hs' got eq_refl). exists (v_ever v'). rewrite app_nil_r.
    destruct (run_spawn_spec me sp (mkSystem (v_mgr v') (s_loop s) (<[i := mkTrec (t_hist r ++ h) t]> (s_tasks s)) (s_handlers s)))
      as (Em & El & Es). cbn in Em, El, Es.
    assert (Ev : view_of got (v_ever v') (run_spawn me sp (mkSystem (v_mgr v') (s_loop s)
                   (<[i := mkTrec (t_hist r ++ h) t]> (s_tasks s)) (s_handlers s))) = v').
    { unfold view_of. rewrite Em, <- Hs'. by destruct v'. }
    rewrite Ev. split; [| by apply rely_grows]. unfold node_ok. rewrite El, Es. split_and!; [done | done | | by eapply loop_rely].
    apply Forall_app. split; [by apply Forall_insert | done].
  - destruct (s_loop s) eqn:El; simplify_eq. destruct Hn as (Hi & Hk & Ht & Hl). rewrite El in Hl.
    exists ever. rewrite app_nil_r. split; [| exact Hg0]. split_and!; [done | done | done |]. by apply wp_event_loop.
  - destruct (s_loop s) as [|t|] eqn:El; try done.
    destruct (task_step AnsNone t (s_mgr s)) as [[[[t' m] h] sp]|] eqn:Et; cbn in He; [| done].
    simplify_eq. destruct Hn as (Hi & Hk & Ht & Hl). rewrite El in Hl.
    destruct (wp_step _ _ (view_of got ever s) _ _ _ _ Hl Hi Hk Et) as (v' & <- & Hw' & Hg & Hi' & Hk' & Hs').
    specialize (Hs' got eq_refl). exists (v_ever v'). rewrite app_nil_r.
    destruct (run_spawn_spec me sp (mkSystem (v_mgr v') (LoopBusy t') (s_tasks s) (s_handlers s))) as (Em & El' & Es). cbn in Em, El', Es.
    assert (Ev : view_of got (v_ever v') (run_spawn me sp (mkSystem (v_mgr v') (LoopBusy t') (s_tasks s) (s_handlers s))) = v').
    { unfold view_of. rewrite Em, <- Hs'. by destruct v'. }
    rewrite Ev. split; [| done]. unfold node_ok. rewrite El', Es. split_and!; [done | done | | done].
    apply Forall_app. by split.
  - destruct Hn as (Hi & Hk & Ht & Hl). exists ever. rewrite app_nil_r.
    destruct (s_loop s) as [|[[]| | | | | | |]|] eqn:El; simplify_eq; (split; [by split_and! | exact Hg0]).
  - destruct (s_handlers s !! i) as [[id conn]|] eqn:Ei; cbn in He; [| done].
    destruct (handler_body r); simplify_eq.
    + exists ever. by rewrite app_nil_r.
    + exists ever. rewrite app_nil_r. split; [| exact Hg0].
      apply (node_ok_spawn (view_of got ever s) (peer_disconnected id)
               (mkSystem (s_mgr s) (s_loop s) (s_tasks s) (delete i (s_handlers s)))); [apply calm_disconnected | exact Hn].
  - unfold chan_recv in He. destruct (ch_queue (app_channel (s_mgr s))) as [|x q] eqn:Eq.
    + destruct (ch_senders _); cbn in He; simplify_eq. apply Hquiet; cbn; try done. by rewrite Eq, !app_nil_r.
    + cbn in He. simplify_eq. apply Hquiet; cbn; try done. by rewrite <- app_assoc, ?Eq.
  - unfold chan_recv in He. destruct (ch_queue (discovery_channel (s_mgr s))) as [|x q] eqn:Eq.
    + destruct (ch_senders _); cbn in He; simplify_eq. apply Hquiet; cbn; try done. by rewrite app_nil_r.
    + cbn in He. simplify_eq. apply Hquiet; cbn; try done. by rewrite app_nil_r.
  - simplify_eq. apply Hquiet; cbn; try done. by rewrite app_nil_r.
Qed.

Lemma app_run_ok me cs : forall s got ever s' got', node_ok (view_of got ever s) s -> app_run me cs s = Some (got', s') ->
  exists ever', node_ok (view_of (got ++ got') ever' s') s' /\ grows (view_of got ever s) (view_of (got ++ got') ever' s').
Proof.
  induction cs as [|c cs IH]; intros s got ever s' got' Hn Hr; cbn in Hr.
  - simplify_eq. exists ever. rewrite app_nil_r. split; [done |]. apply rely_grows, rely_refl.
  - destruct (sys_exec me c s) as [s1|] eqn:E; cbn in Hr; [| done].
    destruct (app_run me cs s1) as [[got1 s2]|] eqn:E1; cbn in Hr; [| done]. simplify_eq.
    destruct (node_ok_step me c s s1 got ever Hn E) as (ever1 & Hn1 & Hg1).
    destruct (IH s1 _ ever1 s' got1 Hn1 E1) as (ever2 & Hn2 & Hg2). rewrite app_assoc.
    exists ever2. split; [done |]. by eapply grows_trans.
Qed.

Lemma app_run_sys_run me cs : forall s s', sys_run me cs s = Some s' -> exists got, app_run me cs s = Some (got, s').
Proof.
  induction cs as [|c cs IH]; intros s s' Hr; cbn in *; [simplify_eq; eauto |].
  destruct (sys_exec me c s) as [s1|]; cbn in *; [| done]. destruct (IH s1 s' Hr) as [got ->]. cbn. eauto.
Qed.

Lemma node_ok_init metadata : node_ok (view_of [] ∅ (system_init metadata)) (system_init metadata).
Proof.
  unfold node_ok, inv, settled, view_of, known_ids, announced. cbn. rewrite dom_empty_L. split_and!; try done.
  - constructor.
  - intros m Hm. by apply elem_of_nil in Hm.
  - intros id [c Hc]. by rewrite lookup_empty in Hc.
Qed.

(** ** Theorems *)

(** C32.  Discovery is final and announced once.  In every run of the node, under every interleaving: the
    application is told of the discovery of an id at most once; what it was told is what the manager
    holds, with the advertised address as the only one; between two rounds of the event loop every
    discovered peer has been announced; and a discovered candidate never changes again: neither a later
    presence response nor a new pairing ([add_known_peer]) replaces the address or the authenticator a
    handshake with that id will use. *)
Theorem discoveries_final me metadata cs got s :
  app_run me cs (system_init metadata) = Some (got, s) ->
  let sent := got ++ ch_queue (app_channel (s_mgr s)) in
  NoDup (announced sent) /\
  (forall m, PeerDiscovered m ∈ sent -> exists c, discovered_peers (s_mgr s) !! pm_id m = Some c /\
     pc_metadata c = m /\ pc_addrs c = {[pm_addr m]}) /\
  (s_loop s = LoopIdle -> forall id, is_Some (discovered_peers (s_mgr s) !! id) -> id ∈ announced sent) /\
  (forall cs' s' id c, sys_run me cs' s = Some s' -> discovered_peers (s_mgr s) !! id = Some c ->
     discovered_peers (s_mgr s') !! id = Some c /\ lookup_candidate (s_mgr s') id = Some c).
Proof.
  intros Hr sent. destruct (app_run_ok me cs _ [] ∅ _ _ (node_ok_init metadata) Hr) as (ever & Hn & _). cbn [app] in Hn.
  pose proof Hn as ((_ & _ & Hnd & Hs & Hd) & _ & _ & Hl). cbn in Hnd, Hs, Hd. split_and!.
  - exact Hnd.
  - intros m Hm. destruct (Hs m Hm) as (c & Hc & <-). exists c. split_and!; [done | done |]. by destruct (Hd _ _ Hc) as (_ & _ & ?).
  - intros El. rewrite El in Hl. apply Hl.
  - intros cs' s' id c [got' Hr']%app_run_sys_run Hc.
    destruct (app_run_ok me cs' _ got ever _ _ Hn Hr') as (ever' & _ & [Hg _]). cbn in Hg.
    assert (E : discovered_peers (s_mgr s') !! id = Some c) by by eapply lookup_weaken. unfold lookup_candidate. by rewrite E.
Qed.

(** C33.  No paired peer is lost.  An id that is a known peer at some moment of a run is one at every later
    moment between two rounds of the event loop, although [handle_peer_discovered] removes it on the way. *)
Theorem paired_peers_kept me metadata cs s cs' s' id :
  sys_run me cs (system_init metadata) = Some s -> sys_run me cs' s = Some s' ->
  is_Some (known_peers (s_mgr s) !! id) -> s_loop s' = LoopIdle -> is_Some (known_peers (s_mgr s') !! id).
Proof.
  intros [got Hr]%app_run_sys_run [got' Hr']%app_run_sys_run Hid El.
  destruct (app_run_ok me cs _ [] ∅ _ _ (node_ok_init metadata) Hr) as (ever & Hn & _). cbn [app] in Hn.
  destruct (app_run_ok me cs' _ got ever _ _ Hn Hr') as (ever' & (_ & _ & _ & Hl) & [_ Hev]).
  rewrite El in Hl. destruct Hl as [_ Hk]. destruct Hn as (_ & Hk0 & _). unfold known_ids in *. cbn in *.
  apply elem_of_dom. apply elem_of_dom in Hid. set_solver.
Qed.

End Interference.

(** The discovery of a paired peer, as a run. *)
Definition discovers {C : CryptoLib} (peer : PeerMetadata) (a : PairingAuthenticator) (addr : SocketAddr) : list command :=
  [CAddKnown (PeerCandidate_new peer a); CTask 0 AnsNone;
   CLoopEvent (EvDiscovery (Some (PresenceResponse peer, addr)));
   CLoop; CLoop; CLoop; CLoop; CLoop; CLoop; CLoopEnd].

Lemma discovers_run {C : CryptoLib} {L : CryptoLaws C} me metadata peer a addr : pm_id peer <> me ->
  let c := mkPeerCandidate (pm_id peer) peer {[pm_addr peer]} a in
  exists s, sys_run me (discovers peer a addr) (system_init metadata) = Some s /\
    s_loop s = LoopIdle /\ ch_queue (app_channel (s_mgr s)) = [PeerDiscovered peer] /\
    discovered_peers (s_mgr s) !! pm_id peer = Some c /\ known_peers (s_mgr s) !! pm_id peer = Some c.
Proof.
  intros Hne c. assert (E : PeerId_eqb me (pm_id peer) = false).
  { apply bool_decide_eq_false_2. destruct me, (pm_id peer). cbn. congruence. }
  eassert (Hs : sys_run me (discovers peer a addr) (system_init metadata) = Some _).
  { unfold discovers. sys_go. reflexivity. }
  eexists. split; [exact Hs |]. split_and!; try reflexivity; cbn; by simplify_map_eq.
Qed.

Module InterferenceWitnesses.
Import Sample.

Lemma laptop_is_not_phone : pm_id phone <> id_two.
Proof. discriminate. Qed.

Lemma discoveries_final_witness :
  exists got s, app_run id_two (discovers phone auth (pm_addr phone)) (system_init laptop) = Some (got, s) /\
  let sent := got ++ ch_queue (app_channel (s_mgr s)) in
  NoDup (announced sent) /\
  (forall m, PeerDiscovered m ∈ sent -> exists c, discovered_peers (s_mgr s) !! pm_id m = Some c /\
     pc_metadata c = m /\ pc_addrs c = {[pm_addr m]}) /\
  (s_loop s = LoopIdle -> forall id, is_Some (discovered_peers (s_mgr s) !! id) -> id ∈ announced sent) /\
  (forall cs' s' id c, sys_run id_two cs' s = Some s' -> discovered_peers (s_mgr s) !! id = Some c ->
     discovered_peers (s_mgr s') !! id = Some c /\ lookup_candidate (s_mgr s') id = Some c).
Proof.
  destruct (discovers_run id_two laptop phone auth (pm_addr phone) laptop_is_not_phone) as (s & Hs & _).
  destruct (app_run_sys_run _ _ _ _ Hs) as [got Hg]. exists got, s. split; [exact Hg |].
  exact (discoveries_final id_two laptop _ got s Hg).
Defined.

(** The laptop's pairing with the phone survives the phone's discovery. *)
Lemma paired_peers_kept_witness :
  exists s s', sys_run id_two [CAddKnown phone_candidate; CTask 0 AnsNone] (system_init laptop) = Some s /\
    sys_run id_two (drop 2 (discovers phone auth (pm_addr phone))) s = Some s' /\
    s_loop s' = LoopIdle /\ is_Some (known_peers (s_mgr s') !! id_one).
Proof.
  destruct (discovers_run id_two laptop phone auth (pm_addr phone) laptop_is_not_phone) as (s' & Hs' & El & _).
  eassert (Hs : sys_run id_two [CAddKnown phone_candidate; CTask 0 AnsNone] (system_init laptop) = Some _)
    by reflexivity.
  eexists _, s'. split; [exact Hs |].
  assert (Hr : sys_run id_two (drop 2 (discovers phone auth (pm_addr phone)))
                 (set_mgr (set_known <[id_one := phone_candidate]> (manager_init laptop))
                    (mkSystem (manager_init laptop) LoopIdle [mkTrec [] (TRet tt)] [])) = Some s') by exact Hs'.
  split; [exact Hr |]. split; [exact El |].
  eapply (paired_peers_kept id_two laptop _ _ _ s' id_one Hs Hr); [| exact El].
  exists phone_candidate. apply lookup_insert_eq.
Defined.

End InterferenceWitnesses.
