(* ===== verification/Typing.v ===== *)
(** The node is well typed and its queues are bounded: whatever is received and however the tasks
    interleave, every value the manager holds is one its Rust type can hold, the node advertises nobody
    but itself, and the discovery channel never holds more than its 1024 events.  An instance of
    TaskLogic.v, with the decoder's results ([ProtoFacts.DiscoveryCodec_decode_inv]) at the boundary. *)

From Stdlib Require Import ZArith Lia.
From Stdlib Require Import Strings.Byte.
From stdpp Require Import base tactics numbers option list strings gmap.
From S2P Require Import Prelude RustStd SockAddr SockAddrFacts Errors Pairing Peer Proto ProtoFacts.
From S2P Require Import Handshake HandshakeFacts Manager System TaskLogic Interference Samples.

Section Typing.
Context {U : UnicodeTables} {P : Profile} {C : CryptoLib} {L : CryptoLaws C}.
Context (me : PeerId) (metadata : PeerMetadata).

(** ** Types *)

(** A candidate whose addresses, its own and the stored ones, are addresses. *)
Definition cand_typed (c : PeerCandidate) : Prop :=
  PeerMetadata_wf (pc_metadata c) = true /\ forall a, a ∈ pc_addrs c -> SocketAddr_wf a = true.

(** A discovered one moreover came off the wire: its id is valid and its address has no flow label. *)
Definition found_typed (c : PeerCandidate) : Prop :=
  cand_typed c /\ PeerId_valid (pm_id (pc_metadata c)) = true /\ flowinfo_zero (pm_addr (pc_metadata c)) = true.

Definition event_typed (e : P2pEvent) : Prop :=
  match e with
  | PeerDiscovered m => PeerMetadata_wf m = true
  | PeerConnected p => PeerMetadata_wf (peer_metadata p) = true /\ peer_id p = pm_id (peer_metadata p)
  | PeerDisconnected _ => True
  end.

(** What the node sends to the network: requests, and its own presence. *)
Definition own_event (e : DiscoveryEvent) : Prop := e = PresenceRequest \/ e = PresenceResponse metadata.

Definition manager_typed (m : P2pManager) : Prop :=
  mgr_id m = pm_id metadata /\ mgr_metadata m = metadata /\
  (forall id c, known_peers m !! id = Some c -> cand_typed c) /\
  (forall id c, discovered_peers m !! id = Some c -> found_typed c) /\
  ch_capacity (discovery_channel m) = Some 1024%nat /\
  (length (ch_queue (discovery_channel m)) <= 1024)%nat /\
  Forall own_event (ch_queue (discovery_channel m)) /\ Forall event_typed (ch_queue (app_channel m)).

(** The inputs of the node: the application registers typed candidates, and presence messages are
    what the decoder makes of datagrams. *)
Definition input_typed (c : command) : Prop :=
  match c with
  | CAddKnown c => cand_typed c
  | CLoopEvent (EvDiscovery (Some (e, _))) =>
      exists datagram rest, DiscoveryCodec_decode datagram = Val (Ok (Some e), rest)
  | _ => True
  end.

(** ** The discipline *)

Definition t_pre {X} (h : list act) (o : mop X) : Prop :=
  match o with
  | KnownInsert _ c => cand_typed c
  | DiscoveredInsert _ c => found_typed c
  | ConnectedInsert _ => h <> []
  | DiscoverySend e => own_event e
  | AppSend e => event_typed e
  | _ => True
  end.

Definition t_post {X} (o : mop X) : X -> Prop :=
  match o in mop X return X -> Prop with
  | KnownRemove _ | KnownGet _ | DiscoveredGet _ => fun r => forall c, r = Some c -> cand_typed c
  | GetMetadata => fun m => m = metadata
  | _ => fun _ => True
  end.

#[local] Instance typing : Discipline := {|
  d_inv := manager_typed; d_pre := @t_pre; d_post := @t_post; d_cand := fun _ => cand_typed;
  d_claims := fun m id => id ∈ connected_peers m; d_spawn := fun h _ => h <> []
|}.

(** A send keeps the capacity, and a bounded queue bounded. *)
Lemma chan_send_queue {A} (x : A) c r c' n : chan_send x c = Some (r, c') -> ch_capacity c = Some n ->
  (length (ch_queue c) <= n)%nat -> (length (ch_queue c') <= n)%nat.
Proof.
  unfold chan_send, has_room. intros H Hc Hn. rewrite Hc in H. destruct (negb _); [by simplify_eq |].
  destruct (Nat.ltb_spec (length (ch_queue c)) n); simplify_eq. cbn. rewrite length_app. cbn. lia.
Qed.

Lemma chan_send_Forall {A} (Q : A -> Prop) x c r c' : chan_send x c = Some (r, c') ->
  Q x -> Forall Q (ch_queue c) -> Forall Q (ch_queue c').
Proof.
  unfold chan_send. intros H Hx Hq. destruct (negb _); [| destruct (has_room c)]; simplify_eq; [done |].
  cbn. apply Forall_app. split; [done | by constructor].
Qed.

Lemma t_step {X} h (o : mop X) m x m' : manager_typed m -> t_pre h o -> mop_step o m = Some (x, m') ->
  manager_typed m' /\ t_post o x /\ forall id, id ∈ connected_peers m' -> id ∈ connected_peers m \/ h <> [].
Proof.
  intros (Hi & Hm & Hk & Hd & Hcap & Hlen & Hown & Hev) Ho Hs. unfold manager_typed.
  destruct o; cbn in Hs, Ho |- *;
    try (destruct (chan_send _ _) as [[r0 c0]|] eqn:E in Hs; cbn in Hs; [| done]); simplify_eq; cbn;
    (split; [| split; [first [done | by eauto | by intros c0 Hc0; eapply Hd] | set_solver]]); split_and!; eauto.
  - intros id' c' [[_ <-]|[_ H']]%lookup_insert_Some; eauto.
  - intros id' c' [_ H']%lookup_delete_Some; eauto.
  - intros id' c' [[_ <-]|[_ H']]%lookup_insert_Some; eauto.
  - apply chan_send_keeps in E as [_ E]. congruence.
  - by eapply chan_send_queue.
  - by eapply chan_send_Forall.
  - by eapply chan_send_Forall.
Qed.

#[local] Instance typing_laws : DisciplineLaws typing.
Proof.
  split; [exact @t_step | by intros id [] | | done |].
  - intros h h' id Hh. cbn in *. by destruct h.
  - intros id [c'|] [k|] c Hd Hk E; cbn in *; simplify_eq; auto.
Qed.

(** ** The methods *)

Lemma snoc_nonempty {A} (h t1 : list A) a : h ++ t1 ++ [a] <> [].
Proof. by destruct h, t1. Qed.

Lemma typed_connect h id : ok_task h (connect_to_peer me id).
Proof.
  split; [done |]. intros [] _; [done |]. split; [done |]. intros [c|] Hc; [| done]. intros l.
  induction l as [|a l IH]; [done |]. cbn. intros [conn|e]; [| apply IH]. split.
  - intros t1 id' c' t2 o _ _. apply snoc_nonempty.
  - intros t' [p|e] Hr _; [| done]. apply connect_runs_Ok in Hr as (now & code & _ & -> & _).
    split; [| done]. cbn. by destruct h.
Qed.

Lemma typed_accept h conn : ok_task h (accept_task me conn).
Proof.
  cbn. split.
  - intros t1 id' c' t2 o _ _. apply snoc_nonempty.
  - intros t' [p|e] Hr Ha; [| done]. apply accept_runs_Ok in Hr as (id & peer & now & code & _ & -> & ->).
    assert (Hp : cand_typed peer) by by apply Forall_cons in Ha as [_ [? _]%Forall_cons].
    split; [by destruct h |]. intros [] _. split; [split; [exact (proj1 Hp) | done] |]. by intros [] _.
Qed.

Lemma typed_peer_discovered h peer : PeerId_valid (pm_id peer) = true -> PeerMetadata_wf peer = true ->
  flowinfo_zero (pm_addr peer) = true -> ok_task h (handle_peer_discovered peer).
Proof.
  intros Hid Hw Hf. split; [done |]. intros [] _; [done |]. split; [done |]. intros [] _; [done |].
  split; [done |]. intros [known|] _; [| done].
  assert (Hc : cand_typed (mkPeerCandidate (pm_id peer) peer {[pm_addr peer]} (pc_auth known))).
  { split; [done |]. cbn. by intros a ->%elem_of_singleton. }
  split; [by split_and! |]. intros [] _. split; [done |]. intros [] _. split; [done |]. by intros [] _.
Qed.

Lemma typed_event_loop h ev : input_typed (CLoopEvent ev) -> ok_task h (p2p_event_loop_body me ev).
Proof.
  destruct ev as [[[[|peer] addr]|]|[[]|]|[[conn addr]|e]]; try done.
  - intros _. split; [done |]. intros md ->. split; [by right |]. by intros [] _.
  - intros (datagram & rest & Hd%DiscoveryCodec_decode_typed). destruct Hd as (Hid & Hw & Hf & _).
    cbn -[handle_peer_discovered]. destruct (PeerId_eqb _ _); [done |].
    apply ok_task_bind; [by apply typed_peer_discovered | done].
Qed.

#[local] Instance typing_node : NodeLaws typing me input_typed.
Proof.
  split.
  - intros c Hc. by split.
  - intros id. by apply ok_task_bind; [apply typed_connect |].
  - split; [by left |]. by intros [] _.
  - intros conn. apply typed_accept.
  - intros id. split; [done |]. intros [] _. split; [done |]. by intros [] _.
  - intros ev. apply typed_event_loop.
  - intros m x c Hr (? & ? & ? & ? & ? & ? & ? & Hev). unfold chan_recv in Hr.
    split; [| done].
    destruct (ch_queue (app_channel m)) eqn:E; [destruct (ch_senders _) |]; simplify_eq; split_and!; cbn; rewrite ?E; try done.
    by apply Forall_cons in Hev as [_ ?].
  - intros m x c Hr (? & ? & ? & ? & ? & Hlen & Hown & ?). unfold chan_recv in Hr.
    split; [| done].
    destruct (ch_queue (discovery_channel m)) eqn:E; [destruct (ch_senders _) |]; simplify_eq; split_and!; cbn; rewrite ?E; try done.
    + cbn in Hlen. lia.
    + by apply Forall_cons in Hown as [_ ?].
  - intros m (? & ? & ? & ? & ? & ? & ? & ?). split; [| done]. split_and!; cbn; try done. lia.
Qed.

(** C29.  The node is well typed.  In every run in which the application registers candidates with real
    addresses and presence messages come out of the decoder, whatever bytes were received: id and
    metadata of the manager stay those it was started with; every known candidate holds addresses its
    types can hold; every discovered one also a valid id and an address without flow label, so that it
    can be put on the wire again; every event the application is sent is well typed; and the discovery
    channel holds at most its 1024 events, all of them requests or the node's own presence. *)
Theorem node_well_typed cs s :
  Forall input_typed cs -> sys_run me cs (system_init metadata) = Some s -> manager_typed (s_mgr s).
Proof.
  intros Hi Hr. eapply (node_inv_run (D := typing) cs); [| exact Hi | exact Hr].
  apply node_inv_init; [| set_solver]. cbn. split_and!; cbn; try done; try lia; by constructor.
Qed.

End Typing.

Module TypingWitnesses.
Import Sample.

#[local] Instance profile : Profile := false.

(** The phone's datagram. *)
Lemma phone_datagram : DiscoveryCodec_decode (Wire.discovery (PresenceResponse phone)) =
  Val (Ok (Some (PresenceResponse phone)), []).
Proof.
  pose proof (decode_wire (Item := DiscoveryEvent) (PresenceResponse phone) [] eq_refl) as E.
  by rewrite app_nil_r in E.
Qed.

(** The laptop pairs with the phone and discovers it through that datagram. *)
Lemma node_well_typed_witness :
  exists s, sys_run id_two (discovers phone auth (pm_addr phone)) (system_init laptop) = Some s /\
    manager_typed laptop (s_mgr s).
Proof.
  destruct (discovers_run id_two laptop phone auth (pm_addr phone) ltac:(discriminate)) as (s & Hs & _).
  exists s. split; [exact Hs |]. apply (node_well_typed id_two laptop (discovers phone auth (pm_addr phone)) s); [| exact Hs].
  unfold discovers. repeat (apply Forall_cons_2); try apply Forall_nil_2; try exact I.
  - split; [reflexivity |]. cbn. by intros a Ha%elem_of_empty.
  - exists (Wire.discovery (PresenceResponse phone)), []. exact phone_datagram.
Defined.

End TypingWitnesses.
