(* ===== verification/Locks.v ===== *)
(** The locks inside the manager's maps.

    System.v treats every access to a [DashMap] as atomic and never waiting.  DashMap is sharded: an
    entry that was got is a read guard on its shard, and its documentation says of [insert] that it may
    deadlock while any reference into the map is held.  [connect_to_peer] binds the guard of
    [discovered_peers.get(id)] to [candidate] and holds it until it returns, across the TCP connection
    and the whole handshake; every other guard of the program is a temporary.  Here the node runs with
    these locks.  The shard of an id is a parameter. *)

From Stdlib Require Import ZArith Lia.
From Stdlib Require Import Strings.Byte.
From stdpp Require Import base tactics numbers option list strings gmap.
From S2P Require Import Prelude RustStd SockAddr Errors Pairing Peer Proto Handshake HandshakeFacts.
From S2P Require Import Manager System SystemTheorems Races Samples.

Section Locks.
Context {C : CryptoLib} (shard : PeerId -> nat) (me : PeerId).

(** The node, the tasks that run [connect_to_peer], and the read guards on [discovered_peers] with the
    tasks that hold them. *)
Record locked := mkLocked {
  l_sys : system;
  l_connects : list nat;
  l_guards : list (nat * PeerId)
}.

(** The guard the next access of a program returns: [discovered_peers.get(id)], when the id is there. *)
Definition next_guard (t : task unit) (m : P2pManager) : option PeerId :=
  match t with
  | TMgr o _ =>
      match o with
      | DiscoveredGet id => if decide (is_Some (discovered_peers m !! id)) then Some id else None
      | _ => None
      end
  | _ => None
  end.

(** The event loop waits for the write lock of a shard while a guard on it is held. *)
Definition loop_blocked (l : locked) : bool :=
  match s_loop (l_sys l) with
  | LoopBusy (TMgr o _) =>
      match o with
      | DiscoveredInsert id _ => existsb (fun g => (shard g.2 =? shard id)%nat) (l_guards l)
      | _ => false
      end
  | _ => false
  end.

Definition ended_task (i : nat) (s : system) : bool :=
  match t_prog <$> s_tasks s !! i with Some (TRet _) | Some TPanic => true | _ => false end.

(** The guards after a step of task [i]: those of a task that ended are dropped, and [connect_to_peer]
    keeps the one it got. *)
Definition step_guards (i : nat) (l : locked) (s' : system) : list (nat * PeerId) :=
  if ended_task i s' then filter (fun g => g.1 <> i) (l_guards l)
  else match s_tasks (l_sys l) !! i with
       | Some r =>
           match next_guard (t_prog r) (s_mgr (l_sys l)) with
           | Some id => if decide (i ∈ l_connects l) then (i, id) :: l_guards l else l_guards l
           | None => l_guards l
           end
       | None => l_guards l
       end.

Definition lock_exec (c : command) (l : locked) : option locked :=
  match c with
  | CLoop =>
      if loop_blocked l then None
      else s' ← sys_exec me c (l_sys l); Some (mkLocked s' (l_connects l) (l_guards l))
  | CConnect _ =>
      s' ← sys_exec me c (l_sys l);
      Some (mkLocked s' (length (s_tasks (l_sys l)) :: l_connects l) (l_guards l))
  | CTask i _ =>
      s' ← sys_exec me c (l_sys l); Some (mkLocked s' (l_connects l) (step_guards i l s'))
  | _ => s' ← sys_exec me c (l_sys l); Some (mkLocked s' (l_connects l) (l_guards l))
  end.

Fixpoint lock_run (cs : list command) (l : locked) : option locked :=
  match cs with
  | [] => Some l
  | c :: cs' => l' ← lock_exec c l; lock_run cs' l'
  end.

Definition lock_init (metadata : PeerMetadata) : locked := mkLocked (system_init metadata) [] [].

(** ** Locks only take runs away *)

Lemma lock_exec_sys c l l' : lock_exec c l = Some l' -> sys_exec me c (l_sys l) = Some (l_sys l').
Proof.
  unfold lock_exec. destruct c; try (destruct (loop_blocked l); [done |]);
    (destruct (sys_exec _ _ _) as [s'|]; cbn; [| done]); intros; by simplify_eq.
Qed.

Lemma lock_run_sys cs : forall l l', lock_run cs l = Some l' -> sys_run me cs (l_sys l) = Some (l_sys l').
Proof.
  induction cs as [|c cs IH]; intros l l' H; cbn in *; [by simplify_eq |].
  destruct (lock_exec c l) as [l1|] eqn:E; cbn in H; [| done]. apply lock_exec_sys in E. rewrite E. cbn. by apply IH.
Qed.

(** Without a [connect_to_peer] there are no guards, and no step is lost. *)
Definition not_connect (c : command) : Prop := match c with CConnect _ => False | _ => True end.

Lemma lock_run_free cs : forall l, l_connects l = [] -> l_guards l = [] -> Forall not_connect cs ->
  forall s', sys_run me cs (l_sys l) = Some s' -> lock_run cs l = Some (mkLocked s' [] []).
Proof.
  induction cs as [|c cs IH]; intros [s xs gs] Hc Hg Hf s' Hs; cbn in *; subst; [by simplify_eq |].
  apply Forall_cons in Hf as [Hn Hf]. destruct (sys_exec me c s) as [s1|] eqn:E; cbn in Hs; [| done].
  assert (lock_exec c (mkLocked s [] []) = Some (mkLocked s1 [] [])) as ->; [| by apply (IH (mkLocked s1 [] []))].
  assert (Hb : loop_blocked (mkLocked s [] []) = false).
  { unfold loop_blocked. destruct (s_loop _) as [|[]|]; try done. by destruct o. }
  unfold lock_exec. cbn [l_sys l_connects l_guards]. rewrite E, Hb.
  destruct c; try done. cbn. do 2 f_equal. unfold step_guards. cbn.
  destruct (ended_task _ _); [done |]. destruct (s_tasks s !! i); [| done]. destruct (next_guard _ _); [| done].
  case_decide as Hin; [by apply elem_of_nil in Hin | done].
Qed.

(** ** The loop waits *)

Definition inserting (id : PeerId) (l : loop_state) : Prop :=
  exists c k, l = LoopBusy (TMgr (DiscoveredInsert id c) k).

Definition task_command (i : nat) (c : command) : bool :=
  match c with CTask j _ => bool_decide (i = j) | _ => false end.

Lemma lock_blocked l id i id0 : inserting id (s_loop (l_sys l)) -> (i, id0) ∈ l_guards l -> shard id0 = shard id ->
  loop_blocked l = true.
Proof.
  intros (c & k & E) Hin Hs. unfold loop_blocked. rewrite E. apply existsb_exists. exists (i, id0).
  split; [by apply list_elem_of_In |]. cbn. by apply Nat.eqb_eq.
Qed.

(** Only the holder can drop a guard, and only the loop can leave its access. *)
Lemma lock_step_blocked c l l' id i id0 : lock_exec c l = Some l' -> task_command i c = false ->
  inserting id (s_loop (l_sys l)) -> (i, id0) ∈ l_guards l -> shard id0 = shard id ->
  s_loop (l_sys l') = s_loop (l_sys l) /\ (i, id0) ∈ l_guards l'.
Proof.
  intros He Hi Hins Hin Hs. pose proof (lock_blocked _ _ _ _ Hins Hin Hs) as Hb.
  destruct Hins as (c0 & k & El).
  destruct c as [c|id1| |j ans|ev| | |j r| | |]; cbn -[connect_to_peer sys_exec step_guards] in He.
  all: try (rewrite Hb in He; done).
  all: destruct (sys_exec _ _ _) as [s'|] eqn:E in He; cbn -[step_guards] in He; [| done]; simplify_eq; cbn -[connect_to_peer] in E |- *.
  all: try (rewrite El in E; done).
  - by simplify_eq.
  - by simplify_eq.
  - by simplify_eq.
  - cbn in Hi. apply bool_decide_eq_false in Hi.
    destruct (s_tasks (l_sys l) !! j) as [r|] eqn:Ej; cbn in E; [| done].
    destruct (task_step _ _ _) as [[[[t m] h] sp]|] eqn:Et in E; cbn in E; [| done]. simplify_eq.
    destruct (run_spawn_spec me sp (mkSystem m (s_loop (l_sys l)) (<[j := mkTrec (t_hist r ++ h) t]> (s_tasks (l_sys l)))
                (s_handlers (l_sys l)))) as (_ & Hl & _). split; [exact Hl |].
    unfold step_guards. destruct (ended_task _ _).
    + apply list_elem_of_filter. by split.
    + rewrite Ej. destruct (next_guard _ _); [| done]. case_decide; [by right | done].
  - destruct (s_handlers (l_sys l) !! j) as [[? ?]|]; cbn in E; [| done].
    destruct (handler_body r); by simplify_eq.
  - destruct (chan_recv _) as [[? ?]|] in E; cbn in E; by simplify_eq.
  - destruct (chan_recv _) as [[? ?]|] in E; cbn in E; by simplify_eq.
  - by simplify_eq.
Qed.

Lemma lock_run_blocked cs : forall l l' id i id0, lock_run cs l = Some l' -> Forall (fun c => task_command i c = false) cs ->
  inserting id (s_loop (l_sys l)) -> (i, id0) ∈ l_guards l -> shard id0 = shard id ->
  s_loop (l_sys l') = s_loop (l_sys l) /\ (i, id0) ∈ l_guards l'.
Proof.
  induction cs as [|c cs IH]; intros l l' id i id0 Hr Hf Hins Hin Hs; cbn in Hr; [by simplify_eq |].
  apply Forall_cons in Hf as [Hc Hf]. destruct (lock_exec c l) as [l1|] eqn:E; cbn in Hr; [| done].
  destruct (lock_step_blocked _ _ _ _ _ _ E Hc Hins Hin Hs) as [El Hin1].
  rewrite <- El. eapply IH; [done | done | by rewrite El | done | done].
Qed.

(** Once the loop waits for a guard, it waits until the holder moves. *)
Lemma waits_until_holder_moves l id i id0 : inserting id (s_loop (l_sys l)) -> (i, id0) ∈ l_guards l -> shard id0 = shard id ->
  forall cs l', Forall (fun c => task_command i c = false) cs -> lock_run cs l = Some l' ->
    s_loop (l_sys l') = s_loop (l_sys l) /\ lock_exec CLoop l' = None /\ forall ev, lock_exec (CLoopEvent ev) l' = None.
Proof.
  intros Hins Hin Hs cs l' Hcs Hr. destruct (lock_run_blocked cs _ _ _ _ _ Hr Hcs Hins Hin Hs) as [El Hg].
  split; [exact El |]. rewrite <- El in Hins. split.
  - cbn -[loop_blocked]. by rewrite (lock_blocked l' id i id0).
  - intros ev. destruct Hins as (c & k & E). cbn. by rewrite E.
Qed.

(** ** A reachable wait *)

(** Two paired peers, of which the first is discovered. *)
Definition two_peers (p q : PeerMetadata) (a b : PairingAuthenticator) (addr : SocketAddr) : list command :=
  [CAddKnown (PeerCandidate_new p a); CTask 0 AnsNone; CAddKnown (PeerCandidate_new q b); CTask 1 AnsNone;
   CLoopEvent (EvDiscovery (Some (PresenceResponse p, addr)));
   CLoop; CLoop; CLoop; CLoop; CLoop; CLoop; CLoopEnd].

(** The application connects to it and its address does not answer; then the other's presence arrives. *)
Definition connecting (p q : PeerMetadata) (addr : SocketAddr) : list command :=
  [CConnect (pm_id p); CTask 2 AnsNone; CTask 2 AnsNone; CTask 2 (AnsOrder [pm_addr p]);
   CLoopEvent (EvDiscovery (Some (PresenceResponse q, addr))); CLoop; CLoop; CLoop].

Lemma lock_run_app cs cs' : forall l, lock_run (cs ++ cs') l = l1 ← lock_run cs l; lock_run cs' l1.
Proof.
  induction cs as [|c cs IH]; intros l; [done |]. cbn. destruct (lock_exec c l) as [l1|]; cbn; [apply IH | done].
Qed.

Lemma PeerId_neqb id id' : id <> id' -> PeerId_eqb id id' = false.
Proof. intros H. apply bool_decide_eq_false_2. destruct id, id'. cbn. congruence. Qed.

Lemma lock_run_step c cs l l1 l' : lock_exec c l = Some l1 -> lock_run cs l1 = Some l' -> lock_run (c :: cs) l = Some l'.
Proof. intros H1 H2. cbn. by rewrite H1. Qed.

(** Evaluates a run with locks. *)
Lemma order_one (a : SocketAddr) {X} (x y : X) `{D : !Decision (NoDup [a] /\ ({[a]} ∪ ∅ : gset SocketAddr) = {[a]})} :
  (if decide (NoDup [a] /\ ({[a]} ∪ ∅ : gset SocketAddr) = {[a]}) then x else y) = x.
Proof. apply decide_True. split; [apply NoDup_singleton | set_solver]. Qed.
Lemma found_guard {A} (c : A) {X} (x y : X) `{D : !Decision (is_Some (Some c))} :
  (if decide (is_Some (Some c)) then x else y) = x.
Proof. by apply decide_True; eauto. Qed.
Lemma one_connect (i : nat) {X} (x y : X) `{D : !Decision (i ∈ [i])} : (if decide (i ∈ [i]) then x else y) = x.
Proof. apply decide_True. by constructor. Qed.

Ltac lock_go :=
  repeat (progress (unfold lock_exec, step_guards, next_guard, ended_task, loop_blocked; sys_go;
    rewrite ?lookup_insert_ne, ?lookup_delete_ne, ?order_one, ?found_guard, ?one_connect by done)).

#[local] Arguments connect : simpl never.

Section Reachable.
Context {L : CryptoLaws C} (Paired : PeerId -> PairingAuthenticator -> Prop).

(** After [two_peers]: the first peer is discovered, the second known, nobody connected. *)
Lemma two_peers_run metadata p q a b addr : pm_id p <> me -> pm_id p <> pm_id q ->
  exists m r0 r1 c, sys_run me (two_peers p q a b addr) (system_init metadata) = Some (mkSystem m LoopIdle [r0; r1] []) /\
    connected_peers m = ∅ /\ discovered_peers m !! pm_id p = Some c /\ pc_addrs c = {[pm_addr p]} /\
    discovered_peers m !! pm_id q = None /\ is_Some (known_peers m !! pm_id q).
Proof.
  intros Hp Hpq. pose proof (PeerId_neqb _ _ (not_eq_sym Hp)) as E.
  eassert (Hs : sys_run me (two_peers p q a b addr) (system_init metadata) = Some _).
  { unfold two_peers. repeat (sys_go; rewrite ?lookup_insert_ne by done). reflexivity. }
  do 4 eexists. split; [exact Hs |]. cbn -[lookup insert delete]. split; [done |].
  rewrite lookup_insert_eq, !lookup_insert_ne by done. split; [done |]. split; [done |]. split; [apply lookup_empty |].
  rewrite ?lookup_delete_ne, ?lookup_insert_eq by done. eauto.
Qed.

(** From such a state [connecting] leads to the wait. *)
Lemma connecting_run p q addr m r0 r1 c : pm_id q <> me -> pm_id p <> pm_id q -> shard (pm_id p) = shard (pm_id q) ->
  connected_peers m = ∅ -> discovered_peers m !! pm_id p = Some c -> pc_addrs c = {[pm_addr p]} ->
  discovered_peers m !! pm_id q = None -> is_Some (known_peers m !! pm_id q) ->
  exists l, lock_run (connecting p q addr) (mkLocked (mkSystem m LoopIdle [r0; r1] []) [] []) = Some l /\
    l_guards l = [(2%nat, pm_id p)] /\ lookup_candidate (s_mgr (l_sys l)) (pm_id q) = None /\
    inserting (pm_id q) (s_loop (l_sys l)).
Proof.
  intros Hq Hpq Hsh Hcon Hdp Hadd Hdq [cq Hkq]. pose proof (PeerId_neqb _ _ (not_eq_sym Hq)) as E.
  eexists. split.
  - unfold connecting.
    do 8 (eapply lock_run_step; [repeat (progress (lock_go; rewrite ?Hcon, ?Hdp, ?Hdq, ?Hkq, ?Hadd)); reflexivity |]).
    reflexivity.
  - split; [reflexivity |]. split; [| by do 2 eexists].
    unfold lookup_candidate. cbn -[lookup delete]. by rewrite Hdq, lookup_delete_eq.
Qed.

(** C37.  With locks, the manager can hang.  The event loop can come to wait for the shard of a newly discovered
    peer while a [connect_to_peer] holds a guard on that shard: for any two paired peers on one shard, of
    which the first is being connected to and does not answer.  From there on, for as long as that
    connection attempt makes no step, in every continuation, the event loop stays where it is: no
    connection is accepted, no presence request answered, no further peer discovered, and the paired peer
    that was just heard of is no candidate. *)
Theorem event_loop_waits_for_connect metadata p q a b addr :
  pm_id p <> me -> pm_id q <> me -> pm_id p <> pm_id q -> shard (pm_id p) = shard (pm_id q) ->
  Paired (pm_id p) a -> Paired (pm_id q) b ->
  exists l, lock_run (two_peers p q a b addr ++ connecting p q addr) (lock_init metadata) = Some l /\
    reachable me Paired metadata (l_sys l) /\ l_guards l = [(2%nat, pm_id p)] /\
    lookup_candidate (s_mgr (l_sys l)) (pm_id q) = None /\
    forall cs l', Forall (fun c => task_command 2 c = false) cs -> lock_run cs l = Some l' ->
      s_loop (l_sys l') = s_loop (l_sys l) /\ lock_exec CLoop l' = None /\
      forall ev, lock_exec (CLoopEvent ev) l' = None.
Proof.
  intros Hp Hq Hpq Hsh Hpa Hqb.
  destruct (two_peers_run metadata p q a b addr Hp Hpq) as (m & r0 & r1 & c & Hs & Hcon & Hdp & Hadd & Hdq & Hkq).
  destruct (connecting_run p q addr m r0 r1 c Hq Hpq Hsh Hcon Hdp Hadd Hdq Hkq) as (l & Hl & Hg & Hlook & Hins).
  assert (Hrun : lock_run (two_peers p q a b addr ++ connecting p q addr) (lock_init metadata) = Some l).
  { rewrite lock_run_app. by rewrite (lock_run_free (two_peers p q a b addr) (lock_init metadata) eq_refl eq_refl
      ltac:(by repeat constructor) _ Hs). }
  exists l. split; [exact Hrun |]. split_and!; [| exact Hg | exact Hlook |].
  - apply lock_run_sys in Hrun. eapply reachable_run; [constructor | | exact Hrun]. by repeat constructor.
  - apply (waits_until_holder_moves _ (pm_id q) 2 (pm_id p)); [exact Hins | rewrite Hg; by apply list_elem_of_singleton | done].
Qed.

End Reachable.
End Locks.

(** Where the runs with locks lie among the runs.  Every run with locks is a run of System.v from the
    same state to the same state, so everything proved of all runs holds with the locks; and a run in
    which the application never calls [connect_to_peer] is not hindered by them, in any shard layout. *)
Theorem locks_refine {C : CryptoLib} (shard : PeerId -> nat) (me : PeerId) metadata cs :
  (forall l, lock_run shard me cs (lock_init metadata) = Some l ->
     sys_run me cs (system_init metadata) = Some (l_sys l)) /\
  (Forall not_connect cs -> forall s, sys_run me cs (system_init metadata) = Some s ->
     lock_run shard me cs (lock_init metadata) = Some (mkLocked s [] [])).
Proof.
  split.
  - intros l. apply lock_run_sys.
  - intros Hcs s Hs. by apply lock_run_free.
Qed.

Module LockWitnesses.
Import Sample.

(** A tablet, the second peer paired with the laptop. *)
Definition tablet : PeerMetadata :=
  mkPeerMetadata (pm_name phone) AppleiPad (id_of "ABCDEFGHIJABCDEFGHIJABCDEFGHIJABCDEFGHIJ" eq_refl) (pm_addr phone).

Definition paired_two (id : PeerId) (a : PairingAuthenticator) : Prop := a = auth.

(** A layout that puts both peers on one shard. *)
Lemma event_loop_waits_for_connect_witness :
  exists l, lock_run (fun _ => 0%nat) id_two (two_peers phone tablet auth auth (pm_addr phone) ++ connecting phone tablet (pm_addr phone))
              (lock_init laptop) = Some l /\
    reachable id_two paired_two laptop (l_sys l) /\ l_guards l = [(2%nat, id_one)] /\
    lookup_candidate (s_mgr (l_sys l)) (pm_id tablet) = None /\
    forall cs l', Forall (fun c => task_command 2 c = false) cs -> lock_run (fun _ => 0%nat) id_two cs l = Some l' ->
      s_loop (l_sys l') = s_loop (l_sys l) /\ lock_exec (fun _ => 0%nat) id_two CLoop l' = None /\
      forall ev, lock_exec (fun _ => 0%nat) id_two (CLoopEvent ev) l' = None.
Proof.
  apply (event_loop_waits_for_connect (fun _ => 0%nat) id_two paired_two laptop phone tablet auth auth (pm_addr phone));
    [discriminate | discriminate | discriminate | reflexivity | reflexivity | reflexivity].
Defined.

End LockWitnesses.
