(* ===== verification/Transport.v ===== *)
(** What the program uses of tokio-util: [Framed::into_inner], and the stream of a [UdpFramed].

    Both are code of another crate, so they are parameters (class [TokioUtil]); what the theorems need of
    them is documented behaviour (class [TokioUtilLaws]).  [Tokio_sketch] is an instance, for witnesses. *)

From Stdlib Require Import ZArith Lia.
From Stdlib Require Import Strings.Byte.
From stdpp Require Import base tactics numbers option list.
From S2P Require Import Prelude SockAddr Errors.

(** The state of a [UdpFramed] is abstract; [UdpFramed_next] is [reader.next()] on the datagrams the socket
    has, for a decoder (which may panic): what it gives, and the datagrams left.  [None] is waiting. *)
Class TokioUtil := {
  into_inner : list byte -> list byte -> list byte;
  UdpFramed : Type;
  UdpFramed_new : UdpFramed;
  UdpFramed_next : forall {Item : Type}, bufio ParseError (option Item) -> UdpFramed -> list (list byte * SocketAddr) ->
    option (panicking (option (Result ParseError (Item * SocketAddr))) * UdpFramed * list (list byte * SocketAddr))
}.

(** [into_inner], of the unread bytes of the stream and those [Framed] has read, is documented to return the
    stream alone.  A [UdpFramed] is documented to decode each datagram to a frame, given with its sender:
    when nothing of an earlier datagram is left, one that holds exactly one frame gives that frame. *)
Class TokioUtilLaws (T : TokioUtil) := {
  into_inner_stream : forall stream buffer, into_inner stream buffer = stream;
  between_datagrams : UdpFramed -> Prop;
  between_new : between_datagrams UdpFramed_new;
  next_whole : forall Item (dec : bufio ParseError (option Item)) u bytes from q e,
    between_datagrams u -> dec [] = Val (Ok None, []) -> dec bytes = Val (Ok (Some e), []) ->
    exists u', UdpFramed_next dec u ((bytes, from) :: q) = Some (Val (Some (Ok (e, from))), u', q) /\ between_datagrams u'
}.

(** ** An instance *)

Module Tokio_sketch.

(** The buffer with the rest of a datagram, and its sender. *)
Definition udp_state : Type := option (list byte * SocketAddr).

(** Decoding what is in the buffer, to its end; [None] when it is empty. *)
Definition decode_rest {Item} (dec : bufio ParseError (option Item)) (rd : list byte) (from : SocketAddr)
  : option (panicking (option (Result ParseError (Item * SocketAddr))) * udp_state) :=
  match dec rd with
  | Panic => Some (Panic, None)
  | Val (Ok (Some e), rd') => Some (Val (Some (Ok (e, from))), Some (rd', from))
  | Val (Ok None, []) => None
  | Val (Ok None, rd') => Some (Val (Some (Err (IOError (mkIoError 0)))), Some (rd', from))
  | Val (Err err, rd') => Some (Val (Some (Err err)), Some (rd', from))
  end.

Fixpoint from_socket {Item} (dec : bufio ParseError (option Item)) (q : list (list byte * SocketAddr))
  : option (panicking (option (Result ParseError (Item * SocketAddr))) * udp_state * list (list byte * SocketAddr)) :=
  match q with
  | [] => None
  | (bytes, from) :: q' =>
      match decode_rest dec bytes from with
      | Some (r, u) => Some (r, u, q')
      | None => from_socket dec q'
      end
  end.

#[export] Instance tokio : TokioUtil := {|
  into_inner := fun stream _ => stream;
  UdpFramed := udp_state;
  UdpFramed_new := None;
  UdpFramed_next := fun Item dec u q =>
    match (u ≫= fun '(rd, from) => decode_rest dec rd from) with
    | Some (r, u') => Some (r, u', q)
    | None => from_socket dec q
    end
|}.

#[export] Instance tokio_laws : TokioUtilLaws tokio.
Proof.
  refine (Build_TokioUtilLaws tokio _ (fun u => match u with Some (rd, _) => rd = [] | None => True end) I _); [done |].
  intros Item dec u bytes from q e Hu Hnil Hdec. exists (Some ([], from)). split; [| done]. cbn.
    assert (E : (u ≫= fun '(rd, from) => decode_rest dec rd from) = None).
    { destruct u as [[rd f]|]; [| done]. cbn. rewrite Hu. unfold decode_rest. by rewrite Hnil. }
    rewrite E. unfold decode_rest. by rewrite Hdec.
Defined.

End Tokio_sketch.
