(* ===== verification/Discovery.v ===== *)
(** Discovery over UDP multicast, and the start of the manager: crate/p2p/src/discovery.rs
    ([multicast], the task of [start]) and [P2pManager::new] of manager.rs.

    The calls into the operating system are a record [Os] of their results.  The discovery task is a
    loop; [discovery_body] is one round of its [select!], with what the round received, and
    [discovery_run] a sequence of rounds. *)

From Stdlib Require Import ZArith Lia.
From Stdlib Require Import Strings.Byte.
From stdpp Require Import base tactics numbers option list gmap.
From S2P Require Import Prelude RustStd SockAddr Errors Pairing Peer Proto Handshake Manager System.

(** [DISCOVERY_MULTICAST]: 239.255.42.98. *)
Definition DISCOVERY_MULTICAST : Ipv4Addr := mkIpv4 xef xff x2a x62.

(** [IpAddr::is_multicast] of an address: 224.0.0.0/4, ff00::/8. *)
Definition is_multicast (a : SocketAddr) : bool :=
  match a with
  | V4 ip _ => (224 <=? byte_to_Z (oct0 ip)) && (byte_to_Z (oct0 ip) <=? 239)
  | V6 ip _ _ _ => match segments ip with s :: _ => Z.shiftr s 8 =? 255 | [] => false end
  end.

(** The system calls of [multicast] and [P2pManager::new], with their results; sockets are numbers. *)
Record Os := mkOs {
  os_socket : Result io_Error Z;
  os_set_reuse_address : Z -> Result io_Error unit;
  os_bind : Z -> SocketAddr -> Result io_Error unit;
  os_set_multicast_loop_v4 : Z -> Result io_Error unit;
  os_join_multicast_v4 : Z -> Ipv4Addr -> Ipv4Addr -> Result io_Error unit;
  os_set_nonblocking : Z -> Result io_Error unit;
  os_udp_from_std : Z -> Result io_Error Z;
  os_tcp_bind : SocketAddr -> Result io_Error Z;
  os_local_addr : Z -> Result io_Error SocketAddr
}.

(** [discovery::multicast]: the [assert!] panics. *)
Definition multicast (os : Os) (addr multi_addr : SocketAddr) : panicking (Result io_Error (Z * SocketAddr)) :=
  if negb (is_multicast multi_addr) then Panic
  else Val (
    socket ← os_socket os;
    _ ← os_set_reuse_address os socket;
    _ ← os_bind os socket addr;
    _ ← os_set_multicast_loop_v4 os socket;
    _ ← match addr, multi_addr with
        | V4 a _, V4 m _ => os_join_multicast_v4 os socket m a
        | _, _ => mret tt
        end;
    _ ← os_set_nonblocking os socket;
    udp ← os_udp_from_std os socket;
    mret (udp, multi_addr)).

Section Discovery.
Context {U : UnicodeTables} {P : Profile} {C : CryptoLib}.

(** [P2pManager::new]: the manager, with the UDP socket and the multicast address its discovery task
    gets, and the TCP listener its event loop gets.  The listener's address is asked twice in the
    source, once for a log line. *)
Definition P2pManager_new (os : Os) (config : P2pConfig)
  : panicking (Result InitError (P2pManager * (Z * SocketAddr) * Z)) :=
  let local := V4 Ipv4Addr_LOCALHOST (SocketAddr_port (cfg_multicast config)) in
  discover ← multicast os local (cfg_multicast config);
  mret (
    discover ← map_err Net discover;
    listener ← map_err Net (os_tcp_bind os (cfg_p2p_addr config));
    addr ← map_err Net (os_local_addr os listener);
    let metadata := {| pm_id := cfg_id config; pm_typ := cfg_device config; pm_name := cfg_name config; pm_addr := addr |} in
    mret ({| mgr_id := cfg_id config; mgr_metadata := metadata;
             known_peers := ∅; discovered_peers := ∅; connected_peers := ∅;
             discovery_channel := channel_bounded 1024;
             internal_channel := channel_unbounded; app_channel := channel_unbounded |}, discover, listener)).

(** ** The discovery task *)

(** What one round of the [select!] of [start] receives: a message of the node to broadcast, with
    the result of writing it to the socket, or what the framed socket gives (the decoder may panic). *)
Inductive DiscRound : Type :=
| Broadcast (event : option DiscoveryEvent) (written : Result io_Error unit)
| Network (frame : panicking (option (Result ParseError (DiscoveryEvent * SocketAddr)))).

(** The variables of the task and its side of the channel to the event loop, with the datagrams
    written so far. *)
Record Disc := mkDisc {
  just_send_request : bool;
  transport_tx : channel (DiscoveryEvent * SocketAddr);
  datagrams : list (list byte * SocketAddr)
}.

(** [writer.send((event, addr)).await]: the encoder runs first, and may panic. *)
Definition writer_send (event : DiscoveryEvent) (addr : SocketAddr) (written : Result io_Error unit) (d : Disc)
  : panicking Disc :=
  match DiscoveryCodec_encode event [] with
  | Panic => Panic
  | Val (Err _, _) => Val d
  | Val (Ok _, bytes) =>
      match written with
      | Ok _ => Val (mkDisc (just_send_request d) (transport_tx d) (datagrams d ++ [(bytes, addr)]))
      | Err _ => Val d
      end
  end.

(** One round; [None] is waiting for room in the channel to the event loop. *)
Definition discovery_body (local_addr addr : SocketAddr) (round : DiscRound) (d : Disc)
  : option (panicking (LoopCtl * Disc)) :=
  match round with
  | Broadcast (Some event) written =>
      let d := match event with
               | PresenceRequest => mkDisc true (transport_tx d) (datagrams d)
               | PresenceResponse _ => d
               end in
      Some (d ← writer_send event addr written d; mret (Continue, d))
  | Broadcast None _ => Some (Val (Break, d))
  | Network Panic => Some Panic
  | Network (Val None) => Some (Val (Continue, d))
  | Network (Val (Some (Err _))) => Some (Val (Continue, d))
  | Network (Val (Some (Ok frame))) =>
      let own := match frame with (PresenceRequest, from) => bool_decide (local_addr = from) | _ => false end in
      if just_send_request d && own then Some (Val (Continue, mkDisc false (transport_tx d) (datagrams d)))
      else
        '(r, tx) ← chan_send frame (transport_tx d);
        let d := mkDisc (just_send_request d) tx (datagrams d) in
        Some (Val (match r with Ok _ => Continue | Err _ => Break end, d))
  end.

(** Rounds until the task ends; [None] when a round waits forever. *)
Fixpoint discovery_run (local_addr addr : SocketAddr) (rounds : list DiscRound) (d : Disc)
  : option (panicking (LoopCtl * Disc)) :=
  match rounds with
  | [] => Some (Val (Continue, d))
  | r :: rounds' =>
      match discovery_body local_addr addr r d with
      | Some (Val (Continue, d')) => discovery_run local_addr addr rounds' d'
      | o => o
      end
  end.

(** The task as it starts. *)
Definition disc_init : Disc := mkDisc false (channel_bounded 1024) [].

End Discovery.
