(* ===== verification/DiscoveryTheorems.v ===== *)
(** Properties of discovery: the start of the manager, the suppression of the node's own requests,
    the way of a presence response from one node into the manager of another, and what a malformed
    datagram does to a node. *)

From Stdlib Require Import ZArith Lia.
From Stdlib Require Import Strings.Byte.
From stdpp Require Import base tactics numbers option list strings gmap.
From S2P Require Import Prelude RustStd SockAddr Errors Pairing Peer Proto ProtoFacts Handshake Manager.
From S2P Require Import Transport ManagerTheorems System Discovery Samples.

Section Start.
Context {C : CryptoLib}.

(** Starting the manager: it panics exactly when the configured address is not multicast (and
    never reports [NotMulticast]); every error is an error of the operating system; and on success
    the manager is empty, has the configured id and advertises the address it listens on. *)
Theorem manager_start (os : Os) (config : P2pConfig) :
  (P2pManager_new os config = Panic <-> is_multicast (cfg_multicast config) = false) /\
  (forall e, P2pManager_new os config = Val (Err e) -> exists io, e = Net io) /\
  (forall m discover listener, P2pManager_new os config = Val (Ok (m, discover, listener)) ->
     exists addr, os_local_addr os listener = Ok addr /\ os_tcp_bind os (cfg_p2p_addr config) = Ok listener /\
       snd discover = cfg_multicast config /\
       m = manager_init (mkPeerMetadata (cfg_name config) (cfg_device config) (cfg_id config) addr)).
Proof.
  unfold P2pManager_new, multicast. destruct (is_multicast (cfg_multicast config)) eqn:Em; cbn -[mbind].
  2: { split_and!; done. }
  split_and!; [done | |].
  - intros e [= H]. repeat (apply result_bind_Err in H as [H | (? & _ & H)]); try (apply map_err_Err in H as (io & _ & ->); eauto).
    done.
  - intros m discover listener [= H]. res_inv. injection H as <- <- <-. eexists. split_and!; try done.
    by match goal with H : mret _ = Ok _ |- _ => injection H as <- end.
Qed.

End Start.

Section Echo.
Context {U : UnicodeTables} {P : Profile} {C : CryptoLib}.
Context (local_addr addr : SocketAddr).

(** The node's own request, as the socket gives it back. *)
Definition own_request : DiscoveryEvent * SocketAddr := (PresenceRequest, local_addr).
Definition send_request : DiscRound := Broadcast (Some PresenceRequest) (Ok tt).
Definition echo : DiscRound := Network (Val (Some (Ok own_request))).
Definition request_datagram : list byte * SocketAddr := (Wire.discovery PresenceRequest, addr).

Lemma discovery_run_app l1 l2 d d' : discovery_run local_addr addr l1 d = Some (Val (Continue, d')) ->
  discovery_run local_addr addr (l1 ++ l2) d = discovery_run local_addr addr l2 d'.
Proof.
  revert d. induction l1 as [|r l1 IH]; intros d H; cbn in *; [by simplify_eq |].
  destruct (discovery_body local_addr addr r d) as [[[[] d1]|]|]; try done. by apply IH.
Qed.

Lemma send_request_round d :
  discovery_body local_addr addr send_request d =
    Some (Val (Continue, mkDisc true (transport_tx d) (datagrams d ++ [request_datagram]))).
Proof.
  cbn. unfold writer_send.
  rewrite (DiscoveryCodec_encode_wire PresenceRequest []) by done. done.
Qed.

Lemma send_requests n : forall d, (0 < n)%nat ->
  discovery_run local_addr addr (replicate n send_request) d =
    Some (Val (Continue, mkDisc true (transport_tx d) (datagrams d ++ replicate n request_datagram))).
Proof.
  induction n as [|n IH]; intros d Hn; [lia |]. cbn [replicate discovery_run]. rewrite send_request_round.
  destruct n as [|n]; [done |]. rewrite IH by lia. cbn. by rewrite <- app_assoc.
Qed.

(** A round that forwards a frame to the event loop. *)
Lemma forward_round d f tx : just_send_request d = false -> chan_send f (transport_tx d) = Some (Ok tt, tx) ->
  discovery_body local_addr addr (Network (Val (Some (Ok f)))) d = Some (Val (Continue, mkDisc false tx (datagrams d))).
Proof. intros Hj Hs. cbn. by rewrite Hj, Hs. Qed.

Lemma forward_echoes n : forall d cap, just_send_request d = false -> ch_receiver (transport_tx d) = true ->
  ch_capacity (transport_tx d) = Some cap -> (length (ch_queue (transport_tx d)) + n <= cap)%nat ->
  discovery_run local_addr addr (replicate n echo) d =
    Some (Val (Continue, mkDisc false
      (mkChannel (ch_queue (transport_tx d) ++ replicate n own_request) (Some cap) true (ch_senders (transport_tx d)))
      (datagrams d))).
Proof.
  induction n as [|n IH]; intros d cap Hj Hr Hc Hl; destruct d as [j [q c r s] dg]; cbn in Hj, Hr, Hc, Hl; subst.
  - cbn. by rewrite app_nil_r.
  - cbn [replicate discovery_run]. unfold echo at 1. erewrite forward_round; [| done |].
    2: { unfold chan_send, has_room. cbn -[Nat.ltb]. rewrite (proj2 (Nat.ltb_lt _ _)) by lia. done. }
    rewrite (IH _ cap); cbn; [| done | done | done | rewrite length_app; cbn; lia].
    by rewrite <- app_assoc.
Qed.

(** The node does not answer itself: when every request is echoed before the next one is sent,
    none of the echoes reaches the event loop, however many requests there are. *)
Theorem own_requests_suppressed n :
  discovery_run local_addr addr (concat (replicate n [send_request; echo])) disc_init =
    Some (Val (Continue, mkDisc false (channel_bounded 1024) (replicate n request_datagram))).
Proof.
  assert (H : forall d, just_send_request d = false ->
    discovery_run local_addr addr (concat (replicate n [send_request; echo])) d =
      Some (Val (Continue, mkDisc false (transport_tx d) (datagrams d ++ replicate n request_datagram)))).
  { induction n as [|n IH]; intros d Hj; [destruct d; cbn in *; subst; by rewrite app_nil_r |].
    cbn [replicate concat app discovery_run]. rewrite send_request_round. cbn [discovery_body].
    unfold echo at 1. cbn. rewrite bool_decide_eq_true_2 by done. cbn. rewrite IH by done. cbn. by rewrite <- app_assoc. }
  by rewrite H.
Qed.

(** C40.  It does when requests overlap: of [n] requests sent before their echoes come back, only the
    first echo is dropped, and the other [n - 1] reach the event loop as requests of somebody. *)
Theorem overlapping_requests_answered n : (0 < n <= 1024)%nat ->
  discovery_run local_addr addr (replicate n send_request ++ replicate n echo) disc_init =
    Some (Val (Continue, mkDisc false
      (mkChannel (replicate (n - 1) own_request) (Some 1024%nat) true true) (replicate n request_datagram))).
Proof.
  intros Hn. erewrite discovery_run_app by (apply send_requests; lia).
  destruct n as [|n]; [lia |]. rewrite Nat.sub_succ, Nat.sub_0_r. cbn [replicate discovery_run].
  unfold echo at 1. cbn -[replicate Nat.ltb]. rewrite bool_decide_eq_true_2 by done. cbn -[replicate].
  by rewrite (forward_echoes n _ 1024) by (cbn; done || lia).
Qed.

End Echo.

Section EndToEnd.
Context {U : UnicodeTables} {P : Profile} {C : CryptoLib}.

(** A frame that is not a request goes to the event loop. *)
Lemma response_round local addr md from d : ch_receiver (transport_tx d) = true -> has_room (transport_tx d) = true ->
  discovery_body local addr (Network (Val (Some (Ok (PresenceResponse md, from))))) d =
    Some (Val (Continue, mkDisc (just_send_request d)
      (mkChannel (ch_queue (transport_tx d) ++ [(PresenceResponse md, from)]) (ch_capacity (transport_tx d)) true
         (ch_senders (transport_tx d))) (datagrams d))).
Proof. intros Hr Hroom. cbn. rewrite andb_false_r. unfold chan_send. rewrite Hr, Hroom. reflexivity. Qed.

(** C18.  Presence, end to end, from one node's discovery task through the other's into its manager.  The sender
    advertises metadata the protocol can carry (those of a started node are not: [node_presence_panics_receivers]):
    its round writes one datagram.  At a receiver whose [UdpFramed] holds nothing of an earlier datagram and whose
    channel to the event loop is open and empty, the next round takes exactly this datagram and puts the
    response into the channel, and the event loop receives it from there.  If the receiver is another node, paired
    with the sender, not connected to it, and has not discovered it, its round of the event loop makes the sender
    discovered, at the advertised address and with the authenticator of the pairing, and tells the application. *)
Theorem presence_reaches_manager {T : TokioUtil} {TL : TokioUtilLaws T}
  local group local' group' from me w m known md sender receiver u rest :
  DiscoveryEvent_wf (PresenceResponse md) = true ->
  between_datagrams u -> ch_receiver (transport_tx receiver) = true -> has_room (transport_tx receiver) = true ->
  ch_queue (transport_tx receiver) = [] ->
  ch_capacity (app_channel m) = None -> ch_receiver (app_channel m) = true ->
  pm_id md <> me -> pm_id md ∉ connected_peers m -> discovered_peers m !! pm_id md = None ->
  known_peers m !! pm_id md = Some known ->
  exists bytes item u' receiver' ev tx m',
    discovery_body local group (Broadcast (Some (PresenceResponse md)) (Ok tt)) sender =
      Some (Val (Continue, mkDisc (just_send_request sender) (transport_tx sender) (datagrams sender ++ [(bytes, group)]))) /\
    UdpFramed_next DiscoveryCodec_decode u ((bytes, from) :: rest) = Some (item, u', rest) /\ between_datagrams u' /\
    discovery_body local' group' (Network item) receiver = Some (Val (Continue, receiver')) /\
    chan_recv (transport_tx receiver') = Some (ev, tx) /\ ch_queue tx = [] /\
    exec w (p2p_event_loop_body me (EvDiscovery ev)) m = Some (Val Continue, [], m') /\
    lookup_candidate m' (pm_id md) = Some (mkPeerCandidate (pm_id md) md {[pm_addr md]} (pc_auth known)) /\
    is_Some (discovered_peers m' !! pm_id md) /\
    ch_queue (app_channel m') = ch_queue (app_channel m) ++ [PeerDiscovered md].
Proof.
  intros Hwf Hu Hr Hroom Hq Hc Ha Hne Hnc Hd Hk.
  assert (Hd' : discovered_peers (after_presence md m) !! pm_id md = Some (candidate_of md known) /\
                ch_queue (app_channel (after_presence md m)) = ch_queue (app_channel m) ++ [PeerDiscovered md]).
  { unfold after_presence. rewrite decide_False by done. rewrite Hd, Hk. unfold app_notified. cbn. rewrite Ha. cbn.
    by rewrite lookup_insert_eq. }
  destruct Hd' as [Hd' Hq'].
  destruct (next_whole _ DiscoveryCodec_decode u (Wire.discovery (PresenceResponse md)) from rest (PresenceResponse md) Hu)
    as (u' & Hn & Hu'); [reflexivity | |].
  { rewrite <- (app_nil_r (Wire.discovery _)). by apply DiscoveryCodec_decode_wire. }
  eexists (Wire.discovery (PresenceResponse md)), _, u', _, (Some (PresenceResponse md, from)), _, (after_presence md m).
  split_and!; [| exact Hn | exact Hu' | by apply response_round | | | | | | exact Hq'].
  - cbn. unfold writer_send. by rewrite (DiscoveryCodec_encode_wire (PresenceResponse md) []) by done.
  - cbn. unfold chan_recv. cbn. by rewrite Hq.
  - done.
  - cbn -[handle_peer_discovered]. unfold PeerId_eqb. rewrite bool_decide_eq_false_2.
    + by rewrite (exec_bind _ _ _ _ tt [] (after_presence md m)) by by apply exec_peer_discovered.
    + intros E. destruct me, (pm_id md). cbn in E. congruence.
  - unfold lookup_candidate. by rewrite Hd'.
  - by rewrite Hd'.
Qed.

Lemma run_spawn_loop me sp : forall s, s_loop (run_spawn me sp s) = s_loop s.
Proof. unfold run_spawn. induction sp as [|[] sp IH]; intros s; cbn; [done | by rewrite IH..]. Qed.

(** Nothing restarts the event loop. *)
Lemma stopped_step me c s s' : s_loop s = LoopStopped -> sys_exec me c s = Some s' -> s_loop s' = LoopStopped.
Proof.
  intros Hl He. destruct c; cbn -[connect_to_peer] in He; rewrite ?Hl in He; simplify_eq; try done.
  - destruct (s_tasks s !! i) as [r|]; cbn in He; [| done].
    destruct (task_step _ _ _) as [[[[t m] h] sp]|] in He; cbn in He; [| done]. simplify_eq. by rewrite run_spawn_loop.
  - destruct (s_handlers s !! i) as [[id conn]|]; cbn in He; [| done]. by destruct (handler_body r); simplify_eq.
  - destruct (chan_recv _) as [[? ?]|] in He; cbn in He; by simplify_eq.
  - destruct (chan_recv _) as [[? ?]|] in He; cbn in He; by simplify_eq.
Qed.

Lemma stopped_run me cs : forall s s', s_loop s = LoopStopped -> sys_run me cs s = Some s' -> s_loop s' = LoopStopped.
Proof.
  induction cs as [|c cs IH]; intros s s' Hl Hr; cbn [sys_run] in Hr; [by simplify_eq |].
  destruct (sys_exec me c s) as [s2|] eqn:E; cbn in Hr; [| done]. eapply IH; [| exact Hr]. by eapply stopped_step.
Qed.

(** A well-formed header with nothing behind it. *)
Definition truncated : list byte := SIGNATURE ++ [x00; x05; x01].

(** C25.  One datagram stops the node: the five bytes 40 40 00 05 01 make the discovery task panic; the
    event loop then finds its channel closed and ends, and no further step of the node, nor any
    connection, starts it again. *)
Theorem one_datagram_stops_node local addr me d (tx : channel (DiscoveryEvent * SocketAddr)) s :
  ch_queue tx = [] -> s_loop s = LoopIdle ->
  let frame := match DiscoveryCodec_decode truncated with
               | Val (Ok (Some e), _) => Val (Some (Ok (e, addr)))
               | Val (Ok None, _) => Val None
               | Val (Err e, _) => Val (Some (Err e))
               | Panic => Panic
               end in
  discovery_body local addr (Network frame) d = Some Panic /\
  chan_recv (drop_sender tx) = Some (None, drop_sender tx) /\
  exists s', sys_run me [CLoopEvent (EvDiscovery None); CLoopEnd] s = Some s' /\
    forall cs s'', sys_run me cs s' = Some s'' -> s_loop s'' = LoopStopped.
Proof.
  intros Hq Hl frame. split_and!.
  - done.
  - unfold chan_recv. cbn. by rewrite Hq.
  - exists (set_loop LoopStopped (set_loop (LoopBusy (TRet Break)) s)). split; [cbn; by rewrite Hl |].
    intros cs s''. by apply stopped_run.
Qed.

End EndToEnd.

(** ** The theorems on concrete nodes *)

Module DiscoveryWitnesses.
Import Sample Tokio_sketch.

#[local] Instance profile : Profile := false.

Definition here : SocketAddr := V4 Ipv4Addr_LOCALHOST 50692.
Definition group : SocketAddr := V4 DISCOVERY_MULTICAST 50692.

(** An operating system on which everything works. *)
Definition linux : Os :=
  mkOs (Ok 3) (fun _ => Ok tt) (fun _ _ => Ok tt) (fun _ => Ok tt) (fun _ _ _ => Ok tt) (fun _ => Ok tt) Ok
    (fun _ => Ok 4) (fun _ => Ok (pm_addr phone)).

Lemma manager_start_witness :
  exists addr, os_local_addr linux 4 = Ok addr /\ os_tcp_bind linux (pm_addr phone) = Ok 4 /\
    snd (3, group) = group /\ manager_init phone = manager_init (mkPeerMetadata (pm_name phone) AppleiPhone id_one addr).
Proof.
  apply (proj2 (proj2 (manager_start linux (mkP2pConfig id_one AppleiPhone (pm_name phone) group (pm_addr phone))))
           (manager_init phone) (3, group) 4). reflexivity.
Defined.

Lemma overlapping_requests_answered_witness :
  discovery_run here group (replicate 3 send_request ++ replicate 3 (echo here)) disc_init =
    Some (Val (Continue, mkDisc false
      (mkChannel (replicate 2 (own_request here)) (Some 1024%nat) true true) (replicate 3 (request_datagram group)))).
Proof. apply (overlapping_requests_answered here group 3). lia. Defined.

(** The phone's presence, at the laptop. *)
Definition laptop_manager : P2pManager :=
  mkP2pManager id_two laptop {[id_one := phone_candidate]} ∅ ∅ (channel_bounded 1024) channel_unbounded channel_unbounded.
Definition anywhere : world :=
  mkWorld elements (fun _ => Err (mkIoError 111))
    (mkEnv (fun _ => 30) (fun _ _ => Ok tt) (fun _ => Val TimedOut) (fun _ _ => None)).

Lemma presence_reaches_manager_witness :
  exists bytes item u' receiver' ev tx m',
    discovery_body here group (Broadcast (Some (PresenceResponse phone)) (Ok tt)) disc_init =
      Some (Val (Continue, mkDisc false (channel_bounded 1024) ([] ++ [(bytes, group)]))) /\
    UdpFramed_next DiscoveryCodec_decode UdpFramed_new [(bytes, here)] = Some (item, u', []) /\ between_datagrams u' /\
    discovery_body here group (Network item) disc_init = Some (Val (Continue, receiver')) /\
    chan_recv (transport_tx receiver') = Some (ev, tx) /\ ch_queue tx = [] /\
    exec anywhere (p2p_event_loop_body id_two (EvDiscovery ev)) laptop_manager = Some (Val Continue, [], m') /\
    lookup_candidate m' id_one = Some (mkPeerCandidate id_one phone {[pm_addr phone]} auth) /\
    is_Some (discovered_peers m' !! id_one) /\
    ch_queue (app_channel m') = ch_queue (app_channel laptop_manager) ++ [PeerDiscovered phone].
Proof.
  apply (presence_reaches_manager here group here group here id_two anywhere laptop_manager phone_candidate phone disc_init disc_init
           UdpFramed_new []);
    [vm_compute; reflexivity | apply between_new | reflexivity | reflexivity | reflexivity | reflexivity | reflexivity
     | vm_compute; discriminate | apply not_elem_of_empty | reflexivity | reflexivity].
Defined.

Lemma one_datagram_stops_node_witness :
  discovery_body here group (Network Panic) disc_init = Some Panic /\
  exists s', sys_run id_one [CLoopEvent (EvDiscovery None); CLoopEnd] (system_init phone) = Some s' /\
    forall cs s'', sys_run id_one cs s' = Some s'' -> s_loop s'' = LoopStopped.
Proof.
  destruct (one_datagram_stops_node here group id_one disc_init (channel_bounded 1024) (system_init phone))
    as (H1 & _ & H3); [reflexivity | reflexivity |]. exact (conj H1 H3).
Defined.

End DiscoveryWitnesses.
