(* ===== verification/Network.v ===== *)
(** Two nodes on one network: the composition of the parts.

    Each node is its manager with event loop, tasks and handlers (System.v), its discovery task
    (Discovery.v) and its UDP socket.  A TCP connection is a link with two endpoints; an endpoint holds the
    bytes that arrived and were not read, the bytes its [Framed] has read and not decoded, and, once the
    handshake is through, its connection handler (Handler.v).  [Framed::into_inner], with which a
    successful handshake gives the stream to the handler, and the [UdpFramed] through which the discovery
    task reads the socket are parameters (Transport.v).  The steps pass real bytes: datagrams and messages
    go through the codecs.  What can go wrong may go wrong: a send or a wait of a handshake may fail, a
    datagram may not be sent, and the discovery task ends when it panics or finds the event loop gone,
    as the event loop ends when it finds the discovery task gone.

    Datagrams may be lost, and arrive or not at either node; TCP delivers in order.  Both nodes run on
    one host, as in the integration test, and send from the same local address (manager.rs binds the
    discovery socket to the loopback address and the multicast port). *)

From Stdlib Require Import ZArith Lia.
From Stdlib Require Import Strings.Byte.
From stdpp Require Import base tactics numbers option list strings gmap.
From S2P Require Import Prelude RustStd SockAddr Errors Pairing Peer Proto Handshake.
From S2P Require Import Transport Manager Handler System Discovery.

(** ** State *)

Inductive side : Type := NodeA | NodeB.
#[global] Instance side_eq_dec : EqDecision side.
Proof. solve_decision. Defined.
Definition peer_side (n : side) : side := match n with NodeA => NodeB | NodeB => NodeA end.

Inductive role : Type := AsClient | AsHost.
#[global] Instance role_eq_dec : EqDecision role.
Proof. solve_decision. Defined.
Definition peer_role (r : role) : role := match r with AsClient => AsHost | AsHost => AsClient end.

(** One end of a connection: the task of its node that does the handshake, the bytes that arrived, those
    [Framed] has read, and the handler. *)
Record endpoint := mkEnd {
  e_task : option nat;
  e_wire : list byte;
  e_framed : list byte;
  e_handler : option handler_state
}.

Record link := mkLink { l_client_node : side; l_client : endpoint; l_host : endpoint }.

Section Network.
Context {U : UnicodeTables} {P : Profile} {C : CryptoLib} {T : TokioUtil}.

(** A node's system, its discovery task, whether that still runs, what reads its socket, and the socket. *)
Record node := mkNetNode {
  n_sys : system;
  n_disc : Disc;
  n_running : bool;
  n_udp : UdpFramed;
  n_socket : list (list byte * SocketAddr)
}.

Record network := mkNetwork { nw_a : node; nw_b : node; nw_links : list link }.

(** What the nodes were started with; the address of the discovery sockets, and the group. *)
Context (md : side -> PeerMetadata) (local group : SocketAddr).

Definition me (n : side) : PeerId := pm_id (md n).

Definition node_of (n : side) (w : network) : node := match n with NodeA => nw_a w | NodeB => nw_b w end.
Definition set_node (n : side) (x : node) (w : network) : network :=
  match n with NodeA => mkNetwork x (nw_b w) (nw_links w) | NodeB => mkNetwork (nw_a w) x (nw_links w) end.
Definition set_links (l : list link) (w : network) : network := mkNetwork (nw_a w) (nw_b w) l.
Definition sys_of (n : side) (w : network) : system := n_sys (node_of n w).

Definition end_of (r : role) (l : link) : endpoint := match r with AsClient => l_client l | AsHost => l_host l end.
Definition set_end (r : role) (e : endpoint) (l : link) : link :=
  match r with
  | AsClient => mkLink (l_client_node l) e (l_host l)
  | AsHost => mkLink (l_client_node l) (l_client l) e
  end.
Definition node_at (r : role) (l : link) : side :=
  match r with AsClient => l_client_node l | AsHost => peer_side (l_client_node l) end.

Definition has_handler (e : endpoint) : bool := match e_handler e with Some _ => true | None => false end.

Definition no_end : endpoint := mkEnd None [] [] None.
Definition arrive (bytes : list byte) (e : endpoint) : endpoint :=
  mkEnd (e_task e) (e_wire e ++ bytes) (e_framed e) (e_handler e).

(** The endpoint of link [k] in role [r]. *)
Definition get_end (k : nat) (r : role) (w : network) : option endpoint := end_of r <$> nw_links w !! k.
Definition put_end (k : nat) (r : role) (e : endpoint) (w : network) : network :=
  set_links (alter (set_end r e) k (nw_links w)) w.

(** A step of one node's own system. *)
Definition sys_step (n : side) (c : command) (w : network) : option network :=
  s ← sys_exec (me n) c (sys_of n w);
  Some (set_node n (mkNetNode s (n_disc (node_of n w)) (n_running (node_of n w)) (n_udp (node_of n w)) (n_socket (node_of n w))) w).

(** ** Steps *)

Inductive ncommand : Type :=
(** The application of a node calls a method, or receives an event. *)
| NApp (n : side) (c : command)
(** A task of a node steps by itself; the event loop steps, ends a round. *)
| NTask (n : side) (i : nat) (ans : answer)
| NLoop (n : side)
| NLoopEnd (n : side)
(** The discovery task sends an event of the node, which reaches some of the sockets, or fails to. *)
| NBroadcast (n : side) (reached : list side) (written : Result io_Error unit)
(** The discovery task reads from its socket; once it has ended, its end of the node's channel is dropped; the
    event loop receives what it forwarded. *)
| NDatagram (n : side)
| NDiscoveryEnd (n : side)
| NPresence (n : side)
(** Task [i] connects; the event loop of the other node accepts the connection. *)
| NConnect (n : side) (i : nat)
| NRefused (n : side) (i : nat) (e : io_Error)
| NAccept (k : nat)
(** At an endpoint: the handshake sends, or fails to after [j] bytes; [Framed] reads [j] bytes; the handshake
    gets a message, or times out, or finds that the other end was dropped, or that the stream failed or
    ended within a message.  (The encoder never panics: [ConnectionCodec_encode_total].) *)
| NSend (k : nat) (r : role)
| NSendFails (k : nat) (r : role) (j : nat) (err : io_Error)
| NRead (k : nat) (r : role) (j : nat)
| NNext (k : nat) (r : role)
| NTimeout (k : nat) (r : role)
| NHangup (k : nat) (r : role)
| NBroken (k : nat) (r : role) (err : io_Error)
(** At an endpoint with a handler: what arrived is there for it; it steps; its node sees the end of its
    copies; the other end closed. *)
| NArrive (k : nat) (r : role)
| NHandler (k : nat) (r : role) (d : direction) (e : pipe_event)
| NClosed (k : nat) (r : role).

(** The calls of an application. *)
Definition app_command (c : command) : bool :=
  match c with CAddKnown _ | CConnect _ | CRequestPresence | CAppRecv => true | _ => false end.

(** The answers a task gives itself. *)
Definition local_answer (a : answer) : bool :=
  match a with AnsNone | AnsOrder _ | AnsNow _ => true | _ => false end.

(** The connection a task is about to give its handler, or to spawn an acceptance for. *)
Definition next_handler (t : task unit) : option Z :=
  match t with THs p _ => match p with HSpawn _ conn _ => Some conn | _ => None end | _ => None end.
Definition next_accept {A} (t : task A) : option Z :=
  match t with TSpawnAccept conn _ => Some conn | _ => None end.

Definition role_of (n : side) (l : link) : role := if decide (l_client_node l = n) then AsClient else AsHost.

(** [frame.into_inner()], with which the handler starts. *)
Definition start_handler (e : endpoint) : endpoint :=
  mkEnd (e_task e) (into_inner (e_wire e) (e_framed e)) [] (Some handler_init).

(** The task that does the handshake at an endpoint. *)
Definition task_at (k : nat) (r : role) (w : network) : option (side * nat * task unit) :=
  l ← nw_links w !! k;
  i ← e_task (end_of r l);
  t ← s_tasks (sys_of (node_at r l) w) !! i;
  Some (node_at r l, i, t_prog t).

(** The handler of connection [k] among those of its node. *)
Fixpoint handler_index (k : nat) (hs : list (PeerId * Z)) : option nat :=
  match hs with
  | [] => None
  | (_, conn) :: hs' => if conn =? Z.of_nat k then Some O else S <$> handler_index k hs'
  end.

(** What a copy of the handler gives when it finishes. *)
Definition copy_result (d : direction) (e : pipe_event) (h : handler_state) : option (Result io_Error Z) :=
  match e with
  | Finish => Some (Ok (p_count (pipe_of d h)))
  | FailCopy err => Some (Err err)
  | _ => None
  end.

(** What a step of the handler puts on the wire. *)
Definition handler_sent (d : direction) (e : pipe_event) (h : handler_state) : list byte :=
  match d, e with FromApplication, Copy n m => take m (copy_buffer (h_application h) n) | _, _ => [] end.

Definition set_disc (n : side) (d : Disc) (running : bool) (u : UdpFramed) (socket : list (list byte * SocketAddr))
  (w : network) : network := set_node n (mkNetNode (sys_of n w) d running u socket) w.

(** The channel to the event loop. *)
Definition set_transport (tx : channel (DiscoveryEvent * SocketAddr)) (d : Disc) : Disc :=
  mkDisc (just_send_request d) tx (datagrams d).

Definition receive (datagram : list byte * SocketAddr) (w : network) (n : side) : network :=
  let x := node_of n w in
  set_disc n (n_disc x) (n_running x) (n_udp x) (n_socket x ++ [datagram]) w.

(** After a round of the discovery task: it goes on, or has ended, and dropped its sender and its socket. *)
Definition disc_round (n : side) (r : panicking (LoopCtl * Disc)) (u : UdpFramed) (socket : list (list byte * SocketAddr))
  (w : network) : network :=
  let ended d := set_disc n (set_transport (drop_sender (transport_tx d)) d) false u [] w in
  match r with
  | Val (Continue, d) => set_disc n d true u socket w
  | Val (Break, d) => ended d
  | Panic => ended (n_disc (node_of n w))
  end.

(** What a round has sent. *)
Definition round_sent (n : side) (r : panicking (LoopCtl * Disc)) (w : network) : list (list byte * SocketAddr) :=
  match r with
  | Val (_, d) => drop (length (datagrams (n_disc (node_of n w)))) (datagrams d)
  | Panic => []
  end.

Definition loop_stopped (n : side) (w : network) : bool :=
  match s_loop (sys_of n w) with LoopStopped => true | _ => false end.

(** Nobody is at an end any more: its handshake is over and no handler runs, or it will never be accepted. *)
Definition abandoned (k : nat) (r : role) (w : network) : bool :=
  match nw_links w !! k with
  | Some l =>
      negb (has_handler (end_of r l)) &&
      match e_task (end_of r l) with
      | Some i => match s_tasks (sys_of (node_at r l) w) !! i with
                  | Some t => match t_prog t with TRet _ | TPanic => true | _ => false end
                  | None => false
                  end
      | None => loop_stopped (node_at r l) w
      end
  | None => false
  end.

Definition net_exec (c : ncommand) (w : network) : option network :=
  match c with
  | NApp n c => if app_command c then sys_step n c w else None
  | NTask n i ans =>
      if local_answer ans then
        t ← s_tasks (sys_of n w) !! i;
        w' ← sys_step n (CTask i ans) w;
        match next_handler (t_prog t) with
        | Some conn =>
            l ← nw_links w' !! Z.to_nat conn;
            Some (put_end (Z.to_nat conn) (role_of n l) (start_handler (end_of (role_of n l) l)) w')
        | None => Some w'
        end
      else None
  | NLoop n =>
      w' ← sys_step n CLoop w;
      match s_loop (sys_of n w) with
      | LoopBusy t =>
          match next_accept t with
          | Some conn =>
              l ← nw_links w' !! Z.to_nat conn;
              let e := l_host l in
              Some (put_end (Z.to_nat conn) AsHost
                      (mkEnd (Some (length (s_tasks (sys_of n w)))) (e_wire e) (e_framed e) (e_handler e)) w')
          | None => Some w'
          end
      | _ => Some w'
      end
  | NLoopEnd n =>
      w' ← sys_step n CLoopEnd w;
      if loop_stopped n w' then
        let x := node_of n w' in
        Some (set_disc n (set_transport (drop_receiver (transport_tx (n_disc x))) (n_disc x)) (n_running x) (n_udp x) (n_socket x) w')
      else Some w'
  | NBroadcast n reached written =>
      let x := node_of n w in
      if n_running x then
        '(ev, _) ← chan_recv (discovery_channel (s_mgr (sys_of n w)));
        r ← discovery_body local group (Broadcast ev written) (n_disc x);
        w' ← sys_step n CDiscoveryRecv w;
        Some (foldl (fun w y => foldl (receive (fst y, local)) w reached) (disc_round n r (n_udp x) (n_socket x) w') (round_sent n r w))
      else None
  | NDatagram n =>
      let x := node_of n w in
      if n_running x then
        '(item, u, rest) ← UdpFramed_next DiscoveryCodec_decode (n_udp x) (n_socket x);
        r ← discovery_body local group (Network item) (n_disc x);
        Some (disc_round n r u rest w)
      else None
  | NDiscoveryEnd n => if n_running (node_of n w) then None else sys_step n CDiscoveryEnd w
  | NPresence n =>
      '(ev, tx) ← chan_recv (transport_tx (n_disc (node_of n w)));
      w' ← sys_step n (CLoopEvent (EvDiscovery ev)) w;
      let x := node_of n w in
      Some (set_disc n (set_transport tx (n_disc x)) (n_running x) (n_udp x) (n_socket x) w')
  | NConnect n i =>
      t ← s_tasks (sys_of n w) !! i;
      match t_prog t with
      | TTcp addr _ =>
          if bool_decide (addr = pm_addr (md (peer_side n))) && negb (loop_stopped (peer_side n) w) then
            let k := length (nw_links w) in
            w' ← sys_step n (CTask i (AnsTcp (Ok (Z.of_nat k)))) w;
            Some (set_links (nw_links w' ++ [mkLink n (mkEnd (Some i) [] [] None) no_end]) w')
          else None
      | _ => None
      end
  | NRefused n i e => sys_step n (CTask i (AnsTcp (Err e))) w
  | NAccept k =>
      l ← nw_links w !! k;
      if decide (e_task (l_host l) = None) then
        sys_step (node_at AsHost l) (CLoopEvent (EvStream (Ok (Z.of_nat k, local)))) w
      else None
  | NSend k r =>
      '(n, i, t) ← task_at k r w;
      match t with
      | THs p _ =>
          match p with
          | HSend m _ =>
              match ConnectionCodec_encode m [] with
              | Val (res, bytes) =>
                  w' ← sys_step n (CTask i (AnsSend res)) w;
                  e ← get_end k (peer_role r) w';
                  Some (put_end k (peer_role r) (arrive bytes e) w')
              | Panic => None
              end
          | _ => None
          end
      | _ => None
      end
  | NSendFails k r j err =>
      '(n, i, t) ← task_at k r w;
      match t with
      | THs p _ =>
          match p with
          | HSend m _ =>
              match ConnectionCodec_encode m [] with
              | Val (_, bytes) =>
                  w' ← sys_step n (CTask i (AnsSend (Err (IOError err)))) w;
                  e ← get_end k (peer_role r) w';
                  Some (put_end k (peer_role r) (arrive (take j bytes) e) w')
              | Panic => None
              end
          | _ => None
          end
      | _ => None
      end
  | NRead k r j =>
      e ← get_end k r w;
      if decide (j <= length (e_wire e))%nat then
        match e_handler e with
        | None => Some (put_end k r (mkEnd (e_task e) (drop j (e_wire e)) (e_framed e ++ take j (e_wire e)) None) w)
        | Some _ => None
        end
      else None
  | NNext k r =>
      '(n, i, t) ← task_at k r w;
      e ← get_end k r w;
      match t with
      | THs p _ =>
          match p with
          | HNext _ =>
              match ConnectionCodec_decode (e_framed e) with
              | Val (Ok None, _) => None
              | Val (Ok (Some m), rest) =>
                  w' ← sys_step n (CTask i (AnsNext (Val (Received (Ok m))))) w;
                  Some (put_end k r (mkEnd (e_task e) (e_wire e) rest (e_handler e)) w')
              | Val (Err err, rest) =>
                  w' ← sys_step n (CTask i (AnsNext (Val (Received (Err err))))) w;
                  Some (put_end k r (mkEnd (e_task e) (e_wire e) rest (e_handler e)) w')
              | Panic => sys_step n (CTask i (AnsNext Panic)) w
              end
          | _ => None
          end
      | _ => None
      end
  | NTimeout k r =>
      '(n, i, t) ← task_at k r w;
      match t with
      | THs p _ => match p with HNext _ => sys_step n (CTask i (AnsNext (Val TimedOut))) w | _ => None end
      | _ => None
      end
  | NHangup k r =>
      '(n, i, t) ← task_at k r w;
      e ← get_end k r w;
      match t with
      | THs p _ =>
          match p with
          | HNext _ =>
              if abandoned k (peer_role r) w && bool_decide (e_wire e = []) && bool_decide (e_framed e = [])
              then sys_step n (CTask i (AnsNext (Val Closed))) w else None
          | _ => None
          end
      | _ => None
      end
  | NBroken k r err =>
      '(n, i, t) ← task_at k r w;
      match t with
      | THs p _ =>
          match p with
          | HNext _ => sys_step n (CTask i (AnsNext (Val (Received (Err (IOError err)))))) w
          | _ => None
          end
      | _ => None
      end
  | NArrive k r =>
      e ← get_end k r w;
      h ← e_handler e;
      h' ← handler_step FromNetwork (Give (e_wire e)) h;
      Some (put_end k r (mkEnd (e_task e) [] (e_framed e) (Some h')) w)
  | NHandler k r d ev =>
      l ← nw_links w !! k;
      let e := end_of r l in
      h ← e_handler e;
      if match d, ev with FromNetwork, (Give _ | Close) => true | _, _ => false end then None
      else
        h' ← handler_step d ev h;
        let w' := put_end k r (mkEnd (e_task e) (e_wire e) (e_framed e) (Some h')) w in
        o ← get_end k (peer_role r) w';
        let w' := put_end k (peer_role r) (arrive (handler_sent d ev h) o) w' in
        match copy_result d ev h with
        | Some res =>
            j ← handler_index k (s_handlers (sys_of (node_at r l) w'));
            sys_step (node_at r l) (CHandler j res) w'
        | None => Some w'
        end
  | NClosed k r =>
      e ← get_end k r w;
      o ← get_end k (peer_role r) w;
      h ← e_handler e;
      oh ← e_handler o;
      if h_ended oh && bool_decide (e_wire e = []) then
        h' ← handler_step FromNetwork Close h;
        Some (put_end k r (mkEnd (e_task e) [] (e_framed e) (Some h')) w)
      else None
  end.

Fixpoint net_run (cs : list ncommand) (w : network) : option network :=
  match cs with
  | [] => Some w
  | c :: cs' => w' ← net_exec c w; net_run cs' w'
  end.

(** Two nodes that have just been started. *)
Definition node_init (n : side) : node := mkNetNode (system_init (md n)) disc_init true UdpFramed_new [].
Definition net_init : network := mkNetwork (node_init NodeA) (node_init NodeB) [].

End Network.
