(* ===== verification/IntegrationTest.v ===== *)
(** The integration test of the crate, crate/p2p/tests/manager.rs, as a run of the two nodes of Network.v.

    [peers_discover_connect_send_data] is the test: what it calls, what it waits for and what it asserts,
    with the steps of the two nodes that happen meanwhile, every message encoded, sent and decoded.  It is
    evaluated on the concrete parameters of Samples.v and in one fixed schedule: it shows that the parts fit
    together, not what holds in general. *)

From Stdlib Require Import ZArith Lia.
From Stdlib Require Import Strings.Byte.
From stdpp Require Import base tactics numbers option list strings gmap.
From S2P Require Import Prelude RustStd SockAddr Errors Pairing Peer Proto Handshake.
From S2P Require Import Transport Manager Handler System Discovery Network UnitTests Samples.

Import Sample Tokio_sketch.

#[local] Instance profile : Profile := true.

(** ** Scripts *)

(** A step of the nodes, or an assertion of the test. *)
Inductive script : Type :=
| Do (c : ncommand)
| Assert (f : network -> bool).

Section Scripts.
Context (md : side -> PeerMetadata) (local group : SocketAddr).

Fixpoint run_script (l : list script) (w : network) : option network :=
  match l with
  | [] => Some w
  | Do c :: l' => w' ← net_exec md local group c w; run_script l' w'
  | Assert f :: l' => if f w then run_script l' w else None
  end.

(** The steps of a script, without its assertions. *)
Definition steps (l : list script) : list ncommand :=
  omap (fun x => match x with Do c => Some c | Assert _ => None end) l.

Lemma run_script_run l : forall w w', run_script l w = Some w' -> net_run md local group (steps l) w = Some w'.
Proof.
  induction l as [|[c|f] l IH]; intros w w' H; cbn in *; [done | |].
  - destruct (net_exec _ _ _ c w) as [w1|]; cbn in *; [by apply IH | done].
  - destruct (f w); [by apply IH | done].
Qed.

(** A script that ends with an assertion. *)
Lemma run_script_snoc l f : forall w w', run_script (l ++ [Assert f]) w = Some w' -> run_script l w = Some w' /\ f w' = true.
Proof.
  induction l as [|[c|g] l IH]; intros w w' H; cbn in *.
  - destruct (f w) eqn:E; by simplify_eq.
  - destruct (net_exec _ _ _ c w) as [w1|]; cbn in *; [by apply IH | done].
  - destruct (g w); [by apply IH | done].
Qed.

End Scripts.

(** ** The setting *)

Definition shared_secret : list byte := lit "123ABCThisIsSuperSecretShhhh!".

(** The address of the discovery sockets, and the configurations of the two nodes. *)
Definition discovery_addr : SocketAddr := V4 Ipv4Addr_LOCALHOST 50692.

Definition config (n : side) : P2pConfig := {|
  cfg_id := match n with NodeA => id_one | NodeB => id_two end;
  cfg_device := match n with NodeA => Windows10Desktop | NodeB => AppleiPhone end;
  cfg_name := match n with
              | NodeA => ascii_string (bytes_of_string "Tester's laptop") eq_refl
              | NodeB => ascii_string (bytes_of_string "Tester's phone") eq_refl
              end;
  cfg_multicast := create_multicast_addr;
  cfg_p2p_addr := create_p2p_addr
|}.

(** An operating system that gives the two listeners these ports. *)
Definition port (n : side) : Z := match n with NodeA => 40001 | NodeB => 40002 end.
Definition os (n : side) : Os :=
  mkOs (Ok 3) (fun _ => Ok tt) (fun _ _ => Ok tt) (fun _ => Ok tt) (fun _ _ _ => Ok tt) (fun _ => Ok tt) Ok
    (fun _ => Ok 4) (fun _ => Ok (V4 Ipv4Addr_LOCALHOST (port n))).

(** The metadata of the managers. *)
Definition metadata (n : side) : PeerMetadata := {|
  pm_id := cfg_id (config n); pm_typ := cfg_device (config n); pm_name := cfg_name (config n);
  pm_addr := V4 Ipv4Addr_LOCALHOST (port n)
|}.

(** [P2pManager::new] gives exactly the managers the run starts from. *)
Lemma managers_started n : P2pManager_new (os n) (config n) =
  Val (Ok (manager_init (metadata n), (3, create_multicast_addr), 4)).
Proof. by destruct n. Qed.

(** ** The test *)

Definition id_a : PeerId := pm_id (metadata NodeA).
Definition id_b : PeerId := pm_id (metadata NodeB).

(** What the test looks at. *)
Definition next_event (n : side) (w : network) : option P2pEvent := head (ch_queue (app_channel (s_mgr (sys_of n w)))).
Definition discovered (n : side) (id : PeerId) (w : network) : bool :=
  bool_decide (is_Some (discovered_peers (s_mgr (sys_of n w)) !! id)).
Definition connected (n : side) (id : PeerId) (w : network) : bool :=
  bool_decide (id ∈ connected_peers (s_mgr (sys_of n w))).
Definition received (k : nat) (r : role) (d : direction) (w : network) : list byte :=
  match get_end k r w with
  | Some e => match e_handler e with Some h => take (p_taken (pipe_of d h)) (p_dst (pipe_of d h)) | None => [] end
  | None => []
  end.
(** What the handshake program gave in a task whose history this is. *)
Fixpoint replay {A} (p : hs A) (h : list act) : option A :=
  match p, h with
  | HRet a, _ => Some a
  | HNow k, ANow now :: h' => replay (k now) h'
  | HSend _ k, ASend _ r :: h' => replay (k r) h'
  | HNext k, ANext r :: h' => replay (k r) h'
  | HCandidate _ k, ACandidate _ c :: h' => replay (k c) h'
  | HSpawn _ _ p', ASpawn _ _ :: h' => replay p' h'
  | _, _ => None
  end.

(** The peer that [connect_to_peer] has returned to the test, [proxy_to_b]: what its handshake gave. *)
Definition proxy_to_b (w : network) : option Peer :=
  t ← s_tasks (sys_of NodeA w) !! 2%nat;
  c ← discovered_peers (s_mgr (sys_of NodeA w)) !! id_b;
  match replay (connect id_a 0 c) (t_hist t) with Some (Ok p) => Some p | _ => None end.

(** What the stream wrote to the application of the endpoint, or to the wire. *)
Definition delivered (k : nat) (r : role) (w : network) : list byte := received k r FromNetwork w.

(** A step [n] times. *)
Definition times (n : nat) (c : ncommand) : list script := replicate n (Do c).

Definition pairing (auth : PairingAuthenticator) : list script := [
  Do (NApp NodeA (CAddKnown (PeerCandidate_new (metadata NodeB) auth))); Do (NTask NodeA 0 AnsNone);
  Do (NApp NodeB (CAddKnown (PeerCandidate_new (metadata NodeA) auth))); Do (NTask NodeB 0 AnsNone)].

(** Node A requests presence; both sockets get the request, A drops its own; B answers, both sockets get
    the answer, B ignores its own. *)
Definition discovery : list script :=
  [Do (NApp NodeA CRequestPresence); Do (NTask NodeA 1 AnsNone); Do (NBroadcast NodeA [NodeA; NodeB] (Ok tt));
   Do (NDatagram NodeA); Do (NDatagram NodeB); Do (NPresence NodeB)] ++
  times 2 (NLoop NodeB) ++
  [Do (NLoopEnd NodeB); Do (NBroadcast NodeB [NodeA; NodeB] (Ok tt));
   Do (NDatagram NodeB); Do (NPresence NodeB); Do (NLoopEnd NodeB);
   Do (NDatagram NodeA); Do (NPresence NodeA)] ++
  times 6 (NLoop NodeA) ++
  [Do (NLoopEnd NodeA);
   Assert (fun w => match next_event NodeA w with Some (PeerDiscovered m) => bool_decide (m = metadata NodeB) | _ => false end);
   Do (NApp NodeA CAppRecv);
   Assert (discovered NodeA id_b)].

(** Node A connects to node B, up to the host's last message; the codes are looked up at times [now_a]
    and [now_b]. *)
Definition host_completes (now_a now_b : Z) : list script :=
  [Do (NApp NodeA (CConnect id_b)); Do (NTask NodeA 2 AnsNone); Do (NTask NodeA 2 AnsNone);
   Do (NTask NodeA 2 (AnsOrder [pm_addr (metadata NodeB)])); Do (NConnect NodeA 2);
   Do (NAccept 0); Do (NLoop NodeB); Do (NLoopEnd NodeB);
   Do (NTask NodeA 2 (AnsNow now_a)); Do (NSend 0 AsClient);
   Do (NRead 0 AsHost 78); Do (NNext 0 AsHost)] ++
  times 4 (NTask NodeB 1 AnsNone) ++
  [Do (NTask NodeB 1 (AnsNow now_b)); Do (NSend 0 AsHost);
   Do (NRead 0 AsClient 38); Do (NNext 0 AsClient); Do (NSend 0 AsClient);
   Do (NRead 0 AsHost 6); Do (NNext 0 AsHost); Do (NSend 0 AsHost)] ++
  times 4 (NTask NodeB 1 AnsNone).

(** The client reads [j] bytes, which complete the host's last message. *)
Definition client_completes (j : nat) : list script :=
  [Do (NRead 0 AsClient j); Do (NNext 0 AsClient)] ++ times 3 (NTask NodeA 2 AnsNone).

Definition connection (now_a now_b : Z) : list script :=
  host_completes now_a now_b ++ client_completes 6 ++
  [Assert (connected NodeA id_b);
   Assert (fun w => match next_event NodeB w with
                    | Some (PeerConnected p) => bool_decide (peer_conn_type p = Server) && bool_decide (peer_id p = id_a)
                    | _ => false end);
   Do (NApp NodeB CAppRecv);
   Assert (connected NodeB id_a);
   Assert (fun w => match proxy_to_b w with Some p => bool_decide (peer_conn_type p = Client) | None => false end)].

(** The application at [from] writes [bytes]; the other application reads them. *)
Definition write_all (from : role) (bytes : list byte) : list script :=
  let n := length bytes in
  [Do (NHandler 0 from FromApplication (Give bytes)); Do (NHandler 0 from FromApplication (Copy n n))].
Definition read_all (to : role) (n : nat) : list script :=
  [Do (NArrive 0 to); Do (NHandler 0 to FromNetwork (Copy n n)); Do (NHandler 0 to FromNetwork (Take n))].
Definition transfer (from : role) (bytes : list byte) : list script :=
  write_all from bytes ++ read_all (peer_role from) (length bytes) ++
  [Assert (fun w => bool_decide (delivered 0 (peer_role from) w = bytes))].

(** Node B drops its end; both nodes forget the connection, and A is told. *)
Definition disconnection : list script :=
  [Do (NHandler 0 AsHost FromApplication Close); Do (NHandler 0 AsHost FromApplication Finish);
   Do (NHandler 0 AsHost FromApplication Finish)] ++
  times 2 (NTask NodeB 2 AnsNone) ++
  [Do (NClosed 0 AsClient); Do (NHandler 0 AsClient FromNetwork Finish); Do (NHandler 0 AsClient FromNetwork Finish)] ++
  times 2 (NTask NodeA 3 AnsNone) ++
  [Assert (fun w => match next_event NodeA w with Some (PeerDisconnected id) => bool_decide (id = id_b) | _ => false end);
   Assert (fun w => negb (connected NodeB id_a w)); Assert (fun w => negb (connected NodeA id_b w))].

(** A script runs from the two nodes that were just started. *)
Definition passes (l : list script) : bool :=
  bool_decide (is_Some (run_script metadata discovery_addr create_multicast_addr l (net_init metadata))).

(** What a script shows that runs and then passes an assertion. *)
Lemma passes_run l f : passes (l ++ [Assert f]) = true -> exists w,
  net_run metadata discovery_addr create_multicast_addr (steps l) (net_init metadata) = Some w /\ f w = true.
Proof.
  intros [w Hw]%bool_decide_eq_true_1. apply run_script_snoc in Hw as [Hw Hf].
  exists w. split; [by apply run_script_run | exact Hf].
Qed.

Definition peers_discover_connect_send_data (now_a now_b : Z) : bool :=
  match PairingAuthenticator_new shared_secret with
  | Ok auth =>
      passes (pairing auth ++ discovery ++ connection now_a now_b ++ transfer AsClient (lit "PING") ++
              transfer AsHost (lit "PONG") ++ disconnection)
  | Err _ => false
  end.

Lemma integration_test_passes : peers_discover_connect_send_data 30 44 = true.
Proof. vm_compute. reflexivity. Qed.

(** The crate's own tests pass.  The fourteen unit tests of proto.rs pass in a debug and in a release
    build, whatever the Unicode tables say above ASCII; that of hmac.rs passes exactly when [totp-rs] decodes its
    secret, accepts it and gives a code, whatever these are.  And in one run of two nodes started with
    [P2pManager::new] the integration test passes: paired with one secret they discover each other, connect,
    exchange PING and PONG and disconnect, with the test's assertions true on the way. *)
Lemma tests_pass :
  (forall (T : UnicodeTables) (C : CryptoLib), CryptoLaws C -> forall (P : Profile) now,
     Forall (fun t => UnitTests.passes t = true) (@proto_tests T P) /\
     (UnitTests.passes (@hmac_peer_id_auth_code T C now) = true <->
      exists key auth code, Secret_Encoded_to_bytes hmac_secret = Ok key /\
        PairingAuthenticator_new key = Ok auth /\ PairingAuthenticator_generate auth now = Ok code)) /\
  peers_discover_connect_send_data 30 44 = true.
Proof. split; [intros T C L P now; apply unit_tests_pass | exact integration_test_passes]. Qed.
