(* ===== verification/NetworkTheorems.v ===== *)
(** The projection of the network onto its nodes: every step of the network is a step of at most one node, so
    what holds of a node in every reachable state holds of it on the network. *)

From Stdlib Require Import ZArith Lia.
From Stdlib Require Import Strings.Byte.
From stdpp Require Import base tactics numbers option list strings gmap.
From S2P Require Import Prelude RustStd SockAddr Errors Pairing Peer Proto Handshake.
From S2P Require Import Transport Manager Handler System SystemTheorems Races Discovery Network UnitTests IntegrationTest Samples.

Section Projection.
Context {U : UnicodeTables} {P : Profile} {C : CryptoLib} {T : TokioUtil}.
Context (md : side -> PeerMetadata) (local group : SocketAddr).
#[local] Abbreviation me := (me md).
#[local] Abbreviation net_exec := (net_exec md local group).
#[local] Abbreviation net_run := (net_run md local group).

Lemma sys_of_put_end n k r e w : sys_of n (put_end k r e w) = sys_of n w.
Proof. by destruct n. Qed.
Lemma sys_of_set_links n l w : sys_of n (set_links l w) = sys_of n w.
Proof. by destruct n. Qed.
Lemma sys_of_set_disc n n' d b u k w : sys_of n (set_disc n' d b u k w) = sys_of n w.
Proof. by destruct n, n'. Qed.
Lemma sys_of_disc_round n n' r u k w : sys_of n (disc_round n' r u k w) = sys_of n w.
Proof. destruct r as [[[] d]|]; apply sys_of_set_disc. Qed.
Lemma sys_of_receive n x w n' : sys_of n (receive x w n') = sys_of n w.
Proof. apply sys_of_set_disc. Qed.
Lemma sys_of_reached n x l : forall w, sys_of n (foldl (receive x) w l) = sys_of n w.
Proof. induction l as [|n' l IH]; intros w; [done |]. cbn. by rewrite IH, sys_of_receive. Qed.
Lemma sys_of_sent n l (sent : list (list byte * SocketAddr)) : forall w,
  sys_of n (foldl (fun w x => foldl (receive (fst x, local)) w l) w sent) = sys_of n w.
Proof. induction sent as [|x sent IH]; intros w; [done |]. cbn. by rewrite IH, sys_of_reached. Qed.

Create Rewrite HintDb net.
#[local] Hint Rewrite sys_of_put_end sys_of_set_links sys_of_set_disc sys_of_disc_round sys_of_sent : net.

(** Node [n] did nothing, or made the step [c]. *)
Definition stepped (n : side) (c : command) (w w' : network) : Prop :=
  sys_exec (me n) c (sys_of n w) = Some (sys_of n w') /\
  sys_of (peer_side n) w' = sys_of (peer_side n) w.

Lemma sys_step_stepped n c w w' : sys_step md n c w = Some w' -> stepped n c w w'.
Proof.
  unfold sys_step. destruct (sys_exec _ _ _) as [s|] eqn:E; cbn; [| done]. intros [= <-].
  split; [rewrite E |]; by destruct n.
Qed.

Lemma stepped_ext n c w w' w1 w1' : stepped n c w w' -> (forall m, sys_of m w1 = sys_of m w) ->
  (forall m, sys_of m w1' = sys_of m w') -> stepped n c w1 w1'.
Proof. intros [H1 H2] E E'. unfold stepped. by rewrite !E, !E', H1, H2. Qed.

(** Inverts a step: the binds, tests and matches it passed. *)
Ltac net_inv :=
  repeat match goal with
  | H : None = Some _ |- _ => discriminate H
  | H : Some _ = Some _ |- _ => injection H as H; try subst
  | H : mbind _ _ = Some _ |- _ => apply bind_Some in H as (? & ? & H)
  | H : (match ?x with _ => _ end) = Some _ |- _ => destruct x eqn:?
  end.

(** Every step of the network is a step of at most one node, and the application's calls are those of
    the command. *)
Lemma net_exec_stepped c w w' : net_exec c w = Some w' ->
  (forall n, sys_of n w' = sys_of n w) \/
  exists n c', stepped n c' w w' /\ (match c' with CAddKnown _ => c = NApp n c' | _ => True end).
Proof.
  intros H.
  destruct c; cbn -[sys_step sys_exec discovery_body ConnectionCodec_encode ConnectionCodec_decode handler_step disc_round] in H; net_inv.
  all: repeat match goal with E : sys_step _ _ _ _ = Some _ |- _ => apply sys_step_stepped in E end.
  all: first
    [ left; intros ?; autorewrite with net; done
    | right; do 2 eexists; split; [eapply stepped_ext; [eassumption | |]; intros ?; autorewrite with net; done | done]
    | idtac ].
  right. exists n, c. split; [done | by destruct c].
Qed.

Lemma net_run_reachable (Paired : side -> PeerId -> PairingAuthenticator -> Prop) cs : forall w w',
  Forall (fun c => match c with NApp n c => command_ok (Paired n) c | _ => True end) cs ->
  (forall n, reachable (me n) (Paired n) (md n) (sys_of n w)) -> net_run cs w = Some w' ->
  forall n, reachable (me n) (Paired n) (md n) (sys_of n w').
Proof.
  induction cs as [|c cs IH]; intros w w' Hf Hw Hr; cbn in Hr; [by simplify_eq |].
  apply Forall_cons in Hf as [Hc Hf]. destruct (net_exec c w) as [w1|] eqn:E; cbn in Hr; [| done].
  apply (IH w1 w' Hf); [| exact Hr]. intros n.
  destruct (net_exec_stepped c w w1 E) as [Hsame | (n' & c' & [Hs Ho] & Hc')]; [by rewrite Hsame |].
  destruct (decide (n = n')) as [->|Hne].
  - eapply reachable_step; [apply Hw | | exact Hs]. destruct c'; try done. by subst.
  - replace n with (peer_side n') by (by destruct n, n'). rewrite Ho. apply Hw.
Qed.

End Projection.

(** ** Witnesses *)

Module NetworkWitnesses.

Import Sample.
#[local] Instance profile : Profile := true.

Definition test_auth : PairingAuthenticator := mkPairingAuthenticator shared_secret.

(** The run of the integration test up to the connection. *)
Definition connected_run : list script := pairing test_auth ++ discovery ++ connection 30 44.

Definition test_paired (n : side) (id : PeerId) (a : PairingAuthenticator) : Prop := a = test_auth.

Lemma connected_run_ok :
  Forall (fun c => match c with NApp n c => command_ok (test_paired n) c | _ => True end) (steps connected_run).
Proof. repeat (apply Forall_cons; split; [first [exact I | by split_and!] |]). constructor. Qed.

Lemma connected_run_connects :
  passes (connected_run ++ [Assert (fun w => connected NodeA id_b w && connected NodeB id_a w)]) = true.
Proof. vm_compute. reflexivity. Qed.

End NetworkWitnesses.
