(* ===== verification/Sessions.v ===== *)
(** Handshakes at the two ends of a connection: what a task's history says of the handshake it does, and
    the tasks that do one.

    [sent] and [got] are the messages of a history; a task is [fresh] before its handshake, [in_hs] in it
    and [finished_hs] after it.  These are the pieces of the invariant of two nodes in NetworkAgreement.v. *)

From Stdlib Require Import ZArith Lia.
From Stdlib Require Import Strings.Byte.
From stdpp Require Import base tactics numbers option list strings gmap.
From S2P Require Import Prelude RustStd SockAddr Errors Pairing Peer Proto Handshake HandshakeFacts.
From S2P Require Import Manager System.

Section Histories.
Context {C : CryptoLib}.

(** The messages a history sent, and those it got. *)
Definition sent (h : list act) : list Connection :=
  omap (fun a => match a with ASend m _ => Some m | _ => None end) h.
Definition got (h : list act) : list Connection :=
  omap (fun a => match a with ANext (Val (Received (Ok m))) => Some m | _ => None end) h.

Lemma sent_app h h' : sent (h ++ h') = sent h ++ sent h'.
Proof. apply omap_app. Qed.
Lemma got_app h h' : got (h ++ h') = got h ++ got h'.
Proof. apply omap_app. Qed.

(** A wait comes after at most one message. *)
Fixpoint waits_early (n : nat) (h : list act) : bool :=
  match h with
  | [] => true
  | ANext r :: h' => (n <=? 1)%nat && waits_early (n + length (got [ANext r])) h'
  | _ :: h' => waits_early n h'
  end.

(** A spawn of the handler, and a send that fails, are the last interaction. *)
Definition final (a : act) : bool :=
  match a with ASpawn _ _ | ASend _ (Err _) => true | _ => false end.

Fixpoint final_last (h : list act) : bool :=
  match h with
  | [] => true
  | a :: h' => if final a then bool_decide (h' = []) else final_last h'
  end.

Lemma waits_early_next h r t : forall n, waits_early n (h ++ ANext r :: t) = true -> (n + length (got h) <= 1)%nat.
Proof.
  induction h as [|a h IH]; intros n H.
  - cbn in H. apply andb_true_iff in H as [H%Nat.leb_le _]. cbn. lia.
  - change (got (a :: h)) with (got ([a] ++ h)). rewrite got_app, length_app.
    destruct a; cbn -[got] in H; try (apply andb_true_iff in H as [_ H]); apply IH in H; cbn -[got] in *; try lia;
      rewrite ?Nat.add_assoc; try done; cbn; lia.
Qed.

Lemma final_last_nil t1 a t2 : final a = true -> final_last (t1 ++ a :: t2) = true -> t2 = [].
Proof.
  intros Ha. induction t1 as [|b t1 IH]; cbn; [rewrite Ha; by intros ?%bool_decide_eq_true_1 |].
  destruct (final b); [| exact IH]. intros H%bool_decide_eq_true_1. by destruct t1.
Qed.

Context {U : UnicodeTables} {L : CryptoLaws C}.

(** What every run of a handshake program satisfies; what it sends is well formed, if the client's id is. *)
Definition hs_facts (t : list act) : Prop := waits_early 0 t = true /\ final_last t = true.

Lemma connect_facts me conn peer t o : runs (connect me conn peer) t o -> hs_facts t.
Proof.
  intros H. unfold connect in H. runs_inv H; split; try reflexivity;
    by repeat match goal with r : Result ParseError unit |- _ => destruct r end.
Qed.

Lemma accept_facts me conn t o : runs (accept me conn) t o -> hs_facts t.
Proof.
  intros H. unfold accept in H. runs_inv H; split; try reflexivity;
    by repeat match goal with r : Result ParseError unit |- _ => destruct r end.
Qed.

Lemma connect_wf me conn peer t o : PeerId_valid me = true -> runs (connect me conn peer) t o ->
  Forall (fun m => Connection_wf m = true) (sent t).
Proof.
  intros Hme H. unfold connect in H. runs_inv H; cbn -[Connection_wf hmac_sign];
    repeat (apply Forall_cons; split); try apply Forall_nil; try done; by apply wf_request.
Qed.

Lemma accept_wf me conn t o : runs (accept me conn) t o -> Forall (fun m => Connection_wf m = true) (sent t).
Proof.
  intros H. unfold accept in H. runs_inv H; cbn -[Connection_wf hmac_sign];
    repeat (apply Forall_cons; split); try apply Forall_nil; try done; by apply wf_response.
Qed.

(** Neither side sends more than two messages, but for a client that waits in vain for the last message of
    the host: it sends a failure as well. *)
Lemma connect_talks me conn peer t o : runs (connect me conn peer) t o ->
  (length (sent t) <= 2)%nat \/ exists m, sent t = [m; CompleteRequest; Failure TIMEOUT_ERR].
Proof.
  intros H. unfold connect in H. runs_inv H; units; try (left; cbn; lia); right; eexists; reflexivity.
Qed.

Lemma accept_talks me conn t o : runs (accept me conn) t o -> (length (sent t) <= 2)%nat.
Proof. intros H. unfold accept in H. runs_inv H; cbn; lia. Qed.

(** A host sends no request. *)
Lemma accept_no_request me conn t o id tag : runs (accept me conn) t o -> Request id tag ∉ sent t.
Proof.
  intros H. unfold accept in H. runs_inv H; cbn; rewrite ?elem_of_cons, ?elem_of_nil; naive_solver.
Qed.

(** A client that has sent its last message, and a host that has. *)
Definition client_sent (me : PeerId) (c : PeerCandidate) (now : Z) (code : RString) (res : Result ParseError unit) : list act :=
  [ANow now; ASend (Request me (hmac_sign (as_bytes code) (PeerId_bytes me))) (Ok tt);
   ANext (Got (Response (hmac_sign (as_bytes code) (PeerId_bytes (pc_id c)))));
   ASend CompleteRequest res].

Definition host_sent (me id : PeerId) (c : PeerCandidate) (now : Z) (code : RString) (res : Result ParseError unit) : list act :=
  [ANext (Got (Request id (hmac_sign (as_bytes code) (PeerId_bytes (pc_id c)))));
   ACandidate id (Some c); ANow now; ASend (Response (hmac_sign (as_bytes code) (PeerId_bytes me))) (Ok tt);
   ANext (Got CompleteRequest); ASend CompleteResponse res].

Lemma connect_sent_inv me conn c t o m : runs (connect me conn c) t o -> [m; CompleteRequest] `prefix_of` sent t ->
  exists now code res, PairingAuthenticator_generate (pc_auth c) now = Ok code /\ client_sent me c now code res `prefix_of` t.
Proof.
  intros H [tl Hp]. unfold connect in H. runs_inv H; try done; units.
  all: do 3 eexists; split; [eassumption |]; eexists; reflexivity.
Qed.

Lemma accept_sent_inv me conn t o m : runs (accept me conn) t o -> [m; CompleteResponse] `prefix_of` sent t ->
  exists id c now code res, PairingAuthenticator_generate (pc_auth c) now = Ok code /\ host_sent me id c now code res `prefix_of` t.
Proof.
  intros H [tl Hp]. unfold accept in H. runs_inv H; try done; units.
  all: do 5 eexists; split; [eassumption |]; eexists; reflexivity.
Qed.

(** What a client does after its last wait: it ends with a handler, or says that it waited in vain. *)
Lemma connect_last_got me conn c h t o : runs (connect me conn c) (h ++ ANext (Got CompleteResponse) :: t) o ->
  length (sent h) = 2%nat -> length (got h) = 1%nat /\ exists id, t = [ASpawn id conn].
Proof.
  intros H. remember (h ++ ANext (Got CompleteResponse) :: t) as t0 eqn:E. symmetry in E. revert E.
  unfold connect in H. runs_inv H; intros E Hl; units.
  all: do 7 (try (destruct h as [|? h]; [try discriminate E | first [discriminate E | injection E as -> E]])).
  all: try discriminate E; try discriminate Hl.
  all: injection E; intros; subst; try done; eauto.
Qed.

Lemma connect_last_timeout me conn c h t o : runs (connect me conn c) (h ++ ANext (Val TimedOut) :: t) o ->
  length (sent h) = 2%nat -> length (got h) = 1%nat /\ exists r, t = [ASend (Failure TIMEOUT_ERR) r].
Proof.
  intros H. remember (h ++ ANext (Val TimedOut) :: t) as t0 eqn:E. symmetry in E. revert E.
  unfold connect in H. runs_inv H; intros E Hl; units.
  all: do 7 (try (destruct h as [|? h]; [try discriminate E | first [discriminate E | injection E as -> E]])).
  all: try discriminate E; try discriminate Hl.
  all: injection E; intros; subst; try done; eauto.
Qed.

End Histories.

(** ** Tasks *)

Section Tasks.
Context {C : CryptoLib}.

(** No handshake is left. *)
Fixpoint finished_hs {A} (t : task A) : Prop :=
  match t with
  | TRet _ | TPanic => True
  | TMgr o k => forall x, finished_hs (k x)
  | TOrder s k => forall l, finished_hs (k l)
  | TTcp _ _ | THs _ _ | TNote _ _ | TSpawnAccept _ _ => False
  end.

(** What the discovered peers satisfy is satisfied by the candidates looked up in them. *)
Definition found {X} (Q : PeerCandidate -> Prop) (o : mop X) : X -> Prop :=
  match o in mop X return X -> Prop with
  | DiscoveredGet id => fun r => forall c, r = Some c -> Q c
  | _ => fun _ => True
  end.

Section Candidates.
Context (Q : PeerCandidate -> Prop).

(** The handshake of a client is about to begin on a connection, with a candidate in [Q]. *)
Definition starts {A} (me : PeerId) (conn : Z) (t : task A) : Prop :=
  exists c k, t = THs (connect me conn c) k /\ Q c /\ forall x, finished_hs (k x).

(** No handshake has begun, and the first that begins does so on a new connection. *)
Fixpoint fresh {A} (me : PeerId) (t : task A) : Prop :=
  match t with
  | TRet _ | TPanic => True
  | TMgr o k => forall x, found Q o x -> fresh me (k x)
  | TOrder s k => forall l, fresh me (k l)
  | TTcp addr k => forall r, match r with Ok conn => starts me conn (k r) | Err _ => fresh me (k r) end
  | THs _ _ | TNote _ _ | TSpawnAccept _ _ => False
  end.

End Candidates.

(** In the middle of the handshake [orig], after the interactions [h]. *)
Fixpoint in_hs {A Y} (orig : hs Y) (h : list act) (t : task A) : Prop :=
  match t with
  | THs p k => (forall t' o', runs p t' o' -> exists o, runs orig (h ++ t') o) /\ forall x, finished_hs (k x)
  | TMgr o k => forall x, in_hs orig h (k x)
  | TNote a k => (exists id c, a = ACandidate id c) /\ in_hs orig (h ++ [a]) k
  | TRet _ | TPanic | TOrder _ _ | TTcp _ _ | TSpawnAccept _ _ => False
  end.

(** In it or after it. *)
Definition in_session {A Y} (orig : hs Y) (h : list act) (t : task A) : Prop :=
  in_hs orig h t \/ finished_hs t /\ exists o, runs orig h o.

Lemma finished_fresh {A} Q me (t : task A) : finished_hs t -> fresh Q me t.
Proof. induction t as [a| |X o k IH|s k IH|addr k IH|X p k IH|a k IH|conn k IH]; cbn; eauto. done. Qed.

Lemma finished_bind {A B} (t : task A) (f : A -> task B) :
  finished_hs t -> (forall a, finished_hs (f a)) -> finished_hs (t ≫= f).
Proof. unfold mbind, task_bind. induction t as [a| |X o k IH|s k IH|addr k IH|X p k IH|a k IH|conn k IH]; cbn; eauto. Qed.

Lemma fresh_bind {A B} Q me (t : task A) (f : A -> task B) :
  fresh Q me t -> (forall a, finished_hs (f a)) -> fresh Q me (t ≫= f).
Proof.
  unfold mbind, task_bind. intros Ht Hf.
  induction t as [a| |X o k IH|s k IH|addr k IH|X p k IH|a k IH|conn k IH]; cbn in *; eauto using finished_fresh.
  intros [conn|e]; [| by apply (IH (Err e)), (Ht (Err e))]. destruct (Ht (Ok conn)) as (c & k' & E & Hq & Hk).
  exists c, (fun x => task_bind_fix f (k' x)). rewrite E. split_and!; [done | done |]. intros x. by apply finished_bind.
Qed.

Lemma fresh_connect_addrs (Q : PeerCandidate -> Prop) me id c addrs : Q c -> fresh Q me (connect_addrs me id c addrs).
Proof.
  intros Hq. induction addrs as [|a addrs IH]; [done |]. cbn. intros [conn|e]; [| exact IH].
  do 2 eexists. split; [reflexivity |]. split; [exact Hq |]. by intros [p|e].
Qed.

Lemma fresh_connect Q me id : fresh Q me (_ ← connect_to_peer me id; mret tt).
Proof.
  apply fresh_bind; [| done]. intros [] _; [done |]. intros [c|] Hc; [| done]. intros l. by apply fresh_connect_addrs, Hc.
Qed.
Lemma fresh_add Q me c : fresh Q me (add_known_peer c).
Proof. done. Qed.
Lemma fresh_request Q me : fresh Q me request_presence.
Proof. by intros [] _. Qed.
Lemma fresh_disconnected Q me id : fresh Q me (peer_disconnected id).
Proof. by intros [] _ [] _. Qed.

Lemma session_accept me conn : in_session (accept me conn) [] (accept_task me conn).
Proof. left. cbn. split; [eauto |]. intros [p|e]; [by intros [] [] | done]. Qed.
Lemma session_connect {A} me conn c (k : Result HandshakeError Peer -> task A) :
  (forall x, finished_hs (k x)) -> in_session (connect me conn c) [] (THs (connect me conn c) k).
Proof. left. split; [eauto | done]. Qed.

(** ** Steps *)

Lemma found_step {X} (Q : PeerCandidate -> Prop) (o : mop X) m x m' :
  (forall id c, discovered_peers m !! id = Some c -> Q c) -> mop_step o m = Some (x, m') -> found Q o x.
Proof. intros Hd Hs. destruct o; try done. cbn in Hs. simplify_eq. intros c. apply Hd. Qed.

Lemma fresh_step {A} Q me ans (t : task A) m t' m' h sp :
  (forall id c, discovered_peers m !! id = Some c -> Q c) ->
  fresh Q me t -> (forall conn, ans <> AnsTcp (Ok conn)) -> task_step ans t m = Some (t', m', h, sp) ->
  fresh Q me t' /\ h = [] /\ sp = [].
Proof.
  intros Hd Ht Ha Hs. destruct t as [a| |X o k|s k|addr k|X p k|a k|conn k]; cbn in Hs, Ht; try done.
  - destruct (mop_step o m) as [[x m1]|] eqn:E; cbn in Hs; simplify_eq. split; [| done]. by eapply Ht, found_step.
  - destruct ans; try done. case_decide; simplify_eq. auto.
  - destruct ans as [| |[conn|e]| | |]; try done; simplify_eq; [by destruct (Ha conn) |]. by specialize (Ht (Err e)).
Qed.

Lemma finished_step {A} ans (t : task A) m t' m' h sp :
  finished_hs t -> task_step ans t m = Some (t', m', h, sp) -> finished_hs t' /\ h = [] /\ sp = [].
Proof.
  intros Ht Hs. destruct t as [a| |X o k|s k|addr k|X p k|a k|conn k]; cbn in Hs, Ht; try done.
  - destruct (mop_step o m) as [[x m1]|]; cbn in Hs; simplify_eq. auto.
  - destruct ans; try done. case_decide; simplify_eq. auto.
Qed.

Lemma runs_exist {A} (p : hs A) : exists t o, runs p t o.
Proof.
  destruct (hs_exec_runs (mkEnv (fun _ => 0) (fun _ _ => Ok tt) (fun _ => Panic) (fun _ _ => None)) p []) as [H _]. eauto.
Qed.

(** One more interaction. *)
Lemma in_hs_act {A X Y} (orig : hs Y) h a (p p' : hs X) (k : X -> task A) :
  (forall t o, runs p' t o -> runs p (a :: t) o) -> in_hs orig h (THs p k) -> in_hs orig (h ++ [a]) (THs p' k).
Proof. intros Hp [Hr Hk]. split; [| done]. intros t' o' H. rewrite <- app_assoc. eapply Hr. by apply Hp. Qed.

(** The handlers a step spawns are in the history. *)
Definition spawned (h : list act) (sp : list spawn) : Prop :=
  sp = [] \/ exists id conn, sp = [SpHandler id conn] /\ h = [ASpawn id conn].

Lemma session_step {A Y} (orig : hs Y) h ans (t : task A) m t' m' h' sp :
  in_session orig h t -> task_step ans t m = Some (t', m', h', sp) ->
  in_session orig (h ++ h') t' /\ spawned h' sp.
Proof.
  intros [Ht|[Ht Ho]] Hs.
  2: { destruct (finished_step _ _ _ _ _ _ _ Ht Hs) as (? & -> & ->). rewrite app_nil_r. split; [by right | by left]. }
  destruct t as [a| |X o k|s k|addr k|X p k|a k|conn k]; cbn in Hs; try done.
  - destruct (mop_step o m) as [[x m1]|]; cbn in Hs; simplify_eq. rewrite app_nil_r. split; [left; apply Ht | by left].
  - destruct p as [x| |kk|msg kk|kk|id kk|id conn p'].
    + simplify_eq. rewrite app_nil_r. destruct Ht as [Hr Hk]. split; [| by left]. right. split; [apply Hk |].
      destruct (Hr [] (Val x)) as [o Ho]; [constructor |]. rewrite app_nil_r in Ho. eauto.
    + simplify_eq. rewrite app_nil_r. destruct Ht as [Hr Hk]. split; [| by left]. right. split; [done |].
      destruct (Hr [] Panic) as [o Ho]; [constructor |]. rewrite app_nil_r in Ho. eauto.
    + destruct ans; try done. simplify_eq. split; [| by left]. left. eapply in_hs_act; [| exact Ht]. by constructor.
    + destruct ans; try done. simplify_eq. split; [| by left]. left. eapply in_hs_act; [| exact Ht]. by constructor.
    + destruct ans; try done. simplify_eq. split; [| by left]. left. eapply in_hs_act; [| exact Ht]. by constructor.
    + simplify_eq. rewrite app_nil_r. split; [| by left]. left. cbn. intros d c. split; [eauto |].
      eapply in_hs_act; [| exact Ht]. by constructor.
    + simplify_eq. split; [| right; eauto]. left. eapply in_hs_act; [| exact Ht]. by constructor.
  - simplify_eq. destruct Ht as [_ Ht]. split; [by left | by left].
Qed.

(** Some answer to an access. *)
Lemma mop_answer {X} (o : mop X) : inhabited X.
Proof.
  destruct o; constructor; try first [exact tt | exact None | exact false | exact (Ok tt)].
  exact {| pm_name := PeerId_0 PeerId_default; pm_typ := Windows10Desktop; pm_id := PeerId_default;
           pm_addr := V4 Ipv4Addr_LOCALHOST 0 |}.
Qed.

(** The history extends to a whole run of the handshake, by the next interaction if one is due. *)
Lemma session_runs {A Y} (orig : hs Y) (t : task A) : forall h, in_session orig h t -> exists t' o, runs orig (h ++ t') o.
Proof.
  intros h [Ht|[_ [o Ho]]]; [| exists [], o; by rewrite app_nil_r]. revert h Ht.
  induction t as [a| |X o k IH|s k IH|addr k IH|X p k IH|a k IH|conn k IH]; intros h Ht; cbn in Ht; try done.
  - destruct (mop_answer o) as [x]. by apply (IH x).
  - destruct Ht as [Hr _]. destruct (runs_exist p) as (t' & o' & H). destruct (Hr _ _ H) as [o Ho]. eauto.
  - destruct Ht as [_ Ht]. destruct (IH _ Ht) as (t' & o & H). rewrite <- app_assoc in H. eauto.
Qed.

(** What every run of [orig] satisfies, its history satisfies on the way. *)
Lemma session_facts {A Y} (orig : hs Y) h (t : task A) :
  (forall t o, runs orig t o -> hs_facts t) -> in_session orig h t ->
  (forall h1 r h2, h = h1 ++ ANext r :: h2 -> (length (got h1) <= 1)%nat) /\
  (forall h1 a h2, final a = true -> h = h1 ++ a :: h2 -> h2 = []).
Proof.
  intros Hf Ht. destruct (session_runs orig t h Ht) as (t' & o & Hr). apply Hf in Hr as (He & Hl). split.
  - intros h1 r h2 ->. rewrite <- app_assoc in He. by apply waits_early_next in He.
  - intros h1 a h2 Ha ->. rewrite <- app_assoc in Hl. apply final_last_nil in Hl; [| exact Ha]. by destruct h2.
Qed.

(** What was sent on the way is the beginning of what a whole run sends. *)
Lemma session_sent {A Y} (orig : hs Y) h (t : task A) (Q : list Connection -> Prop) :
  (forall t o, runs orig t o -> Q (sent t)) -> in_session orig h t -> exists ms, sent h `prefix_of` ms /\ Q ms.
Proof.
  intros HQ Ht. destruct (session_runs orig t h Ht) as (t' & o & Hr). apply HQ in Hr.
  rewrite sent_app in Hr. eexists. split; [| exact Hr]. by exists (sent t').
Qed.

End Tasks.
