(* ===== verification/NetworkAgreement.v ===== *)
(** Agreement of two nodes on their connections.

    The invariant: at each end of a connection is a task in the session of that connection; what one end
    has got is a prefix of what the other sent; and the bytes on the way are the messages sent and not got,
    followed by nothing while the sender's handler does not run.  It holds in every run of the network,
    whatever else happens on the two nodes, and gives matching conversations. *)

From Stdlib Require Import ZArith Lia.
From Stdlib Require Import Strings.Byte.
From stdpp Require Import base tactics numbers option list strings gmap.
From S2P Require Import Prelude RustStd SockAddr Errors Pairing Peer Proto ProtoFacts Handshake HandshakeFacts.
From S2P Require Import Transport Manager Handler System SystemTheorems Discovery Network Sessions UnitTests IntegrationTest NetworkTheorems Samples.

Section Agreement.
Context {U : UnicodeTables} {P : Profile} {C : CryptoLib} {L : CryptoLaws C} {T : TokioUtil} {TL : TokioUtilLaws T}.
Context (md : side -> PeerMetadata) (local group : SocketAddr).
#[local] Abbreviation me := (me md).
#[local] Abbreviation net_exec := (net_exec md local group).
#[local] Abbreviation net_run := (net_run md local group).
(** What the applications paired, and the candidates of those pairings. *)
Context (Paired : side -> PeerId -> PairingAuthenticator -> Prop).
Definition paired_cand (n : side) (c : PeerCandidate) : Prop := cand_ok (Paired n) (pc_id c) c.

(** ** The invariant *)

(** The tasks of the nodes. *)
Definition tasks_of (w : network) (n : side) : list trec := s_tasks (sys_of n w).

(** The handshake at an end of link [k], whose client connects to the candidate [c]. *)
Definition orig (l : link) (c : PeerCandidate) (k : nat) (r : role) : hs (Result HandshakeError Peer) :=
  match r with
  | AsClient => connect (me (node_at AsClient l)) (Z.of_nat k) c
  | AsHost => accept (me (node_at AsHost l)) (Z.of_nat k)
  end.

Definition wire (ms : list Connection) : list byte := concat (Wire.connection <$> ms).

(** The task of an end has the history [h] and is in the session. *)
Definition end_ok (ts : list trec) (o : hs (Result HandshakeError Peer)) (e : endpoint) (h : list act) : Prop :=
  match e_task e with
  | Some i => exists t, ts !! i = Some (mkTrec h t) /\ in_session o h t
  | None => h = []
  end /\
  (has_handler e = true -> exists id conn, ASpawn id conn ∈ h).

(** What the handler of an end has written to the connection, and what came to it from there. *)
Definition handed (e : endpoint) : list byte :=
  match e_handler e with Some h => p_dst (h_application h) | None => [] end.
Definition came (e : endpoint) : list byte :=
  match e_handler e with Some h => p_given (h_network h) | None => [] end.

(** The handler of an end has run from its start. *)
Definition handler_ran (e : endpoint) : Prop :=
  forall h, e_handler e = Some h -> exists es, handler_run es handler_init = Some h.

(** A send of the handshake has failed. *)
Definition send_failed (h : list act) : Prop := exists m e, ASend m (Err e) ∈ h.

(** What sender [s] with history [hs] and receiver [r] with history [hr] agree on.  Of the bytes sent, the
    handshake of [r] got some, then [Framed] holds some, then some were [lost] with it, then the handler
    got some, some are on the way, and the rest never left, when a send has failed. *)
Definition chan_ok (hs : list act) (s : endpoint) (hr : list act) (r : endpoint) : Prop :=
  got hr `prefix_of` sent hs /\ handler_ran r /\
  exists lost missing, (has_handler r = false -> lost = []) /\ (missing <> [] -> send_failed hs) /\
    wire (sent hs) ++ handed s = wire (got hr) ++ e_framed r ++ lost ++ came r ++ e_wire r ++ missing.

(** The client of a link has an id the protocol can carry. *)
Definition client_valid (l : link) : Prop := PeerId_valid (me (node_at AsClient l)) = true.

Definition link_ok (ts : side -> list trec) (k : nat) (l : link) : Prop :=
  exists (c : PeerCandidate) (h : role -> list act),
    paired_cand (node_at AsClient l) c /\
    (forall r, end_ok (ts (node_at r l)) (orig l c k r) (end_of r l) (h r)) /\
    (client_valid l -> forall r, chan_ok (h r) (end_of r l) (h (peer_role r)) (end_of (peer_role r) l)).

(** Task [i] of node [n] is that of the end [r] of link [k]. *)
Definition owns (ls : list link) (n : side) (i k : nat) (r : role) : Prop :=
  exists l, ls !! k = Some l /\ node_at r l = n /\ e_task (end_of r l) = Some i.

(** A program of the event loop that accepts nothing (and runs no handshake of its own). *)
Fixpoint no_accept {A} (t : task A) : Prop :=
  match t with
  | TRet _ | TPanic => True
  | TMgr o k => forall x, no_accept (k x)
  | TOrder s k => forall l, no_accept (k l)
  | TTcp addr k => forall r, no_accept (k r)
  | THs _ _ | TNote _ _ | TSpawnAccept _ _ => False
  end.

(** The event loop accepts at most the one connection it was given, to which no task belongs yet. *)
Definition loop_ok (ls : list link) (n : side) (lp : loop_state) : Prop :=
  match lp with
  | LoopBusy t => no_accept t \/ exists k l t', t = TSpawnAccept (Z.of_nat k) t' /\ no_accept t' /\
      ls !! k = Some l /\ node_at AsHost l = n /\ e_task (l_host l) = None
  | _ => True
  end.

(** What the nodes have discovered are candidates of their pairings. *)
Definition cands_ok (w : network) : Prop :=
  forall n id c, discovered_peers (s_mgr (sys_of n w)) !! id = Some c -> paired_cand n c.

(** A task that has no connection yet. *)
Definition new_task (n : side) (r : trec) : Prop := t_hist r = [] /\ fresh (paired_cand n) (me n) (t_prog r).

(** Links are agreed upon; every task is new or that of one end of one link. *)
Definition links_ok (ts : side -> list trec) (ls : list link) : Prop :=
  (forall k l, ls !! k = Some l -> link_ok ts k l) /\
  (forall n i r, ts n !! i = Some r -> new_task n r \/ exists k ro, owns ls n i k ro) /\
  (forall n i k r k' r', owns ls n i k r -> owns ls n i k' r' -> k = k' /\ r = r').

Definition net_ok (w : network) : Prop :=
  links_ok (tasks_of w) (nw_links w) /\ forall n, loop_ok (nw_links w) n (s_loop (sys_of n w)).

(** ** Messages on the way *)

Lemma wire_app ms ms' : wire (ms ++ ms') = wire ms ++ wire ms'.
Proof. unfold wire. by rewrite fmap_app, concat_app. Qed.
Lemma wire_one m : wire [m] = Wire.connection m.
Proof. unfold wire. cbn. by rewrite app_nil_r. Qed.

Lemma wire_cons m ms : wire (m :: ms) = Wire.connection m ++ wire ms.
Proof. done. Qed.

(** Decoding what [Framed] has read of a stream of well-formed messages, after which other bytes may come:
    the first of them, or nothing yet. *)
Lemma decode_stream ms extra framed rest : Forall (fun m => Connection_wf m = true) ms ->
  (ms = [] -> extra = []) -> wire ms ++ extra = framed ++ rest ->
  ConnectionCodec_decode framed = Val (Ok None, framed) \/
  exists m ms' framed', ms = m :: ms' /\ ConnectionCodec_decode framed = Val (Ok (Some m), framed') /\
    wire ms' ++ extra = framed' ++ rest.
Proof.
  intros Hw Hx E. destruct ms as [|m ms].
  - rewrite (Hx eq_refl) in E. symmetry in E. apply app_eq_nil in E as [-> ->]. left.
    apply (decode_prefix (C := ConnectionCodec) CompleteRequest [] (Wire.connection CompleteRequest)); done.
  - apply Forall_cons in Hw as [Hm Hw]. rewrite wire_cons, <- app_assoc in E.
    apply app_eq_inv in E as [(q & E1 & E2)|(q & E1 & E2)].
    + destruct q as [|b q].
      * rewrite app_nil_r in E1. right. exists m, ms, []. split_and!; [done | | by rewrite E2].
        rewrite <- E1, <- (app_nil_r (Wire.connection m)). by apply (decode_wire (C := ConnectionCodec) m []).
      * left. apply (decode_prefix (C := ConnectionCodec) m framed (b :: q)); done.
    + right. exists m, ms, q. split_and!; [done | | done]. rewrite E1.
      by apply (decode_wire (C := ConnectionCodec) m q).
Qed.

Lemma handed_none e : has_handler e = false -> handed e = [].
Proof. unfold has_handler, handed. by destruct (e_handler e). Qed.
Lemma came_none e : has_handler e = false -> came e = [].
Proof. unfold has_handler, came. by destruct (e_handler e). Qed.

(** ** Steps of the tasks, seen from the links *)

Lemma end_ok_tasks ts ts' o e h : (forall i r, e_task e = Some i -> ts !! i = Some r -> ts' !! i = Some r) ->
  end_ok ts o e h -> end_ok ts' o e h.
Proof.
  intros Ht [H1 H2]. split; [| exact H2]. destruct (e_task e) as [i|]; [| done].
  destruct H1 as (t & Hi & Hs). exists t. split; [by apply Ht | done].
Qed.

Lemma link_ok_tasks ts ts' k l :
  (forall r i x, e_task (end_of r l) = Some i -> ts (node_at r l) !! i = Some x -> ts' (node_at r l) !! i = Some x) ->
  link_ok ts k l -> link_ok ts' k l.
Proof. intros Ht (c & h & Hq & He & Hc). exists c, h. split; [exact Hq |]. split; [| exact Hc]. intros r. eapply end_ok_tasks; [apply Ht | apply He]. Qed.

(** New tasks. *)
Lemma links_ok_grow ts ts' ls :
  (forall n, exists new, ts' n = ts n ++ new /\ Forall (new_task n) new) -> links_ok ts ls -> links_ok ts' ls.
Proof.
  intros Hg (Hl & Ht & Hu). split_and!; [| | exact Hu].
  - intros k l Hk. eapply link_ok_tasks; [| by apply Hl]. intros r i x _ Hx.
    destruct (Hg (node_at r l)) as (new & -> & _). by apply lookup_app_l_Some.
  - intros n i r Hi. destruct (Hg n) as (new & E & Hn). rewrite E in Hi.
    apply lookup_app_Some in Hi as [Hi|[_ Hi]]; [by apply Ht |]. left. by eapply Forall_lookup_1.
Qed.

Lemma links_ok_ext ts ts' ls : (forall n, ts' n = ts n) -> links_ok ts ls -> links_ok ts' ls.
Proof. intros E. apply links_ok_grow. intros n. exists []. by rewrite E, app_nil_r. Qed.

(** A task without connection steps. *)
Lemma links_ok_new ts ts' ls n i r' :
  (forall k ro, ~ owns ls n i k ro) -> new_task n r' ->
  (forall n' j, ts' n' !! j = if decide (n' = n /\ j = i) then Some r' else ts n' !! j) ->
  links_ok ts ls -> links_ok ts' ls.
Proof.
  intros Hn Hr E (Hl & Ht & Hu). split_and!; [| | exact Hu].
  - intros k l Hk. eapply link_ok_tasks; [| by apply Hl]. intros r j x Hj Hx. rewrite E. case_decide as D; [| done].
    destruct D as [D ->]. destruct (Hn k r). exists l. done.
  - intros n' j r Hj. rewrite E in Hj. case_decide as D; [destruct D as [-> ->]; simplify_eq; by left | by apply Ht].
Qed.

(** Something happens at link [k] and to its tasks only. *)
Lemma links_ok_link ts ts' ls ls' k l l' :
  ls !! k = Some l -> ls' !! k = Some l' -> (forall k', k' <> k -> ls' !! k' = ls !! k') ->
  (forall r, node_at r l' = node_at r l /\ e_task (end_of r l') = e_task (end_of r l)) ->
  (forall n j, (exists r, owns ls n j k r) \/ ts' n !! j = ts n !! j) ->
  link_ok ts' k l' -> links_ok ts ls -> links_ok ts' ls'.
Proof.
  intros Hk Hk' Hls He Hts Hok (Hl & Ht & Hu).
  assert (Ho : forall n i j r, owns ls' n i j r <-> owns ls n i j r).
  { intros n i j r. unfold owns. destruct (decide (j = k)) as [->|Hne]; [| by rewrite Hls].
    rewrite Hk, Hk'. split; intros (x & [= <-] & E1 & E2); destruct (He r) as [F1 F2]; eexists;
      (split; [reflexivity | split; congruence]). }
  split_and!.
  - intros j x Hj. destruct (decide (j = k)) as [->|Hne]; [by simplify_eq |]. rewrite Hls in Hj by done.
    eapply link_ok_tasks; [| by apply Hl]. intros r i y Hi Hy.
    destruct (Hts (node_at r x) i) as [[r' Hr']| ->]; [| done].
    destruct Hne. by eapply (Hu (node_at r x) i j r k r'); [exists x |].
  - intros n i r Hi. destruct (Hts n i) as [[r' Hr']|E]; [right; exists k, r'; by apply Ho |].
    rewrite E in Hi. destruct (Ht n i r Hi) as [?|(j & r' & Hj)]; [by left |]. right. exists j, r'. by apply Ho.
  - intros n i j r j' r' H1%Ho H2%Ho. by eapply Hu.
Qed.

(** A new task is nobody's. *)
Lemma owned_session ts ls n i k ro r : links_ok ts ls -> owns ls n i k ro -> ts n !! i = Some r ->
  exists l c, ls !! k = Some l /\ node_at ro l = n /\ in_session (orig l c k ro) (t_hist r) (t_prog r).
Proof.
  intros (Hl & _) (l & Hk & Hn & He) Hi. destruct (Hl k l Hk) as (c & h & Hcd & Hend & _).
  destruct (Hend ro) as [H _]. rewrite He, Hn in H. destruct H as (t & Ht & Hs). simplify_eq. by exists l, c.
Qed.

Lemma not_owned_tcp ts ls n i r addr kk : links_ok ts ls -> ts n !! i = Some r -> t_prog r = TTcp addr kk ->
  forall k ro, ~ owns ls n i k ro.
Proof.
  intros Hok Hi E k ro Ho. destruct (owned_session _ _ _ _ _ _ _ Hok Ho Hi) as (l & c & _ & _ & [Hs|[Hs _]]); by rewrite E in Hs.
Qed.

(** A task connects. *)
Lemma links_ok_connect ts ts' ls n i t :
  is_Some (ts n !! i) -> (forall k ro, ~ owns ls n i k ro) -> starts (paired_cand n) (me n) (Z.of_nat (length ls)) t ->
  (forall n' j, ts' n' !! j = if decide (n' = n /\ j = i) then Some (mkTrec [] t) else ts n' !! j) ->
  links_ok ts ls -> links_ok ts' (ls ++ [mkLink n (mkEnd (Some i) [] [] None) no_end]).
Proof.
  intros Hi Hno (c & kk & -> & Hq & Hk) E (Hl & Ht & Hu).
  set (ls' := ls ++ _). set (new := mkLink n _ no_end) in *.
  assert (Ho : forall n' j k r, owns ls' n' j k r <->
    owns ls n' j k r \/ n' = n /\ j = i /\ k = length ls /\ r = AsClient).
  { intros n' j k r. unfold owns, ls'. split.
    - intros (x & [Hx|[Hk' Hx]]%lookup_app_Some & E1 & E2); [left; by exists x |]. right.
      destruct (k - length ls)%nat eqn:D; [| done]. cbn in Hx. injection Hx as <-. destruct r; cbn in E1, E2; [| done].
      simplify_eq. split_and!; (done || lia).
    - intros [(x & Hx & ?)|(-> & -> & -> & ->)]; [exists x; split; [by apply lookup_app_l_Some | done] |].
      exists new. split; [apply list_lookup_middle; done | done]. }
  split_and!.
  - intros k l [Hx|[Hk' Hx]]%lookup_app_Some.
    + eapply link_ok_tasks; [| by apply Hl]. intros r j x Hj Hx'. rewrite E. case_decide as D; [| done].
      destruct D as [D ->]. destruct (Hno k r). by exists l.
    + destruct (k - length ls)%nat eqn:D; [| done]. cbn in Hx. injection Hx as <-. assert (k = length ls) as -> by lia.
      exists c, (fun _ => []). split; [exact Hq |]. split.
      * intros []; split; try done. cbn. exists (THs (connect (me n) (Z.of_nat (length ls)) c) kk).
        rewrite E, decide_True by done. split; [done |]. by apply session_connect.
      * intros _ []; (split; [apply prefix_nil | split; [done | by exists [], []]]).
  - intros n' j r Hj. rewrite E in Hj. case_decide as D.
    + right. exists (length ls), AsClient. apply Ho. right. by destruct D as [-> ->].
    + destruct (Ht n' j r Hj) as [?|(k & r' & ?)]; [by left |]. right. exists k, r'. apply Ho. by left.
  - intros n' j k r k' r' H1%Ho H2%Ho. destruct H1 as [H1|(-> & -> & -> & ->)], H2 as [H2|(E1 & E2 & -> & ->)]; subst.
    + by eapply Hu.
    + by destruct (Hno k r).
    + by destruct (Hno k' r').
    + done.
Qed.

(** The task of an accepted connection. *)
Lemma links_ok_accept ts ts' ls ls' n k l :
  ls !! k = Some l -> node_at AsHost l = n -> e_task (l_host l) = None ->
  ls' = <[k := mkLink (l_client_node l) (l_client l)
            (mkEnd (Some (length (ts n))) (e_wire (l_host l)) (e_framed (l_host l)) (e_handler (l_host l)))]> ls ->
  ts' n = ts n ++ [mkTrec [] (accept_task (me n) (Z.of_nat k))] -> (forall m, m <> n -> ts' m = ts m) ->
  links_ok ts ls -> links_ok ts' ls'.
Proof.
  intros Hk Hn He -> E E' (Hl & Ht & Hu). set (l' := mkLink _ _ _). set (ls' := <[k := l']> ls).
  assert (Hk' : ls' !! k = Some l') by (apply list_lookup_insert_eq; by eapply lookup_lt_Some).
  assert (Hls : forall j, j <> k -> ls' !! j = ls !! j) by (intros j Hj; by apply list_lookup_insert_ne).
  assert (Hg : forall m j x, ts m !! j = Some x -> ts' m !! j = Some x).
  { intros m j x Hx. destruct (decide (m = n)) as [->|Hm]; [rewrite E; by apply lookup_app_l_Some | by rewrite E']. }
  assert (Ho : forall n' j k' r, owns ls' n' j k' r <->
    owns ls n' j k' r \/ n' = n /\ j = length (ts n) /\ k' = k /\ r = AsHost).
  { intros n' j k' r. unfold owns. destruct (decide (k' = k)) as [->|Hne].
    - rewrite Hk, Hk'. split.
      + intros (x & [= <-] & E1 & E2). destruct r; [left; by exists l | right]. cbn in E2. injection E2 as <-.
        split_and!; try done. by rewrite <- Hn.
      + intros [(x & [= <-] & E1 & E2)|(-> & -> & _ & ->)]; exists l'; split_and!; try done.
        destruct r; [done |]. cbn in E2. congruence.
    - rewrite Hls by done. split; [by left |]. by intros [?|(_ & _ & ? & _)]. }
  assert (Hnew : forall k' r, ~ owns ls n (length (ts n)) k' r).
  { intros k' r (x & Hx & Hn' & Hx'). destruct (Hl k' x Hx) as (c & h & _ & Hend & _). destruct (Hend r) as [H _].
    rewrite Hx', Hn' in H. destruct H as (t & H & _). apply lookup_lt_Some in H. lia. }
  split_and!.
  - intros j x Hj. destruct (decide (j = k)) as [->|Hne].
    + rewrite Hk' in Hj. injection Hj as <-. destruct (Hl k l Hk) as (c & h & Hcd & Hend & Hc).
      exists c, h. split; [exact Hcd |]. split.
      * intros r. destruct (Hend r) as [H1 H2]. destruct r.
        -- eapply end_ok_tasks; [intros i x _; apply Hg | by split].
        -- split; [| exact H2]. change (end_of AsHost l) with (l_host l) in H1. rewrite He in H1. rewrite H1.
           exists (accept_task (me n) (Z.of_nat k)). unfold orig.
           change (node_at AsHost l') with (node_at AsHost l). rewrite Hn, E.
           split; [by apply list_lookup_middle | apply session_accept].
      * intros Hv r. specialize (Hc Hv r). by destruct r.
    + rewrite Hls in Hj by done. eapply link_ok_tasks; [| by apply Hl]. intros r i y _. apply Hg.
  - intros n' i r Hi. destruct (decide (n' = n)) as [->|Hm].
    + rewrite E in Hi. apply lookup_app_Some in Hi as [Hi|[Hle Hi]].
      * destruct (Ht n i r Hi) as [?|(j & r' & ?)]; [by left | right; exists j, r'; apply Ho; by left].
      * right. exists k, AsHost. apply Ho. right. destruct (i - length (ts n))%nat eqn:D; [| done]. split_and!; (done || lia).
    + rewrite E' in Hi by done. destruct (Ht n' i r Hi) as [?|(j & r' & ?)]; [by left | right; exists j, r'; apply Ho; by left].
  - intros n' j k1 r1 k2 r2 H1%Ho H2%Ho. destruct H1 as [H1|(-> & -> & -> & ->)], H2 as [H2|(E1 & E2 & -> & ->)]; subst; try done.
    + by eapply Hu.
    + by destruct (Hnew k1 r1).
    + by destruct (Hnew k2 r2).
Qed.

(** ** Steps of a node, seen from the network *)

Lemma owned_dec ls n i : (exists k ro, owns ls n i k ro) \/ forall k ro, ~ owns ls n i k ro.
Proof.
  destruct (decide (Exists (fun l => e_task (end_of (role_of n l) l) = Some i) ls)) as [H|H].
  - left. apply Exists_exists in H as (l & [k Hk]%list_elem_of_lookup & Hi). exists k, (role_of n l), l. split_and!; try done.
    unfold role_of. case_decide as D; [done |]. cbn. by destruct n, (l_client_node l).
  - right. intros k ro (l & Hk & Hn & Hi). apply H, Exists_exists. exists l.
    split; [by eapply list_elem_of_lookup_2 |]. replace (role_of n l) with ro; [done |].
    unfold role_of. destruct ro; cbn in Hn; subst; case_decide as D; try done. by destruct (l_client_node l).
Qed.

Lemma role_of_node r l : role_of (node_at r l) l = r.
Proof. unfold role_of. destruct r; cbn; case_decide as D; try done. by destruct (l_client_node l). Qed.

Lemma put_end_links k r e w l : nw_links w !! k = Some l ->
  nw_links (put_end k r e w) = <[k := set_end r e l]> (nw_links w).
Proof.
  intros Hk. cbn. apply list_eq. intros j. destruct (decide (j = k)) as [->|Hne].
  - rewrite list_lookup_alter_eq, Hk, list_lookup_insert_eq; [done | by eapply lookup_lt_Some].
  - by rewrite list_lookup_alter_ne, list_lookup_insert_ne.
Qed.

Lemma sys_step_links n c w w' : sys_step md n c w = Some w' -> nw_links w' = nw_links w.
Proof. unfold sys_step. destruct (sys_exec _ _ _); cbn; [| done]. intros [= <-]. by destruct n. Qed.

(** A step that runs no task. *)
Definition runs_no_task (c : command) : Prop := match c with CTask _ _ | CLoop => False | _ => True end.

Lemma sys_exec_grow n c s s' : runs_no_task c -> sys_exec (me n) c s = Some s' ->
  (exists new, s_tasks s' = s_tasks s ++ new /\ Forall (new_task n) new) /\
  match c with
  | CLoopEvent ev => s_loop s' = LoopBusy (p2p_event_loop_body (me n) ev)
  | CLoopEnd => forall t, s_loop s' <> LoopBusy t
  | _ => s_loop s' = s_loop s
  end.
Proof.
  assert (Hnew : forall s0 t, fresh (paired_cand n) (me n) t ->
    exists new, s_tasks (spawn_task t s0) = s_tasks s0 ++ new /\ Forall (new_task n) new).
  { intros s0 t Ht. eexists. split; [done |]. by repeat constructor. }
  assert (Hno : forall l : list trec, exists new, l = l ++ new /\ Forall (new_task n) new).
  { intros l. exists []. by rewrite app_nil_r. }
  intros Hc He. destruct c as [c|id| |i ans|ev| | |i r| | |]; cbn -[connect_to_peer] in Hc, He; try done.
  - simplify_eq. split; [by apply Hnew | done].
  - simplify_eq. split; [apply Hnew, fresh_connect | done].
  - simplify_eq. split; [apply Hnew, fresh_request | done].
  - destruct (s_loop s); simplify_eq. split; [apply Hno | done].
  - destruct (s_loop s) as [|[[]| | | | | | |]|]; simplify_eq; by split.
  - destruct (s_handlers s !! i) as [[id conn]|]; cbn in He; [| done]. destruct (handler_body r); simplify_eq; split; try done.
    apply (Hnew (mkSystem _ _ _ _)), fresh_disconnected.
  - destruct (chan_recv _) as [[? ch]|]; cbn in He; simplify_eq. by split.
  - destruct (chan_recv _) as [[? ch]|]; cbn in He; simplify_eq. by split.
  - simplify_eq. by split.
Qed.

Lemma sys_exec_task n i ans s s' : sys_exec (me n) (CTask i ans) s = Some s' ->
  exists r t m h sp, s_tasks s !! i = Some r /\ task_step ans (t_prog r) (s_mgr s) = Some (t, m, h, sp) /\
    s_loop s' = s_loop s /\ s_tasks s' = <[i := mkTrec (t_hist r ++ h) t]> (s_tasks s) ++ accepting (me n) (accepted sp).
Proof.
  cbn. destruct (s_tasks s !! i) as [r|]; cbn; [| done].
  destruct (task_step _ _ _) as [[[[t m] h] sp]|] eqn:E; cbn; [| done]. intros [= <-].
  exists r, t, m, h, sp. edestruct run_spawn_spec as (_ & -> & ->). done.
Qed.

(** ** The invariant under the steps of one node *)

Lemma no_accept_event n ev : match ev with EvStream (Ok _) => False | _ => True end ->
  no_accept (p2p_event_loop_body (me n) ev).
Proof.
  destruct ev as [[[[|peer] addr]|]|[[]|]|[[conn addr]|e]]; try done.
  - intros _. cbn. by intros md0 [].
  - intros _. cbn. destruct (PeerId_eqb _ _); [done |]. cbn. intros []; [done |]. intros []; [done |]. intros [known|]; [| done].
    cbn. by intros [] [] [].
Qed.

Lemma loop_ok_links ls ls' n lp :
  (forall k l, ls !! k = Some l -> exists l', ls' !! k = Some l' /\ node_at AsHost l' = node_at AsHost l /\
     e_task (l_host l') = e_task (l_host l)) ->
  loop_ok ls n lp -> loop_ok ls' n lp.
Proof.
  intros He. destruct lp as [|t|]; try done. intros [?|(k & l & t' & -> & Ht & Hk & Hn & Hh)]; [by left |].
  destruct (He k l Hk) as (l' & Hk' & E1 & E2). right. exists k, l', t'. split_and!; (done || congruence).
Qed.

(** Nothing but the event loop changes, or new tasks are spawned. *)
Lemma net_ok_grow w w' n c :
  net_ok w -> runs_no_task c -> stepped md n c w w' -> nw_links w' = nw_links w ->
  match c with CLoopEvent ev => loop_ok (nw_links w) n (LoopBusy (p2p_event_loop_body (me n) ev)) | _ => True end ->
  net_ok w'.
Proof.
  intros [Hok Hloop] Hc [He Ho] Hl Hev. destruct (sys_exec_grow n c _ _ Hc He) as [Hg Hlp].
  assert (Hother : forall m, m <> n -> sys_of m w' = sys_of m w).
  { intros m Hm. by replace m with (peer_side n) by (by destruct m, n). }
  split.
  - rewrite Hl. eapply links_ok_grow; [| exact Hok]. intros m. destruct (decide (m = n)) as [->|Hm]; [exact Hg |].
    exists []. unfold tasks_of. by rewrite Hother, app_nil_r.
  - intros m. rewrite Hl. destruct (decide (m = n)) as [->|Hm]; [| rewrite Hother by done; apply Hloop].
    destruct c; try (rewrite Hlp; apply Hloop); [by rewrite Hlp |].
    destruct (s_loop (sys_of n w')) as [|t|] eqn:E; try done. by destruct (Hlp t).
Qed.

Lemma net_ok_ext w w' : net_ok w -> (forall n, sys_of n w' = sys_of n w) -> nw_links w' = nw_links w -> net_ok w'.
Proof.
  intros [Hok Hloop] E El. split; [| intros n; rewrite E, El; apply Hloop]. rewrite El.
  eapply links_ok_ext; [| exact Hok]. intros n. unfold tasks_of. by rewrite E.
Qed.

Lemma orig_facts l c k r : forall t o, runs (orig l c k r) t o -> hs_facts t.
Proof. destruct r; intros t o; [apply connect_facts | apply accept_facts]. Qed.

Lemma orig_wf l c k r h (t : task unit) : client_valid l -> in_session (orig l c k r) h t ->
  Forall (fun m => Connection_wf m = true) (sent h).
Proof.
  intros Hv Hin.
  assert (Hwf : forall t o, runs (orig l c k r) t o -> Forall (fun m => Connection_wf m = true) (sent t)).
  { intros t0 o. destruct r; [by apply connect_wf | apply accept_wf]. }
  destruct (session_sent _ _ _ _ Hwf Hin) as (ms & [ms' ->] & Hw). by apply Forall_app in Hw as [Hw _].
Qed.

(** An end with a handler has sent two messages. *)
Lemma handler_spoke l c k r h (t : task unit) : in_session (orig l c k r) h t ->
  (exists id conn, ASpawn id conn ∈ h) -> (2 <= length (sent h))%nat.
Proof.
  intros Hin (id & conn & Hi). apply list_elem_of_split in Hi as (h1 & h2 & ->).
  destruct (session_runs _ _ _ Hin) as (t' & o & Hr). rewrite <- app_assoc in Hr.
  assert (2 <= length (sent (h1 ++ [ASpawn id conn])))%nat.
  { destruct r; [apply connect_spawn_inv in Hr as (now & code & _ & ->) | apply accept_spawn_inv in Hr as (rid & peer & now & code & _ & ->)];
      cbn; lia. }
  rewrite sent_app, length_app in *. cbn [sent omap list_omap length] in *. lia.
Qed.

(** Nothing follows a final interaction, so there is only one. *)
Lemma final_once l c k r h a b (t : task unit) : in_session (orig l c k r) h t -> final a = true -> final b = true ->
  a ∈ h -> b ∈ h -> a = b.
Proof.
  intros Hin Ha Hb (h1 & h2 & ->)%list_elem_of_split Hb'.
  destruct (session_facts _ _ _ (orig_facts l c k r) Hin) as (_ & Hl). pose proof (Hl _ _ _ Ha eq_refl) as ->.
  apply elem_of_app in Hb' as [(h3 & h4 & ->)%list_elem_of_split|?%list_elem_of_singleton]; [| done].
  rewrite <- app_assoc in Hl. specialize (Hl h3 b (h4 ++ [a]) Hb eq_refl). by destruct h4.
Qed.

Lemma unfailed_before l c k r h a (t : task unit) : in_session (orig l c k r) (h ++ [a]) t -> ~ send_failed h.
Proof.
  intros Hin (m & e & (h1 & h2 & ->)%list_elem_of_split).
  destruct (session_facts _ _ _ (orig_facts l c k r) Hin) as (_ & Hl).
  rewrite <- app_assoc in Hl. specialize (Hl h1 (ASend m (Err e)) (h2 ++ [a]) eq_refl eq_refl). by destruct h2.
Qed.

(** What an end's history satisfies. *)
Definition end_facts (h : list act) (e : endpoint) : Prop :=
  has_handler e = true -> (exists id conn, ASpawn id conn ∈ h) /\ (2 <= length (sent h))%nat /\ ~ send_failed h.

Lemma end_ok_facts ts l c k r e h : end_ok ts (orig l c k r) e h -> end_facts h e.
Proof.
  intros [H1 H2]. destruct (e_task e) as [i|].
  - destruct H1 as (t & _ & Hin). intros Hh. specialize (H2 Hh). split; [exact H2 |]. split; [by eapply handler_spoke |].
    destruct H2 as (id & conn & Hs). intros (m & err & Hf).
    by pose proof (final_once _ _ _ _ _ (ASpawn id conn) (ASend m (Err err)) _ Hin eq_refl eq_refl Hs Hf).
  - subst h. intros Hh. destruct (H2 Hh) as (? & ? & Hi). by apply elem_of_nil in Hi.
Qed.

(** The ends of a link change, and no task does. *)
Lemma net_ok_ends w w' k l l' :
  net_ok w -> nw_links w !! k = Some l -> (forall n, sys_of n w' = sys_of n w) ->
  nw_links w' = <[k := l']> (nw_links w) ->
  (forall r, node_at r l' = node_at r l /\ e_task (end_of r l') = e_task (end_of r l)) ->
  (forall r, has_handler (end_of r l') = has_handler (end_of r l)) ->
  (forall h r, end_facts (h r) (end_of r l) -> chan_ok (h r) (end_of r l) (h (peer_role r)) (end_of (peer_role r) l) ->
     chan_ok (h r) (end_of r l') (h (peer_role r)) (end_of (peer_role r) l')) ->
  net_ok w'.
Proof.
  intros [Hok Hloop] Hk Hs El He Hh Hc.
  assert (Hk' : nw_links w' !! k = Some l') by (rewrite El; apply list_lookup_insert_eq; by eapply lookup_lt_Some).
  assert (Hls : forall j, j <> k -> nw_links w' !! j = nw_links w !! j) by (intros j Hj; rewrite El; by apply list_lookup_insert_ne).
  split.
  - eapply (links_ok_link (tasks_of w)); [exact Hk | exact Hk' | exact Hls | exact He | | | exact Hok].
    + intros m j. right. unfold tasks_of. by rewrite Hs.
    + destruct Hok as (Hl & _). destruct (Hl k l Hk) as (c & h & Hcd & Hend & Hch). exists c, h. split; [by rewrite (proj1 (He AsClient)) |]. split.
      2: { intros Hv r. apply Hc; [by eapply end_ok_facts, Hend |]. apply Hch. unfold client_valid in *. by rewrite <- (proj1 (He AsClient)). }
      intros r. destruct (He r) as [E1 E2], (Hend r) as [H1 H2]. unfold end_ok, tasks_of. rewrite Hs, E2, Hh, E1. split; [| exact H2].
      destruct (e_task (end_of r l)) as [i|]; [| exact H1]. destruct H1 as (t & Ht & Hin). exists t. split; [exact Ht |].
      destruct r; cbn in *; by rewrite ?E1.
  - intros m. rewrite Hs. eapply loop_ok_links; [| apply Hloop]. intros j x Hj.
    destruct (decide (j = k)) as [->|Hne]; [| exists x; by rewrite Hls].
    simplify_eq. exists l'. destruct (He AsHost) as [E1 E2]. done.
Qed.

(** What a step of the task of an end has to keep: its ends and histories, after interactions [h']. *)
Definition step_keeps (l l' : link) (r : role) (h : role -> list act) (h' : list act) : Prop :=
  (has_handler (end_of r l') = true -> exists id conn, ASpawn id conn ∈ h r ++ h') /\
  has_handler (end_of (peer_role r) l') = has_handler (end_of (peer_role r) l) /\
  (client_valid l -> chan_ok (h r ++ h') (end_of r l') (h (peer_role r)) (end_of (peer_role r) l') /\
     chan_ok (h (peer_role r)) (end_of (peer_role r) l') (h r ++ h') (end_of r l')).

(** The task of an end of a link steps, and with it the ends of the link change. *)
Lemma net_ok_session w w1 w' n i ans k l l' r :
  net_ok w -> nw_links w !! k = Some l -> node_at r l = n -> e_task (end_of r l) = Some i ->
  stepped md n (CTask i ans) w w1 ->
  (forall m, sys_of m w' = sys_of m w1) -> nw_links w' = <[k := l']> (nw_links w) ->
  (forall r, node_at r l' = node_at r l /\ e_task (end_of r l') = e_task (end_of r l)) ->
  (forall c h x m t' m' h' sp, tasks_of w n !! i = Some x -> h r = t_hist x ->
     task_step ans (t_prog x) m = Some (t', m', h', sp) ->
     in_session (orig l c k r) (t_hist x) (t_prog x) -> in_session (orig l c k r) (t_hist x ++ h') t' ->
     (forall q, end_facts (h q) (end_of q l)) ->
     (client_valid l -> forall q, Forall (fun m => Connection_wf m = true) (sent (h q))) ->
     (client_valid l -> forall q, chan_ok (h q) (end_of q l) (h (peer_role q)) (end_of (peer_role q) l)) ->
     step_keeps l l' r h h') ->
  net_ok w'.
Proof.
  intros [Hok Hloop] Hk Hn Hi [He Ho] Hs El Hends Hkeep.
  apply sys_exec_task in He as (x & t & m & h' & sp & Hx & Hstep & Hlp & Hts).
  destruct Hok as (Hl & Ht & Hu). destruct (Hl k l Hk) as (c & h & Hcd & Hend & Hch).
  assert (Hsess : h r = t_hist x /\ in_session (orig l c k r) (t_hist x) (t_prog x)).
  { destruct (Hend r) as [H1 _]. rewrite Hi, Hn in H1. destruct H1 as (t0 & H1 & H2). unfold tasks_of in H1. by simplify_eq. }
  destruct Hsess as [Hh Hin]. destruct (session_step _ _ _ _ _ _ _ _ _ Hin Hstep) as [Hin' Hsp].
  assert (accepted sp = []) as Eacc by (by destruct Hsp as [->|(? & ? & -> & _)]).
  rewrite Eacc, app_nil_r in Hts.
  assert (Hwf : client_valid l -> forall q, Forall (fun m => Connection_wf m = true) (sent (h q))).
  { intros Hv q. destruct (Hend q) as [H _]. destruct (e_task (end_of q l)); [| by rewrite H].
    destruct H as (t0 & _ & Hs0). by eapply orig_wf. }
  destruct (Hkeep c h x _ t m h' sp Hx Hh Hstep Hin Hin' (fun q => end_ok_facts _ _ _ _ _ _ _ (Hend q)) Hwf Hch) as (K1 & K2 & K34).
  assert (Hother : forall q, q <> n -> sys_of q w' = sys_of q w).
  { intros q Hq. rewrite Hs. by replace q with (peer_side n) by (by destruct q, n). }
  assert (Hpeer : node_at (peer_role r) l <> n) by (subst n; destruct r; cbn; by destruct (l_client_node l)).
  assert (Hlt : (i < length (tasks_of w n))%nat) by (by eapply lookup_lt_Some).
  assert (Hk' : nw_links w' !! k = Some l') by (rewrite El; apply list_lookup_insert_eq; by eapply lookup_lt_Some).
  assert (Hls : forall j, j <> k -> nw_links w' !! j = nw_links w !! j) by (intros j Hj; rewrite El; by apply list_lookup_insert_ne).
  split.
  - eapply (links_ok_link (tasks_of w)); [exact Hk | exact Hk' | exact Hls | exact Hends | | | by split_and!].
    + intros q j. unfold tasks_of. destruct (decide (q = n)) as [->|Hq]; [| right; by rewrite Hother].
      rewrite Hs, Hts. destruct (decide (j = i)) as [->|Hj]; [left; by exists r, l | right; by apply list_lookup_insert_ne].
    + exists c, (fun q => if decide (q = r) then h r ++ h' else h q). split; [by rewrite (proj1 (Hends AsClient)) |]. split.
      * intros q. destruct (Hends q) as [E1 E2], (Hend q) as [H1 H2]. unfold end_ok. rewrite E1, E2.
        assert (orig l' c k q = orig l c k q) as -> by (destruct q; cbn in *; by rewrite E1).
        case_decide as D; [subst q | replace q with (peer_role r) in * by (by destruct q, r)].
        -- split; [| exact K1]. rewrite Hi, Hn. exists t. unfold tasks_of. rewrite Hs, Hts, Hh.
           split; [by apply list_lookup_insert_eq | done].
        -- split; [| by rewrite K2]. unfold tasks_of. by rewrite Hother.
      * intros Hv q. destruct K34 as [K3 K4]; [unfold client_valid in *; by rewrite <- (proj1 (Hends AsClient)) |].
        destruct q, r; cbn in *; done.
  - intros q. eapply (loop_ok_links (nw_links w)).
    + intros j y Hj. destruct (decide (j = k)) as [->|Hne]; [| exists y; by rewrite Hls].
      simplify_eq. exists l'. destruct (Hends AsHost) as [E1 E2]. done.
    + destruct (decide (q = n)) as [->|Hq]; [rewrite Hs, Hlp; apply Hloop | rewrite Hother by done; apply Hloop].
Qed.

(** ** Steps of the network *)

Lemma send_failed_app h h' : send_failed h -> send_failed (h ++ h').
Proof. intros (m & e & H). exists m, e. apply elem_of_app. by left. Qed.

Lemma chan_ok_silent_sender hs s hr r h' : sent h' = [] -> chan_ok hs s hr r -> chan_ok (hs ++ h') s hr r.
Proof.
  intros Es (H1 & H2 & lost & missing & Hl & Hm & E). unfold chan_ok. rewrite sent_app, Es, app_nil_r. split; [exact H1 |].
  split; [exact H2 |]. exists lost, missing. split_and!; [exact Hl | | exact E]. intros Hne. by apply send_failed_app, Hm.
Qed.

Lemma chan_ok_silent_receiver hs s hr r h' : got h' = [] -> chan_ok hs s hr r -> chan_ok hs s (hr ++ h') r.
Proof. intros Eg H. unfold chan_ok. by rewrite got_app, Eg, app_nil_r. Qed.

(** A history that does not talk keeps the ends. *)
Lemma step_keeps_silent l r h h' : sent h' = [] -> got h' = [] ->
  (forall q, end_facts (h q) (end_of q l)) ->
  (client_valid l -> forall q, chan_ok (h q) (end_of q l) (h (peer_role q)) (end_of (peer_role q) l)) ->
  step_keeps l l r h h'.
Proof.
  intros Es Eg Hh Hc. assert (Hpp : peer_role (peer_role r) = r) by (by destruct r). split_and!.
  - intros H. destruct (Hh r H) as [(id & conn & Hi) _]. exists id, conn. apply elem_of_app. by left.
  - done.
  - intros Hv. specialize (Hc Hv). split; [by apply chan_ok_silent_sender |].
    apply chan_ok_silent_receiver; [exact Eg |]. specialize (Hc (peer_role r)). by rewrite Hpp in Hc.
Qed.

Lemma insert_self (ls : list link) k l : ls !! k = Some l -> <[k := l]> ls = ls.
Proof. apply list_insert_id. Qed.

(** A task of a link steps without talking. *)
Lemma net_ok_silent w w' n i ans k l r :
  net_ok w -> nw_links w !! k = Some l -> node_at r l = n -> e_task (end_of r l) = Some i ->
  stepped md n (CTask i ans) w w' -> nw_links w' = nw_links w ->
  (forall c x m t' m' h' sp, tasks_of w n !! i = Some x -> in_session (orig l c k r) (t_hist x) (t_prog x) ->
     task_step ans (t_prog x) m = Some (t', m', h', sp) -> sent h' = [] /\ got h' = []) ->
  net_ok w'.
Proof.
  intros Hok Hk Hn Hi Hs El Hq.
  eapply (net_ok_session w w' w' n i ans k l l r); [exact Hok | exact Hk | exact Hn | exact Hi | exact Hs | done | | done |].
  - rewrite El. symmetry. by apply insert_self.
  - intros c h x m t' m' h' sp Hx Hh Hst Hin _ Hhand _ Hc. destruct (Hq _ _ _ _ _ _ _ Hx Hin Hst). by apply step_keeps_silent.
Qed.

(** A task without a link steps. *)
Lemma net_ok_new w w' n i ans :
  net_ok w -> cands_ok w -> (forall k ro, ~ owns (nw_links w) n i k ro) -> (forall conn, ans <> AnsTcp (Ok conn)) ->
  stepped md n (CTask i ans) w w' -> nw_links w' = nw_links w -> net_ok w'.
Proof.
  intros [Hok Hloop] Hcand Hno Ha [He Ho] El. apply sys_exec_task in He as (x & t & m & h' & sp & Hx & Hstep & Hlp & Hts).
  pose proof Hok as (_ & Ht & _). destruct (Ht n i x Hx) as [[Hnil Hf]|(k & ro & H)]; [| by destruct (Hno k ro)].
  destruct (fresh_step _ _ _ _ _ _ _ _ _ (Hcand n) Hf Ha Hstep) as (Hf' & -> & ->). rewrite Hnil, app_nil_r in Hts.
  assert (Hother : forall q, q <> n -> sys_of q w' = sys_of q w).
  { intros q Hq. by replace q with (peer_side n) by (by destruct q, n). }
  split; rewrite El.
  - eapply (links_ok_new (tasks_of w) _ _ n i (mkTrec [] t)); [exact Hno | by split | | exact Hok].
    intros q j. unfold tasks_of. case_decide as D.
    + destruct D as [-> ->]. rewrite Hts. apply list_lookup_insert_eq. by eapply lookup_lt_Some.
    + destruct (decide (q = n)) as [->|Hq]; [| by rewrite Hother].
      rewrite Hts, list_lookup_insert_ne; [done | naive_solver].
  - intros q. destruct (decide (q = n)) as [->|Hq]; [rewrite Hlp; apply Hloop | rewrite Hother by done; apply Hloop].
Qed.

Lemma local_silent ans : local_answer ans = true ->
  (forall conn, ans <> AnsTcp (Ok conn)) /\
  forall Y (o : hs Y) h (t : task unit) m t' m' h' sp, in_session o h t -> next_handler t = None -> task_step ans t m = Some (t', m', h', sp) ->
    sent h' = [] /\ got h' = [].
Proof.
  intros Ha. split; [by intros conn -> |]. intros Y orig0 h t m t' m' h' sp Hin Hn Hs.
  destruct t as [a| |X o k|s k|addr k|X p k|a k|conn k]; cbn in Hs, Hn; try done.
  - destruct (mop_step _ m) as [[x m1]|]; cbn in Hs; by simplify_eq.
  - destruct ans; try done. case_decide; by simplify_eq.
  - by destruct ans.
  - destruct p; try done; destruct ans; by simplify_eq.
  - simplify_eq. destruct Hin as [[(id & c & ->) _]|[[] _]]. done.
  - by simplify_eq.
Qed.

(** ** Talking steps *)

(** Nothing comes after a spawn. *)
Lemma silent_after_spawn l c k r h a (t : task unit) e : in_session (orig l c k r) (h ++ [a]) t ->
  end_facts h e -> has_handler e = false.
Proof.
  intros Hin Hh. destruct (has_handler e) eqn:E; [| done].
  destruct (Hh E) as [(id & conn & (h1 & h2 & ->)%list_elem_of_split) _].
  destruct (session_facts _ _ _ (orig_facts l c k r) Hin) as (_ & Hl).
  rewrite <- app_assoc in Hl. specialize (Hl h1 (ASpawn id conn) (h2 ++ [a]) eq_refl eq_refl). by destruct h2.
Qed.

(** Sending; all of the message leaves, unless that failed. *)
Lemma step_keeps_send l r h m res bytes : has_handler (end_of r l) = false -> ~ send_failed (h r) ->
  (client_valid l -> exists rest, Wire.connection m = bytes ++ rest /\ (rest <> [] -> exists e, res = Err e)) ->
  (client_valid l -> forall q, chan_ok (h q) (end_of q l) (h (peer_role q)) (end_of (peer_role q) l)) ->
  step_keeps l (set_end (peer_role r) (arrive bytes (end_of (peer_role r) l)) l) r h [ASend m res].
Proof.
  intros Hno Hnf Hm Hc. set (l' := set_end _ _ l).
  assert (Er : end_of r l' = end_of r l) by (by destruct r).
  assert (Ep : end_of (peer_role r) l' = arrive bytes (end_of (peer_role r) l)) by (by destruct r).
  assert (Hpp : peer_role (peer_role r) = r) by (by destruct r).
  unfold step_keeps. rewrite Er, Ep, Hno. split; [done |]. split; [done |].
  intros Hv. specialize (Hc Hv). destruct (Hm Hv) as (rest & Hm' & Hrest). split.
  - unfold chan_ok. rewrite sent_app. destruct (Hc r) as (Hg & Hran & lost & missing & Hx & Hmis & E). split_and!.
    + etrans; [exact Hg | by apply prefix_app_r].
    + exact Hran.
    + exists lost, rest. split; [exact Hx |]. split.
      { intros Hne. destruct (Hrest Hne) as [e ->]. exists m, e. apply elem_of_app. right. by apply list_elem_of_singleton. }
      assert (missing = []) as -> by (destruct missing; [done | by destruct Hnf; apply Hmis]).
      rewrite (handed_none _ Hno), !app_nil_r in *. change (sent [ASend m res]) with [m].
      rewrite wire_app, wire_one, E, Hm'. cbn [e_framed e_wire arrive].
      change (came (arrive bytes (end_of (peer_role r) l))) with (came (end_of (peer_role r) l)). by rewrite <- !app_assoc.
  - apply chan_ok_silent_receiver; [done |]. pose proof (Hc (peer_role r)) as Hp. rewrite Hpp in Hp.
    destruct Hp as (Hg & Hran & lost & missing & Hx & Hmis & E). split; [exact Hg |]. split; [exact Hran |].
    exists lost, missing. split; [exact Hx |]. by split.
Qed.

(** What [Framed] of an end that waits makes of its bytes: the next message of the other end, or nothing. *)
Lemma framed_decodes hs s hr r : chan_ok hs s hr r -> Forall (fun m => Connection_wf m = true) (sent hs) -> end_facts hs s ->
  has_handler r = false ->
  (length (got hr) <= 1)%nat ->
  ConnectionCodec_decode (e_framed r) = Val (Ok None, e_framed r) \/
  exists m framed, ConnectionCodec_decode (e_framed r) = Val (Ok (Some m), framed) /\
    (got hr ++ [m]) `prefix_of` sent hs /\
    exists missing, (missing <> [] -> send_failed hs) /\
      wire (sent hs) ++ handed s = wire (got hr ++ [m]) ++ framed ++ e_wire r ++ missing.
Proof.
  intros ([ms Hms] & _ & lost & missing & Hlost & Hmis & E) Hw Hsp Hno Hlen. rewrite (Hlost Hno), (came_none _ Hno) in E.
  rewrite Hms in Hw. apply Forall_app in Hw as [_ Hw].
  rewrite Hms, wire_app, <- app_assoc in E. apply app_inv_head in E.
  destruct (decode_stream ms (handed s) (e_framed r) (e_wire r ++ missing) Hw) as [H|(m & ms' & framed & -> & Hd & E')]; [| exact E | by left |].
  - intros ->. rewrite app_nil_r in Hms. destruct (has_handler s) eqn:Hs; [| by apply handed_none].
    destruct (Hsp Hs) as (_ & H2 & _). rewrite Hms in H2. lia.
  - right. exists m, framed. split_and!; [exact Hd | |].
    + exists ms'. rewrite Hms. by rewrite <- app_assoc.
    + exists missing. split; [exact Hmis |]. rewrite Hms, wire_app, wire_cons, wire_app, wire_one, <- !app_assoc. by rewrite E'.
Qed.

(** A wait is over: with the next message of the other end, when the client's id is valid. *)
Lemma step_keeps_next l r h a framed :
  let e := end_of r l in let s := end_of (peer_role r) l in
  has_handler e = false ->
  (client_valid l -> forall q, chan_ok (h q) (end_of q l) (h (peer_role q)) (end_of (peer_role q) l)) ->
  (client_valid l -> exists m missing, a = Got m /\
     (got (h r) ++ [m]) `prefix_of` sent (h (peer_role r)) /\ (missing <> [] -> send_failed (h (peer_role r))) /\
     wire (sent (h (peer_role r))) ++ handed s = wire (got (h r) ++ [m]) ++ framed ++ e_wire e ++ missing) ->
  step_keeps l (set_end r (mkEnd (e_task e) (e_wire e) framed (e_handler e)) l) r h [ANext a].
Proof.
  intros e s Hno Hc Hm. set (l' := set_end _ _ l).
  assert (Er : end_of r l' = mkEnd (e_task e) (e_wire e) framed (e_handler e)) by (by destruct r).
  assert (Ep : end_of (peer_role r) l' = s) by (by destruct r).
  assert (Hpp : peer_role (peer_role r) = r) by (by destruct r).
  unfold step_keeps. rewrite Er, Ep. change (has_handler (mkEnd _ _ _ _)) with (has_handler e). rewrite Hno.
  split; [done |]. split; [done |]. intros Hv. specialize (Hc Hv). destruct (Hm Hv) as (m & missing & -> & Hp & Hmis & E). split.
  - apply chan_ok_silent_sender; [done |]. destruct (Hc r) as (H1 & H2 & lost & mis & Hl & Hms & E'). split; [exact H1 |].
    split; [exact H2 |]. by exists lost, mis.
  - unfold chan_ok. rewrite got_app. change (got [ANext (Got m)]) with [m]. split; [exact Hp |]. split.
    + pose proof (proj1 (proj2 (Hc (peer_role r)))) as H. rewrite Hpp in H. exact H.
    + exists [], missing. split; [done |]. split; [exact Hmis |]. change (came (mkEnd _ _ _ _)) with (came e). by rewrite (came_none e Hno).
Qed.

(** ** Every step keeps the invariant *)

Lemma links_of_receive x w n : nw_links (receive x w n) = nw_links w.
Proof. by destruct n. Qed.
Lemma links_of_disc_round n r u k w : nw_links (disc_round n r u k w) = nw_links w.
Proof. destruct r as [[[] d]|]; by destruct n. Qed.
Lemma links_of_sent l (ds : list (list byte * SocketAddr)) : forall w,
  nw_links (foldl (fun w x => foldl (receive (fst x, local)) w l) w ds) = nw_links w.
Proof.
  assert (H : forall x l w, nw_links (foldl (receive x) w l) = nw_links w).
  { intros x l0. induction l0 as [|n l0 IH]; intros w; [done |]. cbn. by rewrite IH, links_of_receive. }
  induction ds as [|x ds IH]; intros w; [done |]. cbn. by rewrite IH, H.
Qed.

Lemma ok_task_step n i ans w w' : net_ok w -> cands_ok w -> net_exec (NTask n i ans) w = Some w' -> net_ok w'.
Proof.
  intros Hok Hcand He. cbn -[sys_step] in He. destruct (local_answer ans) eqn:Ha; [| done].
  destruct (s_tasks (sys_of n w) !! i) as [x|] eqn:Hx; cbn -[sys_step] in He; [| done].
  destruct (sys_step md n (CTask i ans) w) as [w1|] eqn:Es; cbn in He; [| done].
  pose proof (sys_step_links _ _ _ _ Es) as El. apply sys_step_stepped in Es.
  destruct (local_silent ans Ha) as [Htcp Hq].
  destruct (owned_dec (nw_links w) n i) as [(k & r & Ho)|Hno].
  - pose proof Ho as (l & Hk & Hn & Hi).
    destruct (owned_session _ _ _ _ _ _ _ (proj1 Hok) Ho Hx) as (l0 & c0 & Hk0 & _ & Hin). simplify_eq.
    destruct (next_handler (t_prog x)) as [conn|] eqn:Hnh.
    + destruct (t_prog x) as [| | | | |X p kk| |] eqn:Hp; cbn in Hnh; try done. destruct p as [| | | | | |id conn' p']; try done.
      simplify_eq. assert (conn = Z.of_nat k) as ->.
      { destruct (runs_exist p') as (t' & o' & Hr). destruct Hin as [[Hr' _]|[[] _]].
        destruct (Hr' (ASpawn id conn :: t') o') as [o Ho']; [by constructor |].
        destruct r; [apply connect_spawn_inv in Ho' as (now & code & _ & E) | apply accept_spawn_inv in Ho' as (rid & peer & now & code & _ & E)];
          apply (f_equal last) in E; rewrite last_snoc in E; by injection E as _ ->. }
      rewrite Nat2Z.id, El, Hk in He. cbn in He. rewrite role_of_node in He. simplify_eq.
      eapply (net_ok_session w w1); [exact Hok | exact Hk | done | exact Hi | exact Es | | | |].
      * intros m. apply sys_of_put_end.
      * rewrite (put_end_links _ _ _ _ l) by (by rewrite El). by rewrite El.
      * intros q. by destruct r, q.
      * intros c h x' m t' m' h' sp Hx' Hh Hst _ Hin' Hf _ Hc.
        assert (x' = x) as -> by (unfold tasks_of in Hx'; congruence). rewrite Hp in Hst. cbn in Hst. simplify_eq.
        assert (Hno : has_handler (end_of r l) = false).
        { eapply silent_after_spawn; [exact Hin' |]. rewrite <- Hh. apply Hf. }
        set (l' := set_end _ _ l).
        assert (Hpp : peer_role (peer_role r) = r) by (by destruct r).
        assert (Er : end_of r l' = start_handler (end_of r l)) by (by destruct r).
        assert (Ep : end_of (peer_role r) l' = end_of (peer_role r) l) by (by destruct r).
        unfold step_keeps. rewrite Er, Ep. split; [| split; [done |]].
        { intros _. exists id, (Z.of_nat k). apply elem_of_app. right. by apply list_elem_of_singleton. }
        intros Hv. specialize (Hc Hv). split.
        -- apply chan_ok_silent_sender; [done |]. pose proof (Hc r) as H. unfold chan_ok in *. by rewrite (handed_none _ Hno) in H.
        -- apply chan_ok_silent_receiver; [done |]. pose proof (Hc (peer_role r)) as H. rewrite Hpp in H.
           destruct H as (Hg & _ & lost & missing & Hl & Hm & E). rewrite (Hl Hno), (came_none _ Hno) in E. split; [exact Hg |].
           split; [intros h0 [= <-]; by exists [] |]. exists (e_framed (end_of r l)), missing. split; [done |]. split; [exact Hm |].
           cbn. rewrite into_inner_stream. exact E.
    + simplify_eq. eapply net_ok_silent; [exact Hok | exact Hk | done | exact Hi | exact Es | exact El |].
      intros c x' m t' m' h' sp Hx' Hin' Hst. assert (x' = x) as -> by (unfold tasks_of in Hx'; congruence).
      by eapply Hq.
  - assert (next_handler (t_prog x) = None) as Hnh.
    { destruct (proj1 (proj2 (proj1 Hok)) n i x Hx) as [[_ Hf]|(k & r & Ho)]; [| by destruct (Hno k r)].
      by destruct (t_prog x). }
    rewrite Hnh in He. simplify_eq. by eapply net_ok_new.
Qed.

Lemma ok_loop_step n w w' : net_ok w -> net_exec (NLoop n) w = Some w' -> net_ok w'.
Proof.
  intros [Hok Hloop] He. cbn -[sys_step] in He.
  destruct (sys_step md n CLoop w) as [w1|] eqn:Es; cbn -[sys_step] in He; [| done].
  pose proof (sys_step_links _ _ _ _ Es) as El. apply sys_step_stepped in Es as [Es Ho].
  assert (Hother : forall q, q <> n -> sys_of q w1 = sys_of q w).
  { intros q Hq. by replace q with (peer_side n) by (by destruct q, n). }
  cbn in Es. pose proof (Hloop n) as Hn. destruct (s_loop (sys_of n w)) as [|t|] eqn:Elp; try done.
  destruct (task_step AnsNone t (s_mgr (sys_of n w))) as [[[[t' m] h] sp]|] eqn:Et; cbn in Es; [| done].
  injection Es as Es. edestruct run_spawn_spec as (_ & Hlp & Hts). rewrite Es in Hlp, Hts. cbn [s_loop s_tasks] in Hlp, Hts.
  destruct Hn as [Hn|(k & l & t0 & -> & Hna & Hk & Hnode & Hnone)].
  - assert (next_accept t = None /\ accepted sp = [] /\ no_accept t') as (Hnx & Hacc & Hna).
    { destruct t as [a| |X o k|s k|addr k|X p k|a k|conn k]; cbn in Et, Hn; try done.
      destruct (mop_step o _) as [[x m1]|]; cbn in Et; simplify_eq. by split_and!. }
    rewrite Hnx in He. simplify_eq. rewrite Hacc, app_nil_r in Hts. split; rewrite El.
    + eapply links_ok_ext; [| exact Hok]. intros q. unfold tasks_of.
      destruct (decide (q = n)) as [->|Hq]; [done | by rewrite Hother].
    + intros q. destruct (decide (q = n)) as [->|Hq]; [rewrite Hlp; by left | rewrite Hother by done; apply Hloop].
  - cbn in Et. injection Et as <- <- <- <-. cbn in He. rewrite Nat2Z.id, El, Hk in He. cbn in He. simplify_eq.
    set (w2 := put_end k AsHost _ w1).
    assert (Elinks : nw_links w2 = <[k := mkLink (l_client_node l) (l_client l) (mkEnd (Some (length (s_tasks (sys_of (node_at AsHost l) w))))
              (e_wire (l_host l)) (e_framed (l_host l)) (e_handler (l_host l)))]> (nw_links w)).
    { unfold w2. rewrite (put_end_links _ _ _ _ l) by (by rewrite El). by rewrite El. }
    assert (Hsys : forall q, sys_of q w2 = sys_of q w1) by (intros q; apply sys_of_put_end).
    split.
    + eapply (links_ok_accept (tasks_of w)); [exact Hk | done | exact Hnone | exact Elinks | | | exact Hok].
      * unfold tasks_of. by rewrite Hsys, Hts.
      * intros q Hq. unfold tasks_of. by rewrite Hsys, Hother.
    + intros q. rewrite Hsys. destruct (decide (q = node_at AsHost l)) as [->|Hq]; [rewrite Hlp; by left |].
      rewrite Hother by done. specialize (Hloop q). destruct (s_loop (sys_of q w)) as [|t|]; try done.
      destruct Hloop as [?|(j & y & t' & -> & Ht' & Hj & Hy & Hyn)]; [by left |]. right. exists j, y, t'. split_and!; try done.
      rewrite Elinks, list_lookup_insert_ne; [done |]. intros ->. by simplify_eq.
Qed.

Lemma ok_connect_step n i w w' : net_ok w -> net_exec (NConnect n i) w = Some w' -> net_ok w'.
Proof.
  intros [Hok Hloop] He. cbn -[sys_step] in He.
  destruct (s_tasks (sys_of n w) !! i) as [x|] eqn:Hx; cbn -[sys_step] in He; [| done].
  destruct (t_prog x) as [| | | |addr kk| | |] eqn:Hp; try done. destruct (bool_decide _ && _); [| done].
  destruct (sys_step md n _ w) as [w1|] eqn:Es; cbn in He; [| done]. simplify_eq.
  pose proof (sys_step_links _ _ _ _ Es) as El. apply sys_step_stepped in Es as [Es Ho].
  apply sys_exec_task in Es as (x' & t & m & h & sp & Hx' & Hst & Hlp & Hts). simplify_eq. rewrite Hp in Hst. cbn in Hst. simplify_eq.
  rewrite !app_nil_r in Hts.
  assert (Hother : forall q, q <> n -> sys_of q w1 = sys_of q w).
  { intros q Hq. by replace q with (peer_side n) by (by destruct q, n). }
  pose proof (not_owned_tcp _ _ _ _ _ _ _ Hok Hx Hp) as Hno.
  destruct (proj1 (proj2 Hok) n i x Hx) as [[Hnil Hf]|(k & r & Hown)]; [| by destruct (Hno k r)].
  rewrite Hp in Hf. specialize (Hf (Ok (Z.of_nat (length (nw_links w))))). rewrite Hnil in Hts. split.
  - cbn [nw_links set_links]. rewrite El. eapply (links_ok_connect (tasks_of w)); [by exists x | exact Hno | exact Hf | | exact Hok].
    intros q j. unfold tasks_of. rewrite sys_of_set_links. case_decide as D.
    + destruct D as [-> ->]. rewrite Hts. apply list_lookup_insert_eq. by eapply lookup_lt_Some.
    + destruct (decide (q = n)) as [->|Hq]; [| by rewrite Hother].
      rewrite Hts, list_lookup_insert_ne; [done | naive_solver].
  - intros q. cbn [nw_links set_links]. rewrite sys_of_set_links, El. eapply (loop_ok_links (nw_links w)).
    + intros k l Hk. exists l. split; [by apply lookup_app_l_Some | done].
    + destruct (decide (q = n)) as [->|Hq]; [rewrite Hlp; apply Hloop | rewrite Hother by done; apply Hloop].
Qed.

Lemma task_at_inv k r w n i t : task_at k r w = Some (n, i, t) -> exists l x,
  nw_links w !! k = Some l /\ n = node_at r l /\ e_task (end_of r l) = Some i /\ tasks_of w n !! i = Some x /\ t = t_prog x.
Proof.
  unfold task_at. destruct (nw_links w !! k) as [l|]; cbn; [| done].
  destruct (e_task (end_of r l)) as [j|] eqn:Ej; cbn; [| done].
  destruct (s_tasks (sys_of (node_at r l) w) !! j) as [x|] eqn:Ex; cbn; [| done]. intros [= <- <- <-]. by exists l, x.
Qed.

Lemma get_end_links k r w l : nw_links w !! k = Some l -> get_end k r w = Some (end_of r l).
Proof. unfold get_end. by intros ->. Qed.

Lemma ok_send_step k r w w' : net_ok w -> net_exec (NSend k r) w = Some w' -> net_ok w'.
Proof.
  intros Hok He. cbn -[sys_step ConnectionCodec_encode] in He.
  destruct (task_at k r w) as [[[n i] t]|] eqn:Eat; cbn -[sys_step ConnectionCodec_encode] in He; [| done].
  apply task_at_inv in Eat as (l & x & Hk & -> & Hi & Hx & ->).
  destruct (t_prog x) as [| | | | |X p kk| |] eqn:Hp; try done. destruct p as [| | |m k1| | |]; try done.
  destruct (ConnectionCodec_encode m []) as [[res bytes]|] eqn:Eenc; [| done].
  destruct (sys_step md _ _ w) as [w1|] eqn:Es; cbn in He; [| done].
  pose proof (sys_step_links _ _ _ _ Es) as El. apply sys_step_stepped in Es.
  rewrite (get_end_links _ _ _ l) in He by (by rewrite El). cbn in He. simplify_eq.
  eapply (net_ok_session w w1); [exact Hok | exact Hk | done | exact Hi | exact Es | | | |].
  - intros q. apply sys_of_put_end.
  - rewrite (put_end_links _ _ _ _ l) by (by rewrite El). by rewrite El.
  - intros q. by destruct r, q.
  - intros c h x' m0 t' m' h' sp Hx' Hh Hst Hin Hin' Hf _ Hc. simplify_eq. rewrite Hp in Hst. cbn in Hst. simplify_eq.
    pose proof (fun Hv => orig_wf _ _ _ _ _ _ Hv Hin') as Hw. rewrite <- Hh in Hin'.
    apply step_keeps_send; [eapply silent_after_spawn; [exact Hin' | apply Hf] | by eapply unfailed_before | | exact Hc].
    intros Hv. specialize (Hw Hv). rewrite sent_app in Hw. apply Forall_app in Hw as [_ Hw]. apply Forall_cons in Hw as [Hm _].
    rewrite ConnectionCodec_encode_wire in Eenc by done. cbn in Eenc. simplify_eq. exists []. by rewrite app_nil_r.
Qed.

Lemma ok_send_fails_step k r j err w w' : net_ok w -> net_exec (NSendFails k r j err) w = Some w' -> net_ok w'.
Proof.
  intros Hok He. cbn -[sys_step ConnectionCodec_encode] in He.
  destruct (task_at k r w) as [[[n i] t]|] eqn:Eat; cbn -[sys_step ConnectionCodec_encode] in He; [| done].
  apply task_at_inv in Eat as (l & x & Hk & -> & Hi & Hx & ->).
  destruct (t_prog x) as [| | | | |X p kk| |] eqn:Hp; try done. destruct p as [| | |m k1| | |]; try done.
  destruct (ConnectionCodec_encode m []) as [[res bytes]|] eqn:Eenc; [| done].
  destruct (sys_step md _ _ w) as [w1|] eqn:Es; cbn in He; [| done].
  pose proof (sys_step_links _ _ _ _ Es) as El. apply sys_step_stepped in Es.
  rewrite (get_end_links _ _ _ l) in He by (by rewrite El). cbn in He. simplify_eq.
  eapply (net_ok_session w w1); [exact Hok | exact Hk | done | exact Hi | exact Es | | | |].
  - intros q. apply sys_of_put_end.
  - rewrite (put_end_links _ _ _ _ l) by (by rewrite El). by rewrite El.
  - intros q. by destruct r, q.
  - intros c h x' m0 t' m' h' sp Hx' Hh Hst Hin Hin' Hf _ Hc. simplify_eq. rewrite Hp in Hst. cbn in Hst. simplify_eq.
    pose proof (fun Hv => orig_wf _ _ _ _ _ _ Hv Hin') as Hw. rewrite <- Hh in Hin'.
    apply step_keeps_send; [eapply silent_after_spawn; [exact Hin' | apply Hf] | by eapply unfailed_before | | exact Hc].
    intros Hv. specialize (Hw Hv). rewrite sent_app in Hw. apply Forall_app in Hw as [_ Hw]. apply Forall_cons in Hw as [Hm _].
    rewrite ConnectionCodec_encode_wire in Eenc by done. cbn in Eenc. simplify_eq. exists (drop j (Wire.connection m)). rewrite take_drop. eauto.
Qed.

(** A wait that does not end with a message. *)
Lemma ok_wait_step ans k r w w' n i x : net_ok w -> (match ans with AnsNext (Val (Received (Ok _))) => False | AnsNext (Val _) => True | _ => False end) ->
  task_at k r w = Some (n, i, x) -> sys_step md n (CTask i ans) w = Some w' -> net_ok w'.
Proof.
  intros Hok Ha Hat Es. apply task_at_inv in Hat as (l & y & Hk & -> & Hi & Hy & ->).
  pose proof (sys_step_links _ _ _ _ Es) as El. apply sys_step_stepped in Es.
  eapply net_ok_silent; [exact Hok | exact Hk | done | exact Hi | exact Es | exact El |].
  intros c x' m t' m' h' sp Hx' Hin Hst. destruct ans as [| | | | |[[| |[|]]|]]; try done.
  all: destruct (t_prog x') as [a| |X o kk|s kk|addr kk|X p kk|a kk|conn kk]; cbn in Hst; try done.
  all: try (destruct (mop_step o m) as [[? ?]|]; cbn in Hst; by simplify_eq).
  all: try (destruct p; try done; by simplify_eq).
  all: simplify_eq; try done; by destruct Hin as [[(? & ? & ->) _]|[[] _]].
Qed.

(** An end that waits can only come to the next message of the other end. *)
Lemma waiting_gets l c k r h a (t : task unit) : in_session (orig l c k r) (h r ++ [ANext a]) t ->
  (forall q, end_facts (h q) (end_of q l)) -> (forall q, Forall (fun m => Connection_wf m = true) (sent (h q))) ->
  (forall q, chan_ok (h q) (end_of q l) (h (peer_role q)) (end_of (peer_role q) l)) ->
  let e := end_of r l in
  ConnectionCodec_decode (e_framed e) = Val (Ok None, e_framed e) \/
  exists m framed missing, ConnectionCodec_decode (e_framed e) = Val (Ok (Some m), framed) /\
    (got (h r) ++ [m]) `prefix_of` sent (h (peer_role r)) /\ (missing <> [] -> send_failed (h (peer_role r))) /\
    wire (sent (h (peer_role r))) ++ handed (end_of (peer_role r) l) = wire (got (h r) ++ [m]) ++ framed ++ e_wire e ++ missing.
Proof.
  intros Hin Hf Hw Hc e.
  assert (Hno : has_handler e = false) by (eapply silent_after_spawn; [exact Hin | apply Hf]).
  destruct (session_facts _ _ _ (orig_facts l c k r) Hin) as (Hearly & _). specialize (Hearly _ _ _ eq_refl).
  assert (Hpp : peer_role (peer_role r) = r) by (by destruct r).
  pose proof (Hc (peer_role r)) as Hcp. rewrite Hpp in Hcp.
  destruct (framed_decodes _ _ _ _ Hcp (Hw _) (Hf (peer_role r)) Hno Hearly) as [H|(m & framed & Hd & Hpre & missing & Hmis & E)]; [by left |].
  right. by exists m, framed, missing.
Qed.

Lemma ok_next_step k r w w' : net_ok w -> net_exec (NNext k r) w = Some w' -> net_ok w'.
Proof.
  intros Hok He. cbn -[sys_step ConnectionCodec_decode] in He.
  destruct (task_at k r w) as [[[n i] t]|] eqn:Eat; cbn -[sys_step ConnectionCodec_decode] in He; [| done].
  apply task_at_inv in Eat as (l & x & Hk & -> & Hi & Hx & ->). rewrite (get_end_links _ _ _ _ Hk) in He.
  cbn -[sys_step ConnectionCodec_decode] in He.
  destruct (t_prog x) as [| | | | |X p kk| |] eqn:Hp; try done. destruct p as [| | | |k1| |]; try done.
  set (e := end_of r l) in *.
  assert (Hstep : forall ans rest w1, sys_step md (node_at r l) (CTask i (AnsNext ans)) w = Some w1 ->
    (forall m, ConnectionCodec_decode (e_framed e) = Val (Ok (Some m), rest) -> ans = Got m) ->
    ConnectionCodec_decode (e_framed e) <> Val (Ok None, e_framed e) ->
    (forall m framed, ConnectionCodec_decode (e_framed e) = Val (Ok (Some m), framed) -> framed = rest) ->
    net_ok (put_end k r (mkEnd (e_task e) (e_wire e) rest (e_handler e)) w1)).
  { intros ans rest w1 Es Hm Hno Hrest. pose proof (sys_step_links _ _ _ _ Es) as El. apply sys_step_stepped in Es.
    eapply (net_ok_session w w1); [exact Hok | exact Hk | done | exact Hi | exact Es | | | |].
    - intros q. apply sys_of_put_end.
    - rewrite (put_end_links _ _ _ _ l) by (by rewrite El). by rewrite El.
    - intros q. by destruct r, q.
    - intros c h x' m0 t' m' h' sp Hx' Hh Hst Hin Hin' Hf Hw Hc. simplify_eq. rewrite Hp in Hst. cbn in Hst. simplify_eq.
      rewrite <- Hh in Hin'. apply step_keeps_next; [eapply silent_after_spawn; [exact Hin' | apply Hf] | exact Hc |]. intros Hv.
      destruct (waiting_gets _ _ _ _ _ _ _ Hin' Hf (Hw Hv) (Hc Hv)) as [H|(m & framed & missing & Hd & Hkeep)]; [done |].
      fold e in Hd, Hkeep. pose proof (Hrest _ _ Hd) as ->. exists m, missing. by split; [apply Hm |]. }
  destruct (ConnectionCodec_decode (e_framed e)) as [[[[m|]|err] rest]|] eqn:Ed; [| done | |];
    destruct (sys_step md _ _ w) as [w1|] eqn:Es; cbn in He; simplify_eq.
  - eapply (Hstep _ rest w1 Es); [by intros m0 [= ->] | done | by intros ? ? [= _ ->]].
  - by eapply (Hstep _ rest w1 Es).
  - assert (E : put_end k r (mkEnd (e_task e) (e_wire e) (e_framed e) (e_handler e)) w' = w').
    { unfold put_end, set_links. destruct w' as [wa wb wl]. cbn. f_equal. apply list_eq. intros j.
      apply sys_step_links in Es. cbn in Es. subst wl. destruct (decide (j = k)) as [->|Hne]; [| by rewrite list_lookup_alter_ne].
      rewrite list_lookup_alter_eq, Hk. cbn. f_equal. by destruct r, l as [? [] []]. }
    rewrite <- E. by eapply (Hstep _ (e_framed e) w' Es).
Qed.

(** A step of a node that runs no task. *)
Lemma ok_grow_step n c w w' : net_ok w -> sys_step md n c w = Some w' -> runs_no_task c ->
  match c with CLoopEvent ev => loop_ok (nw_links w) n (LoopBusy (p2p_event_loop_body (me n) ev)) | _ => True end ->
  net_ok w'.
Proof.
  intros Hok Hs Hc Hev. pose proof (sys_step_links _ _ _ _ Hs) as El. apply sys_step_stepped in Hs.
  by apply (net_ok_grow w w' n c).
Qed.

(** An end changes, as a receiver. *)
Lemma ok_put_end k r e w l : net_ok w -> nw_links w !! k = Some l -> e_task e = e_task (end_of r l) ->
  has_handler e = has_handler (end_of r l) -> handed e = handed (end_of r l) ->
  (forall hs hr, chan_ok hs (end_of (peer_role r) l) hr (end_of r l) -> chan_ok hs (end_of (peer_role r) l) hr e) ->
  net_ok (put_end k r e w).
Proof.
  intros Hok Hk Ht Hh Hs Hc. eapply (net_ok_ends w); [exact Hok | exact Hk | intros n; apply sys_of_put_end | by apply put_end_links | | |].
  - intros q. by destruct r, q.
  - intros q. by destruct r, q.
  - intros h q _ H. destruct (decide (q = r)) as [->|Hq].
    + assert (end_of r (set_end r e l) = e) as -> by (by destruct r).
      assert (end_of (peer_role r) (set_end r e l) = end_of (peer_role r) l) as -> by (by destruct r).
      unfold chan_ok. rewrite Hs. exact H.
    + assert (q = peer_role r) as -> by (by destruct q, r). assert (Hpp : peer_role (peer_role r) = r) by (by destruct r).
      rewrite Hpp in *. assert (end_of r (set_end r e l) = e) as -> by (by destruct r).
      assert (end_of (peer_role r) (set_end r e l) = end_of (peer_role r) l) as -> by (by destruct r). by apply Hc.
Qed.

(** A step of the handler: what it adds to the connection, and nothing comes to it by itself. *)
Lemma handler_step_moves d ev h h' : handler_step d ev h = Some h' ->
  match d, ev with FromNetwork, (Give _ | Close) => False | _, _ => True end ->
  p_dst (h_application h') = p_dst (h_application h) ++ handler_sent d ev h /\
  p_given (h_network h') = p_given (h_network h).
Proof.
  unfold handler_step. intros H Hd. destruct (_ && by_copy ev); [done |].
  destruct d, ev; cbn -[take drop] in *; try done; repeat case_decide;
    repeat match type of H with (if ?b then _ else _) = _ => destruct b end; simplify_eq; cbn -[take drop];
    by rewrite ?app_nil_r.
Qed.

Lemma handler_ran_step e h d ev h' : e_handler e = Some h -> handler_ran e -> handler_step d ev h = Some h' ->
  forall t ws f, handler_ran (mkEnd t ws f (Some h')).
Proof.
  intros He Hr Hs t ws f h0 [= <-]. destruct (Hr h He) as [es Hes]. exists (es ++ [(d, ev)]).
  rewrite handler_run_app, Hes. cbn. by rewrite Hs.
Qed.

(** The handler of an end steps, and what it writes is on the way to the other end. *)
Lemma ok_handler_ends k r d ev h h' l w :
  let e1 := mkEnd (e_task (end_of r l)) (e_wire (end_of r l)) (e_framed (end_of r l)) (Some h') in
  let l1 := set_end r e1 l in
  net_ok w -> nw_links w !! k = Some l -> e_handler (end_of r l) = Some h -> handler_step d ev h = Some h' ->
  match d, ev with FromNetwork, (Give _ | Close) => False | _, _ => True end ->
  net_ok (put_end k (peer_role r) (arrive (handler_sent d ev h) (end_of (peer_role r) l1)) (put_end k r e1 w)).
Proof.
  intros e1 l1 Hok Hk Eh Hs Hd. set (w1 := put_end k r e1 w). set (o := arrive _ _).
  assert (Hk1 : nw_links w1 !! k = Some l1).
  { unfold w1. rewrite (put_end_links _ _ _ _ _ Hk). apply list_lookup_insert_eq. by eapply lookup_lt_Some. }
  destruct (handler_step_moves _ _ _ _ Hs Hd) as [Hdst Hgiven].
  assert (Hpp : peer_role (peer_role r) = r) by (by destruct r).
  set (l2 := set_end (peer_role r) o l1).
  assert (Er : end_of r l2 = e1) by (by destruct r). assert (Ep : end_of (peer_role r) l2 = o) by (by destruct r).
  assert (Eo : e_wire o = e_wire (end_of (peer_role r) l) ++ handler_sent d ev h /\ e_framed o = e_framed (end_of (peer_role r) l) /\
               e_handler o = e_handler (end_of (peer_role r) l)) by (by destruct r).
  destruct Eo as (Eo1 & Eo2 & Eo3).
  eapply (net_ok_ends w _ k l l2); [exact Hok | exact Hk | | | | |].
  - intros n. by rewrite !sys_of_put_end.
  - rewrite (put_end_links _ _ _ _ _ Hk1). unfold w1. rewrite (put_end_links _ _ _ _ _ Hk). apply list_insert_insert_eq.
  - intros q. by destruct q, r.
  - intros q. unfold has_handler. destruct q, r; cbn in *; by rewrite ?Eh, ?Eo3.
  - assert (Eh1 : handed e1 = handed (end_of r l) ++ handler_sent d ev h) by (unfold handed; by rewrite Eh).
    assert (Ec1 : came e1 = came (end_of r l)) by (unfold came; by rewrite Eh).
    intros hh q Hfq Hq. destruct (decide (q = r)) as [->|Hne].
    + rewrite Er, Ep. destruct Hq as (Hg & Hran & lost & missing & Hl & Hm & E). split; [exact Hg |].
      assert (missing = []) as ->.
      { destruct missing; [done |]. destruct Hfq as (_ & _ & []); [unfold has_handler; by rewrite Eh | by apply Hm]. }
      split; [unfold handler_ran; by rewrite Eo3 |]. exists lost, []. rewrite !app_nil_r in *.
      unfold has_handler, came in *. rewrite Eo3, Eo2, Eo1, Eh1. split; [exact Hl |]. split; [done |].
      rewrite app_assoc, E. by rewrite <- !app_assoc.
    + assert (q = peer_role r) as -> by (by destruct q, r). rewrite Hpp in *. rewrite Er, Ep.
      destruct Hq as (Hg & Hran & lost & missing & Hl & Hm & E). split; [exact Hg |].
      split; [by eapply handler_ran_step |]. exists lost, missing. split; [done |]. split; [exact Hm |].
      unfold handed in *. rewrite Eo3, Ec1. exact E.
Qed.

Lemma ok_handler_step k r d ev w w' : net_ok w -> net_exec (NHandler k r d ev) w = Some w' -> net_ok w'.
Proof.
  intros Hok He. cbn -[sys_step handler_step] in He.
  destruct (nw_links w !! k) as [l|] eqn:Hk; cbn -[sys_step handler_step] in He; [| done].
  destruct (e_handler (end_of r l)) as [h|] eqn:Eh; cbn -[sys_step handler_step] in He; [| done].
  destruct (match d, ev with FromNetwork, (Give _ | Close) => true | _, _ => false end) eqn:Hown; [done |].
  assert (Hd : match d, ev with FromNetwork, (Give _ | Close) => False | _, _ => True end) by (by destruct d, ev).
  destruct (handler_step d ev h) as [h'|] eqn:Hs; cbn -[sys_step] in He; [| done].
  set (e1 := mkEnd (e_task (end_of r l)) (e_wire (end_of r l)) (e_framed (end_of r l)) (Some h')) in *.
  set (l1 := set_end r e1 l). set (w1 := put_end k r e1 w).
  assert (Hk1 : nw_links w1 !! k = Some l1).
  { unfold w1. rewrite (put_end_links _ _ _ _ _ Hk). apply list_lookup_insert_eq. by eapply lookup_lt_Some. }
  fold (put_end k r e1 w) in He. fold w1 in He. rewrite (get_end_links _ _ _ _ Hk1) in He. cbn -[sys_step] in He.
  set (w2 := put_end k (peer_role r) (arrive (handler_sent d ev h) (end_of (peer_role r) l1)) w1) in *.
  assert (Hok2 : net_ok w2) by (by eapply ok_handler_ends).
  destruct (copy_result d ev h) as [res|]; [| by simplify_eq].
  destruct (handler_index k _) as [j|]; cbn -[sys_step] in He; [| done].
  by apply (ok_grow_step _ _ _ _ Hok2 He).
Qed.

Lemma ok_refused_step n i err w w' : net_ok w -> cands_ok w -> net_exec (NRefused n i err) w = Some w' -> net_ok w'.
Proof.
  intros Hok Hcand He. cbn -[sys_step] in He. pose proof (sys_step_links _ _ _ _ He) as El. apply sys_step_stepped in He.
  destruct (owned_dec (nw_links w) n i) as [(k & r & l & Hk & Hn & Hi)|Hno]; [| by apply (net_ok_new w w' n i (AnsTcp (Err err)))].
  eapply net_ok_silent; [exact Hok | exact Hk | exact Hn | exact Hi | exact He | exact El |].
  intros c x m t' m' h' sp Hx Hin Hst.
  destruct (t_prog x) as [a| |X o kk|s kk|addr kk|X p kk|a kk|conn kk]; cbn in Hst; try done.
  + destruct (mop_step o m) as [[? ?]|]; cbn in Hst; by simplify_eq.
  + by simplify_eq.
  + destruct p; try done; by simplify_eq.
  + simplify_eq. by destruct Hin as [[(? & ? & ->) _]|[[] _]].
  + by simplify_eq.
Qed.

Lemma ok_read_step k r j w w' : net_ok w -> net_exec (NRead k r j) w = Some w' -> net_ok w'.
Proof.
  intros Hok He. cbn in He. destruct (nw_links w !! k) as [l|] eqn:Hk; unfold get_end in He; rewrite Hk in He; cbn in He; [| done]. case_decide as Hj; [| done].
  destruct (e_handler (end_of r l)) eqn:Eh; simplify_eq. fold (put_end k r (mkEnd (e_task (end_of r l)) (drop j (e_wire (end_of r l))) (e_framed (end_of r l) ++ take j (e_wire (end_of r l))) None) w).
  assert (Hno : has_handler (end_of r l) = false) by (unfold has_handler; by rewrite Eh).
  eapply ok_put_end; [exact Hok | exact Hk | done | done | by rewrite (handed_none _ Hno) |].
  intros hs hr (H1 & _ & lost & missing & Hl & Hm & E). split; [exact H1 |]. split; [done |]. exists lost, missing.
  split; [intros _; by apply Hl |]. split; [exact Hm |].
  rewrite E, (Hl Hno), (came_none _ Hno). cbn. by rewrite <- (app_assoc (e_framed _)), (app_assoc (take j _)), take_drop.
Qed.

(** What has arrived comes to the handler, and the end of it. *)
Lemma ok_own_handler k r l ev h h' w : net_ok w -> nw_links w !! k = Some l -> e_handler (end_of r l) = Some h ->
  handler_step FromNetwork ev h = Some h' -> (ev = Give (e_wire (end_of r l)) \/ ev = Close /\ e_wire (end_of r l) = []) ->
  net_ok (put_end k r (mkEnd (e_task (end_of r l)) [] (e_framed (end_of r l)) (Some h')) w).
Proof.
  intros Hok Hk Hh Hs Hev. unfold handler_step in Hs.
  assert (Hm : p_dst (h_application h') = p_dst (h_application h) /\
               p_given (h_network h') = p_given (h_network h) ++ e_wire (end_of r l)).
  { destruct Hev as [->|[-> ->]]; cbn -[can_give] in Hs; rewrite andb_false_r in Hs; [destruct (can_give _ _ _); [| done] |];
      simplify_eq; cbn; by rewrite ?app_nil_r. }
  destruct Hm as [Hdst Hgiven].
  eapply ok_put_end; [exact Hok | exact Hk | done | unfold has_handler; by rewrite Hh | unfold handed; by rewrite Hh |].
  intros hs hr (H1 & H2 & lost & missing & Hl & Hm & E). split; [exact H1 |]. split; [by eapply handler_ran_step |]. exists lost, missing.
  split; [done |]. split; [exact Hm |]. rewrite E. unfold came. rewrite Hh. cbn. by rewrite Hgiven, <- app_assoc.
Qed.

Lemma net_exec_ok c w w' : net_ok w -> cands_ok w -> net_exec c w = Some w' -> net_ok w'.
Proof.
  intros Hok Hcand He. destruct c as [n c|n i ans|n|n|n reached written|n|n|n|n i|n i err|k|k r|k r j err|k r j|k r|k r|k r|k r err|k r|k r d ev|k r].
  - cbn -[sys_step] in He. destruct (app_command c) eqn:Ea; [| done].
    apply (ok_grow_step _ _ _ _ Hok He); by destruct c.
  - by eapply ok_task_step.
  - by eapply ok_loop_step.
  - cbn -[sys_step] in He. destruct (sys_step md n CLoopEnd w) as [w1|] eqn:Es; cbn -[sys_step] in He; [| done].
    assert (Hok1 : net_ok w1) by (by apply (ok_grow_step _ _ _ _ Hok Es)).
    destruct (loop_stopped n w1); simplify_eq; [| done].
    eapply (net_ok_ext w1); [exact Hok1 | intros m; apply sys_of_set_disc | by destruct n].
  - cbn -[sys_step discovery_body disc_round] in He. destruct (n_running _); [| done].
    destruct (chan_recv _) as [[ev ch]|]; cbn -[sys_step discovery_body disc_round] in He; [| done].
    destruct (discovery_body _ _ _ _) as [d|]; cbn -[sys_step disc_round] in He; [| done].
    destruct (sys_step md n CDiscoveryRecv w) as [w1|] eqn:Es; cbn -[disc_round] in He; [| done]. simplify_eq.
    eapply (net_ok_ext w1); [by apply (ok_grow_step _ _ _ _ Hok Es) | |].
    + intros m. rewrite sys_of_sent. apply sys_of_disc_round.
    + rewrite links_of_sent. apply links_of_disc_round.
  - cbn -[discovery_body disc_round] in He. destruct (n_running _); [| done].
    destruct (UdpFramed_next _ _ _) as [[[item u] rest]|]; cbn -[discovery_body disc_round] in He; [| done].
    destruct (discovery_body _ _ _ _) as [d|]; cbn -[disc_round] in He; [| done]. simplify_eq.
    eapply (net_ok_ext w); [exact Hok | intros m; apply sys_of_disc_round | apply links_of_disc_round].
  - cbn -[sys_step] in He. destruct (n_running _); [done |]. by apply (ok_grow_step _ _ _ _ Hok He).
  - cbn -[sys_step] in He. destruct (chan_recv _) as [[ev ch]|]; cbn -[sys_step] in He; [| done].
    destruct (sys_step md n _ w) as [w1|] eqn:Es; cbn in He; [| done]. simplify_eq.
    eapply (net_ok_ext w1); [| intros m; apply sys_of_set_disc | by destruct n].
    apply (ok_grow_step _ _ _ _ Hok Es); [done |]. left. apply no_accept_event. by destruct ev as [[[]]|].
  - by eapply ok_connect_step.
  - by eapply ok_refused_step.
  - cbn -[sys_step] in He. destruct (nw_links w !! k) as [l|] eqn:Hk; cbn -[sys_step] in He; [| done]. case_decide as Hnone; [| done].
    apply (ok_grow_step _ _ _ _ Hok He); [done |]. right. exists k, l, (TRet Continue). by split_and!.
  - by eapply ok_send_step.
  - by eapply ok_send_fails_step.
  - by eapply ok_read_step.
  - by eapply ok_next_step.
  - cbn -[sys_step] in He. destruct (task_at k r w) as [[[n i] t]|] eqn:Eat; cbn -[sys_step] in He; [| done].
    destruct t as [| | | | |X p kk| |]; try done. destruct p; try done. by eapply (ok_wait_step (AnsNext (Val TimedOut))).
  - cbn -[sys_step] in He. destruct (task_at k r w) as [[[n i] t]|] eqn:Eat; cbn -[sys_step] in He; [| done].
    destruct (get_end k r w) as [e|]; cbn -[sys_step] in He; [| done].
    destruct t as [| | | | |X p kk| |]; try done. destruct p; try done.
    destruct (_ && _); [| done]. by eapply (ok_wait_step (AnsNext (Val Closed))).
  - cbn -[sys_step] in He. destruct (task_at k r w) as [[[n i] t]|] eqn:Eat; cbn -[sys_step] in He; [| done].
    destruct t as [| | | | |X p kk| |]; try done. destruct p; try done.
    by eapply (ok_wait_step (AnsNext (Val (Received (Err (IOError err)))))).
  - cbn -[handler_step] in He. destruct (nw_links w !! k) as [l|] eqn:Hk; unfold get_end in He; rewrite Hk in He; cbn -[handler_step] in He; [| done].
    destruct (e_handler (end_of r l)) as [h|] eqn:Eh; cbn -[handler_step] in He; [| done].
    destruct (handler_step _ _ h) as [h'|] eqn:Hs; cbn in He; simplify_eq.
    eapply ok_own_handler; [exact Hok | exact Hk | exact Eh | exact Hs | by left].
  - by eapply ok_handler_step.
  - cbn -[handler_step] in He. destruct (nw_links w !! k) as [l|] eqn:Hk; unfold get_end in He; rewrite Hk in He; cbn -[handler_step] in He; [| done].
    destruct (e_handler (end_of r l)) as [h|] eqn:Eh; cbn -[handler_step] in He; [| done].
    destruct (e_handler (end_of (peer_role r) l)) as [oh|]; cbn -[handler_step] in He; [| done].
    destruct (h_ended oh && _) eqn:Hc; [| done]. apply andb_true_iff in Hc as [_ Hw%bool_decide_eq_true].
    destruct (handler_step _ _ h) as [h'|] eqn:Hs; cbn in He; simplify_eq.
    eapply ok_own_handler; [exact Hok | exact Hk | exact Eh | exact Hs | by right].
Qed.

(** The application of each node registers its pairings, and both nodes are in states they can reach. *)
Definition pairs_only (cs : list ncommand) : Prop :=
  Forall (fun c => match c with NApp n c => command_ok (Paired n) c | _ => True end) cs.
Definition both_reachable (w : network) : Prop := forall n, reachable (me n) (Paired n) (md n) (sys_of n w).

Lemma reachable_cands w : both_reachable w -> cands_ok w.
Proof.
  intros Hr n id c Hc. pose proof (reachable_discovered _ _ _ _ _ _ (Hr n) Hc) as Hok.
  unfold paired_cand. by rewrite (proj1 Hok).
Qed.

Lemma net_run_ok cs : forall w w', pairs_only cs -> both_reachable w -> net_ok w -> net_run cs w = Some w' ->
  net_ok w' /\ both_reachable w'.
Proof.
  induction cs as [|c cs IH]; intros w w' Hp Hre Hok Hr; cbn in Hr; [by simplify_eq |].
  destruct (net_exec c w) as [w1|] eqn:E; cbn in Hr; [| done]. apply Forall_cons in Hp as [Hc Hp].
  eapply IH; [exact Hp | | eapply net_exec_ok; [exact Hok | by apply reachable_cands | exact E] | exact Hr].
  intros n. eapply (net_run_reachable md local group Paired [c]); [by constructor | exact Hre |]. cbn. by rewrite E.
Qed.

Lemma both_reachable_init : both_reachable (net_init md).
Proof. intros []; constructor. Qed.

Lemma net_ok_init : net_ok (net_init md).
Proof.
  split; [split_and! |].
  - intros [|k] l Hk; done.
  - intros n i r Hi. by destruct n.
  - intros n i [|k] r k' r' (l & Hk & _); done.
  - by intros [].
Qed.

(** ** Matching conversations *)

Lemma sent_reached (p0 : list act) a h t : (p0 ++ [a]) `prefix_of` h ++ t -> (length (sent p0) < length (sent h))%nat ->
  (p0 ++ [a]) `prefix_of` h.
Proof.
  intros Hp Hlen. destruct (prefix_weak_total (p0 ++ [a]) h (h ++ t)) as [H|[q H]]; [done | by apply prefix_app_r | done |].
  destruct q as [|b q _] using rev_ind; [rewrite app_nil_r in H; by rewrite H |].
  rewrite app_assoc in H. apply app_inj_tail in H as [H _]. rewrite H, sent_app, length_app in Hlen. lia.
Qed.

(** The history of a client whose handler runs, and that of a host. *)
Lemma client_history k l c h (t : task unit) : in_session (orig l c k AsClient) h t ->
  (exists id conn, ASpawn id conn ∈ h) ->
  exists now code, PairingAuthenticator_generate (pc_auth c) now = Ok code /\
    h = connect_trace (me (node_at AsClient l)) (Z.of_nat k) c now code.
Proof.
  intros Hin (id & conn & (h1 & h2 & ->)%list_elem_of_split).
  destruct (session_facts _ _ _ (orig_facts l c k AsClient) Hin) as (_ & Hl). rewrite (Hl _ (ASpawn id conn) _ eq_refl eq_refl) in *.
  destruct (session_runs _ _ _ Hin) as (t' & o & Hr). rewrite <- app_assoc in Hr. by apply connect_spawn_inv in Hr.
Qed.

Lemma host_history k l c h (t : task unit) : in_session (orig l c k AsHost) h t ->
  (exists id conn, ASpawn id conn ∈ h) ->
  exists id c' now code, PairingAuthenticator_generate (pc_auth c') now = Ok code /\
    h = accept_trace (me (node_at AsHost l)) (Z.of_nat k) id c' now code.
Proof.
  intros Hin (id & conn & (h1 & h2 & ->)%list_elem_of_split).
  destruct (session_facts _ _ _ (orig_facts l c k AsHost) Hin) as (_ & Hl). rewrite (Hl _ (ASpawn id conn) _ eq_refl eq_refl) in *.
  destruct (session_runs _ _ _ Hin) as (t' & o & Hr). rewrite <- app_assoc in Hr. by apply accept_spawn_inv in Hr.
Qed.

(** The task of each end, with its history. *)
Definition histories (w : network) (l : link) (h : role -> list act) : Prop :=
  forall r, match e_task (end_of r l) with
            | Some i => exists t, tasks_of w (node_at r l) !! i = Some (mkTrec (h r) t)
            | None => h r = []
            end.

(** The candidates the host's handshake was given. *)
Definition given_paired (n : side) (h : list act) : Prop :=
  forall id c, ACandidate id (Some c) ∈ h -> cand_ok (Paired n) id c.

(** What the tags of a client with code [code] and candidate [c] and of a host with [code'] and [c'] say. *)
Definition tags_match (client host : PeerId) (c c' : PeerCandidate) (now now' : Z) (code code' : RString) : Prop :=
  PairingAuthenticator_generate (pc_auth c) now = Ok code /\ PairingAuthenticator_generate (pc_auth c') now' = Ok code' /\
  hmac_sign (as_bytes code) (PeerId_bytes client) = hmac_sign (as_bytes code') (PeerId_bytes (pc_id c')) /\
  hmac_sign (as_bytes code') (PeerId_bytes host) = hmac_sign (as_bytes code) (PeerId_bytes (pc_id c)).

Lemma client_matches k l c h (t t' : task unit) :
  let client := me (node_at AsClient l) in let host := me (node_at AsHost l) in
  in_session (orig l c k AsClient) (h AsClient) t -> (exists id conn, ASpawn id conn ∈ h AsClient) ->
  in_session (orig l c k AsHost) (h AsHost) t' -> (forall r, got (h (peer_role r)) `prefix_of` sent (h r)) ->
  given_paired (node_at AsHost l) (h AsHost) ->
  exists now code c' now' code' res, tags_match client host c c' now now' code code' /\
    pc_id c' = client /\ Paired (node_at AsHost l) client (pc_auth c') /\
    h AsClient = connect_trace client (Z.of_nat k) c now code /\ host_sent host client c' now' code' res `prefix_of` h AsHost.
Proof.
  intros client host Hin Hspawn Hin' Hg Hgiven. destruct (client_history _ _ _ _ _ Hin Hspawn) as (now & code & Hgen & E).
  pose proof (Hg AsHost) as Hgot. pose proof (Hg AsClient) as Hgot'. cbn [peer_role] in Hgot, Hgot'. rewrite E in Hgot. cbn in Hgot.
  destruct (session_runs _ _ _ Hin') as (t2 & o & Hrun).
  pose proof (prefix_app_r _ _ (sent t2) Hgot) as Hgot2. rewrite <- sent_app in Hgot2.
  destruct (accept_sent_inv _ _ _ _ _ Hrun Hgot2) as (id & c' & now' & code' & res & Hgen' & Hpre).
  apply (sent_reached (take 5 (host_sent host id c' now' code' res)) (ASend CompleteResponse res)) in Hpre.
  2: { apply prefix_length in Hgot. cbn in *. lia. }
  pose proof Hpre as [tl Htl]. rewrite E, Htl in Hgot'. rewrite Htl in Hgot. cbn in Hgot, Hgot'.
  destruct Hgot' as [x Hx], Hgot as [y Hy]. cbn in Hx, Hy. injection Hx as H1 H2 _. injection Hy as H3 _. subst id.
  destruct (Hgiven client c') as (E1 & _ & E2); [rewrite Htl; cbn; set_solver |].
  exists now, code, c', now', code', res. by split_and!.
Qed.

Lemma host_matches k l c h (t t' : task unit) :
  let client := me (node_at AsClient l) in let host := me (node_at AsHost l) in
  in_session (orig l c k AsHost) (h AsHost) t -> (exists id conn, ASpawn id conn ∈ h AsHost) ->
  in_session (orig l c k AsClient) (h AsClient) t' -> (forall r, got (h (peer_role r)) `prefix_of` sent (h r)) ->
  given_paired (node_at AsHost l) (h AsHost) ->
  exists now code c' now' code' res, tags_match client host c c' now now' code code' /\
    pc_id c' = client /\ Paired (node_at AsHost l) client (pc_auth c') /\
    h AsHost = accept_trace host (Z.of_nat k) client c' now' code' /\ client_sent client c now code res `prefix_of` h AsClient.
Proof.
  intros client host Hin Hspawn Hin' Hg Hgiven. destruct (host_history _ _ _ _ _ Hin Hspawn) as (id & c' & now' & code' & Hgen' & E).
  pose proof (Hg AsClient) as Hgot. pose proof (Hg AsHost) as Hgot'. cbn [peer_role] in Hgot, Hgot'. rewrite E in Hgot. cbn in Hgot.
  destruct (session_runs _ _ _ Hin') as (t2 & o & Hrun).
  pose proof (prefix_app_r _ _ (sent t2) Hgot) as Hgot2. rewrite <- sent_app in Hgot2.
  destruct (connect_sent_inv _ _ _ _ _ _ Hrun Hgot2) as (now & code & res & Hgen & Hpre).
  apply (sent_reached (take 3 (client_sent client c now code res)) (ASend CompleteRequest res)) in Hpre.
  2: { apply prefix_length in Hgot. cbn in *. lia. }
  pose proof Hpre as [tl Htl]. rewrite E, Htl in Hgot'. rewrite Htl in Hgot. cbn in Hgot, Hgot'.
  destruct Hgot' as [x Hx], Hgot as [y Hy]. cbn in Hx, Hy. injection Hx as H3 _. injection Hy as H1 H2 _. subst id.
  destruct (Hgiven client c') as (E1 & _ & E2); [rewrite E; cbn; set_solver |].
  exists now, code, c', now', code', res. by split_and!.
Qed.

(** The sessions of a link, as the invariant has them. *)
Lemma link_sessions ts l c k h :
  (forall r, end_ok (ts (node_at r l)) (orig l c k r) (end_of r l) (h r)) ->
  (forall r, got (h (peer_role r)) `prefix_of` sent (h r)) ->
  forall r, has_handler (end_of r l) = true -> (exists id conn, ASpawn id conn ∈ h r) /\
    forall q, exists t : task unit, in_session (orig l c k q) (h q) t.
Proof.
  intros Hend Hg r Hh.
  assert (Hin : forall q, h q <> [] -> exists t : task unit, in_session (orig l c k q) (h q) t).
  { intros q Hne. destruct (Hend q) as [H _]. destruct (e_task (end_of q l)); [naive_solver | done]. }
  pose proof (proj2 (Hend r) Hh) as H'. split; [exact H' |].
  assert (Hne : h r <> []) by (intros E; destruct H' as (? & ? & H'); rewrite E in H'; by apply elem_of_nil in H').
  intros q. apply Hin. destruct (decide (q = r)) as [->|Hq]; [exact Hne |]. intros E.
  destruct (Hin r Hne) as [t Ht]. destruct q, r; try done.
  - destruct (host_history _ _ _ _ _ Ht H') as (? & ? & ? & ? & _ & Et). specialize (Hg AsClient). cbn in Hg.
    rewrite E, Et in Hg. by apply prefix_nil_inv in Hg.
  - destruct (client_history _ _ _ _ _ Ht H') as (? & ? & _ & Et). specialize (Hg AsHost). cbn in Hg.
    rewrite E, Et in Hg. by apply prefix_nil_inv in Hg.
Qed.

(** C5.  Matching conversations.  On every connection, whose client has an id the protocol can carry
    ([PeerId_valid]: 40 bytes; those of [Node::init] have 64, the host's may be one of them), of every run of
    the two nodes, whatever is sent to them besides, in whatever order their tasks step, however the streams
    are cut and whichever sends and waits fail: what one end has got is, in order, what the other has sent, and the candidate the client connects to is of a pairing of its
    application.  So when the client's handler runs, the host at the other end has verified this client's
    request, under a code of a pairing with this client, and has sent its last message; its tag is that of the
    client's candidate under the client's code.  And when the host's handler runs, the client at the
    other end asked for this host, whose tag it has verified, and has sent its last message.  No end runs a
    handler on a handshake the other end did not do with it, under a pairing on either side. *)
Theorem conversations_match cs w k l :
  pairs_only cs -> net_run cs (net_init md) = Some w -> nw_links w !! k = Some l ->
  PeerId_valid (me (node_at AsClient l)) = true ->
  let client := me (node_at AsClient l) in let host := me (node_at AsHost l) in
  exists c h, histories w l h /\ (forall r, got (h (peer_role r)) `prefix_of` sent (h r)) /\
    Paired (node_at AsClient l) (pc_id c) (pc_auth c) /\
    (has_handler (l_client l) = true ->
       exists now code c' now' code' res, tags_match client host c c' now now' code code' /\
         pc_id c' = client /\ Paired (node_at AsHost l) client (pc_auth c') /\
         h AsClient = connect_trace client (Z.of_nat k) c now code /\
         host_sent host client c' now' code' res `prefix_of` h AsHost) /\
    (has_handler (l_host l) = true ->
       exists now code c' now' code' res, tags_match client host c c' now now' code code' /\
         pc_id c' = client /\ Paired (node_at AsHost l) client (pc_auth c') /\
         h AsHost = accept_trace host (Z.of_nat k) client c' now' code' /\
         client_sent client c now code res `prefix_of` h AsClient).
Proof.
  intros Hp Hr Hk Hv client host. destruct (net_run_ok _ _ _ Hp both_reachable_init net_ok_init Hr) as [[(Hl & _) _] Hre].
  destruct (Hl k l Hk) as (c & h & Hcd & Hend & Hch). exists c, h.
  assert (Hg : forall r, got (h (peer_role r)) `prefix_of` sent (h r)) by (intros r; by apply (Hch Hv)).
  assert (Hh : histories w l h).
  { intros r. destruct (Hend r) as [H _]. destruct (e_task (end_of r l)); [naive_solver | done]. }
  assert (Hgiven : given_paired (node_at AsHost l) (h AsHost)).
  { intros id c0 Hin. specialize (Hh AsHost). cbn [end_of] in Hh. destruct (e_task (l_host l)) as [i|].
    - destruct Hh as [t Ht]. eapply reachable_candidate; [apply Hre | by eapply list_elem_of_lookup_2 | exact Hin].
    - rewrite Hh in Hin. by apply elem_of_nil in Hin. }
  split_and!; [exact Hh | exact Hg | apply Hcd | |].
  - intros Hc. destruct (link_sessions _ _ _ _ _ Hend Hg AsClient Hc) as [Hs Hin].
    destruct (Hin AsClient) as [t Ht], (Hin AsHost) as [t' Ht']. by eapply client_matches.
  - intros Hc. destruct (link_sessions _ _ _ _ _ Hend Hg AsHost Hc) as [Hs Hin].
    destruct (Hin AsClient) as [t Ht], (Hin AsHost) as [t' Ht']. by eapply host_matches.
Qed.

End Agreement.

(** ** Witness *)

Module AgreementWitnesses.

Import Sample Tokio_sketch.
#[local] Instance profile : Profile := true.

Definition both_connected (w : network) : bool :=
  match nw_links w !! O with Some l => has_handler (l_client l) && has_handler (l_host l) | None => false end.

Lemma connected_run_links : passes (NetworkWitnesses.connected_run ++ [Assert both_connected]) = true.
Proof. vm_compute. reflexivity. Qed.

(** On the connection of the integration test both handlers run. *)
Lemma conversations_match_witness : exists w l c h,
  net_run metadata discovery_addr create_multicast_addr (steps NetworkWitnesses.connected_run) (net_init metadata) = Some w /\
  nw_links w !! O = Some l /\ histories w l h /\
  exists now code c' now' code' res,
    tags_match (me metadata (node_at AsClient l)) (me metadata (node_at AsHost l)) c c' now now' code code' /\
    pc_id c' = me metadata (node_at AsClient l) /\
    NetworkWitnesses.test_paired (node_at AsHost l) (me metadata (node_at AsClient l)) (pc_auth c') /\
    h AsClient = connect_trace (me metadata (node_at AsClient l)) 0 c now code /\
    host_sent (me metadata (node_at AsHost l)) (me metadata (node_at AsClient l)) c' now' code' res `prefix_of` h AsHost.
Proof.
  destruct (passes_run _ _ connected_run_links) as (w & Hr & Hb). unfold both_connected in Hb.
  destruct (nw_links w !! O) as [l|] eqn:Hk; [| done]. apply andb_true_iff in Hb as [Hc _].
  assert (Hid : PeerId_valid (me metadata (node_at AsClient l)) = true) by (destruct l as [[] ? ?]; reflexivity).
  destruct (conversations_match metadata discovery_addr create_multicast_addr NetworkWitnesses.test_paired _ w 0 l
              NetworkWitnesses.connected_run_ok Hr Hk Hid) as (c & h & Hh & _ & _ & Hm & _).
  exists w, l, c, h. split; [exact Hr |]. split; [exact Hk |]. split; [exact Hh |]. exact (Hm Hc).
Defined.

End AgreementWitnesses.
