(* ===== verification/Delivery.v ===== *)
(** What the applications at the two ends of a connection get of what they give each other.

    [network_delivers] adds the handlers' promise (Handler.v) and the network's (NetworkAgreement.v): what
    reaches an application is part of what the other one wrote, in order.  Where the handshake ends and the data
    begin, [stream_boundary] shows what is lost and what foreign bytes can come between. *)

From Stdlib Require Import ZArith Lia.
From Stdlib Require Import Strings.Byte.
From stdpp Require Import base tactics numbers option list strings gmap.
From S2P Require Import Prelude RustStd SockAddr Errors Pairing Peer Proto ProtoFacts Handshake HandshakeFacts.
From S2P Require Import Transport Manager Handler System Discovery Network Sessions UnitTests IntegrationTest NetworkTheorems NetworkAgreement Samples.

Section Delivery.
Context {U : UnicodeTables} {P : Profile} {C : CryptoLib} {L : CryptoLaws C} {T : TokioUtil} {TL : TokioUtilLaws T}.
Context (md : side -> PeerMetadata) (local group : SocketAddr).
#[local] Abbreviation me := (me md).
#[local] Abbreviation net_exec := (net_exec md local group).
#[local] Abbreviation net_run := (net_run md local group).
Context (Paired : side -> PeerId -> PairingAuthenticator -> Prop).

(** The message of a client that gave up on the host's last one. *)
Definition late_failure : list byte := Wire.connection (Failure TIMEOUT_ERR).

(** What a client may have sent that the host's handshake does not read. *)
Definition late (r : role) (s : endpoint) (ms : list Connection) : Prop :=
  ms = [] \/ r = AsHost /\ has_handler s = false /\ ms = [Failure TIMEOUT_ERR].

(** What a client sends at most. *)
Definition talk (ms : list Connection) : Prop :=
  (length ms <= 2)%nat \/ exists m, ms = [m; CompleteRequest; Failure TIMEOUT_ERR].

(** A handshake that has spawned its handler has got two messages. *)
Lemma handler_got l c k r h (t : task unit) : in_session (orig md l c k r) h t -> (exists id conn, ASpawn id conn ∈ h) ->
  length (got h) = 2%nat.
Proof.
  intros Hin Hs. destruct r.
  - by destruct (client_history md _ _ _ _ _ Hin Hs) as (now & code & _ & ->).
  - by destruct (host_history md _ _ _ _ _ Hin Hs) as (id & c' & now & code & _ & ->).
Qed.

Lemma handler_sent_two l c k r h (t : task unit) : in_session (orig md l c k r) h t -> (exists id conn, ASpawn id conn ∈ h) ->
  length (sent h) = 2%nat.
Proof.
  intros Hin Hs. destruct r.
  - by destruct (client_history md _ _ _ _ _ Hin Hs) as (now & code & _ & ->).
  - by destruct (host_history md _ _ _ _ _ Hin Hs) as (id & c' & now & code & _ & ->).
Qed.

(** So it has got all that the other end's handshake sends, but for a client's late failure. *)
Lemma handler_got_all (ts : side -> list trec) l c k h r :
  (forall q, end_ok (ts (node_at q l)) (orig md l c k q) (end_of q l) (h q)) -> has_handler (end_of r l) = true ->
  got (h r) `prefix_of` sent (h (peer_role r)) ->
  exists ms, sent (h (peer_role r)) = got (h r) ++ ms /\ late r (end_of (peer_role r) l) ms.
Proof.
  intros Hend Hh [ms Hms]. exists ms. split; [exact Hms |].
  assert (Hin : forall q, h q <> [] -> exists t : task unit, in_session (orig md l c k q) (h q) t).
  { intros q Hne. destruct (Hend q) as [H _]. destruct (e_task (end_of q l)); [naive_solver | done]. }
  assert (Hg : length (got (h r)) = 2%nat).
  { pose proof (proj2 (Hend r) Hh) as Hs. destruct (Hin r) as [t Ht]; [| by eapply handler_got].
    intros E. destruct Hs as (? & ? & Hs). rewrite E in Hs. by apply elem_of_nil in Hs. }
  destruct (Hin (peer_role r)) as [t Ht].
  { intros E. rewrite E in Hms. by destruct (got (h r)). }
  assert (Hlen : length (sent (h (peer_role r))) = (2 + length ms)%nat) by (rewrite Hms, length_app; lia).
  destruct r; cbn [peer_role] in *.
  - left. destruct (session_sent _ _ _ (fun ms => length ms <= 2)%nat (accept_talks _ _) Ht) as (ms' & Hp%prefix_length & Hq).
    destruct ms; [done | cbn in Hlen; lia].
  - destruct (session_sent _ _ _ talk (connect_talks _ _ _) Ht) as (ms' & Hp & Hq).
    pose proof (prefix_length _ _ Hp) as Hp'. destruct ms as [|m [|m' ms]]; [by left | | destruct Hq as [Hq|[? ->]]; cbn in *; lia].
    destruct Hq as [Hq|[m0 ->]]; [cbn in *; lia |]. right. split; [done |]. split.
    + destruct (has_handler (end_of AsClient l)) eqn:Hc; [| done].
      pose proof (handler_sent_two _ _ _ _ _ _ Ht (proj2 (Hend AsClient) Hc)). cbn in *. lia.
    + rewrite Hms in Hp. destruct (got (h AsHost)) as [|a [|b [|]]]; try done. destruct Hp as [tl Hp]. cbn in Hp. by simplify_eq.
Qed.

(** ** One handler *)

Lemma delivered_part es h : handler_run es handler_init = Some h ->
  p_dst (h_network h) `sublist_of` p_given (h_network h) /\
  p_dst (h_application h) `sublist_of` p_given (h_application h).
Proof.
  intros Hr. pose proof (handler_ok_run _ _ _ handler_ok_init Hr) as Hok.
  split; [destruct (Hok FromNetwork) as [H _] | destruct (Hok FromApplication) as [H _]];
    (etrans; [| exact H]); by apply sublist_inserts_r.
Qed.

Lemma nothing_lost es h d : handler_run es handler_init = Some h -> rounds es = 0%nat -> lossless (pipe_of d h).
Proof. intros Hr Hz. eapply lossless_run; [| exact Hr | exact Hz]. by destruct d. Qed.

(** What an application has written to its end of the stream. *)
Definition gave (e : endpoint) : list byte :=
  match e_handler e with Some h => p_given (h_application h) | None => [] end.

(** C6.  The data of the applications.  Whatever two nodes do and whatever fails, at an end, where the handler
    runs, of a connection whose client has an id the protocol can carry ([PeerId_valid]: 40 bytes; those of
    [Node::init] have 64, the host's may be one of them): what was put into the stream of the application is part of what the application at the other end
    wrote into its own, in the same order, and nothing else, except that at the host's end it may be (part of)
    the failure message of a client that has left the handshake and runs no handler.  While no copy has
    finished on either side, what is missing is accounted for: behind what was lost with [Framed] when the
    handler started comes exactly what was delivered, what the handlers hold and what is on the way. *)
Theorem network_delivers cs w k l r hr :
  pairs_only Paired cs -> net_run cs (net_init md) = Some w -> nw_links w !! k = Some l ->
  PeerId_valid (me (node_at AsClient l)) = true -> e_handler (end_of r l) = Some hr ->
  let s := end_of (peer_role r) l in
  (p_dst (h_network hr) `sublist_of` gave s \/
   r = AsHost /\ has_handler s = false /\ p_dst (h_network hr) `sublist_of` late_failure) /\
  exists es, handler_run es handler_init = Some hr /\
    forall hs, e_handler s = Some hs ->
      exists es' lost, handler_run es' handler_init = Some hs /\
        (rounds es = 0%nat -> rounds es' = 0%nat ->
         lost ++ (p_dst (h_network hr) ++ p_buf (h_network hr) ++ p_src (h_network hr)) ++ e_wire (end_of r l) ++
           p_buf (h_application hs) ++ p_src (h_application hs) = p_given (h_application hs)).
Proof.
  intros Hp Hr Hk Hv Hhr s.
  destruct (net_run_ok _ _ _ _ _ _ _ Hp (both_reachable_init _ _) (net_ok_init _ _) Hr) as [[(Hl & _) _] _].
  destruct (Hl k l Hk) as (c & h & _ & Hend & Hch). specialize (Hch Hv).
  assert (Hh : has_handler (end_of r l) = true) by (unfold has_handler; by rewrite Hhr).
  assert (Hpp : peer_role (peer_role r) = r) by (by destruct r).
  pose proof (Hch (peer_role r)) as (Hg & Hran & lost & missing & _ & Hmis & E). rewrite Hpp in *. fold s in E.
  destruct (handler_got_all (tasks_of w) l c k h r Hend Hh Hg) as (ms & Hms & Hlate).
  rewrite Hms, wire_app, <- app_assoc in E. apply app_inv_head in E. unfold came in E. rewrite Hhr in E.
  destruct (Hran hr Hhr) as [es Hes]. pose proof (proj1 (delivered_part _ _ Hes)) as Hpart.
  assert (Hsub : p_dst (h_network hr) `sublist_of` wire ms ++ handed s).
  { etrans; [exact Hpart |]. rewrite E. apply sublist_inserts_l, sublist_inserts_l. by apply sublist_inserts_r. }
  split.
  - destruct Hlate as [->|(-> & Hno & ->)].
    + left. etrans; [exact Hsub |]. unfold handed, gave. destruct (e_handler s) as [hs|] eqn:Hs; [| done].
      destruct (proj1 (proj2 (Hch r)) hs Hs) as [es' Hes']. apply (delivered_part _ _ Hes').
    + right. fold s in Hno. split_and!; [done | done |]. rewrite (handed_none _ Hno), app_nil_r, wire_one in Hsub. exact Hsub.
  - exists es. split; [exact Hes |]. intros hs Hs. destruct (proj1 (proj2 (Hch r)) hs Hs) as [es' Hes'].
    assert (ms = []) as -> by (destruct Hlate as [?|(_ & Hno & _)]; [done | unfold has_handler in Hno; fold s in Hno; by rewrite Hs in Hno]).
    assert (missing = []) as ->.
    { assert (Hhs : has_handler s = true) by (unfold has_handler; by rewrite Hs).
      destruct (end_ok_facts _ _ _ _ _ _ _ _ (Hend (peer_role r)) Hhs) as (_ & _ & Hnf).
      destruct missing; [done | by destruct Hnf; apply Hmis]. }
    rewrite app_nil_r in E. exists es', (e_framed (end_of r l) ++ lost). split; [exact Hes' |]. intros Hz Hz'.
    pose proof (nothing_lost _ _ FromNetwork Hes Hz) as H1. pose proof (nothing_lost _ _ FromApplication Hes' Hz') as H2.
    unfold lossless in H1, H2. cbn [pipe_of] in H1, H2. unfold handed in E. rewrite Hs in E. cbn in E.
    rewrite H1, <- H2, E. by rewrite <- !app_assoc.
Qed.

(** ** The boundary between handshake and data *)

(** A task of a link steps. *)
Lemma sys_step_task n i ans w x t m h sp : tasks_of w n !! i = Some x ->
  task_step ans (t_prog x) (s_mgr (sys_of n w)) = Some (t, m, h, sp) -> accepted sp = [] ->
  exists w', sys_step md n (CTask i ans) w = Some w' /\ nw_links w' = nw_links w /\
    tasks_of w' n = <[i := mkTrec (t_hist x ++ h) t]> (tasks_of w n).
Proof.
  intros Hx Hs Ha. unfold sys_step. cbn. unfold tasks_of in Hx. rewrite Hx. cbn. rewrite Hs. cbn.
  eexists. split; [reflexivity |]. edestruct run_spawn_spec as (_ & _ & Et). rewrite Ha, app_nil_r in Et. unfold tasks_of.
  destruct n; (split; [reflexivity | exact Et]).
Qed.

(** What a task that waits in its handshake does after an answer is what the handshake may do. *)
Lemma waits_run Y (o : hs Y) h X (k : panicking Recv -> hs X) (kk : X -> task unit) r :
  in_session o h (THs (HNext k) kk) -> exists t q q', runs (k r) t q /\ runs o (h ++ ANext r :: t) q'.
Proof.
  intros [[Hr _]|[[] _]]. destruct (runs_exist (k r)) as (t & q & Hk). exists t, q.
  destruct (Hr (ANext r :: t) q) as [q' Hq]; [by constructor |]. by exists q'.
Qed.

Lemma runs_spawns X (p : hs X) id conn q : runs p [ASpawn id conn] q -> exists p', p = HSpawn id conn p'.
Proof. intros H. inversion H; subst. eauto. Qed.
Lemma runs_sends X (p : hs X) m r q : runs p [ASend m r] q -> exists k, p = HSend m k.
Proof. intros H. inversion H; subst. eauto. Qed.

(** What a client does that waits for the host's last message, and what is on the way to it when the host runs
    its handler. *)
Lemma last_wait_stream cs w k l i x X (kk : panicking Recv -> hs X) kt :
  pairs_only Paired cs -> net_run cs (net_init md) = Some w -> nw_links w !! k = Some l ->
  PeerId_valid (me (node_at AsClient l)) = true -> has_handler (l_host l) = true ->
  e_task (l_client l) = Some i -> tasks_of w (l_client_node l) !! i = Some x -> length (sent (t_hist x)) = 2%nat ->
  t_prog x = THs (HNext kk) kt ->
  e_handler (l_client l) = None /\
  e_framed (l_client l) ++ e_wire (l_client l) = Wire.connection CompleteResponse ++ handed (l_host l) /\
  (exists id p, kk (Got CompleteResponse) = HSpawn id (Z.of_nat k) p) /\
  (exists p, kk (Val TimedOut) = HSend (Failure TIMEOUT_ERR) p).
Proof.
  intros Hp Hr Hk Hv Hh Hi Hx Hsent Ht.
  destruct (net_run_ok _ _ _ _ _ _ _ Hp (both_reachable_init _ _) (net_ok_init _ _) Hr) as [[(Hl & _) _] _].
  destruct (Hl k l Hk) as (c & h & _ & Hend & Hch). specialize (Hch Hv AsHost). cbn [peer_role end_of] in Hch.
  assert (Hin : t_hist x = h AsClient /\ in_session (orig md l c k AsClient) (t_hist x) (THs (HNext kk) kt)).
  { destruct (Hend AsClient) as [H _]. cbn [end_of node_at] in H. rewrite Hi in H. destruct H as (t & H & Hs).
    unfold tasks_of in Hx, H. simplify_eq. cbn in Ht |- *. by subst. }
  destruct Hin as [Eh Hin].
  destruct (waits_run _ _ _ _ _ _ (Got CompleteResponse) Hin) as (t1 & q1 & q1' & R1 & R1').
  destruct (waits_run _ _ _ _ _ _ (Val TimedOut) Hin) as (t2 & q2 & q2' & R2 & R2').
  apply connect_last_got in R1' as (Hgot & id & ->); [| exact Hsent].
  apply connect_last_timeout in R2' as (_ & r & ->); [| exact Hsent].
  assert (Hno : has_handler (l_client l) = false).
  { destruct (has_handler (l_client l)) eqn:E; [| done]. pose proof (proj2 (Hend AsClient) E) as Hs. rewrite <- Eh in Hs.
    destruct (client_history md _ _ _ _ _ Hin Hs) as (now & code & _ & Et). by rewrite Et in Hgot. }
  split_and!; [| | by apply runs_spawns in R1 as [p ->]; eauto | by apply runs_sends in R2 as [p ->]; eauto].
  - unfold has_handler in Hno. by destruct (e_handler (l_client l)).
  - destruct Hch as ([ms Hms] & _ & lost & missing & Hlost & Hmis & E).
    assert (Hf : ~ send_failed (h AsHost)) by apply (end_ok_facts _ _ _ _ _ _ _ _ (Hend AsHost) Hh).
    assert (missing = []) as -> by (destruct missing; [done | by destruct Hf; apply Hmis]).
    rewrite (Hlost Hno), (came_none _ Hno), app_nil_r in E. cbn [app] in E.
    destruct (Hend AsHost) as [H Hsp]. specialize (Hsp Hh). cbn [end_of node_at] in H.
    destruct (e_task (l_host l)) as [j|]; [| rewrite H in Hsp; destruct Hsp as (? & ? & Hsp); by apply elem_of_nil in Hsp].
    destruct H as (t & _ & Hinh). destruct (host_history md _ _ _ _ _ Hinh Hsp) as (id' & c' & now & code & _ & Eth).
    assert (exists m, sent (h AsHost) = [m; CompleteResponse]) as [m Es] by (rewrite Eth; eexists; reflexivity).
    rewrite <- Eh in *. rewrite Es in Hms, E.
    destruct (got (t_hist x)) as [|m1 [|m2 ms']]; try done. cbn in Hms. injection Hms as <- _.
    rewrite wire_cons, !wire_one, <- app_assoc in E. by apply app_inv_head in E.
Qed.

Lemma task_at_client k w l i x : nw_links w !! k = Some l -> e_task (l_client l) = Some i ->
  tasks_of w (l_client_node l) !! i = Some x -> task_at k AsClient w = Some (l_client_node l, i, t_prog x).
Proof. intros Hk Hi Hx. unfold task_at. rewrite Hk. cbn. rewrite Hi. cbn. unfold tasks_of in Hx. by rewrite Hx. Qed.

Lemma put_end_lookup k r e w l : nw_links w !! k = Some l -> nw_links (put_end k r e w) !! k = Some (set_end r e l).
Proof. intros Hk. rewrite (put_end_links _ _ _ _ _ Hk). apply list_lookup_insert_eq. by eapply lookup_lt_Some. Qed.

Lemma run_step c cs w w' : net_exec c w = Some w' -> net_run (c :: cs) w = net_run cs w'.
Proof. intros E. cbn -[net_exec]. by rewrite E. Qed.

(** [Framed] of a client reads. *)
Lemma read_step k j w l : nw_links w !! k = Some l -> e_handler (l_client l) = None -> (j <= length (e_wire (l_client l)))%nat ->
  let c := l_client l in
  exists w', net_exec (NRead k AsClient j) w = Some w' /\ (forall n, sys_of n w' = sys_of n w) /\
    nw_links w' !! k = Some (set_end AsClient (mkEnd (e_task c) (drop j (e_wire c)) (e_framed c ++ take j (e_wire c)) None) l).
Proof.
  intros Hk Hno Hj c. cbn -[put_end]. rewrite (get_end_links _ _ _ _ Hk). cbn -[put_end]. rewrite decide_True by done. rewrite Hno.
  eexists. split; [reflexivity |]. split; [intros n; apply sys_of_put_end | exact (put_end_lookup k AsClient _ w l Hk)].
Qed.

(** It gives the handshake a message. *)
Lemma next_step k w l i x X (kk : panicking Recv -> hs X) kt m rest :
  nw_links w !! k = Some l -> e_task (l_client l) = Some i -> tasks_of w (l_client_node l) !! i = Some x ->
  t_prog x = THs (HNext kk) kt -> ConnectionCodec_decode (e_framed (l_client l)) = Val (Ok (Some m), rest) ->
  let c := l_client l in
  exists w', net_exec (NNext k AsClient) w = Some w' /\
    tasks_of w' (l_client_node l) !! i = Some (mkTrec (t_hist x ++ [ANext (Got m)]) (THs (kk (Got m)) kt)) /\
    nw_links w' !! k = Some (set_end AsClient (mkEnd (e_task c) (e_wire c) rest (e_handler c)) l).
Proof.
  intros Hk Hi Hx Ht Hd c. cbn -[put_end sys_step ConnectionCodec_decode]. rewrite (task_at_client _ _ _ _ _ Hk Hi Hx).
  cbn -[put_end sys_step ConnectionCodec_decode]. rewrite (get_end_links _ _ _ _ Hk). cbn -[put_end sys_step ConnectionCodec_decode].
  rewrite Ht, Hd. destruct (sys_step_task (l_client_node l) i (AnsNext (Got m)) w x (THs (kk (Got m)) kt) (s_mgr (sys_of (l_client_node l) w))
    [ANext (Got m)] [] Hx) as (w' & Es & El & Et); [by rewrite Ht | done |].
  rewrite Es. eexists. split; [reflexivity |]. split.
  - unfold tasks_of in *. rewrite sys_of_put_end, Et. apply list_lookup_insert_eq. by eapply lookup_lt_Some.
  - apply (put_end_lookup k AsClient). by rewrite El.
Qed.

(** It starts the handler. *)
Lemma spawn_step k w l i x X id (p : hs X) kt :
  nw_links w !! k = Some l -> e_task (l_client l) = Some i -> tasks_of w (l_client_node l) !! i = Some x ->
  t_prog x = THs (HSpawn id (Z.of_nat k) p) kt ->
  exists w', net_exec (NTask (l_client_node l) i AnsNone) w = Some w' /\
    nw_links w' !! k = Some (set_end AsClient (start_handler (l_client l)) l).
Proof.
  intros Hk Hi Hx Ht. cbn -[put_end sys_step]. pose proof Hx as Hx'. unfold tasks_of in Hx'. rewrite Hx'. cbn -[put_end sys_step].
  destruct (sys_step_task (l_client_node l) i AnsNone w x (THs p kt) (s_mgr (sys_of (l_client_node l) w))
    [ASpawn id (Z.of_nat k)] [SpHandler id (Z.of_nat k)] Hx) as (w' & Es & El & _); [by rewrite Ht | done |].
  rewrite Es. cbn -[put_end]. rewrite Ht. cbn -[put_end]. rewrite Nat2Z.id, El, Hk. cbn -[put_end].
  assert (role_of (l_client_node l) l = AsClient) as -> by exact (role_of_node AsClient l).
  eexists. split; [reflexivity |]. apply (put_end_lookup k AsClient). by rewrite El.
Qed.

(** A handshake that waits gets no message, and says so to the other end. *)
Lemma timeout_step k w l i x X (kk : panicking Recv -> hs X) kt :
  nw_links w !! k = Some l -> e_task (l_client l) = Some i -> tasks_of w (l_client_node l) !! i = Some x ->
  t_prog x = THs (HNext kk) kt ->
  exists w', net_exec (NTimeout k AsClient) w = Some w' /\ nw_links w' = nw_links w /\
    tasks_of w' (l_client_node l) !! i = Some (mkTrec (t_hist x ++ [ANext (Val TimedOut)]) (THs (kk (Val TimedOut)) kt)).
Proof.
  intros Hk Hi Hx Ht. cbn -[sys_step]. rewrite (task_at_client _ _ _ _ _ Hk Hi Hx). cbn -[sys_step]. rewrite Ht.
  destruct (sys_step_task (l_client_node l) i (AnsNext (Val TimedOut)) w x (THs (kk (Val TimedOut)) kt)
    (s_mgr (sys_of (l_client_node l) w)) [ANext (Val TimedOut)] [] Hx) as (w' & Es & El & Et); [by rewrite Ht | done |].
  exists w'. split_and!; [exact Es | exact El |]. rewrite Et. apply list_lookup_insert_eq. by eapply lookup_lt_Some.
Qed.

Lemma send_step k w l i x X m (kk : Result ParseError unit -> hs X) kt :
  nw_links w !! k = Some l -> e_task (l_client l) = Some i -> tasks_of w (l_client_node l) !! i = Some x ->
  t_prog x = THs (HSend m kk) kt -> Connection_wf m = true ->
  exists w', net_exec (NSend k AsClient) w = Some w' /\
    nw_links w' !! k = Some (set_end AsHost (arrive (Wire.connection m) (l_host l)) l).
Proof.
  intros Hk Hi Hx Ht Hm. cbn -[put_end sys_step ConnectionCodec_encode]. rewrite (task_at_client _ _ _ _ _ Hk Hi Hx).
  cbn -[put_end sys_step ConnectionCodec_encode]. rewrite Ht, (ConnectionCodec_encode_wire _ [] Hm). cbn [app].
  destruct (sys_step_task (l_client_node l) i (AnsSend (Ok tt)) w x (THs (kk (Ok tt)) kt)
    (s_mgr (sys_of (l_client_node l) w)) [ASend m (Ok tt)] [] Hx) as (w' & Es & El & _); [by rewrite Ht | done |].
  rewrite Es. cbn -[put_end]. rewrite (get_end_links _ _ _ l) by (by rewrite El). cbn -[put_end].
  eexists. split; [reflexivity |]. apply (put_end_lookup k AsHost). by rewrite El.
Qed.

(** C36.  The boundary between handshake and data is not kept, in either direction.  In whatever state two nodes
    come to in which a client (with an id of 40 bytes) still waits for the host's last message and the host
    runs its handler: what is read or unread at the client's end is this message, of six bytes, followed by the
    data the host's handler has written.  Whatever number of bytes the next read gives [Framed], if the
    message is complete then, the client can start its handler at once on a stream from which all the data
    that was read is missing.  And if the client's timeout fires instead, its failure message goes to
    the host's handler, as data of the peer. *)
Theorem stream_boundary cs w k l i x :
  pairs_only Paired cs -> net_run cs (net_init md) = Some w -> nw_links w !! k = Some l ->
  PeerId_valid (me (node_at AsClient l)) = true -> has_handler (l_host l) = true ->
  e_task (l_client l) = Some i -> tasks_of w (l_client_node l) !! i = Some x -> length (sent (t_hist x)) = 2%nat ->
  (exists X (kk : panicking Recv -> hs X) kt, t_prog x = THs (HNext kk) kt) ->
  let c := l_client l in let data := handed (l_host l) in
  e_framed c ++ e_wire c = Wire.connection CompleteResponse ++ data /\
  (forall j, (j <= length (e_wire c))%nat -> (6 <= length (e_framed c) + j)%nat ->
     exists w' l', net_run [NRead k AsClient j; NNext k AsClient; NTask (l_client_node l) i AnsNone] w = Some w' /\
       nw_links w' !! k = Some l' /\ e_handler (l_client l') = Some handler_init /\ e_framed (l_client l') = [] /\
       e_wire (l_client l') = drop (length (e_framed c) + j - 6) data) /\
  (exists w' l', net_run [NTimeout k AsClient; NSend k AsClient] w = Some w' /\ nw_links w' !! k = Some l' /\
     e_handler (l_host l') = e_handler (l_host l) /\ e_wire (l_host l') = e_wire (l_host l) ++ late_failure).
Proof.
  intros Hp Hr Hk Hv Hh Hi Hx Hsent (X & kk & kt & Ht) c data.
  destruct (last_wait_stream _ _ _ _ _ _ _ _ _ Hp Hr Hk Hv Hh Hi Hx Hsent Ht) as (Hno & E & (id & p & Hgot) & (p' & Hlate)).
  split; [exact E |]. split.
  - intros j Hj H6. destruct (read_step k j w l Hk Hno Hj) as (w1 & E1 & S1 & K1). cbn [set_end] in K1.
    assert (Hx1 : tasks_of w1 (l_client_node l) !! i = Some x) by (unfold tasks_of; by rewrite S1).
    assert (Hd : e_framed c ++ take j (e_wire c) = Wire.connection CompleteResponse ++ take (length (e_framed c) + j - 6) data).
    { rewrite <- (take_app_add (e_framed c) (e_wire c) j). fold c in E. rewrite E. rewrite take_app.
      change (length (Wire.connection CompleteResponse)) with 6%nat. rewrite take_ge; [done | cbn; lia]. }
    assert (Hw : drop j (e_wire c) = drop (length (e_framed c) + j - 6) data).
    { rewrite <- (drop_app_add (e_framed c) (e_wire c) j). fold c in E. rewrite E. rewrite drop_app.
      change (length (Wire.connection CompleteResponse)) with 6%nat. rewrite drop_ge; [done | cbn; lia]. }
    fold c in K1. rewrite Hd, Hw in K1.
    destruct (next_step k w1 _ i x X kk kt CompleteResponse (take (length (e_framed c) + j - 6) data) K1 Hi Hx1 Ht) as (w2 & E2 & T2 & K2);
      [exact (decode_wire (C := ConnectionCodec) CompleteResponse _ eq_refl) |]. cbn [l_client l_client_node e_task e_wire e_handler set_end] in T2, K2.
    rewrite Hgot in T2.
    destruct (spawn_step k w2 _ i _ X id p kt K2 Hi T2 eq_refl) as (w3 & E3 & K3). cbn [l_client_node] in E3.
    exists w3. eexists. split; [by rewrite (run_step _ _ _ _ E1), (run_step _ _ _ _ E2), (run_step _ _ _ _ E3) |]. split; [exact K3 |]. cbn. by rewrite into_inner_stream.
  - destruct (timeout_step k w l i x X kk kt Hk Hi Hx Ht) as (w1 & E1 & L1 & T1). rewrite Hlate in T1.
    rewrite <- L1 in Hk.
    destruct (send_step k w1 l i _ X (Failure TIMEOUT_ERR) p' kt Hk Hi T1 eq_refl eq_refl) as (w2 & E2 & K2).
    exists w2. eexists. split; [by rewrite (run_step _ _ _ _ E1), (run_step _ _ _ _ E2) |]. split; [exact K2 |]. done.
Qed.


End Delivery.

(** ** Witnesses *)

Module DeliveryWitnesses.

Import Sample Tokio_sketch.
#[local] Instance profile : Profile := true.

(** A host that writes as soon as it counts the client as connected, before the client has its last message. *)
Definition early_write : list script :=
  pairing NetworkWitnesses.test_auth ++ discovery ++ host_completes 30 44 ++ write_all AsHost (lit "PING").

Definition waits_for_last (w : network) : bool :=
  match nw_links w !! O with
  | Some l =>
      has_handler (l_host l) && bool_decide (handed (l_host l) = lit "PING") && bool_decide (e_framed (l_client l) = []) &&
      bool_decide (length (e_wire (l_client l)) = 10%nat) &&
      match e_task (l_client l) with
      | Some i =>
          match tasks_of w (l_client_node l) !! i with
          | Some x => bool_decide (length (sent (t_hist x)) = 2%nat) &&
                      match t_prog x with THs p _ => match p with HNext _ => true | _ => false end | _ => false end
          | None => false
          end
      | None => false
      end
  | None => false
  end.

Lemma early_write_waits : passes (early_write ++ [Assert waits_for_last]) = true.
Proof. vm_compute. reflexivity. Qed.

Lemma early_write_ok : pairs_only NetworkWitnesses.test_paired (steps early_write).
Proof. repeat (apply Forall_cons; split; [first [exact I | by split_and!] |]). constructor. Qed.

(** One read of ten bytes, and PING is gone. *)
Lemma stream_boundary_witness : exists w l i w' l',
  net_run metadata discovery_addr create_multicast_addr (steps early_write) (net_init metadata) = Some w /\
  nw_links w !! O = Some l /\ handed (l_host l) = lit "PING" /\
  net_run metadata discovery_addr create_multicast_addr
    [NRead 0 AsClient 10; NNext 0 AsClient; NTask (l_client_node l) i AnsNone] w = Some w' /\
  nw_links w' !! O = Some l' /\ e_handler (l_client l') = Some handler_init /\ e_wire (l_client l') = [].
Proof.
  destruct (passes_run _ _ early_write_waits) as (w & Hr & Hb). unfold waits_for_last in Hb.
  destruct (nw_links w !! O) as [l|] eqn:Hk; [| discriminate Hb].
  apply andb_true_iff in Hb as [Hb Ht]. apply andb_true_iff in Hb as [Hb Hw%bool_decide_eq_true].
  apply andb_true_iff in Hb as [Hb Hf%bool_decide_eq_true]. apply andb_true_iff in Hb as [Hh Hd%bool_decide_eq_true].
  destruct (e_task (l_client l)) as [i|] eqn:Hi; [| discriminate Ht].
  destruct (tasks_of w (l_client_node l) !! i) as [x|] eqn:Hx; [| discriminate Ht].
  apply andb_true_iff in Ht as [Hs%bool_decide_eq_true Ht].
  assert (Hp : exists X (kk : panicking Recv -> hs X) kt, t_prog x = THs (HNext kk) kt).
  { destruct (t_prog x) as [| | | | |X p kt| |]; try discriminate Ht. destruct p; try discriminate Ht. eexists _, _, _. reflexivity. }
  assert (Hid : PeerId_valid (me metadata (node_at AsClient l)) = true) by (destruct l as [[] ? ?]; reflexivity).
  destruct (stream_boundary metadata discovery_addr create_multicast_addr NetworkWitnesses.test_paired _ w 0 l i x
              early_write_ok Hr Hk Hid Hh Hi Hx Hs Hp) as (_ & Hread & _).
  rewrite Hw, Hf, Hd in Hread. destruct (Hread 10%nat ltac:(lia) ltac:(cbn; lia)) as (w' & l' & R & K & He & _ & Hwire).
  exists w, l, i, w', l'. exact (conj Hr (conj Hk (conj Hd (conj R (conj K (conj He Hwire)))))).
Defined.

(** The run of the integration test up to PING, and what its host's handler then holds. *)
Definition ping_run : list script := NetworkWitnesses.connected_run ++ transfer AsClient (lit "PING").

Definition ping_there (w : network) : bool :=
  match nw_links w !! O with
  | Some l => match e_handler (l_host l) with
              | Some h => bool_decide (p_dst (h_network h) = lit "PING")
              | None => false
              end
  | None => false
  end.

Lemma ping_run_delivers : passes (ping_run ++ [Assert ping_there]) = true.
Proof. vm_compute. reflexivity. Qed.

Lemma ping_run_ok : pairs_only NetworkWitnesses.test_paired (steps ping_run).
Proof. repeat (apply Forall_cons; split; [first [exact I | by split_and!] |]). constructor. Qed.

Lemma network_delivers_witness : exists w l hr,
  net_run metadata discovery_addr create_multicast_addr (steps ping_run) (net_init metadata) = Some w /\
  nw_links w !! O = Some l /\ e_handler (l_host l) = Some hr /\ p_dst (h_network hr) = lit "PING" /\
  (p_dst (h_network hr) `sublist_of` gave (l_client l) \/
   AsHost = AsHost /\ has_handler (l_client l) = false /\ p_dst (h_network hr) `sublist_of` late_failure).
Proof.
  destruct (passes_run _ _ ping_run_delivers) as (w & Hr & Hb). unfold ping_there in Hb.
  destruct (nw_links w !! O) as [l|] eqn:Hk; [| done]. destruct (e_handler (l_host l)) as [hr|] eqn:Hh; [| done].
  assert (Hid : PeerId_valid (me metadata (node_at AsClient l)) = true) by (destruct l as [[] ? ?]; reflexivity).
  pose proof (network_delivers metadata discovery_addr create_multicast_addr NetworkWitnesses.test_paired _ w 0 l AsHost hr
                ping_run_ok Hr Hk Hid Hh) as [H _].
  exists w, l, hr. split; [exact Hr |]. split; [exact Hk |]. split; [exact Hh |].
  split; [by apply bool_decide_eq_true in Hb | exact H].
Defined.

End DeliveryWitnesses.
