(* ===== verification/Core.v ===== *)
(** Configuration and secrets of the application core: core/src/conf.rs, secret.rs, plat.rs, err.rs.

    The crates [serde_json], [keyring] and [rcgen] are parameters (class [CoreLib], with the laws of
    [serde_json] in [CoreLaws]); the file system and the secret store are explicit state, and may
    fail at every call.  A call panics only where [Identity::new] unwraps an error of rcgen. *)

From Stdlib Require Import ZArith Lia.
From Stdlib Require Import Strings.Byte.
From stdpp Require Import base tactics numbers option list strings gmap.
From S2P Require Import Prelude RustStd SockAddr Errors Pairing Peer.

(** [HashSet<PeerMetadata>] as a finite set. *)
#[global] Program Instance DeviceType_countable : Countable DeviceType :=
  inj_countable DeviceType_into (fun n => res_ok (DeviceType_try_from n)) _.
Next Obligation. by intros []. Qed.

#[global] Program Instance PeerMetadata_countable : Countable PeerMetadata :=
  inj_countable' (fun m => (pm_name m, pm_typ m, pm_id m, pm_addr m))
    (fun '(n, t, i, a) => mkPeerMetadata n t i a) _.
Next Obligation. by intros []. Qed.

(** [keyring::error::Error]: the program only asks whether the entry is missing. *)
Inductive KeyringError : Type := NoEntry | OtherKeyringError (code : Z).

(** [struct NodeConfig]; [id] is not serialized. *)
Record NodeConfig := mkNodeConfig {
  nc_name : RString;
  nc_id : PeerId;
  nc_known_peers : gset PeerMetadata
}.

(** What the core calls in other crates: JSON for the identity and for the serialized fields of the
    configuration, certificates, the host's name, and the separator of paths. *)
Class CoreLib := {
  core_rcgen : RcgenLib;
  JsonError : Type;
  Identity_to_json : Identity -> Result JsonError RString;
  Identity_from_json : RString -> Result JsonError Identity;
  NodeConfig_to_json : RString * gset PeerMetadata -> Result JsonError RString;
  NodeConfig_from_json : list byte -> Result JsonError (RString * gset PeerMetadata);
  gethostname : option RString;
  MAIN_SEPARATOR : byte
}.

#[global] Existing Instance core_rcgen.

(** What the documentation of [serde_json] promises: a value that was written is read back, when the text forms
    of its parts keep them: that of an IPv6 address drops a flow label (SockAddr.v). *)
Class CoreLaws (K : CoreLib) : Prop := {
  identity_json : forall i s, Identity_to_json i = Ok s -> Identity_from_json s = Ok i;
  config_json : forall c s, (forall p, p ∈ snd c -> flowinfo_zero (pm_addr p) = true) ->
    NodeConfig_to_json c = Ok s -> NodeConfig_from_json (as_bytes s) = Ok c
}.

Definition ascii (s : string) (H : forallb is_ascii (bytes_of_string s) = true) : RString :=
  ascii_string (bytes_of_string s) H.

Definition SERVICE_NAME : RString := ascii "flydrop" eq_refl.
Definition IDENTITY : RString := ascii "Identity" eq_refl.
Definition TOTP_AUTH : RString := ascii "_Totp" eq_refl.
Definition NODE_CONFIG_NAME : RString := ascii "settings.json" eq_refl.

(** The build target, and plat.rs [device_type]. *)
Inductive Target : Type := Windows | Ios.
Definition device_type (t : Target) : DeviceType :=
  match t with Windows => WindowsLaptop | Ios => AppleiPhone end.

Section Core.
Context {C : CryptoLib} {K : CoreLib}.

(** [enum ConfError]. *)
Inductive ConfError : Type :=
| ConfIO (e : io_Error)
| ConfJson (e : JsonError)
| ConfSecret (e : KeyringError).

(** plat.rs [host_name]. *)
Definition host_name : RString :=
  match gethostname with Some n => n | None => ascii "my-flydrop" eq_refl end.

(** ** State *)

(** The world of the core: files by path, passwords by user (of the one service), the errors the
    two would report, and the source of randomness. *)
Record World := mkWorld {
  files : gmap (list byte) (list byte);
  passwords : gmap (list byte) RString;
  file_create_error : list byte -> option io_Error;
  file_open_error : list byte -> option io_Error;
  (** A write that fails, after some of the bytes. *)
  file_write_error : list byte -> option (nat * io_Error);
  (** Errors of the secret store other than a missing entry, by their code. *)
  entry_error : list byte -> option Z;
  get_error : list byte -> option Z;
  set_error : list byte -> option Z;
  fresh : Z
}.

Definition set_files (f : gmap (list byte) (list byte)) (w : World) : World :=
  mkWorld f (passwords w) (file_create_error w) (file_open_error w) (file_write_error w)
    (entry_error w) (get_error w) (set_error w) (fresh w).
Definition set_passwords (p : gmap (list byte) RString) (w : World) : World :=
  mkWorld (files w) p (file_create_error w) (file_open_error w) (file_write_error w)
    (entry_error w) (get_error w) (set_error w) (fresh w).
Definition set_fresh (n : Z) (w : World) : World :=
  mkWorld (files w) (passwords w) (file_create_error w) (file_open_error w) (file_write_error w)
    (entry_error w) (get_error w) (set_error w) n.

(** State, errors and panics. *)
Definition io (A : Type) : Type := World -> panicking (Result ConfError A * World).

#[global] Instance io_ret : MRet io := fun A a w => Val (Ok a, w).
#[global] Instance io_bind : MBind io := fun A B f m w =>
  match m w with Val (Ok a, w') => f a w' | Val (Err e, w') => Val (Err e, w') | Panic => Panic end.

Definition fail {A} (e : ConfError) : io A := fun w => Val (Err e, w).
Definition panic {A} : io A := fun _ => Panic.
Definition from_result {E A} (g : E -> ConfError) (r : Result E A) : io A := fun w => Val (map_err g r, w).

(** ** The secret store *)

(** [keyring::Entry::new], [get_password], [set_password], for the service [SERVICE_NAME]. *)
Definition Entry_new (user : RString) : io unit := fun w =>
  match entry_error w (as_bytes user) with Some e => Val (Err (ConfSecret (OtherKeyringError e)), w) | None => Val (Ok tt, w) end.

Definition lookup_password (user : RString) (w : World) : Result KeyringError RString :=
  match get_error w (as_bytes user) with
  | Some e => Err (OtherKeyringError e)
  | None => match passwords w !! as_bytes user with Some p => Ok p | None => Err NoEntry end
  end.

Definition get_password (user : RString) : io (Result KeyringError RString) := fun w =>
  Val (Ok (lookup_password user w), w).

Definition set_password (user pwd : RString) : io unit := fun w =>
  match set_error w (as_bytes user) with
  | Some e => Val (Err (ConfSecret (OtherKeyringError e)), w)
  | None => Val (Ok tt, set_passwords (<[as_bytes user := pwd]> (passwords w)) w)
  end.

(** A new identity, from the source of randomness. *)
Definition new_identity : io Identity := fun w =>
  match Identity_new (fresh w) (fresh w + 1) with
  | Val id => Val (Ok id, set_fresh (fresh w + 2) w)
  | Panic => Panic
  end.

(** secret.rs [get_identity]. *)
Definition get_identity : io Identity :=
  _ ← Entry_new IDENTITY;
  password ← get_password IDENTITY;
  match password with
  | Ok data => from_result ConfJson (Identity_from_json data)
  | Err NoEntry =>
      id ← new_identity;
      data ← from_result ConfJson (Identity_to_json id);
      _ ← set_password IDENTITY data;
      mret id
  | Err x => fail (ConfSecret x)
  end.

(** secret.rs [get_totp]. *)
Definition get_totp (peer : PeerId) : io RString :=
  let key := concat_str (PeerId_inner peer) TOTP_AUTH in
  _ ← Entry_new key;
  password ← get_password key;
  from_result ConfSecret password.

(** secret.rs [to_known], for the peers in the order of iteration; [if let Ok] drops the errors. *)
Fixpoint to_known (peers : list PeerMetadata) (w : World) : panicking (list PeerCandidate * World) :=
  match peers with
  | [] => Val ([], w)
  | peer :: peers' =>
      '(pwd, w) ← get_totp (pm_id peer) w;
      match pwd with
      | Ok pwd =>
          match PairingAuthenticator_new (as_bytes pwd) with
          | Ok auth => '(map, w) ← to_known peers' w; Val (PeerCandidate_new peer auth :: map, w)
          | Err _ => to_known peers' w
          end
      | Err _ => to_known peers' w
      end
  end.

(** ** The configuration file *)

(** [struct NodeConfigStore(String)]. *)
Record NodeConfigStore := mkNodeConfigStore { store_0 : RString }.

(** [impl From<String> for NodeConfigStore]. *)
Definition NodeConfigStore_from (value : RString) : NodeConfigStore := mkNodeConfigStore value.

(** [PathBuf::from(dir)] and [push] of a plain file name. *)
Definition config_path (s : NodeConfigStore) : list byte :=
  let dir := as_bytes (store_0 s) in
  match last dir with
  | None => as_bytes NODE_CONFIG_NAME
  | Some b =>
      if decide (b = MAIN_SEPARATOR) then dir ++ as_bytes NODE_CONFIG_NAME
      else dir ++ [MAIN_SEPARATOR] ++ as_bytes NODE_CONFIG_NAME
  end.

(** [fs::File::create]: an existing file is emptied. *)
Definition File_create (path : list byte) : io unit := fun w =>
  match file_create_error w path with
  | Some e => Val (Err (ConfIO e), w)
  | None => Val (Ok tt, set_files (<[path := []]> (files w)) w)
  end.

(** [write_all] to a file just created: what was written before an error stays. *)
Definition write_all (path data : list byte) : io unit := fun w =>
  match file_write_error w path with
  | Some (n, e) => Val (Err (ConfIO e), set_files (<[path := take n data]> (files w)) w)
  | None => Val (Ok tt, set_files (<[path := data]> (files w)) w)
  end.

(** [fs::File::open] and reading it. *)
Definition ENOENT : io_Error := mkIoError 2.
Definition File_read (path : list byte) : io (list byte) := fun w =>
  match file_open_error w path with
  | Some e => Val (Err (ConfIO e), w)
  | None => match files w !! path with Some d => Val (Ok d, w) | None => Val (Err (ConfIO ENOENT), w) end
  end.

(** [impl Default for NodeConfig]. *)
Definition NodeConfig_default : NodeConfig := mkNodeConfig host_name PeerId_default ∅.

(** [NodeConfigStore::set]. *)
Definition NodeConfigStore_set (s : NodeConfigStore) (conf : NodeConfig) : io unit :=
  if bool_decide (as_bytes (store_0 s) <> []) then
    let path := config_path s in
    _ ← File_create path;
    json ← from_result ConfJson (NodeConfig_to_json (nc_name conf, nc_known_peers conf));
    write_all path (as_bytes json)
  else mret tt.

(** [NodeConfigStore::from_disk]; the skipped field gets its default. *)
Definition from_disk (s : NodeConfigStore) : io NodeConfig :=
  data ← File_read (config_path s);
  c ← from_result ConfJson (NodeConfig_from_json data);
  mret (mkNodeConfig (fst c) PeerId_default (snd c)).

(** [or_else(|_| Ok(default))]. *)
Definition or_default (m : io NodeConfig) : io NodeConfig := fun w =>
  match m w with
  | Val (Ok c, w') => Val (Ok c, w')
  | Val (Err _, w') => Val (Ok NodeConfig_default, w')
  | Panic => Panic
  end.

(** [NodeConfigStore::get]. *)
Definition NodeConfigStore_get (s : NodeConfigStore) : io NodeConfig :=
  conf ← or_default (from_disk s);
  id ← get_identity;
  let '(cert, _) := Identity_into_rustls id in
  mret (mkNodeConfig (nc_name conf) (PeerId_from_cert cert) (nc_known_peers conf)).

End Core.
