(* ===== verification/CoreTheorems.v ===== *)
(** Properties of the configuration and the secrets of the core: the identity is created once and
    kept, what setting a configuration leaves and getting it makes of that, on every branch, the known
    peers are those with a usable secret, and the id the core computes for itself. *)

From Stdlib Require Import ZArith Lia.
From Stdlib Require Import Strings.Byte.
From stdpp Require Import base tactics numbers option list strings gmap.
From S2P Require Import Prelude RustStd SockAddr Errors Pairing Peer Proto Core Samples.

Section Facts.
Context {C : CryptoLib} {K : CoreLib}.

Lemma io_bind_Ok {A B} (m : io A) (f : A -> io B) w b w' :
  (m ≫= f) w = Val (Ok b, w') -> exists a w1, m w = Val (Ok a, w1) /\ f a w1 = Val (Ok b, w').
Proof. unfold mbind, io_bind. destruct (m w) as [[[a|e] w1]|] eqn:E; [eauto | done | done]. Qed.

Lemma io_bind_run {A B} (m : io A) (f : A -> io B) w a w1 : m w = Val (Ok a, w1) -> (m ≫= f) w = f a w1.
Proof. unfold mbind, io_bind. by intros ->. Qed.

Lemma from_result_Ok {E A} (g : E -> ConfError) (r : Result E A) w a w' :
  from_result g r w = Val (Ok a, w') -> r = Ok a /\ w' = w.
Proof. unfold from_result. destruct r; by intros [= <- <-]. Qed.

Lemma Entry_new_Ok user w x w' : Entry_new user w = Val (Ok x, w') -> entry_error w (as_bytes user) = None /\ w' = w.
Proof. unfold Entry_new. destruct (entry_error w _); by intros [= <- <-]. Qed.

Lemma set_password_Ok user pwd w x w' : set_password user pwd w = Val (Ok x, w') ->
  w' = set_passwords (<[as_bytes user := pwd]> (passwords w)) w.
Proof. unfold set_password. destruct (set_error w _); by intros [= <- <-]. Qed.

(** Reading an identity that is stored. *)
Lemma get_identity_stored w data id :
  entry_error w (as_bytes IDENTITY) = None -> lookup_password IDENTITY w = Ok data ->
  Identity_from_json data = Ok id -> get_identity w = Val (Ok id, w).
Proof.
  intros He Hp Hd. unfold get_identity, mbind, io_bind, Entry_new, get_password. rewrite He, Hp.
  unfold from_result. by rewrite Hd.
Qed.

Lemma new_identity_Ok w id w' : new_identity w = Val (Ok id, w') ->
  w' = set_fresh (fresh w + 2) w /\ Identity_new (fresh w) (fresh w + 1) = Val id.
Proof. unfold new_identity. destruct (Identity_new _ _); by intros [= <- <-]. Qed.

(** A successful [get_identity] gives the same identity ever after, and changes nothing any more. *)
Lemma get_identity_again {L : CoreLaws K} w id w1 : get_identity w = Val (Ok id, w1) -> get_identity w1 = Val (Ok id, w1).
Proof.
  unfold get_identity at 1. intros H. apply io_bind_Ok in H as ([] & w' & [He ->]%Entry_new_Ok & H).
  apply io_bind_Ok in H as (pw & w' & Hp & H).
  assert (pw = lookup_password IDENTITY w /\ w' = w) as [-> ->] by (unfold get_password in Hp; split; congruence).
  destruct (lookup_password IDENTITY w) as [data|[|e]] eqn:El; [| | done].
  - apply from_result_Ok in H as [Hd ->]. by eapply get_identity_stored.
  - apply io_bind_Ok in H as (id' & w2 & Hn & H). apply new_identity_Ok in Hn as (-> & _).
    apply io_bind_Ok in H as (data & w3 & [Hd ->]%from_result_Ok & H).
    apply io_bind_Ok in H as ([] & w4 & ->%set_password_Ok & H). injection H as <- <-.
    apply (get_identity_stored _ data); [done | | by apply identity_json].
    unfold lookup_password in El |- *. cbn -[IDENTITY]. destruct (get_error w (as_bytes IDENTITY)); [done |].
    by rewrite lookup_insert_eq.
Qed.

Lemma File_create_Ok path w x w' : File_create path w = Val (Ok x, w') ->
  file_create_error w path = None /\ w' = set_files (<[path := []]> (files w)) w.
Proof. unfold File_create. destruct (file_create_error w path); by intros [= <- <-]. Qed.

(** [get] after the file was read, or not. *)
Lemma get_from_disk s w c :
  from_disk s w = Val (c, w) ->
  NodeConfigStore_get s w =
    (id ← get_identity;
     let conf := match c with Ok conf => conf | Err _ => NodeConfig_default end in
     mret (mkNodeConfig (nc_name conf) (PeerId_from_cert (certificate id)) (nc_known_peers conf))) w.
Proof. intros H. unfold NodeConfigStore_get, mbind at 1, io_bind at 1, or_default. rewrite H. by destruct c. Qed.

Lemma from_disk_pure s w : exists c, from_disk s w = Val (c, w).
Proof.
  unfold from_disk, mbind, io_bind, File_read, from_result.
  destruct (file_open_error w _); [eauto |]. destruct (files w !! _) as [d|]; [| eauto].
  destruct (NodeConfig_from_json d); cbn; eauto.
Qed.

Lemma from_disk_file s w data c :
  file_open_error w (config_path s) = None -> files w !! config_path s = Some data ->
  NodeConfig_from_json data = c ->
  from_disk s w = Val (match c with Ok c => Ok (mkNodeConfig (fst c) PeerId_default (snd c)) | Err e => Err (ConfJson e) end, w).
Proof.
  intros Ho Hf <-. unfold from_disk, mbind, io_bind, File_read, from_result. rewrite Ho, Hf.
  by destruct (NodeConfig_from_json data).
Qed.

(** [get_identity] does not touch the files. *)
Lemma get_identity_files w r w' : get_identity w = Val (r, w') ->
  files w' = files w /\ file_open_error w' = file_open_error w.
Proof.
  unfold get_identity, mbind, io_bind, Entry_new, get_password, from_result, new_identity, set_password, fail.
  destruct (entry_error w _); [by intros [= <- <-] |]. destruct (lookup_password _ w) as [data|[|e]].
  - by intros [= <- <-].
  - destruct (Identity_new _ _) as [id|]; [| done]. destruct (Identity_to_json _); cbn; [| by intros [= <- <-]]. destruct (set_error w _); by intros [= <- <-].
  - by intros [= <- <-].
Qed.

Lemma from_disk_files s w w' c : files w' = files w -> file_open_error w' = file_open_error w ->
  from_disk s w = Val (c, w) -> from_disk s w' = Val (c, w').
Proof.
  intros Hf Ho. unfold from_disk, mbind, io_bind, File_read, from_result. rewrite Hf, Ho.
  destruct (file_open_error w _); [by intros [= <-] |]. destruct (files w !! _) as [d|]; [| by intros [= <-]].
  destruct (NodeConfig_from_json d); by intros [= <-].
Qed.

(** Reading the configuration panics exactly when there is no identity yet and none can be made. *)
Lemma get_panics_iff s w : NodeConfigStore_get s w = Panic <->
  entry_error w (as_bytes IDENTITY) = None /\ lookup_password IDENTITY w = Err NoEntry /\
  Identity_new (fresh w) (fresh w + 1) = Panic.
Proof.
  destruct (from_disk_pure s w) as [c Hc]. rewrite (get_from_disk _ _ _ Hc).
  unfold get_identity, mbind, io_bind, Entry_new, get_password, from_result, new_identity, set_password, fail.
  destruct (entry_error w _) as [e|]; [naive_solver |]. destruct (lookup_password _ w) as [data|[|e]].
  - destruct (Identity_from_json data); naive_solver.
  - destruct (Identity_new _ _) as [id|]; [| naive_solver]. destruct (Identity_to_json id); cbn; [| naive_solver].
    destruct (set_error w _); naive_solver.
  - naive_solver.
Qed.

(** The candidate for a known peer: a readable secret that makes an authenticator. *)
Definition known_candidate (w : World) (peer : PeerMetadata) : option PeerCandidate :=
  pwd ← match get_totp (pm_id peer) w with Val (Ok pwd, _) => Some pwd | _ => None end;
  auth ← res_ok (PairingAuthenticator_new (as_bytes pwd));
  Some (PeerCandidate_new peer auth).

Lemma get_totp_pure id w : exists r, get_totp id w = Val (r, w).
Proof.
  unfold get_totp, mbind, io_bind, Entry_new, get_password, from_result.
  destruct (entry_error w _); eauto.
Qed.

Lemma to_known_run peers w : to_known peers w = Val (omap (known_candidate w) peers, w).
Proof.
  induction peers as [|p peers IH]; [done |]. cbn. unfold known_candidate at 1.
  destruct (get_totp_pure (pm_id p) w) as [r Hr]. rewrite Hr. destruct r as [pwd|e]; cbn; [| exact IH].
  destruct (PairingAuthenticator_new (as_bytes pwd)) as [auth|e]; cbn; [| exact IH].
  by rewrite IH.
Qed.

End Facts.

Section Theorems.
Context {C : CryptoLib} {K : CoreLib} {LC : CryptoLaws C} {LK : CoreLaws K}.

(** C39.  The identity is stable: whenever reading the configuration succeeded once, reading it again
    gives the same configuration, with the same id, and changes nothing (a fresh identity is created
    and stored at most once). *)
Theorem config_get_idempotent s w c w1 :
  NodeConfigStore_get s w = Val (Ok c, w1) -> NodeConfigStore_get s w1 = Val (Ok c, w1).
Proof.
  intros H. destruct (from_disk_pure s w) as [d Hd]. rewrite (get_from_disk _ _ _ Hd) in H.
  apply io_bind_Ok in H as (id & w2 & Hid & H). injection H as <- <-.
  destruct (get_identity_files _ _ _ Hid) as [Hf Ho].
  rewrite (get_from_disk _ _ _ (from_disk_files _ _ _ _ Hf Ho Hd)). erewrite io_bind_run by (by eapply get_identity_again). done.
Qed.

(** What [get] makes of the configuration file, before it adds the id. *)
Definition read_back (w : World) (path : list byte) : RString * gset PeerMetadata :=
  match files w !! path with
  | Some data => match NodeConfig_from_json data with Ok c => c | Err _ => (host_name, ∅) end
  | None => (host_name, ∅)
  end.

Lemma get_reads s w id w2 : file_open_error w (config_path s) = None -> get_identity w = Val (Ok id, w2) ->
  NodeConfigStore_get s w = Val (Ok (mkNodeConfig (fst (read_back w (config_path s))) (PeerId_from_cert (certificate id))
                                       (snd (read_back w (config_path s)))), w2).
Proof.
  intros Ho Hid. destruct (from_disk_pure s w) as [c Hc]. rewrite (get_from_disk _ _ _ Hc), (io_bind_run _ _ _ _ _ Hid).
  unfold from_disk, mbind, io_bind, File_read, from_result in Hc. rewrite Ho in Hc. unfold read_back.
  destruct (files w !! _) as [d|]; [destruct (NodeConfig_from_json d) as [[n ps]|e]; cbn in Hc |]; injection Hc as <-; reflexivity.
Qed.

(** C23.  What [set] leaves and [get] makes of it.  Without a path nothing is written.  Otherwise only the
    configuration file changes: it holds the JSON of the configuration when [set] succeeds; when it fails, nothing
    has changed if the file could not be created, but else the old configuration is lost: the file is empty
    if there is no JSON, and holds the beginning of it if the writing failed.  In each case a [get] that
    follows gives the name and the peers that are the JSON in the file, or silently, when it cannot be
    opened or is none, the host's name and no peers; the id is never stored but computed from the identity. *)
Theorem config_set_then_get s conf w :
  let path := config_path s in
  (as_bytes (store_0 s) = [] -> NodeConfigStore_set s conf w = Val (Ok tt, w)) /\
  (as_bytes (store_0 s) <> [] ->
     exists r w1, NodeConfigStore_set s conf w = Val (r, w1) /\
       passwords w1 = passwords w /\ (forall p, p <> path -> files w1 !! p = files w !! p) /\
       (r = Ok tt /\ (exists json, NodeConfig_to_json (nc_name conf, nc_known_peers conf) = Ok json /\
                                  files w1 !! path = Some (as_bytes json)) \/
        (exists e, file_create_error w path = Some e /\ r = Err (ConfIO e) /\ w1 = w) \/
        (exists e, NodeConfig_to_json (nc_name conf, nc_known_peers conf) = Err e /\ r = Err (ConfJson e) /\
                   files w1 !! path = Some []) \/
        (exists json n e, NodeConfig_to_json (nc_name conf, nc_known_peers conf) = Ok json /\
           file_write_error w path = Some (n, e) /\ r = Err (ConfIO e) /\ files w1 !! path = Some (take n (as_bytes json)))) /\
       forall id w2, get_identity w1 = Val (Ok id, w2) ->
         exists c, NodeConfigStore_get s w1 = Val (Ok c, w2) /\ nc_id c = PeerId_from_cert (certificate id) /\
           (nc_name c, nc_known_peers c) =
             match file_open_error w path with Some _ => (host_name, ∅) | None => read_back w1 path end).
Proof.
  intros path. split; intros Hs.
  { unfold NodeConfigStore_set. by rewrite bool_decide_eq_false_2 by naive_solver. }
  assert (Hget : forall w1, file_open_error w1 = file_open_error w -> forall id w2, get_identity w1 = Val (Ok id, w2) ->
    exists c, NodeConfigStore_get s w1 = Val (Ok c, w2) /\ nc_id c = PeerId_from_cert (certificate id) /\
      (nc_name c, nc_known_peers c) = match file_open_error w path with Some _ => (host_name, ∅) | None => read_back w1 path end).
  { intros w1 E id w2 Hid. rewrite <- E. destruct (file_open_error w1 path) as [e|] eqn:Ho.
    - exists (mkNodeConfig host_name (PeerId_from_cert (certificate id)) ∅). erewrite get_from_disk by (unfold from_disk, mbind, io_bind, File_read; fold path; rewrite Ho; reflexivity).
      rewrite (io_bind_run _ _ _ _ _ Hid). split; [reflexivity |]. split; reflexivity.
    - eexists. rewrite (get_reads _ _ _ _ Ho Hid). split; [reflexivity |]. split; [reflexivity |]. fold path. by destruct (read_back w1 path). }
  assert (Hother : forall d p, p <> path -> <[path := d]> (files w) !! p = files w !! p).
  { intros d p Hp. by apply lookup_insert_ne. }
  unfold NodeConfigStore_set, mbind, io_bind, File_create, write_all, from_result. rewrite bool_decide_eq_true_2 by done. fold path.
  destruct (file_create_error w path) as [e|] eqn:Hc; cbn -[config_path];
    [eexists _, _; split_and!; [reflexivity | done | done | eauto 10 | by apply Hget] |].
  destruct (NodeConfig_to_json _) as [json|e] eqn:Hj; cbn -[config_path].
  2: { eexists _, _. split_and!; [reflexivity | done | intros p Hp; by apply Hother | | by apply Hget].
       right. right. left. exists e. cbn. by rewrite lookup_insert_eq. }
  destruct (file_write_error w path) as [[n e]|] eqn:Hw; rewrite insert_insert_eq;
    (eexists _, _; split_and!; [reflexivity | done | intros p Hp; by apply Hother | | by apply Hget]).
  - right. right. right. exists json, n, e. cbn. by rewrite lookup_insert_eq.
  - left. split; [done |]. exists json. cbn. by rewrite lookup_insert_eq.
Qed.

(** So a configuration that was set is read back, but for flow labels of IPv6 addresses. *)
Lemma get_after_set s conf w w1 id w2 :
  as_bytes (store_0 s) <> [] -> (forall p, p ∈ nc_known_peers conf -> flowinfo_zero (pm_addr p) = true) ->
  NodeConfigStore_set s conf w = Val (Ok tt, w1) ->
  file_open_error w (config_path s) = None -> get_identity w1 = Val (Ok id, w2) ->
  NodeConfigStore_get s w1 =
    Val (Ok (mkNodeConfig (nc_name conf) (PeerId_from_cert (certificate id)) (nc_known_peers conf)), w2).
Proof.
  intros Hne Hflow Hset Ho Hid. unfold NodeConfigStore_set in Hset. rewrite bool_decide_eq_true_2 in Hset by done.
  apply io_bind_Ok in Hset as ([] & wa & [_ ->]%File_create_Ok & Hset).
  apply io_bind_Ok in Hset as (json & wb & [Hj ->]%from_result_Ok & Hset).
  unfold write_all in Hset. destruct (file_write_error _ _) as [[n e]|] in Hset; [done |]. injection Hset as <-.
  rewrite (get_reads _ _ id w2) by done. unfold read_back. cbn -[config_path]. rewrite lookup_insert_eq.
  by rewrite (config_json (nc_name conf, nc_known_peers conf) _ Hflow Hj).
Qed.

(** A failed [set] can lose the configuration: the file is emptied before anything is written, so
    when writing stops at bytes that are not JSON, the next [get] silently gives the default name and
    no known peers, whatever was stored before. *)
Theorem failed_set_loses_config s conf w json n e :
  as_bytes (store_0 s) <> [] -> file_create_error w (config_path s) = None ->
  file_open_error w (config_path s) = None ->
  NodeConfig_to_json (nc_name conf, nc_known_peers conf) = Ok json ->
  file_write_error w (config_path s) = Some (n, e) ->
  res_ok (NodeConfig_from_json (take n (as_bytes json))) = None ->
  exists w1, NodeConfigStore_set s conf w = Val (Err (ConfIO e), w1) /\
    forall id w2, get_identity w1 = Val (Ok id, w2) ->
      NodeConfigStore_get s w1 = Val (Ok (mkNodeConfig host_name (PeerId_from_cert (certificate id)) ∅), w2).
Proof.
  intros Hne Hc Ho Hj Hw Hr. eexists. split.
  - unfold NodeConfigStore_set. rewrite bool_decide_eq_true_2 by done.
    erewrite io_bind_run by (unfold File_create; rewrite Hc; reflexivity).
    erewrite io_bind_run by (unfold from_result; rewrite Hj; reflexivity).
    unfold write_all. cbn -[config_path]. rewrite Hw. reflexivity.
  - intros id w2 Hid. erewrite get_from_disk.
    2: { apply (from_disk_file s _ (take n (as_bytes json))); [done | cbn; by rewrite lookup_insert_eq | reflexivity]. }
    rewrite (io_bind_run _ _ _ _ _ Hid). by destruct (NodeConfig_from_json _).
Qed.

(** An unset path is written to nowhere but read from somewhere: with an empty path [set] leaves
    the disk alone, while [get] reads settings.json of the current directory. *)
Theorem empty_path_asymmetric s conf w data name peers id w2 :
  as_bytes (store_0 s) = [] -> file_open_error w (as_bytes NODE_CONFIG_NAME) = None ->
  files w !! as_bytes NODE_CONFIG_NAME = Some data -> NodeConfig_from_json data = Ok (name, peers) ->
  get_identity w = Val (Ok id, w2) ->
  NodeConfigStore_set s conf w = Val (Ok tt, w) /\
  NodeConfigStore_get s w = Val (Ok (mkNodeConfig name (PeerId_from_cert (certificate id)) peers), w2).
Proof.
  intros Hs Ho Hf Hj Hid. assert (Hp : config_path s = as_bytes NODE_CONFIG_NAME) by (unfold config_path; by rewrite Hs).
  split.
  - unfold NodeConfigStore_set. by rewrite bool_decide_eq_false_2 by naive_solver.
  - erewrite get_from_disk by (apply (from_disk_file s _ data); rewrite ?Hp; [done | done | exact Hj]).
    by rewrite (io_bind_run _ _ _ _ _ Hid).
Qed.

(** The known peers handed to the manager: one candidate for each configured peer that has a
    readable secret that makes an authenticator, under its own id and with that secret; the others
    are left out, nothing fails and nothing is written. *)
Theorem to_known_spec peers w :
  exists l, to_known peers w = Val (l, w) /\
    forall c, c ∈ l <-> exists peer pwd auth, peer ∈ peers /\ get_totp (pm_id peer) w = Val (Ok pwd, w) /\
      PairingAuthenticator_new (as_bytes pwd) = Ok auth /\ c = PeerCandidate_new peer auth.
Proof.
  exists (omap (known_candidate w) peers). split; [apply to_known_run |]. intros c. rewrite list_elem_of_omap. split.
  - intros (peer & Hin & Hk). unfold known_candidate in Hk. destruct (get_totp_pure (pm_id peer) w) as [r Hr].
    rewrite Hr in Hk. destruct r as [pwd|e]; [| done]. cbn in Hk.
    destruct (PairingAuthenticator_new (as_bytes pwd)) as [auth|e] eqn:Ea; [| done]. cbn in Hk. simplify_eq. eauto 10.
  - intros (peer & pwd & auth & Hin & Hg & Ha & ->). exists peer. split; [done |].
    unfold known_candidate. rewrite Hg. cbn. by rewrite Ha.
Qed.

(** Each peer has its own entry of the secret store, and none of them is the identity's. *)
Theorem totp_entries_distinct a b :
  (concat_str (PeerId_inner a) TOTP_AUTH = concat_str (PeerId_inner b) TOTP_AUTH -> a = b) /\
  concat_str (PeerId_inner a) TOTP_AUTH <> IDENTITY.
Proof.
  split.
  - intros E. apply (f_equal as_bytes) in E. cbn [as_bytes concat_str] in E. apply app_inv_tail in E.
    destruct a as [sa], b as [sb]. cbn in E. f_equal. by apply RString_eq.
  - intros E. apply (f_equal (fun s => last (as_bytes s))) in E. revert E.
    cbn [as_bytes concat_str]. rewrite last_app. vm_compute. done.
Qed.

(** The core's own id does not fit the protocol: whatever the certificate, the id a node computes
    for itself has 64 characters, and [PeerId::from_string], which every receiver uses, refuses it. *)
Theorem node_id_not_accepted {U : UnicodeTables} s w c w1 :
  NodeConfigStore_get s w = Val (Ok c, w1) ->
  zlen (PeerId_bytes (nc_id c)) = 64 /\ PeerId_from_string (PeerId_inner (nc_id c)) = Err Length.
Proof.
  intros H. destruct (from_disk_pure s w) as [d Hd]. rewrite (get_from_disk _ _ _ Hd) in H.
  apply io_bind_Ok in H as (id & w2 & Hid & H). injection H as <- <-. cbn [nc_id].
  pose proof (PeerId_from_cert_length (certificate id)) as H64. split; [done |].
  unfold PeerId_from_string. unfold PeerId_bytes in H64. unfold str_len. rewrite H64. done.
Qed.

(** ** The test of conf.rs *)

Definition test_dir : RString := ascii "C:\Users\bryan\AppData\Local\Temp" eq_refl.
Definition override_name : RString := ascii "override name" eq_refl.

(** [std::fs::remove_file], whose result the test ignores. *)
Definition remove_file (path : list byte) : io unit := fun w => Val (Ok tt, set_files (delete path (files w)) w).

(** [get_set_conf], after [mock_store], which is the world it starts in: an error that [?] returns fails the
    test as [Err], an assertion as [Panic]; the file is removed at the end. *)
Definition get_set_conf : io unit :=
  let store := mkNodeConfigStore test_dir in
  conf ← NodeConfigStore_get store;
  if decide (PeerId_default = nc_id conf) then panic
  else
    let conf := mkNodeConfig override_name (nc_id conf) (nc_known_peers conf) in
    _ ← NodeConfigStore_set store conf;
    conf ← NodeConfigStore_get store;
    if decide (override_name = nc_name conf) then
      _ ← remove_file (config_path store);
      mret tt
    else panic.

(** The test passes whenever its calls succeed and no known peer has a flow label: whatever the directory held before, and although each
    [Entry::new] of a mocked store may give a fresh entry. *)
Lemma get_set_conf_passes w c w1 w2 id w3 :
  NodeConfigStore_get (mkNodeConfigStore test_dir) w = Val (Ok c, w1) ->
  NodeConfigStore_set (mkNodeConfigStore test_dir) (mkNodeConfig override_name (nc_id c) (nc_known_peers c)) w1 = Val (Ok tt, w2) ->
  file_open_error w1 (config_path (mkNodeConfigStore test_dir)) = None -> get_identity w2 = Val (Ok id, w3) ->
  (forall p, p ∈ nc_known_peers c -> flowinfo_zero (pm_addr p) = true) ->
  exists w4, get_set_conf w = Val (Ok tt, w4).
Proof.
  intros Hg Hs Ho Hid Hflow. eexists. unfold get_set_conf. rewrite (io_bind_run _ _ _ _ _ Hg).
  assert (H64 : zlen (PeerId_bytes (nc_id c)) = 64).
  { destruct (from_disk_pure (mkNodeConfigStore test_dir) w) as [d Hd]. rewrite (get_from_disk _ _ _ Hd) in Hg.
    apply io_bind_Ok in Hg as (id0 & w0 & _ & H). injection H as <- _. apply PeerId_from_cert_length. }
  rewrite decide_False by (intros E; rewrite <- E in H64; assert (zlen (PeerId_bytes PeerId_default) = 40) by reflexivity; lia).
  assert (Hne : as_bytes (store_0 (mkNodeConfigStore test_dir)) <> []) by discriminate.
  rewrite (io_bind_run _ _ _ _ _ Hs).
  rewrite (io_bind_run _ _ _ _ _ (get_after_set _ (mkNodeConfig override_name (nc_id c) (nc_known_peers c)) _ _ _ _ Hne Hflow Hs Ho Hid)).
  cbn [nc_name]. rewrite decide_True by done. reflexivity.
Qed.

End Theorems.

(** ** The theorems on a concrete core *)

Module CoreSample.
Import Sample.

Definition identity : Identity := mkIdentity [x30; x82] [x01].

Lemma quoted_ascii : forallb is_ascii [x22] = true.
Proof. reflexivity. Qed.

(** One identity, and configurations without peers, have a text: a quote and the name. *)
Definition config_text (name : RString) : RString := concat_str (ascii_string [x22] quoted_ascii) name.

#[export] Instance toy_rcgen : RcgenLib := {|
  Certificate := unit; RcgenError := unit;
  Certificate_from_params := fun _ _ => Ok tt;
  serialize_der := fun _ _ => Ok (certificate identity);
  serialize_private_key_der := fun _ => private_key identity
|}.

#[export] Instance toy_core : CoreLib := {|
  JsonError := unit;
  Identity_to_json := fun i => if decide (certificate i = certificate identity /\ private_key i = private_key identity)
                               then Ok IDENTITY else Err tt;
  Identity_from_json := fun s => if decide (s = IDENTITY) then Ok identity else Err tt;
  NodeConfig_to_json := fun c => if decide (snd c = ∅) then Ok (config_text (fst c)) else Err tt;
  NodeConfig_from_json := fun d => match d with
    | x22 :: d' => match from_utf8 d' with Some n => Ok (n, ∅) | None => Err tt end
    | _ => Err tt end;
  core_rcgen := toy_rcgen;
  gethostname := None;
  MAIN_SEPARATOR := x2f
|}.

#[export] Instance toy_core_laws : CoreLaws toy_core.
Proof.
  split.
  - intros [c k] s. cbn. case_decide as H; [| done]. intros [= <-]. rewrite decide_True by done.
    cbn in H. destruct H as [-> ->]. done.
  - intros [n ps] s _. cbn -[config_text]. case_decide; [| done]. intros [= <-]. cbn. subst.
    by rewrite from_utf8_as_bytes.
Qed.

Definition quiet {A B} (_ : A) : option B := None.
(** Nothing stored, nothing fails. *)
Definition blank : World := mkWorld ∅ ∅ quiet quiet quiet quiet quiet quiet 0.
(** Writing fails at once. *)
Definition full : World := mkWorld ∅ ∅ quiet quiet (fun _ => Some (0%nat, mkIoError 28)) quiet quiet quiet 0.
(** A settings.json in the current directory. *)
Definition cwd : World :=
  mkWorld {[as_bytes NODE_CONFIG_NAME := as_bytes (config_text (pm_name phone))]} ∅ quiet quiet quiet quiet quiet quiet 0.

Definition store : NodeConfigStore := mkNodeConfigStore (pm_name phone).
Definition unset : NodeConfigStore := mkNodeConfigStore (ascii_string [] eq_refl).
Definition conf : NodeConfig := mkNodeConfig (pm_name laptop) PeerId_default ∅.

Lemma identity_of w : entry_error w = quiet -> get_error w = quiet -> set_error w = quiet -> passwords w = ∅ ->
  exists w2, get_identity w = Val (Ok identity, w2).
Proof.
  intros He Hg Hs Hp. eexists. unfold get_identity, mbind, io_bind, Entry_new, get_password, lookup_password.
  rewrite He. unfold quiet at 1. rewrite Hg, Hp. unfold quiet at 1. rewrite lookup_empty.
  unfold set_password. cbn -[IDENTITY]. rewrite Hs. reflexivity.
Qed.

Lemma config_get_idempotent_witness :
  exists c w1, NodeConfigStore_get store blank = Val (Ok c, w1) /\ NodeConfigStore_get store w1 = Val (Ok c, w1).
Proof.
  destruct (identity_of blank eq_refl eq_refl eq_refl eq_refl) as [w2 Hid].
  assert (H : exists c w1, NodeConfigStore_get store blank = Val (Ok c, w1)).
  { destruct (from_disk_pure store blank) as [d Hd]. rewrite (get_from_disk _ _ _ Hd), (io_bind_run _ _ _ _ _ Hid). unfold mret, io_ret. eauto. }
  destruct H as (c & w1 & H). exists c, w1. split; [exact H |]. exact (config_get_idempotent store blank c w1 H).
Defined.

Lemma conf_json : NodeConfig_to_json (nc_name conf, nc_known_peers conf) = Ok (config_text (nc_name conf)).
Proof. cbn -[config_text decide]. by rewrite decide_True. Qed.

Lemma set_blank : exists w1 w2, NodeConfigStore_set store conf blank = Val (Ok tt, w1) /\ get_identity w1 = Val (Ok identity, w2).
Proof.
  unfold NodeConfigStore_set. rewrite bool_decide_eq_true_2 by discriminate. unfold mbind, io_bind, from_result.
  cbn -[NodeConfig_to_json config_path conf]. rewrite conf_json. cbn -[config_path conf]. eexists.
  edestruct identity_of as [w2 Hid]; [| | | | exists w2; split; [reflexivity | exact Hid]]; reflexivity.
Qed.

Lemma config_set_then_get_witness :
  exists w1 w2, NodeConfigStore_set store conf blank = Val (Ok tt, w1) /\
    NodeConfigStore_get store w1 = Val (Ok (mkNodeConfig (nc_name conf) (PeerId_from_cert (certificate identity)) ∅), w2).
Proof.
  destruct set_blank as (w1 & w2 & Hs & Hid). exists w1, w2. split; [exact Hs |].
  destruct (config_set_then_get store conf blank) as [_ H].
  destruct (H ltac:(discriminate)) as (r & w1' & Hs' & _ & _ & Hf & Hg).
  rewrite Hs in Hs'. injection Hs' as <- <-. destruct (Hg identity w2 Hid) as ([n i ps] & Hc & Ei & E).
  rewrite Hc. cbn [nc_id nc_name nc_known_peers] in Ei, E. change (file_open_error blank (config_path store)) with (@None io_Error) in E. destruct Hf as [[_ (json & Hj & Hf)]|[(e & _ & He & _)|[(e & _ & He & _)|(? & ? & e & _ & _ & He & _)]]]; try discriminate.
  unfold read_back in E. rewrite Hf, (config_json (nc_name conf, nc_known_peers conf) _ ltac:(by intros ? ?%elem_of_empty) Hj) in E.
  injection E as -> ->. by rewrite Ei.
Defined.

Lemma failed_set_loses_config_witness :
  exists w1, NodeConfigStore_set store conf full = Val (Err (ConfIO (mkIoError 28)), w1) /\
    forall id w2, get_identity w1 = Val (Ok id, w2) ->
      NodeConfigStore_get store w1 = Val (Ok (mkNodeConfig host_name (PeerId_from_cert (certificate id)) ∅), w2).
Proof.
  apply (failed_set_loses_config store conf full (config_text (nc_name conf)) 0 (mkIoError 28));
    [discriminate | reflexivity | reflexivity | apply conf_json | reflexivity | reflexivity].
Defined.

Lemma empty_path_asymmetric_witness :
  exists w2, NodeConfigStore_set unset conf cwd = Val (Ok tt, cwd) /\
    NodeConfigStore_get unset cwd = Val (Ok (mkNodeConfig (pm_name phone) (PeerId_from_cert (certificate identity)) ∅), w2).
Proof.
  destruct (identity_of cwd eq_refl eq_refl eq_refl eq_refl) as [w2 Hid]. exists w2.
  apply (empty_path_asymmetric unset conf cwd (as_bytes (config_text (pm_name phone))) (pm_name phone) ∅ identity w2);
    [reflexivity | reflexivity | apply lookup_singleton_eq | | exact Hid].
  apply config_json; [by intros ? ?%elem_of_empty |]. cbn -[config_text decide]. by rewrite decide_True.
Defined.

Lemma node_id_not_accepted_witness :
  exists c w1, NodeConfigStore_get store blank = Val (Ok c, w1) /\
    zlen (PeerId_bytes (nc_id c)) = 64 /\ PeerId_from_string (PeerId_inner (nc_id c)) = Err Length.
Proof.
  destruct (identity_of blank eq_refl eq_refl eq_refl eq_refl) as [w2 Hid].
  assert (H : exists c w1, NodeConfigStore_get store blank = Val (Ok c, w1)).
  { destruct (from_disk_pure store blank) as [d Hd]. rewrite (get_from_disk _ _ _ Hd), (io_bind_run _ _ _ _ _ Hid). unfold mret, io_ret. eauto. }
  destruct H as (c & w1 & H). exists c, w1. split; [exact H |]. exact (node_id_not_accepted store blank c w1 H).
Defined.

End CoreSample.
