(* ===== verification/Node.v ===== *)
(** The application core: core/src/lan.rs and node.rs.

    [Node::init] puts the parts together: configuration and identity (Core.v), the local addresses,
    the manager (Discovery.v) and the known peers, which are added by a task that runs among those the
    manager has already spawned; [start_round] is a step of the loop of [Node::start].
    The interface watcher [if_watch] is a parameter ([WatchLib]).  What becomes of the messages of a
    controller is Controller.v. *)

From Stdlib Require Import ZArith Lia.
From Stdlib Require Import Strings.Byte.
From stdpp Require Import base tactics numbers option list strings gmap.
From S2P Require Import Prelude RustStd SockAddr Errors Pairing Peer Proto Handshake Manager System Discovery Core.

(** [LanManager::new]: the IPv4 addresses of the interfaces, without the loopback address. *)
Definition lan_ips (interfaces : list IpAddr) : gset Ipv4Addr :=
  foldl (fun lan addr =>
    match addr with
    | IpV4 ip => if decide (ip <> Ipv4Addr_LOCALHOST) then {[ip]} ∪ lan else lan
    | IpV6 _ => lan
    end) ∅ interfaces.

(** What the node uses of [if_watch]: the addresses a watcher has found, and its stream of events; [None] is
    no event yet. *)
Class WatchLib := {
  IfWatcher : Type;
  IfEvent : Type;
  IfWatcher_iter : IfWatcher -> list IpAddr;
  IfWatcher_select_next : IfWatcher -> option (Result io_Error IfEvent * IfWatcher)
}.

Section Lan.
Context {W : WatchLib}.

(** [struct LanManager]. *)
Record LanManager := mkLanManager { lan : gset Ipv4Addr; watch : IfWatcher }.

(** [LanManager::new], for what [IfWatcher::new] gives. *)
Definition LanManager_new (new_watcher : Result io_Error IfWatcher) : Result io_Error LanManager :=
  watch ← new_watcher;
  mret (mkLanManager (lan_ips (IfWatcher_iter watch)) watch).

(** [LanManager::next]: an event of the watcher; the set of addresses stays. *)
Definition LanManager_next (l : LanManager) : option (Result io_Error IfEvent * LanManager) :=
  '(ev, w) ← IfWatcher_select_next (watch l);
  Some (ev, mkLanManager (lan l) w).

End Lan.

Section Node.
Context {C : CryptoLib} {K : CoreLib} {W : WatchLib}.

(** [enum CoreError]. *)
Inductive CoreError : Type :=
| CoreConf (e : ConfError)
| CoreIO (e : io_Error)
| NoNetworkAccess
| CoreP2p (e : InitError).

(** [enum AppCmd], [AppQuery], [CoreResponse]. *)
Inductive AppCmd : Type := SetName (name : RString) | Discover (span : Z).
Inductive AppQuery : Type := GetConf.
Inductive CoreResponse : Type := CoreOk | CoreConfResponse (c : NodeConfig).

(** [enum CoreEvent]. *)
Inductive CoreEvent : Type := Discovered.

(** [enum InternalEvent {}] of node.rs. *)
Inductive NodeInternalEvent : Type := .

(** [struct ReturnableMessage]: the data and the oneshot channel for the reply, by its number. *)
Record ReturnableMessage (D : Type) := mkReturnableMessage { msg_data : D; tx_return : nat }.
#[global] Arguments mkReturnableMessage {D} msg_data tx_return.
#[global] Arguments msg_data {D} r.
#[global] Arguments tx_return {D} r.

(** [struct Node].  [node_p2p] includes the channel of [p2p_events]. *)
Record Node := mkNode {
  node_conf : NodeConfig;
  node_store : NodeConfigStore;
  node_p2p : P2pManager;
  node_lan : LanManager;
  node_query : channel (ReturnableMessage AppQuery);
  node_cmd : channel (ReturnableMessage AppCmd);
  node_internal : channel NodeInternalEvent;
  node_events : channel CoreEvent
}.

(** The environment of [Node::init]. *)
Record Host := mkHost {
  host_os : Os;
  host_target : Target;
  host_interfaces : Result io_Error IfWatcher;
  (** The iteration orders of the two sets. *)
  host_ip_order : gset Ipv4Addr -> list Ipv4Addr;
  host_peer_order : gset PeerMetadata -> list PeerMetadata
}.

(** [for p in to_known(..) { p2p.add_known_peer(p) }]. *)
Fixpoint add_known_peers (l : list PeerCandidate) : task unit :=
  match l with
  | [] => mret tt
  | p :: l' => _ ← add_known_peer p; add_known_peers l'
  end.

(** The configuration of the manager; the address is the first of the local ones, the port is left
    to the system. *)
Definition p2p_config (target : Target) (conf : NodeConfig) (ip : Ipv4Addr) : P2pConfig := {|
  cfg_id := nc_id conf;
  cfg_device := device_type target;
  cfg_name := nc_name conf;
  cfg_multicast := V4 DISCOVERY_MULTICAST 50692;
  cfg_p2p_addr := V4 ip 0
|}.

(** [Node::init], up to the first access to a manager that other tasks share: [P2pManager::new] has spawned
    the event loop.  The second result is what is left of it, adding the known peers, which runs in turns with
    the other tasks (Startup.v); the secrets it needs are read here. *)
Definition Node_init (h : Host) (dir : RString) (w : World) : panicking (Result CoreError (Node * task unit) * World) :=
  let store := NodeConfigStore_from dir in
  match NodeConfigStore_get store w with
  | Panic => Panic
  | Val (Err e, w) => Val (Err (CoreConf e), w)
  | Val (Ok conf, w) =>
      match LanManager_new (host_interfaces h) with
      | Err e => Val (Err (CoreIO e), w)
      | Ok lanm =>
          match head (host_ip_order h (lan lanm)) with
          | None => Val (Err NoNetworkAccess, w)
          | Some ip =>
              match P2pManager_new (host_os h) (p2p_config (host_target h) conf ip) with
              | Panic => Panic
              | Val (Err e) => Val (Err (CoreP2p e), w)
              | Val (Ok (p2p, _, _)) =>
                  '(known, w) ← to_known (host_peer_order h (nc_known_peers conf)) w;
                  Val (Ok (mkNode conf store p2p lanm channel_unbounded channel_unbounded channel_unbounded
                             (channel_bounded 64), add_known_peers known), w)
              end
          end
      end
  end.

(** The node on the network at that moment: the manager, the event loop, and [init] as the first task. *)
Definition node_system (n : Node) (rest : task unit) : system := spawn_task rest (mkSystem (node_p2p n) LoopIdle [] []).

(** The task that [Discover(span)] spawns: a request each second. *)
Fixpoint discover_task (span : nat) : task unit :=
  match span with
  | O => mret tt
  | S n => _ ← request_presence; discover_task n
  end.

(** [handle_command]: the response and the task spawned; [SetName] is [todo!()]. *)
Definition handle_command (cmd : AppCmd) : panicking (Result CoreError CoreResponse * option (task unit)) :=
  match cmd with
  | Discover span => Val (Ok CoreOk, Some (discover_task (Z.to_nat span)))
  | SetName _ => Panic
  end.

(** [handle_query] is [todo!()]. *)
Definition handle_query (q : AppQuery) : panicking (Result CoreError CoreResponse) := Panic.

(** [handle_event] is [todo!()]. *)
Definition handle_event (e : NodeInternalEvent) : panicking unit := Panic.

(** What the [select!] of [start] takes up. *)
Inductive NodeEvent : Type := NQuery | NCmd | NInternal | NLan.

(** The node in the [select!] of [start], and whether the branch of [lan] is still enabled in this round: a
    value that does not match the pattern [Ok(n)] disables it until another branch has been taken.  The
    patterns [Some(_)] of the channels always match, the node itself holds a sender of each. *)
Record Select := mkSelect { sel_node : Node; sel_lan : bool }.

Definition set_query (ch : channel (ReturnableMessage AppQuery)) (n : Node) : Node :=
  mkNode (node_conf n) (node_store n) (node_p2p n) (node_lan n) ch (node_cmd n) (node_internal n) (node_events n).
Definition set_cmd (ch : channel (ReturnableMessage AppCmd)) (n : Node) : Node :=
  mkNode (node_conf n) (node_store n) (node_p2p n) (node_lan n) (node_query n) ch (node_internal n) (node_events n).
Definition set_internal (ch : channel NodeInternalEvent) (n : Node) : Node :=
  mkNode (node_conf n) (node_store n) (node_p2p n) (node_lan n) (node_query n) (node_cmd n) ch (node_events n).
Definition set_lan (l : LanManager) (n : Node) : Node :=
  mkNode (node_conf n) (node_store n) (node_p2p n) l (node_query n) (node_cmd n) (node_internal n) (node_events n).

(** What a step of the loop leaves: the next state, the reply sent, the task spawned. *)
Definition round_result : Type := Select * option (nat * Result CoreError CoreResponse) * option (task unit).

(** One step of the loop of [start]; [None] when the branch is not ready. *)
Definition start_round (ev : NodeEvent) (s : Select) : option (panicking round_result) :=
  let n := sel_node s in
  match ev with
  | NQuery =>
      match chan_recv (node_query n) with
      | Some (Some q, ch) =>
          Some (res ← handle_query (msg_data q);
                mret (mkSelect (set_query ch n) true, Some (tx_return q, res), None))
      | _ => None
      end
  | NCmd =>
      match chan_recv (node_cmd n) with
      | Some (Some c, ch) =>
          Some ('(res, spawned) ← handle_command (msg_data c);
                mret (mkSelect (set_cmd ch n) true, Some (tx_return c, res), spawned))
      | _ => None
      end
  | NInternal =>
      match chan_recv (node_internal n) with
      | Some (Some e, ch) =>
          Some (_ ← handle_event e; mret (mkSelect (set_internal ch n) true, None, None))
      | _ => None
      end
  | NLan =>
      if sel_lan s then
        '(ev, l) ← LanManager_next (node_lan n);
        Some (Val (mkSelect (set_lan l n) (match ev with Ok _ => true | Err _ => false end), None, None))
      else None
  end.

(** [struct CoreController]: the senders of the node's two channels, as the channels they send to. *)
Record CoreController := mkCoreController {
  query_tx : channel (ReturnableMessage AppQuery);
  command_tx : channel (ReturnableMessage AppCmd)
}.

Definition controller (n : Node) : CoreController := mkCoreController (node_query n) (node_cmd n).
Definition set_controller (c : CoreController) (n : Node) : Node := set_cmd (command_tx c) (set_query (query_tx c) n).

(** [CoreController::query] and [command], up to the wait: the message goes to the node's channel, for
    reply number [tx]; whether the channel took it (otherwise it is dropped, and the reply's sender with it). *)
Definition CoreController_query (tx : nat) (query : AppQuery) (self : CoreController) : bool * CoreController :=
  match chan_send (mkReturnableMessage query tx) (query_tx self) with
  | Some (Ok _, ch) => (true, mkCoreController ch (command_tx self))
  | _ => (false, self)
  end.

Definition CoreController_command (tx : nat) (cmd : AppCmd) (self : CoreController) : bool * CoreController :=
  match chan_send (mkReturnableMessage cmd tx) (command_tx self) with
  | Some (Ok _, ch) => (true, mkCoreController (query_tx self) ch)
  | _ => (false, self)
  end.

(** [rx.await.unwrap()]: a reply, or a panic when the sender was dropped. *)
Definition await_reply {A} (reply : option A) : panicking A := unwrap_opt reply.

End Node.
