(* ===== verification/NodeTheorems.v ===== *)
(** Properties of the application core: what [Node::init] builds, with its end alone or among other tasks,
    how it fails, and what the id it gives itself does to the nodes around it: its presence panics them, and
    as a client it is refused. *)

From Stdlib Require Import ZArith Lia.
From Stdlib Require Import Strings.Byte.
From stdpp Require Import base tactics numbers option list strings gmap.
From S2P Require Import Prelude RustStd SockAddr Errors Pairing Peer Proto ProtoFacts ProtoTheorems Handshake Agreement.
From S2P Require Import Manager System SystemTheorems Interference Discovery Core CoreTheorems Node Samples.

Section Facts.
Context {C : CryptoLib} {K : CoreLib} {W : WatchLib}.

Lemma elem_of_lan_ips ip l : ip ∈ lan_ips l <-> IpV4 ip ∈ l /\ ip <> Ipv4Addr_LOCALHOST.
Proof.
  unfold lan_ips.
  assert (H : forall s : gset Ipv4Addr, ip ∈ foldl (fun lan addr => match addr with
    | IpV4 ip => if decide (ip <> Ipv4Addr_LOCALHOST) then {[ip]} ∪ lan else lan | IpV6 _ => lan end) s l <->
    ip ∈ s \/ (IpV4 ip ∈ l /\ ip <> Ipv4Addr_LOCALHOST)).
  { induction l as [|[ip'|ip'] l IH]; intros s; cbn; [set_solver | |].
    - rewrite IH, elem_of_cons. case_decide; [rewrite elem_of_union, elem_of_singleton; naive_solver | naive_solver].
    - rewrite IH, elem_of_cons. naive_solver. }
  rewrite H. set_solver.
Qed.

(** Registering candidates: each under its own id, a later one in place of an earlier one. *)
Definition register (l : list PeerCandidate) (k : gmap PeerId PeerCandidate) : gmap PeerId PeerCandidate :=
  foldl (fun k c => <[pc_id c := c]> k) k l.

Lemma exec_add_known_peers w l : forall m, exec w (add_known_peers l) m = Some (Val tt, [], set_known (register l) m).
Proof.
  induction l as [|c l IH]; intros m; cbn; [by destruct m |]. apply IH.
Qed.

Lemma register_Some l : forall k id c, register l k !! id = Some c -> (c ∈ l /\ pc_id c = id) \/ k !! id = Some c.
Proof.
  unfold register. induction l as [|c l IH]; intros k id c' H; cbn in H; [by right |].
  apply IH in H as [[Hin Hid]|H]; [left; split; [by constructor | done] |].
  apply lookup_insert_Some in H as [[<- <-]|[_ H]]; [left; split; [constructor | done] | by right].
Qed.

Lemma register_is_Some l c : forall k, c ∈ l \/ is_Some (k !! pc_id c) -> is_Some (register l k !! pc_id c).
Proof.
  unfold register. induction l as [|c' l IH]; intros k H; cbn; [destruct H as [H|H]; [by apply elem_of_nil in H | done] |].
  apply IH. rewrite elem_of_cons in H. destruct H as [[->|H]|H]; [right; by rewrite lookup_insert_eq | by left |].
  right. destruct (decide (pc_id c = pc_id c')) as [->|Hne]; [by rewrite lookup_insert_eq | by rewrite lookup_insert_ne].
Qed.

(** A request for each second of the span. *)
Lemma exec_discover w cap : forall n m,
  ch_receiver (discovery_channel m) = true -> ch_capacity (discovery_channel m) = Some cap ->
  (length (ch_queue (discovery_channel m)) + n <= cap)%nat ->
  exec w (discover_task n) m = Some (Val tt, [], set_discovery_channel
    (mkChannel (ch_queue (discovery_channel m) ++ replicate n PresenceRequest) (Some cap) true
       (ch_senders (discovery_channel m))) m).
Proof.
  induction n as [|n IH]; intros m Hr Hc Hl.
  - cbn. rewrite app_nil_r. destruct m as [? ? ? ? ? [q c r s] ? ?]. cbn in *. by subst.
  - cbn -[Nat.ltb]. unfold chan_send, has_room. rewrite Hr, Hc, (proj2 (Nat.ltb_lt _ _)) by lia. cbn.
    unfold mret, task_ret in *. rewrite IH; cbn; [| done | done | rewrite length_app; cbn; lia].
    by rewrite <- app_assoc.
Qed.

End Facts.

Section Theorems.
Context {C : CryptoLib} {K : CoreLib} {W : WatchLib} {LC : CryptoLaws C} {LK : CoreLaws K}.

(** The known peers of a configuration that become candidates. *)
Definition known_of (h : Host) (conf : NodeConfig) (w : World) : list PeerCandidate :=
  omap (known_candidate w) (host_peer_order h (nc_known_peers conf)).

(** What a successful [Node::init] went through. *)
Lemma Node_init_Ok h dir w node rest w' :
  Node_init h dir w = Val (Ok (node, rest), w') ->
  exists conf w1 watcher ip p2p d l,
    NodeConfigStore_get (NodeConfigStore_from dir) w = Val (Ok conf, w1) /\
    host_interfaces h = Ok watcher /\ head (host_ip_order h (lan_ips (IfWatcher_iter watcher))) = Some ip /\
    P2pManager_new (host_os h) (p2p_config (host_target h) conf ip) = Val (Ok (p2p, d, l)) /\
    w' = w1 /\ rest = add_known_peers (known_of h conf w1) /\
    node = mkNode conf (NodeConfigStore_from dir) p2p
      (mkLanManager (lan_ips (IfWatcher_iter watcher)) watcher) channel_unbounded channel_unbounded channel_unbounded (channel_bounded 64).
Proof.
  unfold Node_init, LanManager_new. destruct (NodeConfigStore_get _ w) as [[[conf|e] w1]|]; [| done | done].
  destruct (host_interfaces h) as [watcher|e] eqn:Ei; cbn -[P2pManager_new]; [| done].
  destruct (head _) as [ip|] eqn:Eh; [| done].
  destruct (P2pManager_new _ _) as [[[[p2p d] l]|e]|] eqn:Ep; try done.
  rewrite to_known_run. intros [= <- <- <-].
  by exists conf, w1, watcher, ip, p2p, d, l.
Qed.

(** The id of a configuration is that of a certificate. *)
Lemma config_id_cert s w conf w1 : NodeConfigStore_get s w = Val (Ok conf, w1) -> exists cert, nc_id conf = PeerId_from_cert cert.
Proof.
  destruct (from_disk_pure s w) as [r Hr]. rewrite (get_from_disk _ _ _ Hr). intros Hc.
  apply io_bind_Ok in Hc as (id & w2 & _ & Hc). injection Hc as <- <-. eauto.
Qed.

(** The manager a successful start gives. *)
Lemma P2pManager_new_Ok os config p2p d l : P2pManager_new os config = Val (Ok (p2p, d, l)) ->
  exists addr, os_local_addr os l = Ok addr /\
    p2p = manager_init (mkPeerMetadata (cfg_name config) (cfg_device config) (cfg_id config) addr).
Proof.
  unfold P2pManager_new. destruct (multicast _ _ _) as [r|]; [| done]. cbn -[mbind]. intros [= H]. res_inv.
  injection H as <- <- <-. eauto.
Qed.

(** ** The rest of [init] among the other tasks *)

(** No application has the manager yet. *)
Definition no_pairing (c : command) : Prop := match c with CAddKnown _ => False | _ => True end.

(** The pairings of a list of candidates. *)
Definition pairing_of (known : list PeerCandidate) (id : PeerId) (a : PairingAuthenticator) : Prop :=
  exists c, c ∈ known /\ pc_id c = id /\ pc_auth c = a.

Lemma harmless_add_known_peers me Paired l : (forall c, c ∈ l -> cand_ok Paired (pc_id c) c) ->
  harmless me Paired (add_known_peers l).
Proof.
  induction l as [|c l IH]; intros Hl; [done |]. cbn. split.
  - intros _. apply Hl. by left.
  - intros _. apply IH. intros c' Hc. apply Hl. by right.
Qed.

Lemma calm_add_known_peers l : calm (add_known_peers l).
Proof. by induction l. Qed.

Lemma known_of_metadata h conf w c : c ∈ known_of h conf w -> pm_id (pc_metadata c) = pc_id c.
Proof.
  unfold known_of. intros (peer & _ & Hc)%list_elem_of_omap. unfold known_candidate in Hc.
  destruct (get_totp _ w) as [[[pwd|e] w1]|]; cbn in Hc; try done.
  destruct (PairingAuthenticator_new _); cbn in Hc; by simplify_eq.
Qed.

(** While [init] adds candidates, other tasks step; what it has added stays known. *)
Lemma adding_run me cs : forall l s got ever s' h, node_ok (view_of got ever s) s ->
  s_tasks s !! O = Some (mkTrec [] (add_known_peers l)) -> sys_run me cs s = Some s' ->
  s_tasks s' !! O = Some (mkTrec h (TRet tt)) ->
  exists got' ever', node_ok (view_of got' ever' s') s' /\ ever ⊆ ever' /\ forall c, c ∈ l -> pc_id c ∈ ever'.
Proof.
  induction cs as [|c cs IH]; intros l s got ever s' h Hn Ht Hr Hd; cbn in Hr.
  - simplify_eq. exists got, ever. split_and!; [done | done |]. intros c Hc. destruct l; [by apply elem_of_nil in Hc | done].
  - destruct (sys_exec me c s) as [s1|] eqn:He; cbn in Hr; [| done].
    destruct (node_ok_step me c s s1 got ever Hn He) as (ever1 & Hn1 & [_ Hg]). cbn in Hg.
    assert (Hc : (forall ans, c <> CTask 0 ans) \/ exists ans, c = CTask 0 ans).
    { destruct c; try (by left). destruct i; [right; eauto | by left]. }
    destruct Hc as [Hc|[ans ->]].
    + destruct (IH l s1 _ ever1 s' h Hn1 (other_task _ _ _ _ _ _ He Hc Ht) Hr Hd) as (got' & ever' & H1 & H2 & H3).
      exists got', ever'. split_and!; [done | set_solver | done].
    + cbn in He. rewrite Ht in He. cbn in He. destruct l as [|c l]; [done |]. cbn in He. simplify_eq.
      destruct (IH l _ _ ever1 s' h Hn1 (list_lookup_insert_eq _ _ _ (lookup_lt_Some _ _ _ Ht)) Hr Hd) as (got' & ever' & H1 & H2 & H3).
      exists got', ever'. split_and!; [done | set_solver |]. intros c' [->|Hc']%elem_of_cons; [| by apply H3].
      apply H2. destruct Hn1 as (_ & Hk & _). apply Hk. unfold known_ids. cbn. rewrite dom_insert_L. set_solver.
Qed.

(** C24.  Starting a node panics exactly when it has no identity yet and rcgen fails to make one; and a node that
    started has the id of its configuration, listens on a local address that is not the loopback one, and has
    discovered and connected nobody.  What is left of [init] then makes known the peers of the configuration
    with a usable secret: when nothing else runs, exactly their candidates, each under its own id; and whatever
    the event loop and the other tasks do meanwhile and afterwards, between two rounds of the loop exactly
    their ids, each with the authenticator of its secret. *)
Theorem node_init_spec h dir w :
  (forall l, host_ip_order h l ≡ₚ elements l) ->
  (Node_init h dir w = Panic <-> entry_error w (as_bytes IDENTITY) = None /\
     lookup_password IDENTITY w = Err NoEntry /\ Identity_new (fresh w) (fresh w + 1) = Panic) /\
  forall node rest w', Node_init h dir w = Val (Ok (node, rest), w') ->
    exists w1, NodeConfigStore_get (NodeConfigStore_from dir) w = Val (Ok (node_conf node), w1) /\
      mgr_id (node_p2p node) = nc_id (node_conf node) /\ pm_id (mgr_metadata (node_p2p node)) = nc_id (node_conf node) /\
      lan (node_lan node) <> ∅ /\ (Ipv4Addr_LOCALHOST ∉ lan (node_lan node)) /\
      discovered_peers (node_p2p node) = ∅ /\ connected_peers (node_p2p node) = ∅ /\
      exists known, to_known (host_peer_order h (nc_known_peers (node_conf node))) w1 = Val (known, w1) /\
      (forall env, exists m, exec env rest (node_p2p node) = Some (Val tt, [], m) /\
         discovered_peers m = ∅ /\ connected_peers m = ∅ /\
         (forall c, c ∈ known -> is_Some (known_peers m !! pc_id c)) /\
         (forall id c, known_peers m !! id = Some c -> c ∈ known /\ pc_id c = id)) /\
      (forall cs s hist, Forall no_pairing cs -> sys_run (mgr_id (node_p2p node)) cs (node_system node rest) = Some s ->
         s_tasks s !! O = Some (mkTrec hist (TRet tt)) -> s_loop s = LoopIdle ->
         (forall c, c ∈ known -> is_Some (known_peers (s_mgr s) !! pc_id c)) /\
         (forall id c, known_peers (s_mgr s) !! id = Some c -> pc_id c = id /\ pairing_of known id (pc_auth c))).
Proof.
  intros Ho. split.
  - rewrite <- (get_panics_iff (NodeConfigStore_from dir)). unfold Node_init.
    destruct (NodeConfigStore_get _ w) as [[[conf|e] w1]|]; [| done | done]. split; [| done].
    destruct (LanManager_new _) as [lanm|e]; [| done]. destruct (head _) as [ip|]; [| done].
    assert (Hp : P2pManager_new (host_os h) (p2p_config (host_target h) conf ip) <> Panic) by done.
    destruct (P2pManager_new _ _) as [[[[p2p d] l]|e]|]; try done.
    by rewrite to_known_run.
  - intros node rest w' H. apply Node_init_Ok in H as (conf & w1 & ifs & ip & p2p & d & l & Hc & Hi & Hh & Hp & -> & -> & ->).
    apply P2pManager_new_Ok in Hp as (addr & _ & ->). exists w1. cbn -[exec sys_run node_system].
    set (ips := lan_ips (IfWatcher_iter ifs)) in *. set (known := known_of h conf w1). assert (Hin : ip ∈ ips).
    { apply elem_of_elements. rewrite <- (Ho ips). destruct (host_ip_order h ips); simplify_eq/=. constructor. }
    split_and!; try done.
    + intros E. rewrite E in Hin. by apply not_elem_of_empty in Hin.
    + unfold ips. rewrite elem_of_lan_ips. by intros [_ []].
    + exists known. split_and!; [apply to_known_run | |].
      * intros env. rewrite exec_add_known_peers. eexists. split_and!; [reflexivity | done | done | |].
        -- intros c Hk. apply register_is_Some. by left.
        -- intros id c Hk. apply register_Some in Hk as [[? ?]|Hk]; [done |]. cbn in Hk. by rewrite lookup_empty in Hk.
      * intros cs s hist Hcs Hr Hd El.
        assert (Hall : forall c, c ∈ known -> cand_ok (pairing_of known) (pc_id c) c).
        { intros c Hk. split_and!; [done | by eapply known_of_metadata | by exists c]. }
        set (md := mkPeerMetadata _ _ _ _) in *. split.
        -- destruct (adding_run _ cs known (spawn_task (add_known_peers known) (system_init md)) [] ∅ s hist (node_ok_spawn _ _ _ (calm_add_known_peers known) (node_ok_init md)) eq_refl Hr Hd)
             as (got & ever & (_ & _ & _ & Hl) & _ & Hk).
           rewrite El in Hl. intros c Hc'. apply elem_of_dom. by apply Hl, Hk.
        -- intros id c Hk. assert (Hinv : auth_inv (nc_id conf) (pairing_of known) s).
           { eapply inv_run; [| | exact Hr]; [apply (inv_spawn _ _ _ (system_init md)); [apply inv_init | by apply harmless_add_known_peers] |].
             eapply Forall_impl; [exact Hcs |]. by intros []. }
           destruct (inv_known _ _ _ _ _ Hinv Hk) as (E1 & _ & E2). by split.
Qed.

(** The id of a certificate: forty characters that pass for an id, and twenty-four more. *)
Lemma cert_id_parts {U : UnicodeTables} cert : exists short more,
  PeerId_bytes (PeerId_from_cert cert) = PeerId_bytes short ++ more /\ length more = 24%nat /\ PeerId_valid short = true.
Proof.
  pose proof (digest_SHA256_length cert) as Hl. set (d := digest_SHA256 cert) in *.
  assert (Ht : length (take 20 d) = 20%nat) by (rewrite length_take; lia).
  set (s := ascii_string _ (hex02_ascii (take 20 d))). exists (mkPeerId s), (concat (hex02 <$> drop 20 d)). split_and!.
  - change (PeerId_bytes (PeerId_from_cert cert)) with (concat (hex02 <$> d)).
    change (PeerId_bytes (mkPeerId s)) with (concat (hex02 <$> take 20 d)). by rewrite <- concat_app, <- fmap_app, take_drop.
  - rewrite length_hex, length_drop. lia.
  - pose proof (hex_is_peer_id (take 20 d) s Ht eq_refl) as H. unfold PeerId_from_string in H. unfold PeerId_valid. cbn [PeerId_0].
    destruct (str_len s =? 40); [| done]. by destruct (forallb _ _).
Qed.

(** C27.  A node cannot connect to anybody as the client.  The id of a started node has 24 characters more than
    the forty of the protocol, its request is sent all the same, and the host finds another id and another
    tag in it.  So whatever code the two share, under every schedule the host refuses: with 2002 when it has no
    candidate under those forty characters, and with 2003 when it has one, unless the tag it computes happens
    to be those 24 characters followed by the first eight bytes of the node's tag. *)
Theorem node_client_refused {U : UnicodeTables} {P : Profile} h dir w node rest w' :
  Node_init h dir w = Val (Ok (node, rest), w') ->
  let me := mgr_id (node_p2p node) in
  exists short more, PeerId_bytes me = PeerId_bytes short ++ more /\ length more = 24%nat /\ PeerId_valid short = true /\
    forall me_h conn_c conn_h clock_c clock_h lookup_c lookup_h host code,
      PairingAuthenticator_generate (pc_auth host) clock_c = Ok code ->
      let tag := hmac_sign (as_bytes code) (PeerId_bytes me) in
      let start := handshake_start me me_h conn_c conn_h host in
      let refused code e := fun s => s = (mkParty (HRet (Err (HsFailure code))) [] [],
                                          mkParty (HRet (Err e)) (drop 32 (more ++ tag)) []) in
      (lookup_h short = None ->
         inevitable (xstep clock_c clock_h lookup_c lookup_h) (refused NOT_FOUND_ERR HsNotFound) 6 start) /\
      (forall client code_h, lookup_h short = Some client ->
         PairingAuthenticator_generate (pc_auth client) clock_h = Ok code_h ->
         take 32 (more ++ tag) <> hmac_sign (as_bytes code_h) (PeerId_bytes (pc_id client)) ->
         inevitable (xstep clock_c clock_h lookup_c lookup_h) (refused AUTH_ERR HsAuth) 7 start).
Proof.
  intros H me. apply Node_init_Ok in H as (conf & w1 & ifs & ip & p2p & d & l & Hc & _ & _ & Hp & _ & _ & E).
  apply P2pManager_new_Ok in Hp as (addr & _ & ->). subst node. destruct (config_id_cert _ _ _ _ Hc) as [cert Hid].
  assert (Em : me = PeerId_from_cert cert) by exact Hid. clearbody me. subst me.
  destruct (cert_id_parts cert) as (short & more & Hb & Hl & Hv). exists short, more. split_and!; [done | done | done |].
  intros me_h conn_c conn_h clock_c clock_h lookup_c lookup_h host code Hg tag start refused. split.
  - by apply (handshake_refuses_long_id _ me_h conn_c conn_h clock_c clock_h lookup_c lookup_h host host short more).
  - intros client code_h. by apply (handshake_refuses_long_id _ me_h conn_c conn_h clock_c clock_h lookup_c lookup_h host client short more).
Qed.

(** C26.  A node's presence takes discovery down around it: whatever its certificate, the response of a
    started node to a presence request is encoded without complaint, and every node that receives it
    (itself included) loses its discovery task to a panic in the decoder. *)
Theorem node_presence_panics_receivers {U : UnicodeTables} {P : Profile} h dir w node rest w' :
  Node_init h dir w = Val (Ok (node, rest), w') ->
  SocketAddr_wf (pm_addr (mgr_metadata (node_p2p node))) = true -> str_len (nc_name (node_conf node)) <= 60000 ->
  exists bytes, DiscoveryCodec_encode (PresenceResponse (mgr_metadata (node_p2p node))) [] = Val (Ok tt, bytes) /\
    DiscoveryCodec_decode bytes = Panic /\
    forall local addr d, discovery_body local addr (Network (r ← DiscoveryCodec_decode bytes;
      mret (match fst r with Ok (Some e) => Some (Ok (e, addr)) | Ok None => None | Err e => Some (Err e) end))) d = Some Panic.
Proof.
  intros H Hwf Hn. apply Node_init_Ok in H as (conf & w1 & ifs & ip & p2p & d & l & Hc & Hi & Hh & Hp & -> & -> & ->).
  apply P2pManager_new_Ok in Hp as (addr & _ & ->). cbn in Hwf, Hn |- *.
  destruct (config_id_cert _ _ _ _ Hc) as [cert Hid].
  destruct (cert_id_presence (mkPeerMetadata (nc_name conf) (device_type (host_target h)) (nc_id conf) addr) cert)
    as (bytes & He & Hd); [done | done | done |].
  exists bytes. split_and!; [exact He | exact Hd |]. intros local a0 d0. by rewrite Hd.
Qed.

End Theorems.

(** ** The theorems on a concrete node *)

Module NodeWitnesses.
Import Sample CoreSample.

#[local] Instance profile : Profile := false.

Definition lan_ip : Ipv4Addr := mkIpv4 xc0 xa8 x00 x02.

(** A watcher that found one interface beside the loopback one, and to which nothing happens. *)
#[export] Instance quiet_watch : WatchLib := {|
  IfWatcher := unit; IfEvent := unit;
  IfWatcher_iter := fun _ => [IpV4 Ipv4Addr_LOCALHOST; IpV4 lan_ip];
  IfWatcher_select_next := fun _ => None
|}.

(** A host on which everything works. *)
Definition host : Host :=
  mkHost (mkOs (Ok 3) (fun _ => Ok tt) (fun _ _ => Ok tt) (fun _ => Ok tt) (fun _ _ _ => Ok tt) (fun _ => Ok tt) Ok
            (fun _ => Ok 4) (fun _ => Ok (V4 lan_ip 50001)))
    Windows (Ok tt) elements elements.

Lemma host_first_ip : head (host_ip_order host (lan_ips [IpV4 Ipv4Addr_LOCALHOST; IpV4 lan_ip])) = Some lan_ip.
Proof. vm_compute. reflexivity. Qed.

Lemma host_starts : exists node rest w', Node_init host (pm_name phone) blank = Val (Ok (node, rest), w') /\
  pm_addr (mgr_metadata (node_p2p node)) = V4 lan_ip 50001 /\ nc_name (node_conf node) = host_name.
Proof.
  destruct (identity_of blank eq_refl eq_refl eq_refl eq_refl) as [w2 Hid].
  assert (Hd : from_disk (NodeConfigStore_from (pm_name phone)) blank = Val (Err (ConfIO ENOENT), blank)) by reflexivity.
  unfold Node_init. rewrite (get_from_disk _ _ _ Hd), (io_bind_run _ _ _ _ _ Hid).
  unfold LanManager_new, mbind, result_bind. cbn [host_interfaces host mret io_ret result_ret].
  cbn [IfWatcher_iter quiet_watch lan]. rewrite host_first_ip. cbn -[to_known exec]. rewrite to_known_run.
  by do 3 eexists.
Qed.

Lemma node_init_spec_witness :
  exists node rest w' w1, Node_init host (pm_name phone) blank = Val (Ok (node, rest), w') /\
    NodeConfigStore_get store blank = Val (Ok (node_conf node), w1) /\
    mgr_id (node_p2p node) = nc_id (node_conf node) /\ Ipv4Addr_LOCALHOST ∉ lan (node_lan node).
Proof.
  destruct host_starts as (node & rest & w' & H & _).
  destruct (proj2 (node_init_spec host (pm_name phone) blank (fun l => Permutation_refl (elements l))) node rest w' H)
    as (w1 & Hg & Hid & _ & _ & Hl & _).
  exists node, rest, w', w1. exact (conj H (conj Hg (conj Hid Hl))).
Defined.

Lemma node_presence_panics_receivers_witness :
  exists node rest w', Node_init host (pm_name phone) blank = Val (Ok (node, rest), w') /\
  exists bytes, DiscoveryCodec_encode (PresenceResponse (mgr_metadata (node_p2p node))) [] = Val (Ok tt, bytes) /\
    DiscoveryCodec_decode bytes = Panic /\
    forall local addr d, discovery_body local addr (Network (r ← DiscoveryCodec_decode bytes;
      mret (match fst r with Ok (Some e) => Some (Ok (e, addr)) | Ok None => None | Err e => Some (Err e) end))) d = Some Panic.
Proof.
  destruct host_starts as (node & rest & w' & H & Ha & Hn). exists node, rest, w'. split; [exact H |].
  apply (node_presence_panics_receivers host (pm_name phone) blank node rest w' H);
    [rewrite Ha; reflexivity | rewrite Hn; vm_compute; discriminate].
Defined.

Lemma node_client_refused_witness :
  exists node rest w' more, Node_init host (pm_name phone) blank = Val (Ok (node, rest), w') /\ length more = 24%nat /\
    inevitable (xstep 30 44 (fun _ => None) (fun _ => None))
      (fun s => s = (mkParty (HRet (Err (HsFailure NOT_FOUND_ERR))) [] [],
         mkParty (HRet (Err HsNotFound)) (drop 32 (more ++ hmac_sign (as_bytes (code auth 30)) (PeerId_bytes (mgr_id (node_p2p node))))) []))
      6 (handshake_start (mgr_id (node_p2p node)) id_two 8 7 laptop_candidate).
Proof.
  destruct host_starts as (node & rest & w' & H & _).
  destruct (node_client_refused host (pm_name phone) blank node rest w' H) as (short & more & _ & Hl & _ & Hr).
  exists node, rest, w', more. split; [exact H |]. split; [exact Hl |].
  exact (proj1 (Hr id_two 8 7 30 44 (fun _ => None) (fun _ => None) laptop_candidate (code auth 30)
                  (code_generated auth 30 ltac:(lia))) eq_refl).
Defined.

End NodeWitnesses.
