(* ===== verification/Controller.v ===== *)
(** The calls of an application to the core: [CoreController] of core/src/node.rs and the loop of
    [Node::start] that answers them.

    A call sends its message with the sender of a oneshot channel and waits on the receiver.  [core_exec]
    composes the controller with the loop: calls are made at any time, the loop takes up what it likes of
    what is ready.  When a handler panics the node is dropped with the loop, and with it the messages it
    holds.  [service] is what this amounts to for the callers, and [core_refines_service] proves it. *)

From Stdlib Require Import ZArith Lia.
From Stdlib Require Import Strings.Byte.
From stdpp Require Import base tactics numbers option list strings gmap relations.
From S2P Require Import Prelude RustStd SockAddr Errors Pairing Peer Proto Handshake.
From S2P Require Import Manager System Discovery Core CoreTheorems Node NodeTheorems Samples.

Section Controller.
Context {C : CryptoLib} {K : CoreLib} {W : WatchLib}.

(** ** State *)

Inductive request : Type := Query (q : AppQuery) | Command (c : AppCmd).

(** The receiver of a call's oneshot channel: nothing yet, a value, or the sender was dropped. *)
Inductive reply : Type := Waiting | Answered (r : Result CoreError CoreResponse) | Gone.

(** What [rx.await.unwrap()] gives, once it gives something. *)
Definition call_result (r : reply) : option (panicking (Result CoreError CoreResponse)) :=
  match r with
  | Waiting => None
  | Answered res => Some (await_reply (Some res))
  | Gone => Some (await_reply None)
  end.

(** The node in its loop, whether the loop runs, the calls made so far (a call's number is that of its oneshot
    channel), and the tasks the loop has spawned. *)
Record core := mkCore {
  k_select : Select;
  k_running : bool;
  k_calls : list (request * reply);
  k_spawned : list (task unit)
}.

Definition k_node (s : core) : Node := sel_node (k_select s).

Definition core_init (n : Node) : core := mkCore (mkSelect n true) true [] [].

(** ** Steps *)

Definition settle (r : reply) (cs : list (request * reply)) (tx : nat) : list (request * reply) :=
  alter (fun c => (c.1, r)) tx cs.

(** The oneshot senders in the channels of a node, that of the message just taken up included. *)
Definition held (n : Node) : list nat :=
  (tx_return <$> ch_queue (node_query n)) ++ (tx_return <$> ch_queue (node_cmd n)).

(** A panic in [start] unwinds whoever runs it, and drops the node. *)
Definition drop_node (s : core) : core :=
  let n := k_node s in
  let closed := mkCoreController (drop_receiver (node_query n)) (drop_receiver (node_cmd n)) in
  mkCore (mkSelect (set_controller closed n) (sel_lan (k_select s)))
    false (foldl (settle Gone) (k_calls s) (held n)) (k_spawned s).

Inductive kcommand : Type :=
(** Somebody calls [query] or [command]. *)
| Ask (r : request)
(** The loop takes up a branch. *)
| Serve (ev : NodeEvent).

Definition core_exec (c : kcommand) (s : core) : option core :=
  let n := k_node s in
  let lan := sel_lan (k_select s) in
  let tx := length (k_calls s) in
  match c with
  | Ask (Query q) =>
      let '(sent, ctl) := CoreController_query tx q (controller n) in
      Some (mkCore (mkSelect (set_controller ctl n) lan) (k_running s)
              (k_calls s ++ [(Query q, if sent then Waiting else Gone)]) (k_spawned s))
  | Ask (Command c) =>
      let '(sent, ctl) := CoreController_command tx c (controller n) in
      Some (mkCore (mkSelect (set_controller ctl n) lan) (k_running s)
              (k_calls s ++ [(Command c, if sent then Waiting else Gone)]) (k_spawned s))
  | Serve ev =>
      if k_running s then
        match start_round ev (k_select s) with
        | Some (Val (sel, answer, spawned)) =>
            Some (mkCore sel true
                    (match answer with Some (tx, res) => settle (Answered res) (k_calls s) tx | None => k_calls s end)
                    (k_spawned s ++ option_list spawned))
        | Some Panic => Some (drop_node s)
        | None => None
        end
      else None
  end.

Fixpoint core_run (cs : list kcommand) (s : core) : option core :=
  match cs with
  | [] => Some s
  | c :: cs' => s' ← core_exec c s; core_run cs' s'
  end.

(** ** What the callers see *)

(** A service with two queues, one of queries and one of commands.  It answers the oldest command when that is
    a [Discover], and remembers the span; the oldest query, or the oldest command when that is a [SetName],
    stops it, and every caller that waits is told; who asks a stopped service is told at once. *)
Record service := mkService { a_running : bool; a_calls : list (request * reply); a_spans : list Z }.

Definition is_query (r : request) : bool := match r with Query _ => true | Command _ => false end.

(** Call [i] is the oldest of its kind that waits. *)
Definition oldest (i : nat) (r : request) (cs : list (request * reply)) : Prop :=
  cs !! i = Some (r, Waiting) /\
  forall j r', (j < i)%nat -> cs !! j = Some (r', Waiting) -> is_query r' <> is_query r.

Definition let_down (cs : list (request * reply)) : list (request * reply) :=
  (fun c => (c.1, match c.2 with Waiting => Gone | r => r end)) <$> cs.

Definition unfinished (r : request) : bool :=
  match r with Query GetConf | Command (SetName _) => true | Command (Discover _) => false end.

Inductive service_step (a : service) : service -> Prop :=
| service_ask r :
    service_step a (mkService (a_running a) (a_calls a ++ [(r, if a_running a then Waiting else Gone)]) (a_spans a))
| service_answer i span : a_running a = true -> oldest i (Command (Discover span)) (a_calls a) ->
    service_step a (mkService true (settle (Answered (Ok CoreOk)) (a_calls a) i) (a_spans a ++ [span]))
| service_stop i r : a_running a = true -> oldest i r (a_calls a) -> unfinished r = true ->
    service_step a (mkService false (let_down (a_calls a)) (a_spans a)).

Definition service_init : service := mkService true [] [].

(** ** The messages in a queue are those of the calls that wait *)

(** The values of [f] over a list with its indices, from [i]. *)
Fixpoint pending {A B} (f : nat -> A -> option B) (i : nat) (cs : list A) : list B :=
  match cs with
  | [] => []
  | c :: cs' => option_list (f i c) ++ pending f (S i) cs'
  end.

Definition waiting_query (i : nat) (c : request * reply) : option (ReturnableMessage AppQuery) :=
  match c with (Query q, Waiting) => Some (mkReturnableMessage q i) | _ => None end.
Definition waiting_command (i : nat) (c : request * reply) : option (ReturnableMessage AppCmd) :=
  match c with (Command c, Waiting) => Some (mkReturnableMessage c i) | _ => None end.

Lemma pending_snoc {A B} (f : nat -> A -> option B) c cs : forall i,
  pending f i (cs ++ [c]) = pending f i cs ++ option_list (f (i + length cs)%nat c).
Proof.
  induction cs as [|c' cs IH]; intros i; cbn; [by rewrite app_nil_r, Nat.add_0_r |].
  rewrite IH, <- app_assoc. by replace (S i + length cs)%nat with (i + S (length cs))%nat by lia.
Qed.

Lemma pending_quiet {A B} (f : nat -> A -> option B) c c' cs : forall i j, cs !! j = Some c ->
  f (i + j)%nat c = None -> f (i + j)%nat c' = None -> pending f i (<[j := c']> cs) = pending f i cs.
Proof.
  induction cs as [|c0 cs IH]; intros i [|j] Hj H H'; cbn in *; try done.
  - simplify_eq. rewrite Nat.add_0_r in *. by rewrite H, H'.
  - f_equal. apply IH; [done | |]; by replace (S i + j)%nat with (i + S j)%nat by lia.
Qed.

Lemma pending_head {A B} (f : nat -> A -> option B) m rest cs : forall i, pending f i cs = m :: rest ->
  exists j c, cs !! j = Some c /\ f (i + j)%nat c = Some m /\
    (forall j' c', (j' < j)%nat -> cs !! j' = Some c' -> f (i + j')%nat c' = None) /\
    forall c', f (i + j)%nat c' = None -> pending f i (<[j := c']> cs) = rest.
Proof.
  induction cs as [|c cs IH]; intros i H; cbn in H; [done |]. destruct (f i c) as [m'|] eqn:E; cbn in H.
  - simplify_eq. exists 0%nat, c. rewrite Nat.add_0_r. split_and!; [done | done | lia |]. intros c' Hc'. cbn. by rewrite Hc'.
  - destruct (IH _ H) as (j & c0 & Hj & Hm & Hb & Hr). exists (S j), c0.
    replace (i + S j)%nat with (S i + j)%nat by lia. split_and!; [done | done | |].
    + intros [|j'] c' Hlt Hj'; cbn in Hj'; [simplify_eq; by rewrite Nat.add_0_r |].
      replace (i + S j')%nat with (S i + j')%nat by lia. apply Hb; [lia | done].
    + intros c' Hc'. cbn. rewrite E. by apply Hr.
Qed.

Lemma elem_of_option_list {A} (x : A) o : x ∈ option_list o <-> o = Some x.
Proof. destruct o; cbn; [rewrite list_elem_of_singleton; naive_solver | split; [by intros ?%elem_of_nil | done]]. Qed.

Lemma elem_of_pending {A B} (f : nat -> A -> option B) m cs : forall i, m ∈ pending f i cs <->
  exists j c, cs !! j = Some c /\ f (i + j)%nat c = Some m.
Proof.
  induction cs as [|c cs IH]; intros i; cbn; [split; [by intros ?%elem_of_nil | by intros (? & ? & ? & _)] |].
  rewrite elem_of_app, elem_of_option_list, IH. split.
  - intros [H|(j & c' & Hj & H)]; [exists 0%nat, c; by rewrite Nat.add_0_r | exists (S j), c'].
    by replace (i + S j)%nat with (S i + j)%nat by lia.
  - intros ([|j] & c' & Hj & H); cbn in Hj; [simplify_eq; rewrite Nat.add_0_r in H; by left | right; exists j, c'].
    by replace (S i + j)%nat with (i + S j)%nat by lia.
Qed.

Lemma pending_length {A B} (f : nat -> A -> option B) cs : forall i, (length (pending f i cs) <= length cs)%nat.
Proof. induction cs as [|c cs IH]; intros i; cbn; [done |]. rewrite length_app. specialize (IH (S i)). destruct (f i c); cbn; lia. Qed.

Lemma settle_insert r cs tx q r' : cs !! tx = Some (q, r') -> settle r cs tx = <[tx := (q, r)]> cs.
Proof.
  intros H. apply list_eq. intros j. unfold settle. destruct (decide (j = tx)) as [->|Hne].
  - rewrite list_lookup_alter_eq, H, list_lookup_insert_eq; [done | by eapply lookup_lt_Some].
  - by rewrite list_lookup_alter_ne, list_lookup_insert_ne.
Qed.

(** Several calls lose their sender. *)
Lemma settle_all l j : forall cs : list (request * reply),
  foldl (settle Gone) cs l !! j = (fun c => if decide (j ∈ l) then (c.1, Gone) else c) <$> cs !! j.
Proof.
  induction l as [|x l IH]; intros cs; cbn.
  - by destruct (cs !! j).
  - rewrite IH. unfold settle. destruct (decide (j = x)) as [->|Hne].
    + rewrite list_lookup_alter_eq. destruct (cs !! x) as [c|]; [| done]. cbn [fmap option_fmap option_map fst].
      f_equal. do 2 case_decide; try done; exfalso; set_solver.
    + rewrite list_lookup_alter_ne by done. destruct (cs !! j) as [c|]; [| done]. cbn [fmap option_fmap option_map fst].
      f_equal. do 2 case_decide; try done; exfalso; set_solver.
Qed.

(** ** The invariant *)

(** What the loop never touches. *)
Definition same_node (n0 n : Node) : Prop :=
  node_conf n = node_conf n0 /\ node_p2p n = node_p2p n0 /\ node_events n = node_events n0 /\
  lan (node_lan n) = lan (node_lan n0).

Definition core_ok (n0 : Node) (s : core) : Prop :=
  let n := k_node s in
  (if k_running s
   then node_query n = mkChannel (pending waiting_query 0 (k_calls s)) None true true /\
        node_cmd n = mkChannel (pending waiting_command 0 (k_calls s)) None true true
   else ch_receiver (node_query n) = false /\ ch_receiver (node_cmd n) = false /\
        Forall (fun c => c.2 <> Waiting) (k_calls s)) /\
  node_internal n = channel_unbounded /\ same_node n0 n.

(** The core and the service agree. *)
Definition agree (s : core) (a : service) : Prop :=
  a_running a = k_running s /\ a_calls a = k_calls s /\
  k_spawned s = (fun span => discover_task (Z.to_nat span)) <$> a_spans a.

Lemma drop_lets_down n0 s : core_ok n0 s -> k_running s = true -> k_calls (drop_node s) = let_down (k_calls s).
Proof.
  intros [Hq _] Hr. rewrite Hr in Hq. destruct Hq as [Hq Hc]. cbn. apply list_eq. intros j.
  rewrite settle_all. unfold let_down. rewrite list_lookup_fmap. destruct (k_calls s !! j) as [[r rep]|] eqn:Ej; [| done].
  assert (Hw : j ∈ held (k_node s) <-> rep = Waiting).
  { unfold held. rewrite Hq, Hc. cbn [ch_queue]. rewrite elem_of_app, !list_elem_of_fmap. split.
    - intros [(m & -> & Hm)|(m & -> & Hm)]; apply elem_of_pending in Hm as (i & [r' rep'] & Hi & Hm); cbn in Hm;
        destruct r', rep'; cbn in Hm; simplify_eq; cbn in Ej; congruence.
    - intros ->. destruct r as [q|c]; [left; exists (mkReturnableMessage q j) | right; exists (mkReturnableMessage c j)];
        (split; [done |]); apply elem_of_pending; by eexists _, _. }
  cbn. destruct (decide (j ∈ held (k_node s))) as [H|H].
  - apply Hw in H as ->. done.
  - destruct rep; [destruct H; by apply Hw | done | done].
Qed.

(** ** Every step *)

Lemma ask_ok n0 r s s' a : core_ok n0 s -> agree s a -> core_exec (Ask r) s = Some s' ->
  core_ok n0 s' /\ exists a', service_step a a' /\ agree s' a'.
Proof.
  intros (Hq & Hi & Hn) (A1 & A2 & A3) He. destruct (k_running s) eqn:Hr.
  - destruct Hq as [Hq Hc]. assert (Hs : k_calls s' = k_calls s ++ [(r, Waiting)] /\ k_running s' = true /\ k_spawned s' = k_spawned s /\
      node_query (k_node s') = mkChannel (pending waiting_query 0 (k_calls s ++ [(r, Waiting)])) None true true /\
      node_cmd (k_node s') = mkChannel (pending waiting_command 0 (k_calls s ++ [(r, Waiting)])) None true true /\
      node_internal (k_node s') = node_internal (k_node s) /\ (same_node n0 (k_node s) -> same_node n0 (k_node s'))).
    { destruct r as [q|c]; cbn in He; unfold CoreController_query, CoreController_command, chan_send in He; cbn in He;
        rewrite ?Hq, ?Hc in He; cbn in He; simplify_eq; cbn; rewrite !pending_snoc; cbn; rewrite ?app_nil_r; by split_and!. }
    destruct Hs as (E1 & E2 & E3 & E4 & E5 & E6 & E7). split.
    + unfold core_ok. rewrite E1, E2, E6. split_and!; try done; by apply E7.
    + eexists. split; [apply (service_ask a r) |]. split_and!; cbn; [congruence | | congruence]. by rewrite A1, A2, E1.
  - destruct Hq as (Hq & Hc & Hw). assert (Hs : k_calls s' = k_calls s ++ [(r, Gone)] /\ k_running s' = false /\ k_spawned s' = k_spawned s /\
      node_query (k_node s') = node_query (k_node s) /\ node_cmd (k_node s') = node_cmd (k_node s) /\
      node_internal (k_node s') = node_internal (k_node s) /\ (same_node n0 (k_node s) -> same_node n0 (k_node s'))).
    { destruct r as [q|c]; cbn in He; unfold CoreController_query, CoreController_command, chan_send in He; cbn in He;
        rewrite ?Hq, ?Hc in He; cbn in He; simplify_eq; cbn; by split_and!. }
    destruct Hs as (E1 & E2 & E3 & E4 & E5 & E6 & E7). split.
    + unfold core_ok. rewrite E1, E2, E4, E5, E6. split_and!; try done; try (by apply E7).
      apply Forall_app. split; [done | by repeat constructor].
    + eexists. split; [apply (service_ask a r) |]. split_and!; cbn; [congruence | | congruence]. by rewrite A1, A2, E1.
Qed.

(** The first message of a queue is that of the oldest call of its kind. *)
Lemma first_query m rest cs : pending waiting_query 0 cs = m :: rest ->
  exists q, m = mkReturnableMessage q (tx_return m) /\ oldest (tx_return m) (Query q) cs.
Proof.
  intros (j & [r rep] & Hj & Hm & Hb & _)%pending_head. cbn in Hm, Hb. destruct r as [q|], rep; try done. simplify_eq.
  exists q. split; [done |]. split; [done |]. intros j' r' Hlt Hj'. specialize (Hb _ _ Hlt Hj'). by destruct r'.
Qed.

Lemma first_command m rest cs : pending waiting_command 0 cs = m :: rest ->
  exists c, m = mkReturnableMessage c (tx_return m) /\ oldest (tx_return m) (Command c) cs /\
    forall res, pending waiting_command 0 (settle (Answered res) cs (tx_return m)) = rest /\
      pending waiting_query 0 (settle (Answered res) cs (tx_return m)) = pending waiting_query 0 cs.
Proof.
  intros (j & [r rep] & Hj & Hm & Hb & Hr)%pending_head. cbn in Hm, Hb, Hr. destruct r as [|c], rep; try done. simplify_eq.
  exists c. split; [done |]. cbn [tx_return]. split.
  - split; [done |]. intros j' r' Hlt Hj'. specialize (Hb _ _ Hlt Hj'). by destruct r'.
  - intros res. rewrite (settle_insert _ _ _ _ _ Hj). split; [by apply Hr | by eapply pending_quiet].
Qed.

Lemma let_down_settled cs : Forall (fun c => c.2 <> Waiting) (let_down cs).
Proof. apply Forall_forall. intros c (c' & -> & _)%list_elem_of_fmap. cbn. by destruct c'.2. Qed.

(** A panic of the loop. *)
Lemma stop_ok n0 s a i r : core_ok n0 s -> agree s a -> k_running s = true -> oldest i r (k_calls s) -> unfinished r = true ->
  core_ok n0 (drop_node s) /\ exists a', service_step a a' /\ agree (drop_node s) a'.
Proof.
  intros Hok (A1 & A2 & A3) Hr Ho Hu. pose proof (drop_lets_down _ _ Hok Hr) as Hg. split.
  - destruct Hok as (_ & Hi & Hn). unfold core_ok. rewrite Hg. cbn. split_and!; try done; [by apply let_down_settled | apply Hn..].
  - eexists. split; [eapply (service_stop a i r); [congruence | by rewrite A2 | done] |].
    split_and!; [done | by rewrite Hg, A2 | exact A3].
Qed.

Lemma serve_ok n0 ev s s' a : core_ok n0 s -> agree s a -> core_exec (Serve ev) s = Some s' ->
  core_ok n0 s' /\ exists a', rtc service_step a a' /\ agree s' a'.
Proof.
  intros Hok Ha He. cbn in He. destruct (k_running s) eqn:Hr; [| done].
  pose proof Hok as (Hq & Hi & Hn). rewrite Hr in Hq. destruct Hq as [Hq Hc]. unfold start_round in He. fold (k_node s) in He.
  destruct ev; unfold chan_recv in He.
  - rewrite Hq in He. cbn in He. destruct (pending waiting_query 0 (k_calls s)) as [|m rest] eqn:Ep; [done |]. simplify_eq.
    destruct (first_query _ _ _ Ep) as (q & Em & Ho). destruct (stop_ok n0 s a _ _ Hok Ha Hr Ho) as (H & a' & Hs & H'); [by destruct q |].
    split; [exact H |]. exists a'. split; [by apply rtc_once | exact H'].
  - rewrite Hc in He. cbn in He. destruct (pending waiting_command 0 (k_calls s)) as [|m rest] eqn:Ep; [done |].
    destruct (first_command _ _ _ Ep) as (c & Em & Ho & Hset). rewrite Em in He. cbn in He. destruct c as [name|span]; cbn in He; simplify_eq.
    + destruct (stop_ok n0 s a _ _ Hok Ha Hr Ho eq_refl) as (H & a' & Hs & H').
      split; [exact H |]. exists a'. split; [by apply rtc_once | exact H'].
    + destruct (Hset (Ok CoreOk)) as [S1 S2]. destruct Ha as (A1 & A2 & A3). split.
      * unfold core_ok. cbn. rewrite S1, S2. by split_and!.
      * eexists. split; [apply rtc_once, (service_answer a (tx_return m) span); [congruence | by rewrite A2] |].
        split_and!; cbn; [done | by rewrite A2 | by rewrite A3, fmap_app].
  - rewrite Hi in He. done.
  - destruct (sel_lan (k_select s)); [| done]. destruct (LanManager_next _) as [[r l]|] eqn:El; cbn in He; [| done]. simplify_eq.
    split; [| exists a; split; [done |]; destruct Ha as (A1 & A2 & A3); split_and!; cbn; [congruence | done | by rewrite app_nil_r]].
    assert (El' : lan l = lan (node_lan (k_node s))).
    { unfold LanManager_next in El. destruct (IfWatcher_select_next _) as [[? ?]|]; cbn in El; by simplify_eq. }
    split; [done |]. split; [done |]. destruct Hn as (N1 & N2 & N3 & N4). split_and!; cbn; congruence.
Qed.

Lemma core_run_ok n0 cs : forall s s' a, core_ok n0 s -> agree s a -> core_run cs s = Some s' ->
  core_ok n0 s' /\ exists a', rtc service_step a a' /\ agree s' a'.
Proof.
  induction cs as [|c cs IH]; intros s s' a Hok Ha Hr; cbn in Hr; [simplify_eq; eauto using rtc_refl |].
  destruct (core_exec c s) as [s1|] eqn:E; cbn in Hr; [| done].
  assert (core_ok n0 s1 /\ exists a1, rtc service_step a a1 /\ agree s1 a1) as (Hok1 & a1 & Hs1 & Ha1).
  { destruct c as [r|ev]; [| by eapply serve_ok]. destruct (ask_ok _ _ _ _ _ Hok Ha E) as (H & a' & Hs & H').
    split; [exact H |]. exists a'. split; [by apply rtc_once | exact H']. }
  destruct (IH _ _ _ Hok1 Ha1 Hr) as (H & a' & Hs & H'). split; [exact H |]. exists a'. split; [by etrans | exact H'].
Qed.

(** ** The service *)

(** What every state of the service satisfies. *)
Definition service_ok (a : service) : Prop :=
  (forall i r rep, a_calls a !! i = Some (r, rep) ->
     match rep with
     | Waiting => a_running a = true
     | Answered res => res = Ok CoreOk /\ exists span, r = Command (Discover span)
     | Gone => a_running a = false
     end) /\
  (forall i j ri rj repj, (i < j)%nat -> is_query ri = is_query rj -> a_calls a !! i = Some (ri, Waiting) ->
     a_calls a !! j = Some (rj, repj) -> repj = Waiting).

Lemma settle_lookup r cs tx j : settle r cs tx !! j = (fun c => if decide (j = tx) then (c.1, r) else c) <$> cs !! j.
Proof.
  unfold settle. case_decide as H; [subst; by rewrite list_lookup_alter_eq |]. rewrite list_lookup_alter_ne by done.
  by destruct (cs !! j).
Qed.

Lemma service_ok_step a a' : service_ok a -> service_step a a' -> service_ok a'.
Proof.
  intros [Hc Hf] Hs. destruct Hs as [r|i span Hr [Hi Ho]|i r Hr Ho Hu]; cbn.
  - split.
    + intros i r0 rep [[_ H]|[_ H]]%lookup_snoc_Some; [exact (Hc _ _ _ H) |]. simplify_eq. by destruct (a_running a).
    + intros i j ri rj repj Hlt Hk [[? Hi]|[-> Hi]]%lookup_snoc_Some [[? Hj]|[-> Hj]]%lookup_snoc_Some; simplify_eq; try lia.
      * by eapply (Hf i j).
      * pose proof (Hc _ _ _ Hi) as E. cbn in E. by rewrite E.
  - split.
    + intros j r0 rep. cbn. rewrite settle_lookup. destruct (a_calls a !! j) as [[r1 rep1]|] eqn:E; [| done]. cbn.
      specialize (Hc _ _ _ E). rewrite Hr in Hc. case_decide; intros [= <- <-]; [subst; simplify_eq; eauto | exact Hc].
    + intros j k rj rk repk Hlt Hk. cbn. rewrite !settle_lookup.
      destruct (a_calls a !! j) as [[r1 rep1]|] eqn:E1; [| done]. destruct (a_calls a !! k) as [[r2 rep2]|] eqn:E2; [| done]. cbn.
      case_decide; [by intros [= ? ?] |]. intros [= <- ->]. case_decide as H2; intros [= <- <-].
      * subst k. simplify_eq. by destruct (Ho _ _ Hlt E1).
      * by eapply (Hf j k).
  - assert (Hg : forall j r0 rep, let_down (a_calls a) !! j = Some (r0, rep) -> rep <> Waiting /\
        exists rep0, a_calls a !! j = Some (r0, rep0) /\ (rep = rep0 \/ rep = Gone)).
    { intros j r0 rep. unfold let_down. rewrite list_lookup_fmap. destruct (a_calls a !! j) as [[r1 rep1]|]; [| done]. cbn.
      intros [= <- <-]. split; [by destruct rep1 | exists rep1; destruct rep1; auto]. }
    split.
    + intros j r0 rep (Hw & rep0 & E & [->| ->])%Hg; [| done]. specialize (Hc _ _ _ E). destruct rep0; try done.
    + intros j k rj rk repk _ _ (Hw & _)%Hg. by destruct Hw.
Qed.

Lemma service_ok_reached a : rtc service_step service_init a -> service_ok a.
Proof.
  assert (H : forall a a', rtc service_step a a' -> service_ok a -> service_ok a').
  { induction 1; [done |]. eauto using service_ok_step. }
  intros Hr. by eapply H.
Qed.

(** ** Progress *)

(** The oldest command is taken up. *)
Lemma serve_command n0 s m rest : core_ok n0 s -> k_running s = true ->
  pending waiting_command 0 (k_calls s) = m :: rest ->
  exists s', core_exec (Serve NCmd) s = Some s' /\
    (k_running s' = false \/ k_running s' = true /\ pending waiting_command 0 (k_calls s') = rest).
Proof.
  intros (Hq & _) Hr Ep. rewrite Hr in Hq. destruct Hq as [_ Hc]. cbn. rewrite Hr. fold (k_node s). rewrite Hc.
  unfold chan_recv. cbn. rewrite Ep. destruct (first_command _ _ _ Ep) as (c & -> & _ & Hset). cbn in Hset |- *.
  destruct c as [name|span]; cbn; (eexists; split; [reflexivity |]); [by left | right]. split; [done |]. apply Hset.
Qed.

Lemma commands_drain n0 k : forall s a, core_ok n0 s -> agree s a -> k_running s = true ->
  length (pending waiting_command 0 (k_calls s)) = k ->
  exists rounds s', Forall (fun c => c = Serve NCmd) rounds /\ (length rounds <= k)%nat /\ core_run rounds s = Some s' /\
    forall i c, k_calls s' !! i <> Some (Command c, Waiting).
Proof.
  induction k as [|k IH]; intros s a Hok Ha Hr Hk.
  - exists [], s. split_and!; [constructor | done | done |]. intros i c Hi.
    assert (H : mkReturnableMessage c i ∈ pending waiting_command 0 (k_calls s)) by (apply elem_of_pending; by eexists _, _).
    destruct (pending waiting_command 0 (k_calls s)); [by apply elem_of_nil in H | done].
  - destruct (pending waiting_command 0 (k_calls s)) as [|m rest] eqn:Ep; [done |].
    destruct (serve_command _ _ _ _ Hok Hr Ep) as (s1 & E & Hs1). destruct (serve_ok _ _ _ _ _ Hok Ha E) as (Hok1 & a1 & _ & Ha1).
    destruct Hs1 as [Hs1|[Hr1 Hp1]].
    + exists [Serve NCmd], s1. split_and!; [by constructor | cbn; lia | cbn [core_run]; by rewrite E |].
      destruct Hok1 as (Hq & _). rewrite Hs1 in Hq. destruct Hq as (_ & _ & Hw). intros i c Hi.
      by apply (Forall_lookup_1 _ _ _ _ Hw) in Hi.
    + destruct (IH s1 a1 Hok1 Ha1 Hr1) as (rounds & s' & Hf & Hl & Hrun & Hw); [rewrite Hp1; cbn in Hk; lia |].
      exists (Serve NCmd :: rounds), s'. split_and!; [by constructor | cbn; lia | cbn [core_run]; by rewrite E | exact Hw].
Qed.

(** A query that waits is taken up, in its turn, and stops the node. *)
Lemma serve_query n0 s i q : core_ok n0 s -> k_running s = true -> k_calls s !! i = Some (Query q, Waiting) ->
  core_exec (Serve NQuery) s = Some (drop_node s).
Proof.
  intros (Hq & _) Hr Hi. rewrite Hr in Hq. destruct Hq as [Hq _]. cbn. rewrite Hr. fold (k_node s). rewrite Hq. unfold chan_recv. cbn.
  assert (H : mkReturnableMessage q i ∈ pending waiting_query 0 (k_calls s)) by (apply elem_of_pending; by eexists _, _).
  destruct (pending waiting_query 0 (k_calls s)) as [|m rest]; [by apply elem_of_nil in H | done].
Qed.

(** ** Theorems *)

Lemma core_ok_init n : node_query n = channel_unbounded -> node_cmd n = channel_unbounded ->
  node_internal n = channel_unbounded -> core_ok n (core_init n) /\ agree (core_init n) service_init.
Proof. intros Hq Hc Hi. by split_and!. Qed.

Context {LC : CryptoLaws C} {LK : CoreLaws K}.

Lemma core_started h dir w n rest w' cs s : Node_init h dir w = Val (Ok (n, rest), w') -> core_run cs (core_init n) = Some s ->
  core_ok n s /\ exists a, rtc service_step service_init a /\ agree s a.
Proof.
  intros (conf & w1 & ifs & ip & p2p & d & l & _ & _ & _ & _ & _ & _ & ->)%Node_init_Ok Hr.
  eapply core_run_ok; [| | exact Hr]; by apply core_ok_init.
Qed.

(** C30.  The core refines a service with two queues.  Whatever calls are made on a node that was started and
    whatever branches its loop takes up, in any order, the calls and their results are those of a run of
    [service]: commands and queries are taken up in their order, a [Discover] is answered with [Ok] and spawns
    the task that asks for presence so often, anything else stops the node and lets down everybody who
    waits or comes later.  Meanwhile the loop touches neither configuration nor manager nor the set of local
    addresses, and sends the application no event. *)
Theorem core_refines_service h dir w n rest w' cs s :
  Node_init h dir w = Val (Ok (n, rest), w') -> core_run cs (core_init n) = Some s ->
  exists a, rtc service_step service_init a /\
    k_calls s = a_calls a /\ k_running s = a_running a /\
    k_spawned s = (fun span => discover_task (Z.to_nat span)) <$> a_spans a /\
    node_conf (k_node s) = node_conf n /\ node_p2p (k_node s) = node_p2p n /\ node_events (k_node s) = channel_bounded 64 /\
    lan (node_lan (k_node s)) = lan (node_lan n).
Proof.
  intros Hi Hr. destruct (core_started _ _ _ _ _ _ _ _ Hi Hr) as [(_ & _ & N1 & N2 & N3 & N4) (a & Hs & A1 & A2 & A3)].
  exists a. split_and!; try done. rewrite N3.
  by apply Node_init_Ok in Hi as (conf & w1 & ifs & ip & p2p & d & l & _ & _ & _ & _ & _ & _ & ->).
Qed.

(** C31.  Nobody waits for ever, and nobody gets more than [Ok].  In every state a started node comes to: a call
    waits only while the loop runs; what was answered is a [Discover], with [Ok]; calls of one kind are
    answered in their order; a call that waits is released by at most as many rounds of its queue as there are
    calls; and once the loop has stopped every call that was not answered panics its caller, and so does
    every call made after. *)
Theorem calls_resolved h dir w n rest w' cs s :
  Node_init h dir w = Val (Ok (n, rest), w') -> core_run cs (core_init n) = Some s ->
  (forall i r rep, k_calls s !! i = Some (r, rep) ->
     match call_result rep with
     | None => k_running s = true
     | Some (Val res) => res = Ok CoreOk /\ exists span, r = Command (Discover span)
     | Some Panic => k_running s = false
     end) /\
  (forall i j ri rj repj, (i < j)%nat -> is_query ri = is_query rj -> k_calls s !! i = Some (ri, Waiting) ->
     k_calls s !! j = Some (rj, repj) -> repj = Waiting) /\
  (forall i r, k_calls s !! i = Some (r, Waiting) ->
     exists rounds s', Forall (fun c => c = Serve (if is_query r then NQuery else NCmd)) rounds /\
       (length rounds <= length (k_calls s))%nat /\ core_run rounds s = Some s' /\ k_calls s' !! i <> Some (r, Waiting)) /\
  (k_running s = false -> forall r s', core_exec (Ask r) s = Some s' ->
     exists rep, last (k_calls s') = Some (r, rep) /\ call_result rep = Some Panic).
Proof.
  intros Hi Hr. destruct (core_started _ _ _ _ _ _ _ _ Hi Hr) as [Hok (a & Hs & Ha)].
  pose proof Ha as (A1 & A2 & A3). pose proof (service_ok_reached _ Hs) as [Hc Hf]. rewrite A1, A2 in *. split_and!.
  - intros i r rep H. specialize (Hc _ _ _ H). by destruct rep.
  - exact Hf.
  - intros i r H. pose proof (Hc _ _ _ H) as Hrun. cbn in Hrun. destruct r as [q|c]; cbn [is_query].
    + exists [Serve NQuery], (drop_node s). split_and!; [by constructor | apply lookup_lt_Some in H; cbn; lia | |].
      * cbn [core_run]. by rewrite (serve_query _ _ _ _ Hok Hrun H).
      * intros Hw. rewrite (drop_lets_down _ _ Hok Hrun) in Hw. by apply (Forall_lookup_1 _ _ _ _ (let_down_settled _)) in Hw.
    + destruct (commands_drain _ _ _ _ Hok Ha Hrun eq_refl) as (rounds & s' & F & Hl & Hrun' & Hw).
      exists rounds, s'. split_and!; [exact F | | exact Hrun' | apply Hw].
      etrans; [exact Hl |]. apply pending_length.
  - intros Hstop r s' He. destruct Hok as (Hq & _). rewrite Hstop in Hq. destruct Hq as (Hq & Hcm & _).
    exists Gone. split; [| done]. destruct r as [q|c]; cbn in He; unfold CoreController_query, CoreController_command, chan_send in He; cbn in He;
      rewrite ?Hq, ?Hcm in He; cbn in He; simplify_eq; cbn; by rewrite last_snoc.
Qed.

End Controller.

(** ** Witnesses *)

Module ControllerWitnesses.
Import Sample CoreSample NodeWitnesses.
#[local] Instance profile : Profile := false.

(** A command and a query are sent; the loop takes up the command, then the query, and is no more. *)
Definition calls : list kcommand :=
  [Ask (Command (Discover 3)); Ask (Query GetConf); Serve NCmd; Serve NQuery].

Lemma calls_run n : node_query n = channel_unbounded -> node_cmd n = channel_unbounded ->
  exists s, core_run calls (core_init n) = Some s /\
    k_calls s = [(Command (Discover 3), Answered (Ok CoreOk)); (Query GetConf, Gone)] /\ k_running s = false.
Proof.
  destruct n as [a b c d q e f g]. cbn [node_query node_cmd]. intros -> ->.
  eexists. split; [cbn; reflexivity | split; reflexivity].
Qed.

Lemma started_calls : exists n rest w' s, Node_init host (pm_name phone) blank = Val (Ok (n, rest), w') /\
  core_run calls (core_init n) = Some s /\
  k_calls s = [(Command (Discover 3), Answered (Ok CoreOk)); (Query GetConf, Gone)] /\ k_running s = false.
Proof.
  destruct host_starts as (n & rest & w' & H & _). pose proof H as (conf & w1 & ifs & ip & p2p & d & l & _ & _ & _ & _ & _ & _ & E)%Node_init_Ok.
  destruct (calls_run n) as (s & Hr & Hc); [by rewrite E | by rewrite E |].
  exists n, rest, w', s. exact (conj H (conj Hr Hc)).
Qed.

Lemma core_refines_service_witness : exists n rest w' s a, Node_init host (pm_name phone) blank = Val (Ok (n, rest), w') /\
  core_run calls (core_init n) = Some s /\ rtc service_step service_init a /\ k_calls s = a_calls a /\
  node_p2p (k_node s) = node_p2p n.
Proof.
  destruct started_calls as (n & rest & w' & s & Hi & Hr & _).
  destruct (core_refines_service host (pm_name phone) blank n rest w' calls s Hi Hr) as (a & Hs & Hc & _ & _ & _ & Hp & _).
  exists n, rest, w', s, a. exact (conj Hi (conj Hr (conj Hs (conj Hc Hp)))).
Defined.

Lemma calls_resolved_witness : exists n rest w' s, Node_init host (pm_name phone) blank = Val (Ok (n, rest), w') /\
  core_run calls (core_init n) = Some s /\
  forall r s', core_exec (Ask r) s = Some s' -> exists rep, last (k_calls s') = Some (r, rep) /\ call_result rep = Some Panic.
Proof.
  destruct started_calls as (n & rest & w' & s & Hi & Hr & _ & Hstop).
  destruct (calls_resolved host (pm_name phone) blank n rest w' calls s Hi Hr) as (_ & _ & _ & H).
  exists n, rest, w', s. exact (conj Hi (conj Hr (H Hstop))).
Defined.

End ControllerWitnesses.
