(* ===== verification/Startup.v ===== *)
(** From the disk to the connections: the whole program, a node that [Node::init] started, with the calls of
    the application to its core and its life on the network.

    [program] composes the core (Controller.v) with the node on the network (System.v): the loop of
    [Node::start] answers the calls and spawns the tasks that ask for presence; the event loop, the
    acceptances, the handlers and those tasks share the manager.  The end of [Node::init], which adds the known
    peers, is the first of those tasks: [P2pManager::new] has spawned the event loop before it, and the core
    runs only once it is over.  What the core does not use it does not do
    here: it has no call that pairs, that connects to a peer or that reads the events of the manager.  The
    tasks are taken to outlive a panic of the core; where the runtime ends with it, the last state is one of
    those considered here. *)

From Stdlib Require Import ZArith Lia.
From Stdlib Require Import Strings.Byte.
From stdpp Require Import base tactics numbers option list strings gmap.
From S2P Require Import Prelude RustStd SockAddr Errors Pairing Peer Proto Handshake HandshakeFacts.
From S2P Require Import Manager System TaskLogic SystemTheorems Races Discovery Sessions Core CoreTheorems Node NodeTheorems.
From S2P Require Import Controller Samples.

Section Startup.
Context {C : CryptoLib} {L : CryptoLaws C} {K : CoreLib} {W : WatchLib} {LK : CoreLaws K}.

(** ** The program *)

(** The core, and the node on the network with the manager the two share. *)
Record program := mkProgram { pr_core : core; pr_sys : system }.

(** A node that [Node::init] is about to return, with what is left of [init]. *)
Definition started (n : Node) (rest : task unit) : program := mkProgram (core_init n) (node_system n rest).

(** [init] has returned: only then is there somebody to call the core or to run it. *)
Definition init_done (p : program) : bool :=
  match s_tasks (pr_sys p) !! O with
  | Some r => match t_prog r with TRet _ => true | _ => false end
  | None => false
  end.

Inductive pcommand : Type :=
| PCore (c : kcommand)
| PSys (c : command).

(** The steps the node takes of itself; the others are calls, none of which the core makes. *)
Definition internal (c : command) : bool :=
  match c with
  | CTask _ _ | CLoopEvent _ | CLoop | CLoopEnd | CHandler _ _ | CDiscoveryRecv | CDiscoveryEnd => true
  | CAddKnown _ | CConnect _ | CRequestPresence | CAppRecv => false
  end.

(** A node that is dropped drops [p2p_events], its receiver of the manager's events. *)
Definition drop_p2p_events (s : system) : system := set_mgr (set_app_channel (drop_receiver (app_channel (s_mgr s))) (s_mgr s)) s.

Definition program_exec (me : PeerId) (c : pcommand) (p : program) : option program :=
  match c with
  | PCore c =>
      if init_done p then
        k ← core_exec c (pr_core p);
        let s := foldl (fun s t => spawn_task t s) (pr_sys p) (drop (length (k_spawned (pr_core p))) (k_spawned k)) in
        Some (mkProgram k (if k_running (pr_core p) && negb (k_running k) then drop_p2p_events s else s))
      else None
  | PSys c => if internal c then s ← sys_exec me c (pr_sys p); Some (mkProgram (pr_core p) s) else None
  end.

Fixpoint program_run (me : PeerId) (cs : list pcommand) (p : program) : option program :=
  match cs with
  | [] => Some p
  | c :: cs' => p' ← program_exec me c p; program_run me cs' p'
  end.

(** ** What it starts with *)

(** A known peer of the configuration, with what the secret store holds for it. *)
Definition stored (conf : NodeConfig) (w : World) (id : PeerId) (a : PairingAuthenticator) : Prop :=
  exists peer pwd, peer ∈ nc_known_peers conf /\ pm_id peer = id /\
    get_totp id w = Val (Ok pwd, w) /\ PairingAuthenticator_new (as_bytes pwd) = Ok a.

Lemma known_candidate_stored conf w peer c : peer ∈ nc_known_peers conf -> known_candidate w peer = Some c ->
  cand_ok (stored conf w) (pc_id c) c.
Proof.
  unfold known_candidate. intros Hin Hc. destruct (get_totp_pure (pm_id peer) w) as [r Hr]. rewrite Hr in Hc.
  destruct r as [pwd|e]; [| done]. cbn in Hc. destruct (PairingAuthenticator_new (as_bytes pwd)) as [auth|e] eqn:Ea; [| done].
  cbn in Hc. simplify_eq. split_and!; [done | done |]. by exists peer, pwd.
Qed.

(** ** What it comes to *)

(** A task of the program: one without a handshake, or an acceptance. *)
Definition serves (me : PeerId) (r : trec) : Prop :=
  (t_hist r = [] /\ finished_hs (t_prog r)) \/ exists conn, in_session (accept me conn) (t_hist r) (t_prog r).

Definition server (me : PeerId) (s : system) : Prop :=
  Forall (serves me) (s_tasks s) /\ match s_loop s with LoopBusy t => plain t | _ => True end.

Lemma server_spawn me t s : server me s -> finished_hs t -> server me (spawn_task t s).
Proof. intros [Ht Hl] Hf. split; [| exact Hl]. apply Forall_app. split; [exact Ht |]. constructor; [by left | constructor]. Qed.

(** A step may extend a task and spawn acceptances. *)
Lemma server_run_spawn me sp s : server me s -> server me (run_spawn me sp s).
Proof.
  intros [Ht Hl]. destruct (run_spawn_spec me sp s) as (_ & El & Et). unfold server. rewrite El, Et. split; [| exact Hl].
  apply Forall_app. split; [exact Ht |]. apply Forall_fmap, Forall_forall. intros conn _. right. exists conn. apply session_accept.
Qed.

Lemma serves_step me r ans m t m' h sp : serves me r -> task_step ans (t_prog r) m = Some (t, m', h, sp) ->
  serves me (mkTrec (t_hist r ++ h) t).
Proof.
  intros [[Hh Hf]|[conn Hs]] Hst.
  - destruct (finished_step _ _ _ _ _ _ _ Hf Hst) as (Hf' & -> & _). left. cbn. by rewrite Hh.
  - right. exists conn. by apply (session_step _ _ _ _ _ _ _ _ _ Hs Hst).
Qed.

Lemma server_step me c s s' : server me s -> internal c = true -> sys_exec me c s = Some s' -> server me s'.
Proof.
  intros Hs Hi He. pose proof Hs as [Ht Hl]. destruct c as [| | |i ans|ev| | |i r| | |]; try done; cbn in He.
  - destruct (s_tasks s !! i) as [r|] eqn:Ei; cbn in He; [| done].
    destruct (task_step ans (t_prog r) (s_mgr s)) as [[[[t m] h] sp]|] eqn:Et; cbn in He; [| done]. simplify_eq.
    apply server_run_spawn. split; [| exact Hl]. apply Forall_insert; [exact Ht |].
    eapply serves_step; [| exact Et]. by eapply Forall_lookup_1.
  - destruct (s_loop s); simplify_eq. split; [exact Ht |]. apply plain_event_loop.
  - destruct (s_loop s) as [|t|]; try done. destruct (task_step AnsNone t (s_mgr s)) as [[[[t' m] h] sp]|] eqn:Et; cbn in He; [| done].
    simplify_eq. apply server_run_spawn. split; [exact Ht |]. by eapply plain_step.
  - destruct (s_loop s) as [|[[]| | | | | | |]|]; by simplify_eq.
  - destruct (s_handlers s !! i) as [[id conn]|]; cbn in He; [| done]. destruct (handler_body r); simplify_eq; [done |].
    apply server_spawn; [done |]. by intros [] [].
  - destruct (chan_recv _) as [[? ch]|]; cbn in He; by simplify_eq.
  - by simplify_eq.
Qed.

(** The core spawns only tasks that ask for presence. *)
Lemma core_spawns c k k' : core_exec c k = Some k' ->
  k_spawned k' = k_spawned k \/ exists span, k_spawned k' = k_spawned k ++ [discover_task span].
Proof.
  destruct c as [[q|c]|ev]; cbn; [destruct (CoreController_query _ _ _) | destruct (CoreController_command _ _ _) |]; intros He;
    try (simplify_eq; by left).
  destruct (k_running k); [| done]. destruct (start_round ev (k_select k)) as [[[[sel ans] sp]|]|] eqn:E; simplify_eq; [| by left].
  cbn. unfold start_round in E. destruct ev.
  - destruct (chan_recv _) as [[[q|] ch]|]; cbn in E; by simplify_eq.
  - destruct (chan_recv _) as [[[c|] ch]|]; try done. destruct (msg_data c); cbn in E; simplify_eq. right. by eexists.
  - destruct (chan_recv _) as [[[e|] ch]|]; cbn in E; by simplify_eq.
  - destruct (sel_lan _); [| done]. destruct (LanManager_next _) as [[e l]|]; cbn in E; simplify_eq. left. by rewrite app_nil_r.
Qed.

Lemma harmless_discover me Paired n : harmless me Paired (discover_task n).
Proof. induction n as [|n IH]; [done |]. cbn. split; [done |]. by intros [[]|e]. Qed.

Lemma finished_discover n : finished_hs (discover_task n).
Proof. induction n as [|n IH]; [done |]. cbn. by intros [[]|e]. Qed.

Definition program_inv (me : PeerId) (Paired : PeerId -> PairingAuthenticator -> Prop) (p : program) : Prop :=
  auth_inv me Paired (pr_sys p) /\ server me (pr_sys p).

Lemma program_inv_step me Paired c p p' : program_inv me Paired p -> program_exec me c p = Some p' -> program_inv me Paired p'.
Proof.
  intros [Ha Hs] He. destruct c as [c|c]; cbn in He.
  - destruct (init_done p); [| done].
    destruct (core_exec c (pr_core p)) as [k|] eqn:E; cbn in He; [| done]. simplify_eq.
    set (s := foldl _ _ _). assert (auth_inv me Paired s /\ server me s) as [Ha' Hs'].
    { subst s. destruct (core_spawns _ _ _ E) as [-> | [span ->]]; [by rewrite drop_all |]. rewrite drop_app_length. cbn.
      split; [apply inv_spawn, harmless_discover; exact Ha | by apply server_spawn, finished_discover]. }
    destruct (_ && _); [| done]. split; [by apply inv_events_dropped | exact Hs'].
  - destruct (internal c) eqn:Ei; [| done]. destruct (sys_exec me c (pr_sys p)) as [s|] eqn:E; cbn in He; [| done]. simplify_eq.
    split; [| by eapply server_step]. eapply (inv_step _ _ c); [exact Ha | by destruct c | exact E].
Qed.

Lemma program_inv_run me Paired cs : forall p p', program_inv me Paired p -> program_run me cs p = Some p' -> program_inv me Paired p'.
Proof.
  induction cs as [|c cs IH]; intros p p' Hp Hr; cbn in Hr; [by simplify_eq |].
  destruct (program_exec me c p) as [p1|] eqn:E; cbn in Hr; [| done]. eauto using program_inv_step.
Qed.

Lemma finished_add_known_peers l : finished_hs (add_known_peers l).
Proof. induction l as [|c l IH]; [done |]. by intros []. Qed.

Lemma program_inv_started h dir w n rest w' : (forall l, host_peer_order h l ≡ₚ elements l) ->
  Node_init h dir w = Val (Ok (n, rest), w') -> program_inv (mgr_id (node_p2p n)) (stored (node_conf n) w') (started n rest).
Proof.
  intros Ho (conf & w1 & ifs & ip & p2p & d & l & _ & _ & _ & Hp & -> & -> & ->)%Node_init_Ok.
  apply P2pManager_new_Ok in Hp as (addr & _ & ->). cbn [node_p2p node_conf]. split.
  - apply (inv_spawn _ _ _ (system_init _)); [apply inv_init |]. apply harmless_add_known_peers.
    unfold known_of. intros c (peer & Hin & Hc)%list_elem_of_omap.
    eapply known_candidate_stored; [| exact Hc]. apply elem_of_elements. by rewrite <- Ho.
  - apply (server_spawn _ _ (system_init _)); [by split | apply finished_add_known_peers].
Qed.

(** Nobody of a server sends a request. *)
Lemma server_no_request me s r id tag : server me s -> r ∈ s_tasks s -> Request id tag ∉ sent (t_hist r).
Proof.
  intros [Ht _] Hr. eapply Forall_forall in Ht; [| exact Hr]. destruct Ht as [[-> _]|[conn Hs]]; [by intros ?%elem_of_nil |].
  destruct (session_runs _ _ _ Hs) as (t' & o & Hrun). intros Hin. eapply accept_no_request; [exact Hrun |].
  rewrite sent_app. apply elem_of_app. by left.
Qed.

(** C2.  From the disk to the connections.  A node that [Node::init] has started connects only with peers of its
    configuration whose secret is in its secret store, and only as the host: already while [Node::init] makes
    them known, and then whatever calls the application
    makes to the core, whatever the network does and however the tasks interleave, no task has sent a request,
    and whoever is counted as connected, announced as connected or has a running handler is a known peer of the
    configuration for which some task has completed an acceptance, under a code of the authenticator made of
    the stored secret. *)
Theorem started_node_trusts_stored_secrets h dir w n rest w' cs p :
  (forall l, host_peer_order h l ≡ₚ elements l) -> Node_init h dir w = Val (Ok (n, rest), w') ->
  program_run (mgr_id (node_p2p n)) cs (started n rest) = Some p ->
  (forall r id tag, r ∈ s_tasks (pr_sys p) -> Request id tag ∉ sent (t_hist r)) /\
  forall id, id ∈ connected_peers (s_mgr (pr_sys p)) \/
    (exists q, peer_id q = id /\ PeerConnected q ∈ ch_queue (app_channel (s_mgr (pr_sys p)))) \/
    (exists conn, (id, conn) ∈ s_handlers (pr_sys p)) ->
    exists peer pwd auth, peer ∈ nc_known_peers (node_conf n) /\ pm_id peer = id /\
      get_totp id w' = Val (Ok pwd, w') /\ PairingAuthenticator_new (as_bytes pwd) = Ok auth /\
      exists r conn c now code before after,
        r ∈ s_tasks (pr_sys p) /\ pc_id c = id /\ pc_auth c = auth /\ PairingAuthenticator_generate auth now = Ok code /\
        t_hist r = before ++ accept_trace (mgr_id (node_p2p n)) conn id c now code ++ after.
Proof.
  intros Ho Hi Hr.
  assert (Hp : program_inv (mgr_id (node_p2p n)) (stored (node_conf n) w') p).
  { eapply program_inv_run; [| exact Hr]. by eapply program_inv_started. }
  destruct Hp as [Ha Hs]. split; [intros r id tag Hin; exact (server_no_request _ _ _ _ _ Hs Hin) |]. intros id Hid.
  destruct (inv_authenticates _ _ _ id Ha) as (r & conn & c & now & code & before & after & H1 & H2 & H3 & H4 & H5).
  { unfold claimed. tauto. }
  destruct H3 as (peer & pwd & P1 & P2 & P3 & P4). exists peer, pwd, (pc_auth c). split_and!; [done.. |].
  exists r, conn, c, now, code, before, after. split_and!; [done.. |]. destruct H5 as [?|E]; [done |].
  exfalso. eapply server_no_request; [exact Hs | exact H1 |]. rewrite E, !sent_app. apply elem_of_app. right.
  apply elem_of_app. left. by left.
Qed.

Lemma program_run_then me cs cs' : forall p p1, program_run me cs p = Some p1 ->
  program_run me (cs ++ cs') p = program_run me cs' p1.
Proof.
  induction cs as [|c cs IH]; intros p p1 Hr; cbn in *; [by simplify_eq |].
  destruct (program_exec me c p); cbn in *; [by apply IH | done].
Qed.

(** Steps of the node alone. *)
Lemma program_run_sys me cs : forall k s s', forallb internal cs = true -> sys_run me cs s = Some s' ->
  program_run me (PSys <$> cs) (mkProgram k s) = Some (mkProgram k s').
Proof.
  induction cs as [|c cs IH]; intros k s s' Hi Hr; cbn in *; [by simplify_eq |].
  apply andb_true_iff in Hi as [-> Hi]. destruct (sys_exec me c s) as [s1|]; cbn in Hr |- *; [| done]. by apply IH.
Qed.

(** An acceptance while [init] adds the peer: the loop accepts the connection first. *)
Lemma acceptance_runs metadata me peer a now code (conn : Z) (addr : SocketAddr) :
  PairingAuthenticator_generate a now = Ok code ->
  exists s r, sys_run me ([CLoopEvent (EvStream (Ok (conn, addr))); CLoop; CTask 0 AnsNone; CLoopEnd] ++
      accept_commands 1 (pm_id peer) (hmac_sign (as_bytes code) (PeerId_bytes (pm_id peer))) now ++
      [CTask 1 AnsNone; CTask 1 AnsNone; CTask 1 AnsNone])
      (spawn_task (add_known_peers [PeerCandidate_new peer a]) (system_init metadata)) = Some s /\
    pm_id peer ∈ connected_peers (s_mgr s) /\ s_tasks s !! O = Some (mkTrec r (TRet tt)).
Proof.
  intros Hg. unfold accept_commands.
  eexists _, _. split; [repeat (sys_go; try rewrite lookup_insert_eq); reflexivity |]. cbn. split; [set_solver | reflexivity].
Qed.

End Startup.

(** ** Witness *)

Module StartupWitnesses.
Import Sample.
Import CoreSample(identity, toy_rcgen, quiet).
Import NodeWitnesses(quiet_watch, lan_ip, host, host_first_ip).
#[local] Instance profile : Profile := false.
#[local] Existing Instance quiet_watch.

(** A core whose one configuration file knows the phone. *)
Definition config_file : RString := ascii "#" eq_refl.
#[local] Instance paired_core : CoreLib := {|
  JsonError := unit;
  Identity_to_json := fun i => Err tt;
  Identity_from_json := fun s => if decide (s = IDENTITY) then Ok identity else Err tt;
  NodeConfig_to_json := fun c => Err tt;
  NodeConfig_from_json := fun d => if decide (d = as_bytes config_file) then Ok (pm_name laptop, {[phone]}) else Err tt;
  core_rcgen := toy_rcgen;
  gethostname := None;
  MAIN_SEPARATOR := x2f
|}.
#[local] Instance paired_core_laws : CoreLaws paired_core.
Proof. by split. Qed.

Definition secret : RString := ascii "a shared secret of two" eq_refl.

(** The disk: the configuration, and in the secret store an identity and the secret of the phone. *)
Definition disk : World :=
  mkWorld {[config_path (NodeConfigStore_from (pm_name phone)) := as_bytes config_file]}
    (<[as_bytes IDENTITY := IDENTITY]> {[as_bytes (concat_str (PeerId_inner id_one) TOTP_AUTH) := secret]})
    quiet quiet quiet quiet quiet quiet 0.

(** The configuration and the candidates it gives. *)
Definition disk_conf : NodeConfig := mkNodeConfig (pm_name laptop) (PeerId_from_cert (certificate identity)) {[phone]}.

Lemma disk_from_disk : from_disk (NodeConfigStore_from (pm_name phone)) disk =
  Val (Ok (mkNodeConfig (pm_name laptop) PeerId_default {[phone]}), disk).
Proof.
  unfold from_disk, mbind, io_bind, File_read. cbn [file_open_error disk quiet files]. rewrite lookup_singleton_eq.
  unfold from_result. cbn [NodeConfig_from_json paired_core]. by rewrite decide_True.
Qed.

Lemma disk_identity : get_identity disk = Val (Ok identity, disk).
Proof.
  unfold get_identity, mbind, io_bind, Entry_new, get_password, lookup_password.
  cbn [entry_error get_error passwords disk quiet]. rewrite lookup_insert_eq. unfold from_result.
  cbn [Identity_from_json paired_core]. by rewrite decide_True.
Qed.

Lemma disk_conf_read : NodeConfigStore_get (NodeConfigStore_from (pm_name phone)) disk = Val (Ok disk_conf, disk).
Proof. by rewrite (get_from_disk _ _ _ disk_from_disk), (io_bind_run _ _ _ _ _ disk_identity). Qed.

Lemma disk_totp : get_totp (pm_id phone) disk = Val (Ok secret, disk).
Proof.
  unfold get_totp, mbind, io_bind, Entry_new, get_password, lookup_password.
  cbn [entry_error get_error passwords disk quiet]. rewrite lookup_insert_ne by (vm_compute; discriminate).
  by rewrite lookup_singleton_eq.
Qed.

Lemma disk_known : known_of host disk_conf disk = [phone_candidate].
Proof.
  unfold known_of. cbn [host host_peer_order nc_known_peers disk_conf]. rewrite elements_singleton. cbn [omap list_omap].
  unfold known_candidate. by rewrite disk_totp.
Qed.

Lemma disk_starts : exists n metadata, Node_init host (pm_name phone) disk = Val (Ok (n, add_known_peers [phone_candidate]), disk) /\
  node_p2p n = manager_init metadata /\ node_query n = channel_unbounded.
Proof.
  unfold Node_init. rewrite disk_conf_read.
  unfold LanManager_new, mbind, result_bind. cbn [host_interfaces host mret io_ret result_ret].
  cbn [IfWatcher_iter quiet_watch lan]. rewrite host_first_ip. cbn -[to_known nc_known_peers disk_conf]. rewrite to_known_run.
  pose proof disk_known as Hk. unfold known_of in Hk. cbn -[nc_known_peers disk_conf disk add_known_peers] in Hk |- *.
  rewrite Hk. eexists _, (mkPeerMetadata (nc_name disk_conf) WindowsLaptop (nc_id disk_conf) (V4 lan_ip 50001)).
  split; [reflexivity |]. split; reflexivity.
Qed.

Definition phone_connects : list command :=
  [CLoopEvent (EvStream (Ok (7, pm_addr phone))); CLoop; CTask 0 AnsNone; CLoopEnd] ++
  accept_commands 1 (pm_id phone) (hmac_sign (as_bytes (code auth 30)) (PeerId_bytes (pm_id phone))) 30 ++
  [CTask 1 AnsNone; CTask 1 AnsNone; CTask 1 AnsNone].

(** The phone connects while the node starts; a query makes the core panic; the phone stays connected. *)
Definition life : list pcommand := (PSys <$> phone_connects) ++ [PCore (Ask (Query GetConf)); PCore (Serve NQuery)].

(** A query ends the core. *)
Lemma core_panics me n s : node_query n = channel_unbounded -> init_done (mkProgram (core_init n) s) = true ->
  exists p, program_run me [PCore (Ask (Query GetConf)); PCore (Serve NQuery)] (mkProgram (core_init n) s) = Some p /\
    s_mgr (pr_sys p) = s_mgr (drop_p2p_events s) /\ k_running (pr_core p) = false.
Proof.
  destruct n as [x1 x2 x3 x4 x5 x6 x7 x8]. cbn [node_query]. intros -> Hd. unfold init_done in Hd. cbn [pr_sys] in Hd.
  eexists. split; [| split].
  - cbn -[lookup]. unfold init_done. cbn -[lookup]. rewrite Hd. cbn -[lookup]. rewrite Hd. cbn -[lookup]. reflexivity.
  - reflexivity.
  - reflexivity.
Qed.

Lemma life_run n metadata : node_p2p n = manager_init metadata ->
  node_query n = channel_unbounded ->
  exists p, program_run (mgr_id (node_p2p n)) life (started n (add_known_peers [phone_candidate])) = Some p /\
    pm_id phone ∈ connected_peers (s_mgr (pr_sys p)) /\ k_running (pr_core p) = false.
Proof.
  intros Ep Hq.
  destruct (acceptance_runs metadata (mgr_id (node_p2p n)) phone auth 30 (code auth 30) 7 (pm_addr phone)) as (s & r & Hr & Hin & Hd);
    [by apply code_generated |].
  destruct (core_panics (mgr_id (node_p2p n)) n s Hq) as (p & Hp & Em & Hstop).
  { unfold init_done. cbn [pr_sys]. by rewrite Hd. }
  exists p. split; [| split; [by rewrite Em | exact Hstop]].
  unfold life, started, node_system. rewrite Ep at 2.
  pose proof (program_run_sys (mgr_id (node_p2p n)) phone_connects (core_init n) _ _ eq_refl Hr) as E.
  change (add_known_peers [phone_candidate]) with (add_known_peers [PeerCandidate_new phone auth]).
  exact (eq_trans (program_run_then _ _ _ _ _ E) Hp).
Qed.

Lemma started_node_trusts_stored_secrets_witness : exists n rest p, Node_init host (pm_name phone) disk = Val (Ok (n, rest), disk) /\
  program_run (mgr_id (node_p2p n)) life (started n rest) = Some p /\ pm_id phone ∈ connected_peers (s_mgr (pr_sys p)) /\
  k_running (pr_core p) = false /\
  exists peer pwd auth, peer ∈ nc_known_peers (node_conf n) /\ pm_id peer = pm_id phone /\
    get_totp (pm_id phone) disk = Val (Ok pwd, disk) /\ PairingAuthenticator_new (as_bytes pwd) = Ok auth.
Proof.
  destruct disk_starts as (n & metadata & Hi & Ep & Hq).
  destruct (life_run n metadata Ep Hq) as (p & Hr & Hin & Hstop).
  destruct (started_node_trusts_stored_secrets host (pm_name phone) disk n _ disk _ p
    (fun l => Permutation_refl (elements l)) Hi Hr) as [_ H].
  destruct (H (pm_id phone) (or_introl Hin)) as (peer & pwd & a & H1 & H2 & H3 & H4 & _).
  exists n, (add_known_peers [phone_candidate]), p. split; [exact Hi |]. split; [exact Hr |]. split; [exact Hin |]. split; [exact Hstop |].
  exists peer, pwd, a. exact (conj H1 (conj H2 (conj H3 H4))).
Defined.

End StartupWitnesses.
